(** * SIMON-128 / SPECK-128 SIMD kernels (speck128_simd.cpp, simon128_simd.cpp)

    A shallow embedding of the SSSE3 and NEON kernels of Crypto++.

    - A 128-bit vector register is a pair of 64-bit lanes; an unsigned
      64-bit lane is a [Z] in [0, 2^64) and every wrap-around of the C++ code
      is written out.  The byte view of a register is the little-endian one.
    - [unsigned int] is 32 bits wide and [size_t] 64 bits wide.
    - Round keys live in an array of [word64]; a read outside the array is a
      [Fault].  The kernels check no bound and C++ leaves such a read open,
      so a [Fault] says that the run left the array, not what the program
      does next.
    - Loops are run with fuel, one unit per iteration; a loop that needs more
      ends in [Timeout].
    - The kernels keep their names; the body of each loop and the
      [if (rounds & 1)] blocks of SIMON-128 are definitions of their own
      ([_round], [_round2], [_tail], [_head]).  Blocks passed by reference
      are returned.
    - The non-XOP branches of the SSSE3 rotations are the ones the kernels
      are embedded with; the [__XOP__] branches are in module [XOP].  The
      Altivec kernels rest on ppc_simd.h and are left out. *)

From Stdlib Require Import ZArith List Lia Bool FunctionalExtensionality.
Import ListNotations.
Local Open Scope Z_scope.

(** ** Machine integers *)

Definition W64 : Z := 2 ^ 64.
Definition W32 : Z := 2 ^ 32.

(** [size_t] arithmetic (64-bit targets) and [unsigned int] arithmetic. *)
Definition size_t (z : Z) : Z := z mod W64.
Definition uint (z : Z) : Z := z mod W32.

(** [static_cast<int>(u)] of an [unsigned int] value: two's complement. *)
Definition to_int (u : Z) : Z := if u <? 2 ^ 31 then u else u - W32.

Definition in64 (x : Z) : Prop := 0 <= x < W64.

(** ** 128-bit vectors: [__m128i] / [uint64x2_t] *)

Record vec : Type := mkvec { lo : Z; hi : Z }.

Definition wf_vec (v : vec) : Prop := in64 (lo v) /\ in64 (hi v).

Definition lanewise (f : Z -> Z) (v : vec) : vec := mkvec (f (lo v)) (f (hi v)).
Definition lanewise2 (f : Z -> Z -> Z) (a b : vec) : vec :=
  mkvec (f (lo a) (lo b)) (f (hi a) (hi b)).

(** *** The byte view of a vector (little-endian hosts). *)

Definition byte_of (x : Z) (i : Z) : Z := (x / 2 ^ (8 * i)) mod 256.

Definition bytes_of_lane (x : Z) : list Z :=
  map (byte_of x) [0; 1; 2; 3; 4; 5; 6; 7].

Fixpoint lane_of_bytes (l : list Z) : Z :=
  match l with
  | [] => 0
  | b :: r => b + 256 * lane_of_bytes r
  end.

(** [vreinterpretq_u8_u64] and the implicit byte view of [__m128i]. *)
Definition to_bytes (v : vec) : list Z := bytes_of_lane (lo v) ++ bytes_of_lane (hi v).

(** [vreinterpretq_u64_u8]. *)
Definition of_bytes (l : list Z) : vec :=
  mkvec (lane_of_bytes (firstn 8 l)) (lane_of_bytes (firstn 8 (skipn 8 l))).

(** ** Lane primitives shared by both instruction sets *)

Definition shl64 (R : Z) (x : Z) : Z := (Z.shiftl x R) mod W64.
Definition shr64 (R : Z) (x : Z) : Z := Z.shiftr x R.
Definition add64 (a b : Z) : Z := (a + b) mod W64.
Definition sub64 (a b : Z) : Z := (a - b) mod W64.

(** ** Outcomes, round-key reads and loops *)

Inductive outcome (A : Type) : Type :=
| Done (a : A)
| Fault
| Timeout.
Arguments Done {A} a.
Arguments Fault {A}.
Arguments Timeout {A}.

Definition bind {A B : Type} (c : outcome A) (k : A -> outcome B) : outcome B :=
  match c with
  | Done a => k a
  | Fault => Fault
  | Timeout => Timeout
  end.

Notation "x <- c ;; k" := (bind c (fun x => k))
  (at level 61, c at next level, right associativity).
Notation "' p <- c ;; k" := (bind c (fun x => let 'p := x in k))
  (at level 61, p pattern, c at next level, right associativity).

(** [subkeys[idx]] for a [const word64 *subkeys] pointing at the first
    element of the round-key array.  The C++ code checks no bound: [Fault]
    records that a word was asked for at an index outside the array, where
    the program may as well read what lies behind the array and go on.  What
    is proved of a [Done] holds of runs that stay inside the array; a
    [Fault] is no statement that the program stops. *)
Definition read64 (subkeys : list Z) (idx : Z) : outcome Z :=
  if idx <? 0 then Fault
  else match nth_error subkeys (Z.to_nat idx) with
       | Some k => Done k
       | None => Fault
       end.

(** [for (size_t i = i0; i < bound; i += step) body] *)
Fixpoint for_up {S : Type} (fuel : nat) (i bound step : Z)
    (body : Z -> S -> outcome S) (s : S) : outcome S :=
  if i <? bound then
    match fuel with
    | O => Timeout
    | Datatypes.S fuel' =>
        s' <- body i s ;; for_up fuel' (size_t (i + step)) bound step body s'
    end
  else Done s.

(** [for (int i = i0; i >= 0; i -= step) body]; [i - step] cannot overflow
    because the body only runs for [i >= 0]. *)
Fixpoint for_down {S : Type} (fuel : nat) (i step : Z)
    (body : Z -> S -> outcome S) (s : S) : outcome S :=
  if 0 <=? i then
    match fuel with
    | O => Timeout
    | Datatypes.S fuel' =>
        s' <- body i s ;; for_down fuel' (i - step) step body s'
    end
  else Done s.

(** The pre-splatted layout of a schedule: every round key twice. *)
Definition splat (K : list Z) : list Z := flat_map (fun k => [k; k]) K.

(** ** SSSE3 kernels *)

Module SSSE3.

Definition _mm_unpackhi_epi64 (a b : vec) : vec := mkvec (hi a) (hi b).
Definition _mm_unpacklo_epi64 (a b : vec) : vec := mkvec (lo a) (lo b).
Definition _mm_slli_epi64 (v : vec) (R : Z) : vec := lanewise (shl64 R) v.
Definition _mm_srli_epi64 (v : vec) (R : Z) : vec := lanewise (shr64 R) v.
Definition _mm_or_si128 : vec -> vec -> vec := lanewise2 Z.lor.
Definition _mm_xor_si128 : vec -> vec -> vec := lanewise2 Z.lxor.
Definition _mm_and_si128 : vec -> vec -> vec := lanewise2 Z.land.
Definition _mm_add_epi64 : vec -> vec -> vec := lanewise2 add64.
Definition _mm_sub_epi64 : vec -> vec -> vec := lanewise2 sub64.

(** [_mm_set_epi8(e15, ..., e0)]: the first argument is byte 15. *)
Definition _mm_set_epi8 (e15 e14 e13 e12 e11 e10 e9 e8 e7 e6 e5 e4 e3 e2 e1 e0 : Z)
  : list Z :=
  [e0; e1; e2; e3; e4; e5; e6; e7; e8; e9; e10; e11; e12; e13; e14; e15].

(** [pshufb]: a selector with bit 7 set yields zero, otherwise its low four
    bits index the source bytes. *)
Definition _mm_shuffle_epi8 (v : vec) (mask : list Z) : vec :=
  let b := to_bytes v in
  of_bytes (map (fun m => if Z.testbit m 7 then 0
                          else nth (Z.to_nat (Z.land m 15)) b 0) mask).

(** [_mm_load_si128(CONST_M128_CAST(subkeys + idx))]: two adjacent words.
    The instruction also wants its address to be a multiple of 16.  An array
    of words carries no address, so the alignment of the round keys is left
    to the caller (the pre-splatted schedule is allocated aligned) and is not
    checked here. *)
Definition _mm_load_si128 (subkeys : list Z) (idx : Z) : outcome vec :=
  l <- read64 subkeys idx ;;
  h <- read64 subkeys (idx + 1) ;;
  Done (mkvec l h).

(** [_mm_castpd_si128(_mm_loaddup_pd(CONST_DOUBLE_CAST(subkeys + idx)))] *)
Definition _mm_loaddup_pd (subkeys : list Z) (idx : Z) : outcome vec :=
  k <- read64 subkeys idx ;; Done (mkvec k k).

(** The generic template (non-XOP branch). *)
Definition RotateLeft64_generic (R : Z) (val : vec) : vec :=
  _mm_or_si128 (_mm_slli_epi64 val R) (_mm_srli_epi64 val (64 - R)).

Definition RotateRight64_generic (R : Z) (val : vec) : vec :=
  _mm_or_si128 (_mm_slli_epi64 val (64 - R)) (_mm_srli_epi64 val R).

(** The [<8>] specializations (non-XOP branch). *)
Definition RotateLeft64_8 (val : vec) : vec :=
  let mask := _mm_set_epi8 14 13 12 11 10 9 8 15 6 5 4 3 2 1 0 7 in
  _mm_shuffle_epi8 val mask.

Definition RotateRight64_8 (val : vec) : vec :=
  let mask := _mm_set_epi8 8 15 14 13 12 11 10 9 0 7 6 5 4 3 2 1 in
  _mm_shuffle_epi8 val mask.

(** Template instantiation: [R = 8] selects the specialization. *)
Definition RotateLeft64 (R : Z) (val : vec) : vec :=
  if R =? 8 then RotateLeft64_8 val else RotateLeft64_generic R val.

Definition RotateRight64 (R : Z) (val : vec) : vec :=
  if R =? 8 then RotateRight64_8 val else RotateRight64_generic R val.

Definition Swap128 (ab : vec * vec) : vec * vec := (snd ab, fst ab).

(** Kernel entry, [[A1 A2][B1 B2] => [A1 B1][A2 B2]], and kernel exit. *)
Definition transpose (blocks : vec * vec) : vec * vec :=
  let '(block0, block1) := blocks in
  (_mm_unpackhi_epi64 block0 block1, _mm_unpacklo_epi64 block0 block1).

Definition detranspose (s : vec * vec) : vec * vec :=
  let '(x1, y1) := s in
  (_mm_unpacklo_epi64 y1 x1, _mm_unpackhi_epi64 y1 x1).

(** *** SPECK-128 *)

(** Body of the loop of [SPECK128_Enc_Block]. *)
Definition SPECK128_Enc_round (subkeys : list Z) (i : Z) (s : vec * vec)
  : outcome (vec * vec) :=
  let '(x1, y1) := s in
  rk <- _mm_load_si128 subkeys (size_t (i * 2)) ;;
  let x1 := RotateRight64 8 x1 in
  let x1 := _mm_add_epi64 x1 y1 in
  let x1 := _mm_xor_si128 x1 rk in
  let y1 := RotateLeft64 3 y1 in
  let y1 := _mm_xor_si128 y1 x1 in
  Done (x1, y1).

Definition SPECK128_Enc_Block (fuel : nat) (subkeys : list Z) (rounds : Z)
    (blocks : vec * vec) : outcome (vec * vec) :=
  let '(block0, block1) := blocks in
  let x1 := _mm_unpackhi_epi64 block0 block1 in
  let y1 := _mm_unpacklo_epi64 block0 block1 in
  '(x1, y1) <- for_up fuel 0 (size_t rounds) 1 (SPECK128_Enc_round subkeys) (x1, y1) ;;
  Done (_mm_unpacklo_epi64 y1 x1, _mm_unpackhi_epi64 y1 x1).

Definition SPECK128_Enc_6_round (subkeys : list Z) (i : Z)
    (s : vec * vec * vec * vec * vec * vec)
  : outcome (vec * vec * vec * vec * vec * vec) :=
  let '(x1, y1, x2, y2, x3, y3) := s in
  rk <- _mm_load_si128 subkeys (size_t (i * 2)) ;;
  let x1 := RotateRight64 8 x1 in
  let x2 := RotateRight64 8 x2 in
  let x3 := RotateRight64 8 x3 in
  let x1 := _mm_add_epi64 x1 y1 in
  let x2 := _mm_add_epi64 x2 y2 in
  let x3 := _mm_add_epi64 x3 y3 in
  let x1 := _mm_xor_si128 x1 rk in
  let x2 := _mm_xor_si128 x2 rk in
  let x3 := _mm_xor_si128 x3 rk in
  let y1 := RotateLeft64 3 y1 in
  let y2 := RotateLeft64 3 y2 in
  let y3 := RotateLeft64 3 y3 in
  let y1 := _mm_xor_si128 y1 x1 in
  let y2 := _mm_xor_si128 y2 x2 in
  let y3 := _mm_xor_si128 y3 x3 in
  Done (x1, y1, x2, y2, x3, y3).

Definition SPECK128_Enc_6_Blocks (fuel : nat) (subkeys : list Z) (rounds : Z)
    (blocks : vec * vec * vec * vec * vec * vec)
  : outcome (vec * vec * vec * vec * vec * vec) :=
  let '(block0, block1, block2, block3, block4, block5) := blocks in
  let x1 := _mm_unpackhi_epi64 block0 block1 in
  let y1 := _mm_unpacklo_epi64 block0 block1 in
  let x2 := _mm_unpackhi_epi64 block2 block3 in
  let y2 := _mm_unpacklo_epi64 block2 block3 in
  let x3 := _mm_unpackhi_epi64 block4 block5 in
  let y3 := _mm_unpacklo_epi64 block4 block5 in
  '(x1, y1, x2, y2, x3, y3) <-
    for_up fuel 0 (size_t rounds) 1 (SPECK128_Enc_6_round subkeys)
      (x1, y1, x2, y2, x3, y3) ;;
  Done (_mm_unpacklo_epi64 y1 x1, _mm_unpackhi_epi64 y1 x1,
        _mm_unpacklo_epi64 y2 x2, _mm_unpackhi_epi64 y2 x2,
        _mm_unpacklo_epi64 y3 x3, _mm_unpackhi_epi64 y3 x3).

(** Body of the loop of [SPECK128_Dec_Block]. *)
Definition SPECK128_Dec_round (subkeys : list Z) (i : Z) (s : vec * vec)
  : outcome (vec * vec) :=
  let '(x1, y1) := s in
  rk <- _mm_loaddup_pd subkeys i ;;
  let y1 := _mm_xor_si128 y1 x1 in
  let y1 := RotateRight64 3 y1 in
  let x1 := _mm_xor_si128 x1 rk in
  let x1 := _mm_sub_epi64 x1 y1 in
  let x1 := RotateLeft64 8 x1 in
  Done (x1, y1).

Definition SPECK128_Dec_Block (fuel : nat) (subkeys : list Z) (rounds : Z)
    (blocks : vec * vec) : outcome (vec * vec) :=
  let '(block0, block1) := blocks in
  let x1 := _mm_unpackhi_epi64 block0 block1 in
  let y1 := _mm_unpacklo_epi64 block0 block1 in
  '(x1, y1) <- for_down fuel (to_int (uint (rounds - 1))) 1
                 (SPECK128_Dec_round subkeys) (x1, y1) ;;
  Done (_mm_unpacklo_epi64 y1 x1, _mm_unpackhi_epi64 y1 x1).

Definition SPECK128_Dec_6_round (subkeys : list Z) (i : Z)
    (s : vec * vec * vec * vec * vec * vec)
  : outcome (vec * vec * vec * vec * vec * vec) :=
  let '(x1, y1, x2, y2, x3, y3) := s in
  rk <- _mm_loaddup_pd subkeys i ;;
  let y1 := _mm_xor_si128 y1 x1 in
  let y2 := _mm_xor_si128 y2 x2 in
  let y3 := _mm_xor_si128 y3 x3 in
  let y1 := RotateRight64 3 y1 in
  let y2 := RotateRight64 3 y2 in
  let y3 := RotateRight64 3 y3 in
  let x1 := _mm_xor_si128 x1 rk in
  let x2 := _mm_xor_si128 x2 rk in
  let x3 := _mm_xor_si128 x3 rk in
  let x1 := _mm_sub_epi64 x1 y1 in
  let x2 := _mm_sub_epi64 x2 y2 in
  let x3 := _mm_sub_epi64 x3 y3 in
  let x1 := RotateLeft64 8 x1 in
  let x2 := RotateLeft64 8 x2 in
  let x3 := RotateLeft64 8 x3 in
  Done (x1, y1, x2, y2, x3, y3).

Definition SPECK128_Dec_6_Blocks (fuel : nat) (subkeys : list Z) (rounds : Z)
    (blocks : vec * vec * vec * vec * vec * vec)
  : outcome (vec * vec * vec * vec * vec * vec) :=
  let '(block0, block1, block2, block3, block4, block5) := blocks in
  let x1 := _mm_unpackhi_epi64 block0 block1 in
  let y1 := _mm_unpacklo_epi64 block0 block1 in
  let x2 := _mm_unpackhi_epi64 block2 block3 in
  let y2 := _mm_unpacklo_epi64 block2 block3 in
  let x3 := _mm_unpackhi_epi64 block4 block5 in
  let y3 := _mm_unpacklo_epi64 block4 block5 in
  '(x1, y1, x2, y2, x3, y3) <-
    for_down fuel (to_int (uint (rounds - 1))) 1 (SPECK128_Dec_6_round subkeys)
      (x1, y1, x2, y2, x3, y3) ;;
  Done (_mm_unpacklo_epi64 y1 x1, _mm_unpackhi_epi64 y1 x1,
        _mm_unpacklo_epi64 y2 x2, _mm_unpackhi_epi64 y2 x2,
        _mm_unpacklo_epi64 y3 x3, _mm_unpackhi_epi64 y3 x3).

(** *** SIMON-128 *)

Definition SIMON128_f (v : vec) : vec :=
  _mm_xor_si128 (RotateLeft64 2 v)
    (_mm_and_si128 (RotateLeft64 1 v) (RotateLeft64 8 v)).

(** Body of the paired loop of [SIMON128_Enc_Block]. *)
Definition SIMON128_Enc_round2 (subkeys : list Z) (i : Z) (s : vec * vec)
  : outcome (vec * vec) :=
  let '(x1, y1) := s in
  rk1 <- _mm_load_si128 subkeys (size_t (i * 2)) ;;
  let y1 := _mm_xor_si128 (_mm_xor_si128 y1 (SIMON128_f x1)) rk1 in
  rk2 <- _mm_load_si128 subkeys (size_t (size_t (i + 1) * 2)) ;;
  let x1 := _mm_xor_si128 (_mm_xor_si128 x1 (SIMON128_f y1)) rk2 in
  Done (x1, y1).

(** The [if (rounds & 1)] tail of [SIMON128_Enc_Block]. *)
Definition SIMON128_Enc_tail (subkeys : list Z) (rounds : Z) (s : vec * vec)
  : outcome (vec * vec) :=
  let '(x1, y1) := s in
  if Z.land rounds 1 =? 0 then Done (x1, y1)
  else
    rk <- _mm_load_si128 subkeys (uint (uint (rounds - 1) * 2)) ;;
    let y1 := _mm_xor_si128 (_mm_xor_si128 y1 (SIMON128_f x1)) rk in
    Done (Swap128 (x1, y1)).

(** [static_cast<size_t>(rounds & ~1) - 1] *)
Definition SIMON128_Enc_bound (rounds : Z) : Z :=
  size_t (Z.land rounds (W32 - 2) - 1).

Definition SIMON128_Enc_Block (fuel : nat) (subkeys : list Z) (rounds : Z)
    (blocks : vec * vec) : outcome (vec * vec) :=
  let '(block0, block1) := blocks in
  let x1 := _mm_unpackhi_epi64 block0 block1 in
  let y1 := _mm_unpacklo_epi64 block0 block1 in
  s <- for_up fuel 0 (SIMON128_Enc_bound rounds) 2
         (SIMON128_Enc_round2 subkeys) (x1, y1) ;;
  '(x1, y1) <- SIMON128_Enc_tail subkeys rounds s ;;
  Done (_mm_unpacklo_epi64 y1 x1, _mm_unpackhi_epi64 y1 x1).

Definition SIMON128_Enc_6_round2 (subkeys : list Z) (i : Z)
    (s : vec * vec * vec * vec * vec * vec)
  : outcome (vec * vec * vec * vec * vec * vec) :=
  let '(x1, y1, x2, y2, x3, y3) := s in
  rk1 <- _mm_load_si128 subkeys (size_t (i * 2)) ;;
  let y1 := _mm_xor_si128 (_mm_xor_si128 y1 (SIMON128_f x1)) rk1 in
  let y2 := _mm_xor_si128 (_mm_xor_si128 y2 (SIMON128_f x2)) rk1 in
  let y3 := _mm_xor_si128 (_mm_xor_si128 y3 (SIMON128_f x3)) rk1 in
  rk2 <- _mm_load_si128 subkeys (size_t (size_t (i + 1) * 2)) ;;
  let x1 := _mm_xor_si128 (_mm_xor_si128 x1 (SIMON128_f y1)) rk2 in
  let x2 := _mm_xor_si128 (_mm_xor_si128 x2 (SIMON128_f y2)) rk2 in
  let x3 := _mm_xor_si128 (_mm_xor_si128 x3 (SIMON128_f y3)) rk2 in
  Done (x1, y1, x2, y2, x3, y3).

Definition SIMON128_Enc_6_tail (subkeys : list Z) (rounds : Z)
    (s : vec * vec * vec * vec * vec * vec)
  : outcome (vec * vec * vec * vec * vec * vec) :=
  let '(x1, y1, x2, y2, x3, y3) := s in
  if Z.land rounds 1 =? 0 then Done (x1, y1, x2, y2, x3, y3)
  else
    rk <- _mm_load_si128 subkeys (uint (uint (rounds - 1) * 2)) ;;
    let y1 := _mm_xor_si128 (_mm_xor_si128 y1 (SIMON128_f x1)) rk in
    let y2 := _mm_xor_si128 (_mm_xor_si128 y2 (SIMON128_f x2)) rk in
    let y3 := _mm_xor_si128 (_mm_xor_si128 y3 (SIMON128_f x3)) rk in
    let '(x1, y1) := Swap128 (x1, y1) in
    let '(x2, y2) := Swap128 (x2, y2) in
    let '(x3, y3) := Swap128 (x3, y3) in
    Done (x1, y1, x2, y2, x3, y3).

Definition SIMON128_Enc_6_Blocks (fuel : nat) (subkeys : list Z) (rounds : Z)
    (blocks : vec * vec * vec * vec * vec * vec)
  : outcome (vec * vec * vec * vec * vec * vec) :=
  let '(block0, block1, block2, block3, block4, block5) := blocks in
  let x1 := _mm_unpackhi_epi64 block0 block1 in
  let y1 := _mm_unpacklo_epi64 block0 block1 in
  let x2 := _mm_unpackhi_epi64 block2 block3 in
  let y2 := _mm_unpacklo_epi64 block2 block3 in
  let x3 := _mm_unpackhi_epi64 block4 block5 in
  let y3 := _mm_unpacklo_epi64 block4 block5 in
  s <- for_up fuel 0 (SIMON128_Enc_bound rounds) 2
         (SIMON128_Enc_6_round2 subkeys) (x1, y1, x2, y2, x3, y3) ;;
  '(x1, y1, x2, y2, x3, y3) <- SIMON128_Enc_6_tail subkeys rounds s ;;
  Done (_mm_unpacklo_epi64 y1 x1, _mm_unpackhi_epi64 y1 x1,
        _mm_unpacklo_epi64 y2 x2, _mm_unpackhi_epi64 y2 x2,
        _mm_unpacklo_epi64 y3 x3, _mm_unpackhi_epi64 y3 x3).

(** The [if (rounds & 1)] head of [SIMON128_Dec_Block]; it also yields the
    decremented [rounds]. *)
Definition SIMON128_Dec_head (subkeys : list Z) (rounds : Z) (s : vec * vec)
  : outcome (Z * (vec * vec)) :=
  let '(x1, y1) := s in
  if Z.land rounds 1 =? 0 then Done (rounds, (x1, y1))
  else
    rk <- _mm_loaddup_pd subkeys (rounds - 1) ;;
    let '(x1, y1) := Swap128 (x1, y1) in
    let y1 := _mm_xor_si128 (_mm_xor_si128 y1 rk) (SIMON128_f x1) in
    Done (uint (rounds - 1), (x1, y1)).

(** Body of the paired loop of [SIMON128_Dec_Block]. *)
Definition SIMON128_Dec_round2 (subkeys : list Z) (i : Z) (s : vec * vec)
  : outcome (vec * vec) :=
  let '(x1, y1) := s in
  rk1 <- _mm_loaddup_pd subkeys (i + 1) ;;
  let x1 := _mm_xor_si128 (_mm_xor_si128 x1 (SIMON128_f y1)) rk1 in
  rk2 <- _mm_loaddup_pd subkeys i ;;
  let y1 := _mm_xor_si128 (_mm_xor_si128 y1 (SIMON128_f x1)) rk2 in
  Done (x1, y1).

Definition SIMON128_Dec_Block (fuel : nat) (subkeys : list Z) (rounds : Z)
    (blocks : vec * vec) : outcome (vec * vec) :=
  let '(block0, block1) := blocks in
  let x1 := _mm_unpackhi_epi64 block0 block1 in
  let y1 := _mm_unpacklo_epi64 block0 block1 in
  '(rounds, s) <- SIMON128_Dec_head subkeys rounds (x1, y1) ;;
  '(x1, y1) <- for_down fuel (to_int (uint (rounds - 2))) 2
                 (SIMON128_Dec_round2 subkeys) s ;;
  Done (_mm_unpacklo_epi64 y1 x1, _mm_unpackhi_epi64 y1 x1).

Definition SIMON128_Dec_6_head (subkeys : list Z) (rounds : Z)
    (s : vec * vec * vec * vec * vec * vec)
  : outcome (Z * (vec * vec * vec * vec * vec * vec)) :=
  let '(x1, y1, x2, y2, x3, y3) := s in
  if Z.land rounds 1 =? 0 then Done (rounds, (x1, y1, x2, y2, x3, y3))
  else
    rk <- _mm_loaddup_pd subkeys (rounds - 1) ;;
    let '(x1, y1) := Swap128 (x1, y1) in
    let '(x2, y2) := Swap128 (x2, y2) in
    let '(x3, y3) := Swap128 (x3, y3) in
    let y1 := _mm_xor_si128 (_mm_xor_si128 y1 rk) (SIMON128_f x1) in
    let y2 := _mm_xor_si128 (_mm_xor_si128 y2 rk) (SIMON128_f x2) in
    let y3 := _mm_xor_si128 (_mm_xor_si128 y3 rk) (SIMON128_f x3) in
    Done (uint (rounds - 1), (x1, y1, x2, y2, x3, y3)).

Definition SIMON128_Dec_6_round2 (subkeys : list Z) (i : Z)
    (s : vec * vec * vec * vec * vec * vec)
  : outcome (vec * vec * vec * vec * vec * vec) :=
  let '(x1, y1, x2, y2, x3, y3) := s in
  rk1 <- _mm_loaddup_pd subkeys (i + 1) ;;
  let x1 := _mm_xor_si128 (_mm_xor_si128 x1 (SIMON128_f y1)) rk1 in
  let x2 := _mm_xor_si128 (_mm_xor_si128 x2 (SIMON128_f y2)) rk1 in
  let x3 := _mm_xor_si128 (_mm_xor_si128 x3 (SIMON128_f y3)) rk1 in
  rk2 <- _mm_loaddup_pd subkeys i ;;
  let y1 := _mm_xor_si128 (_mm_xor_si128 y1 (SIMON128_f x1)) rk2 in
  let y2 := _mm_xor_si128 (_mm_xor_si128 y2 (SIMON128_f x2)) rk2 in
  let y3 := _mm_xor_si128 (_mm_xor_si128 y3 (SIMON128_f x3)) rk2 in
  Done (x1, y1, x2, y2, x3, y3).

Definition SIMON128_Dec_6_Blocks (fuel : nat) (subkeys : list Z) (rounds : Z)
    (blocks : vec * vec * vec * vec * vec * vec)
  : outcome (vec * vec * vec * vec * vec * vec) :=
  let '(block0, block1, block2, block3, block4, block5) := blocks in
  let x1 := _mm_unpackhi_epi64 block0 block1 in
  let y1 := _mm_unpacklo_epi64 block0 block1 in
  let x2 := _mm_unpackhi_epi64 block2 block3 in
  let y2 := _mm_unpacklo_epi64 block2 block3 in
  let x3 := _mm_unpackhi_epi64 block4 block5 in
  let y3 := _mm_unpacklo_epi64 block4 block5 in
  '(rounds, s) <- SIMON128_Dec_6_head subkeys rounds (x1, y1, x2, y2, x3, y3) ;;
  '(x1, y1, x2, y2, x3, y3) <-
    for_down fuel (to_int (uint (rounds - 2))) 2
      (SIMON128_Dec_6_round2 subkeys) s ;;
  Done (_mm_unpacklo_epi64 y1 x1, _mm_unpackhi_epi64 y1 x1,
        _mm_unpacklo_epi64 y2 x2, _mm_unpackhi_epi64 y2 x2,
        _mm_unpacklo_epi64 y3 x3, _mm_unpackhi_epi64 y3 x3).

End SSSE3.

(** ** NEON kernels (AArch32/AArch64 build, with the [<8>] specializations) *)

Module NEON.

Definition vget_high_u64 (v : vec) : Z := hi v.
Definition vget_low_u64 (v : vec) : Z := lo v.
Definition vcombine_u64 (l h : Z) : vec := mkvec l h.
Definition vshlq_n_u64 (v : vec) (R : Z) : vec := lanewise (shl64 R) v.
Definition vshrq_n_u64 (v : vec) (R : Z) : vec := lanewise (shr64 R) v.
Definition vorrq_u64 : vec -> vec -> vec := lanewise2 Z.lor.
Definition veorq_u64 : vec -> vec -> vec := lanewise2 Z.lxor.
Definition vandq_u64 : vec -> vec -> vec := lanewise2 Z.land.
Definition vaddq_u64 : vec -> vec -> vec := lanewise2 add64.
Definition vsubq_u64 : vec -> vec -> vec := lanewise2 sub64.
Definition vreinterpretq_u8_u64 : vec -> list Z := to_bytes.
Definition vreinterpretq_u64_u8 : list Z -> vec := of_bytes.
Definition vld1q_u8 (maskb : list Z) : list Z := maskb.

(** [tbl]: an index outside the 16-byte table yields zero. *)
Definition vqtbl1q_u8 (t : list Z) (idx : list Z) : list Z :=
  map (fun m => if m <? 16 then nth (Z.to_nat m) t 0 else 0) idx.

(** [vld1q_dup_u64(subkeys + idx)] *)
Definition vld1q_dup_u64 (subkeys : list Z) (idx : Z) : outcome vec :=
  k <- read64 subkeys idx ;; Done (mkvec k k).

Definition UnpackHigh64 (a b : vec) : vec :=
  let x := vget_high_u64 a in
  let y := vget_high_u64 b in
  vcombine_u64 x y.

Definition UnpackLow64 (a b : vec) : vec :=
  let x := vget_low_u64 a in
  let y := vget_low_u64 b in
  vcombine_u64 x y.

Definition RotateLeft64_generic (R : Z) (val : vec) : vec :=
  let a := vshlq_n_u64 val R in
  let b := vshrq_n_u64 val (64 - R) in
  vorrq_u64 a b.

Definition RotateRight64_generic (R : Z) (val : vec) : vec :=
  let a := vshlq_n_u64 val (64 - R) in
  let b := vshrq_n_u64 val R in
  vorrq_u64 a b.

Definition RotateLeft64_8 (val : vec) : vec :=
  let maskb := [7; 0; 1; 2; 3; 4; 5; 6; 15; 8; 9; 10; 11; 12; 13; 14] in
  let mask := vld1q_u8 maskb in
  vreinterpretq_u64_u8 (vqtbl1q_u8 (vreinterpretq_u8_u64 val) mask).

Definition RotateRight64_8 (val : vec) : vec :=
  let maskb := [1; 2; 3; 4; 5; 6; 7; 0; 9; 10; 11; 12; 13; 14; 15; 8] in
  let mask := vld1q_u8 maskb in
  vreinterpretq_u64_u8 (vqtbl1q_u8 (vreinterpretq_u8_u64 val) mask).

Definition RotateLeft64 (R : Z) (val : vec) : vec :=
  if R =? 8 then RotateLeft64_8 val else RotateLeft64_generic R val.

Definition RotateRight64 (R : Z) (val : vec) : vec :=
  if R =? 8 then RotateRight64_8 val else RotateRight64_generic R val.

(** [std::swap] on two registers. *)
Definition swap (ab : vec * vec) : vec * vec := (snd ab, fst ab).

(** Kernel entry, [[A1 A2][B1 B2] => [A1 B1][A2 B2]], and kernel exit. *)
Definition transpose (blocks : vec * vec) : vec * vec :=
  let '(block0, block1) := blocks in
  (UnpackHigh64 block0 block1, UnpackLow64 block0 block1).

Definition detranspose (s : vec * vec) : vec * vec :=
  let '(x1, y1) := s in
  (UnpackLow64 y1 x1, UnpackHigh64 y1 x1).

(** *** SPECK-128 *)

(** Body of the loop of [SPECK128_Enc_Block]. *)
Definition SPECK128_Enc_round (subkeys : list Z) (i : Z) (s : vec * vec)
  : outcome (vec * vec) :=
  let '(x1, y1) := s in
  rk <- vld1q_dup_u64 subkeys i ;;
  let x1 := RotateRight64 8 x1 in
  let x1 := vaddq_u64 x1 y1 in
  let x1 := veorq_u64 x1 rk in
  let y1 := RotateLeft64 3 y1 in
  let y1 := veorq_u64 y1 x1 in
  Done (x1, y1).

Definition SPECK128_Enc_Block (fuel : nat) (subkeys : list Z) (rounds : Z)
    (blocks : vec * vec) : outcome (vec * vec) :=
  let '(block0, block1) := blocks in
  let x1 := UnpackHigh64 block0 block1 in
  let y1 := UnpackLow64 block0 block1 in
  '(x1, y1) <- for_up fuel 0 (size_t rounds) 1 (SPECK128_Enc_round subkeys) (x1, y1) ;;
  Done (UnpackLow64 y1 x1, UnpackHigh64 y1 x1).

Definition SPECK128_Enc_6_round (subkeys : list Z) (i : Z)
    (s : vec * vec * vec * vec * vec * vec)
  : outcome (vec * vec * vec * vec * vec * vec) :=
  let '(x1, y1, x2, y2, x3, y3) := s in
  rk <- vld1q_dup_u64 subkeys i ;;
  let x1 := RotateRight64 8 x1 in
  let x2 := RotateRight64 8 x2 in
  let x3 := RotateRight64 8 x3 in
  let x1 := vaddq_u64 x1 y1 in
  let x2 := vaddq_u64 x2 y2 in
  let x3 := vaddq_u64 x3 y3 in
  let x1 := veorq_u64 x1 rk in
  let x2 := veorq_u64 x2 rk in
  let x3 := veorq_u64 x3 rk in
  let y1 := RotateLeft64 3 y1 in
  let y2 := RotateLeft64 3 y2 in
  let y3 := RotateLeft64 3 y3 in
  let y1 := veorq_u64 y1 x1 in
  let y2 := veorq_u64 y2 x2 in
  let y3 := veorq_u64 y3 x3 in
  Done (x1, y1, x2, y2, x3, y3).

Definition SPECK128_Enc_6_Blocks (fuel : nat) (subkeys : list Z) (rounds : Z)
    (blocks : vec * vec * vec * vec * vec * vec)
  : outcome (vec * vec * vec * vec * vec * vec) :=
  let '(block0, block1, block2, block3, block4, block5) := blocks in
  let x1 := UnpackHigh64 block0 block1 in
  let y1 := UnpackLow64 block0 block1 in
  let x2 := UnpackHigh64 block2 block3 in
  let y2 := UnpackLow64 block2 block3 in
  let x3 := UnpackHigh64 block4 block5 in
  let y3 := UnpackLow64 block4 block5 in
  '(x1, y1, x2, y2, x3, y3) <-
    for_up fuel 0 (size_t rounds) 1 (SPECK128_Enc_6_round subkeys)
      (x1, y1, x2, y2, x3, y3) ;;
  Done (UnpackLow64 y1 x1, UnpackHigh64 y1 x1,
        UnpackLow64 y2 x2, UnpackHigh64 y2 x2,
        UnpackLow64 y3 x3, UnpackHigh64 y3 x3).

(** Body of the loop of [SPECK128_Dec_Block]. *)
Definition SPECK128_Dec_round (subkeys : list Z) (i : Z) (s : vec * vec)
  : outcome (vec * vec) :=
  let '(x1, y1) := s in
  rk <- vld1q_dup_u64 subkeys i ;;
  let y1 := veorq_u64 y1 x1 in
  let y1 := RotateRight64 3 y1 in
  let x1 := veorq_u64 x1 rk in
  let x1 := vsubq_u64 x1 y1 in
  let x1 := RotateLeft64 8 x1 in
  Done (x1, y1).

Definition SPECK128_Dec_Block (fuel : nat) (subkeys : list Z) (rounds : Z)
    (blocks : vec * vec) : outcome (vec * vec) :=
  let '(block0, block1) := blocks in
  let x1 := UnpackHigh64 block0 block1 in
  let y1 := UnpackLow64 block0 block1 in
  '(x1, y1) <- for_down fuel (to_int (uint (rounds - 1))) 1
                 (SPECK128_Dec_round subkeys) (x1, y1) ;;
  Done (UnpackLow64 y1 x1, UnpackHigh64 y1 x1).

Definition SPECK128_Dec_6_round (subkeys : list Z) (i : Z)
    (s : vec * vec * vec * vec * vec * vec)
  : outcome (vec * vec * vec * vec * vec * vec) :=
  let '(x1, y1, x2, y2, x3, y3) := s in
  rk <- vld1q_dup_u64 subkeys i ;;
  let y1 := veorq_u64 y1 x1 in
  let y2 := veorq_u64 y2 x2 in
  let y3 := veorq_u64 y3 x3 in
  let y1 := RotateRight64 3 y1 in
  let y2 := RotateRight64 3 y2 in
  let y3 := RotateRight64 3 y3 in
  let x1 := veorq_u64 x1 rk in
  let x2 := veorq_u64 x2 rk in
  let x3 := veorq_u64 x3 rk in
  let x1 := vsubq_u64 x1 y1 in
  let x2 := vsubq_u64 x2 y2 in
  let x3 := vsubq_u64 x3 y3 in
  let x1 := RotateLeft64 8 x1 in
  let x2 := RotateLeft64 8 x2 in
  let x3 := RotateLeft64 8 x3 in
  Done (x1, y1, x2, y2, x3, y3).

Definition SPECK128_Dec_6_Blocks (fuel : nat) (subkeys : list Z) (rounds : Z)
    (blocks : vec * vec * vec * vec * vec * vec)
  : outcome (vec * vec * vec * vec * vec * vec) :=
  let '(block0, block1, block2, block3, block4, block5) := blocks in
  let x1 := UnpackHigh64 block0 block1 in
  let y1 := UnpackLow64 block0 block1 in
  let x2 := UnpackHigh64 block2 block3 in
  let y2 := UnpackLow64 block2 block3 in
  let x3 := UnpackHigh64 block4 block5 in
  let y3 := UnpackLow64 block4 block5 in
  '(x1, y1, x2, y2, x3, y3) <-
    for_down fuel (to_int (uint (rounds - 1))) 1 (SPECK128_Dec_6_round subkeys)
      (x1, y1, x2, y2, x3, y3) ;;
  Done (UnpackLow64 y1 x1, UnpackHigh64 y1 x1,
        UnpackLow64 y2 x2, UnpackHigh64 y2 x2,
        UnpackLow64 y3 x3, UnpackHigh64 y3 x3).

(** *** SIMON-128 *)

Definition SIMON128_f (v : vec) : vec :=
  veorq_u64 (RotateLeft64 2 v)
    (vandq_u64 (RotateLeft64 1 v) (RotateLeft64 8 v)).

(** Body of the paired loop of [SIMON128_Enc_Block]. *)
Definition SIMON128_Enc_round2 (subkeys : list Z) (i : Z) (s : vec * vec)
  : outcome (vec * vec) :=
  let '(x1, y1) := s in
  rk1 <- vld1q_dup_u64 subkeys i ;;
  let y1 := veorq_u64 (veorq_u64 y1 (SIMON128_f x1)) rk1 in
  rk2 <- vld1q_dup_u64 subkeys (i + 1) ;;
  let x1 := veorq_u64 (veorq_u64 x1 (SIMON128_f y1)) rk2 in
  Done (x1, y1).

(** The [if (rounds & 1)] tail of [SIMON128_Enc_Block]. *)
Definition SIMON128_Enc_tail (subkeys : list Z) (rounds : Z) (s : vec * vec)
  : outcome (vec * vec) :=
  let '(x1, y1) := s in
  if Z.land rounds 1 =? 0 then Done (x1, y1)
  else
    rk <- vld1q_dup_u64 subkeys (rounds - 1) ;;
    let y1 := veorq_u64 (veorq_u64 y1 (SIMON128_f x1)) rk in
    Done (swap (x1, y1)).

(** [static_cast<size_t>(rounds & ~1) - 1] *)
Definition SIMON128_Enc_bound (rounds : Z) : Z :=
  size_t (Z.land rounds (W32 - 2) - 1).

Definition SIMON128_Enc_Block (fuel : nat) (subkeys : list Z) (rounds : Z)
    (blocks : vec * vec) : outcome (vec * vec) :=
  let '(block0, block1) := blocks in
  let x1 := UnpackHigh64 block0 block1 in
  let y1 := UnpackLow64 block0 block1 in
  s <- for_up fuel 0 (SIMON128_Enc_bound rounds) 2
         (SIMON128_Enc_round2 subkeys) (x1, y1) ;;
  '(x1, y1) <- SIMON128_Enc_tail subkeys rounds s ;;
  Done (UnpackLow64 y1 x1, UnpackHigh64 y1 x1).

Definition SIMON128_Enc_6_round2 (subkeys : list Z) (i : Z)
    (s : vec * vec * vec * vec * vec * vec)
  : outcome (vec * vec * vec * vec * vec * vec) :=
  let '(x1, y1, x2, y2, x3, y3) := s in
  rk1 <- vld1q_dup_u64 subkeys i ;;
  let y1 := veorq_u64 (veorq_u64 y1 (SIMON128_f x1)) rk1 in
  let y2 := veorq_u64 (veorq_u64 y2 (SIMON128_f x2)) rk1 in
  let y3 := veorq_u64 (veorq_u64 y3 (SIMON128_f x3)) rk1 in
  rk2 <- vld1q_dup_u64 subkeys (i + 1) ;;
  let x1 := veorq_u64 (veorq_u64 x1 (SIMON128_f y1)) rk2 in
  let x2 := veorq_u64 (veorq_u64 x2 (SIMON128_f y2)) rk2 in
  let x3 := veorq_u64 (veorq_u64 x3 (SIMON128_f y3)) rk2 in
  Done (x1, y1, x2, y2, x3, y3).

Definition SIMON128_Enc_6_tail (subkeys : list Z) (rounds : Z)
    (s : vec * vec * vec * vec * vec * vec)
  : outcome (vec * vec * vec * vec * vec * vec) :=
  let '(x1, y1, x2, y2, x3, y3) := s in
  if Z.land rounds 1 =? 0 then Done (x1, y1, x2, y2, x3, y3)
  else
    rk <- vld1q_dup_u64 subkeys (rounds - 1) ;;
    let y1 := veorq_u64 (veorq_u64 y1 (SIMON128_f x1)) rk in
    let y2 := veorq_u64 (veorq_u64 y2 (SIMON128_f x2)) rk in
    let y3 := veorq_u64 (veorq_u64 y3 (SIMON128_f x3)) rk in
    let '(x1, y1) := swap (x1, y1) in
    let '(x2, y2) := swap (x2, y2) in
    let '(x3, y3) := swap (x3, y3) in
    Done (x1, y1, x2, y2, x3, y3).

Definition SIMON128_Enc_6_Blocks (fuel : nat) (subkeys : list Z) (rounds : Z)
    (blocks : vec * vec * vec * vec * vec * vec)
  : outcome (vec * vec * vec * vec * vec * vec) :=
  let '(block0, block1, block2, block3, block4, block5) := blocks in
  let x1 := UnpackHigh64 block0 block1 in
  let y1 := UnpackLow64 block0 block1 in
  let x2 := UnpackHigh64 block2 block3 in
  let y2 := UnpackLow64 block2 block3 in
  let x3 := UnpackHigh64 block4 block5 in
  let y3 := UnpackLow64 block4 block5 in
  s <- for_up fuel 0 (SIMON128_Enc_bound rounds) 2
         (SIMON128_Enc_6_round2 subkeys) (x1, y1, x2, y2, x3, y3) ;;
  '(x1, y1, x2, y2, x3, y3) <- SIMON128_Enc_6_tail subkeys rounds s ;;
  Done (UnpackLow64 y1 x1, UnpackHigh64 y1 x1,
        UnpackLow64 y2 x2, UnpackHigh64 y2 x2,
        UnpackLow64 y3 x3, UnpackHigh64 y3 x3).

(** The [if (rounds & 1)] head of [SIMON128_Dec_Block]; it also yields the
    decremented [rounds]. *)
Definition SIMON128_Dec_head (subkeys : list Z) (rounds : Z) (s : vec * vec)
  : outcome (Z * (vec * vec)) :=
  let '(x1, y1) := s in
  if Z.land rounds 1 =? 0 then Done (rounds, (x1, y1))
  else
    let '(x1, y1) := swap (x1, y1) in
    rk <- vld1q_dup_u64 subkeys (rounds - 1) ;;
    let y1 := veorq_u64 (veorq_u64 y1 rk) (SIMON128_f x1) in
    Done (uint (rounds - 1), (x1, y1)).

(** Body of the paired loop of [SIMON128_Dec_Block]. *)
Definition SIMON128_Dec_round2 (subkeys : list Z) (i : Z) (s : vec * vec)
  : outcome (vec * vec) :=
  let '(x1, y1) := s in
  rk1 <- vld1q_dup_u64 subkeys (i + 1) ;;
  let x1 := veorq_u64 (veorq_u64 x1 (SIMON128_f y1)) rk1 in
  rk2 <- vld1q_dup_u64 subkeys i ;;
  let y1 := veorq_u64 (veorq_u64 y1 (SIMON128_f x1)) rk2 in
  Done (x1, y1).

Definition SIMON128_Dec_Block (fuel : nat) (subkeys : list Z) (rounds : Z)
    (blocks : vec * vec) : outcome (vec * vec) :=
  let '(block0, block1) := blocks in
  let x1 := UnpackHigh64 block0 block1 in
  let y1 := UnpackLow64 block0 block1 in
  '(rounds, s) <- SIMON128_Dec_head subkeys rounds (x1, y1) ;;
  '(x1, y1) <- for_down fuel (to_int (uint (rounds - 2))) 2
                 (SIMON128_Dec_round2 subkeys) s ;;
  Done (UnpackLow64 y1 x1, UnpackHigh64 y1 x1).

Definition SIMON128_Dec_6_head (subkeys : list Z) (rounds : Z)
    (s : vec * vec * vec * vec * vec * vec)
  : outcome (Z * (vec * vec * vec * vec * vec * vec)) :=
  let '(x1, y1, x2, y2, x3, y3) := s in
  if Z.land rounds 1 =? 0 then Done (rounds, (x1, y1, x2, y2, x3, y3))
  else
    let '(x1, y1) := swap (x1, y1) in
    let '(x2, y2) := swap (x2, y2) in
    let '(x3, y3) := swap (x3, y3) in
    rk <- vld1q_dup_u64 subkeys (rounds - 1) ;;
    let y1 := veorq_u64 (veorq_u64 y1 rk) (SIMON128_f x1) in
    let y2 := veorq_u64 (veorq_u64 y2 rk) (SIMON128_f x2) in
    let y3 := veorq_u64 (veorq_u64 y3 rk) (SIMON128_f x3) in
    Done (uint (rounds - 1), (x1, y1, x2, y2, x3, y3)).

Definition SIMON128_Dec_6_round2 (subkeys : list Z) (i : Z)
    (s : vec * vec * vec * vec * vec * vec)
  : outcome (vec * vec * vec * vec * vec * vec) :=
  let '(x1, y1, x2, y2, x3, y3) := s in
  rk1 <- vld1q_dup_u64 subkeys (i + 1) ;;
  let x1 := veorq_u64 (veorq_u64 x1 (SIMON128_f y1)) rk1 in
  let x2 := veorq_u64 (veorq_u64 x2 (SIMON128_f y2)) rk1 in
  let x3 := veorq_u64 (veorq_u64 x3 (SIMON128_f y3)) rk1 in
  rk2 <- vld1q_dup_u64 subkeys i ;;
  let y1 := veorq_u64 (veorq_u64 y1 (SIMON128_f x1)) rk2 in
  let y2 := veorq_u64 (veorq_u64 y2 (SIMON128_f x2)) rk2 in
  let y3 := veorq_u64 (veorq_u64 y3 (SIMON128_f x3)) rk2 in
  Done (x1, y1, x2, y2, x3, y3).

Definition SIMON128_Dec_6_Blocks (fuel : nat) (subkeys : list Z) (rounds : Z)
    (blocks : vec * vec * vec * vec * vec * vec)
  : outcome (vec * vec * vec * vec * vec * vec) :=
  let '(block0, block1, block2, block3, block4, block5) := blocks in
  let x1 := UnpackHigh64 block0 block1 in
  let y1 := UnpackLow64 block0 block1 in
  let x2 := UnpackHigh64 block2 block3 in
  let y2 := UnpackLow64 block2 block3 in
  let x3 := UnpackHigh64 block4 block5 in
  let y3 := UnpackLow64 block4 block5 in
  '(rounds, s) <- SIMON128_Dec_6_head subkeys rounds (x1, y1, x2, y2, x3, y3) ;;
  '(x1, y1, x2, y2, x3, y3) <-
    for_down fuel (to_int (uint (rounds - 2))) 2
      (SIMON128_Dec_6_round2 subkeys) s ;;
  Done (UnpackLow64 y1 x1, UnpackHigh64 y1 x1,
        UnpackLow64 y2 x2, UnpackHigh64 y2 x2,
        UnpackLow64 y3 x3, UnpackHigh64 y3 x3).

End NEON.

(** ** The round functions, lane by lane

    Scalar 64-bit formulas of the two ciphers; a rotation is the
    shift/shift/or synthesis on one lane. *)

Definition rotl64 (R : Z) (x : Z) : Z := Z.lor (shl64 R x) (shr64 (64 - R) x).
Definition rotr64 (R : Z) (x : Z) : Z := Z.lor (shl64 (64 - R) x) (shr64 R x).

Definition speck_enc_round (k : Z) (s : Z * Z) : Z * Z :=
  let '(x, y) := s in
  let x := Z.lxor (add64 (rotr64 8 x) y) k in
  let y := Z.lxor (rotl64 3 y) x in
  (x, y).

Definition speck_dec_round (k : Z) (s : Z * Z) : Z * Z :=
  let '(x, y) := s in
  let y := rotr64 3 (Z.lxor y x) in
  let x := rotl64 8 (sub64 (Z.lxor x k) y) in
  (x, y).

Definition simon_f (v : Z) : Z :=
  Z.lxor (rotl64 2 v) (Z.land (rotl64 1 v) (rotl64 8 v)).

(** One SIMON round in Feistel form: the halves trade places. *)
Definition simon_round (k : Z) (s : Z * Z) : Z * Z :=
  let '(x, y) := s in (Z.lxor (Z.lxor y (simon_f x)) k, x).

Definition simon_unround (k : Z) (s : Z * Z) : Z * Z :=
  let '(x, y) := s in (y, Z.lxor (Z.lxor x (simon_f y)) k).

(** A scalar state transformer applied to both lanes of an (x, y) pair of
    registers. *)
Definition on_lanes (f : Z * Z -> Z * Z) (s : vec * vec) : vec * vec :=
  let '(x, y) := s in
  let l := f (lo x, lo y) in
  let h := f (hi x, hi y) in
  (mkvec (fst l) (fst h), mkvec (snd l) (snd h)).

(** Rounds [k0, k1, ...] applied in order to both lanes, and undone in
    reverse order. *)
Definition run_rounds (round : Z -> Z * Z -> Z * Z) (K : list Z) (s : vec * vec)
  : vec * vec :=
  fold_left (fun s k => on_lanes (round k) s) K s.

Definition undo_rounds (unround : Z -> Z * Z -> Z * Z) (K : list Z) (s : vec * vec)
  : vec * vec :=
  fold_right (fun k s => on_lanes (unround k) s) s K.

(** Monadic pairing of three independent kernel runs. *)
Definition three {A : Type} (a b c : outcome (A * A)) : outcome (A * A * A * A * A * A) :=
  '(a0, a1) <- a ;; '(b0, b1) <- b ;; '(c0, c1) <- c ;;
  Done (a0, a1, b0, b1, c0, c1).

(** Both registers of an (x, y) state hold 64-bit lanes. *)
Definition wf_pair (s : vec * vec) : Prop := wf_vec (fst s) /\ wf_vec (snd s).

(** Two runs agree on how they end: both return, both fault, or both run out
    of fuel. *)
Definition same_shape {A B : Type} (a : outcome A) (b : outcome B) : Prop :=
  match a, b with
  | Done _, Done _ => True
  | Fault, Fault => True
  | Timeout, Timeout => True
  | _, _ => False
  end.

(** *** SIMON-128 by round pairs

    The paired form of the round function: one loop iteration of the
    encryption and of the decryption kernel, and the single round that an
    odd round count adds, together with its exchange of the registers. *)

Definition simon_enc_pair (k1 k2 : Z) (s : Z * Z) : Z * Z :=
  let '(x, y) := s in
  let y := Z.lxor (Z.lxor y (simon_f x)) k1 in
  let x := Z.lxor (Z.lxor x (simon_f y)) k2 in
  (x, y).

(** The final single-round update, then the swap. *)
Definition simon_enc_last (k : Z) (s : Z * Z) : Z * Z :=
  let '(x, y) := s in
  let y := Z.lxor (Z.lxor y (simon_f x)) k in
  (y, x).

(** The swap, then the single final round. *)
Definition simon_dec_first (k : Z) (s : Z * Z) : Z * Z :=
  let '(x, y) := s in
  let '(x, y) := (y, x) in
  let y := Z.lxor (Z.lxor y k) (simon_f x) in
  (x, y).

Definition simon_dec_pair (k1 k2 : Z) (s : Z * Z) : Z * Z :=
  let '(x, y) := s in
  let x := Z.lxor (Z.lxor x (simon_f y)) k2 in
  let y := Z.lxor (Z.lxor y (simon_f x)) k1 in
  (x, y).

(** A schedule given as a list of key pairs [(k[0], k[1]); (k[2], k[3]); ...]. *)
Definition flat_pairs (KP : list (Z * Z)) : list Z :=
  flat_map (fun p => [fst p; snd p]) KP.

Definition run_pairs (KP : list (Z * Z)) (s : vec * vec) : vec * vec :=
  fold_left (fun s p => on_lanes (simon_enc_pair (fst p) (snd p)) s) KP s.

Definition undo_pairs (KP : list (Z * Z)) (s : vec * vec) : vec * vec :=
  fold_right (fun p s => on_lanes (simon_dec_pair (fst p) (snd p)) s) s KP.

(** ** SPECK-128/128 key expansion *)

(** Modelled from the spec: the key schedule (round-key expansion,
    [SPECK_ExpandKey_2W] of speck.cpp) is not under src/.  The spec treats
    it as an external collaborator that yields the ordered round keys
    [k[0..rounds)] of the Simon/Speck reference for a key [(l0, k0)]:
    [k[0] = k0], and the SPECK round keyed by the round index [i] maps
    [(l[i], k[i])] to [(l[i+1], k[i+1])].  [n] is [rounds - 1]. *)
Fixpoint SPECK_ExpandKey_2W (n : nat) (i B A : Z) : list Z :=
  match n with
  | O => [A]
  | Datatypes.S n' =>
      A :: (let '(B', A') := speck_enc_round i (B, A) in
            SPECK_ExpandKey_2W n' (i + 1) B' A')
  end.

(** Key [0f0e0d0c0b0a0908 0706050403020100], 32 rounds. *)
Definition speck128_128_test_schedule : list Z :=
  SPECK_ExpandKey_2W 31 0 0x0f0e0d0c0b0a0908 0x0706050403020100.

(** A block [(X, Y)]: [Y] is the low lane and [X] the high lane. *)
Definition block_of (X Y : Z) : vec := mkvec Y X.

(** ** The advanced block driver *)

(** Modelled from the spec: the byte buffers of the driver (adv_simd.h is
    not under src/), as one byte-addressed memory. *)
Definition memory : Type := Z -> Z.

(** Modelled from the spec: loading sixteen bytes at [p] into a vector and
    storing them back, on a little-endian host. *)
Definition load128 (m : memory) (p : Z) : vec :=
  mkvec (lane_of_bytes (map (fun i => m (p + i)) [0; 1; 2; 3; 4; 5; 6; 7]))
        (lane_of_bytes (map (fun i => m (p + i)) [8; 9; 10; 11; 12; 13; 14; 15])).

(** Modelled from the spec: the sixteen-byte store of the driver. *)
Definition store128 (m : memory) (p : Z) (v : vec) : memory :=
  fun a => if (p <=? a) && (a <? p + 16)
           then nth (Z.to_nat (a - p)) (to_bytes v) 0
           else m a.

(** Modelled from the spec: the flag bitset of the driver (its bit values
    are declared outside src/). *)
Record flags_t : Type := mkflags {
  BT_XorInput : bool;
  BT_AllowParallel : bool;
  BT_InBlockIsCounter : bool;
  BT_DontIncrementInOutPointers : bool;
  BT_ReverseDirection : bool
}.

(** Modelled from the spec: the local variables of the driver;
    [xorBlocks = None] is the null pointer. *)
Record driver_state : Type := mkstate {
  mem : memory;
  inBlocks : Z;
  xorBlocks : option Z;
  outBlocks : Z;
  length_left : Z
}.

(** Modelled from the spec: the low eight bytes of a 128-bit big-endian
    counter are the high lane read backwards; the driver increments them by
    one per block. *)
Definition bswap64 (x : Z) : Z := lane_of_bytes (rev (bytes_of_lane x)).

(** Modelled from the spec: the counter block after one increment. *)
Definition counter_succ (b : vec) : vec :=
  mkvec (lo b) (bswap64 ((bswap64 (hi b) + 1) mod W64)).

(** Modelled from the spec: [while (length >= c) body]. *)
Fixpoint while_ge (fuel : nat) (c : Z) (body : driver_state -> outcome driver_state)
    (st : driver_state) : outcome driver_state :=
  if c <=? length_left st then
    match fuel with
    | O => Timeout
    | Datatypes.S fuel' => st' <- body st ;; while_ge fuel' c body st'
    end
  else Done st.

Section Driver.

Variable func2 : list Z -> Z -> vec * vec -> outcome (vec * vec).
Variable func6 : list Z -> Z -> vec * vec * vec * vec * vec * vec
                 -> outcome (vec * vec * vec * vec * vec * vec).
Variable subKeys : list Z.
Variable rounds : Z.
Variable flags : flags_t.

(** Modelled from the spec: step 1 of the driver of adv_simd.h, which is
    not under src/.  The per-iteration stride is +16 or -16 by direction, and
    0 when [BT_DontIncrementInOutPointers] rewinds the pointers. *)
Definition stride : Z :=
  if BT_DontIncrementInOutPointers flags then 0
  else if BT_ReverseDirection flags then -16 else 16.

(** Modelled from the spec: the input stride of the driver (adv_simd.h, not
    under src/).  With [BT_InBlockIsCounter] the input is one counter block,
    read in place; otherwise the input pointer moves by the stride. *)
Definition in_stride : Z :=
  if BT_InBlockIsCounter flags then 0 else stride.

(** Modelled from the spec: the loads of the driver (adv_simd.h, not under
    src/) for [n] blocks.  With [BT_InBlockIsCounter] each block is the value
    of the counter before its low eight bytes are incremented by one. *)
Fixpoint gather (n : nat) (m : memory) (p : Z) : list vec * memory :=
  match n with
  | O => ([], m)
  | Datatypes.S n' =>
      let b := load128 m p in
      let m' := if BT_InBlockIsCounter flags then store128 m p (counter_succ b) else m in
      let '(bs, m'') := gather n' m' (p + in_stride) in
      (b :: bs, m'')
  end.

(** Modelled from the spec: the XOR of the secondary stream into a run of
    blocks, as the driver (adv_simd.h, not under src/) does before or after
    the kernel. *)
Fixpoint xor_with (m : memory) (xp : Z) (bs : list vec) : list vec :=
  match bs with
  | [] => []
  | b :: r => lanewise2 Z.lxor b (load128 m xp) :: xor_with m (xp + stride) r
  end.

(** Modelled from the spec: the stores of the driver (adv_simd.h, not under
    src/) for a run of blocks. *)
Fixpoint scatter (m : memory) (p : Z) (bs : list vec) : memory :=
  match bs with
  | [] => m
  | b :: r => scatter (store128 m p b) (p + stride) r
  end.

(** Modelled from the spec: the kernel calls of the driver (adv_simd.h, not
    under src/).  Six blocks go to the 6-block kernel, two to the 2-block
    kernel, and a single block to the 2-block kernel with an unused second
    slot, of which only the first 16 bytes are kept. *)
Definition run_kernel (bs : list vec) : outcome (list vec) :=
  match bs with
  | [b0; b1; b2; b3; b4; b5] =>
      '(c0, c1, c2, c3, c4, c5) <- func6 subKeys (uint rounds) (b0, b1, b2, b3, b4, b5) ;;
      Done [c0; c1; c2; c3; c4; c5]
  | [b0; b1] =>
      '(c0, c1) <- func2 subKeys (uint rounds) (b0, b1) ;; Done [c0; c1]
  | [b0] =>
      '(c0, _) <- func2 subKeys (uint rounds) (b0, mkvec 0 0) ;; Done [c0]
  | _ => Fault
  end.

(** Modelled from the spec: one iteration of steps 2, 3 and 4 of the driver
    (adv_simd.h, not under src/) on [n] blocks: load, pre-XOR or counter
    update, kernel, post-XOR, store, advance the pointers, subtract [16 n]
    from the length. *)
Definition process (n : nat) (st : driver_state) : outcome driver_state :=
  let '(bs, m1) := gather n (mem st) (inBlocks st) in
  let bs := match xorBlocks st with
            | Some xp => if BT_XorInput flags then xor_with m1 xp bs else bs
            | None => bs
            end in
  out <- run_kernel bs ;;
  let out := match xorBlocks st with
             | Some xp => if BT_XorInput flags then out else xor_with m1 xp out
             | None => out
             end in
  Done (mkstate (scatter m1 (outBlocks st) out)
                (inBlocks st + Z.of_nat n * in_stride)
                (option_map (fun xp => xp + Z.of_nat n * stride) (xorBlocks st))
                (outBlocks st + Z.of_nat n * stride)
                (length_left st - 16 * Z.of_nat n)).

(** Modelled from the spec: steps 2 to 4 of [AdvancedProcessBlocks128_6x2]
    (adv_simd.h, not under src/): the 6-block loop when [BT_AllowParallel] is
    set, the 2-block loop, the 1-block loop. *)
Definition driver_loops (fuel : nat) (st : driver_state) : outcome driver_state :=
  st <- (if BT_AllowParallel flags then while_ge fuel (6 * 16) (process 6) st
         else Done st) ;;
  st <- while_ge fuel (2 * 16) (process 2) st ;;
  while_ge fuel 16 (process 1) st.

(** Modelled from the spec: the driver [AdvancedProcessBlocks128_6x2] of
    adv_simd.h, which is not under src/.  It returns the bytes it did not
    consume; the memory it leaves behind is returned with them. *)
Definition AdvancedProcessBlocks128_6x2 (fuel : nat) (m : memory)
    (inp : Z) (xorp : option Z) (outp : Z) (length : Z) : outcome (memory * Z) :=
  st <- driver_loops fuel (mkstate m inp xorp outp length) ;;
  Done (mem st, length_left st).

End Driver.

(** The exported entry points: each hands its two kernels to the driver. *)
Definition SPECK128_Enc_AdvancedProcessBlocks_NEON (fuel : nat) (subKeys : list Z)
    (rounds : Z) (m : memory) (inBlocks : Z) (xorBlocks : option Z) (outBlocks : Z)
    (length : Z) (flags : flags_t) : outcome (memory * Z) :=
  AdvancedProcessBlocks128_6x2 (NEON.SPECK128_Enc_Block fuel) (NEON.SPECK128_Enc_6_Blocks fuel)
    subKeys rounds flags fuel m inBlocks xorBlocks outBlocks length.

Definition SPECK128_Dec_AdvancedProcessBlocks_NEON (fuel : nat) (subKeys : list Z)
    (rounds : Z) (m : memory) (inBlocks : Z) (xorBlocks : option Z) (outBlocks : Z)
    (length : Z) (flags : flags_t) : outcome (memory * Z) :=
  AdvancedProcessBlocks128_6x2 (NEON.SPECK128_Dec_Block fuel) (NEON.SPECK128_Dec_6_Blocks fuel)
    subKeys rounds flags fuel m inBlocks xorBlocks outBlocks length.

Definition SIMON128_Enc_AdvancedProcessBlocks_NEON (fuel : nat) (subKeys : list Z)
    (rounds : Z) (m : memory) (inBlocks : Z) (xorBlocks : option Z) (outBlocks : Z)
    (length : Z) (flags : flags_t) : outcome (memory * Z) :=
  AdvancedProcessBlocks128_6x2 (NEON.SIMON128_Enc_Block fuel) (NEON.SIMON128_Enc_6_Blocks fuel)
    subKeys rounds flags fuel m inBlocks xorBlocks outBlocks length.

Definition SIMON128_Dec_AdvancedProcessBlocks_NEON (fuel : nat) (subKeys : list Z)
    (rounds : Z) (m : memory) (inBlocks : Z) (xorBlocks : option Z) (outBlocks : Z)
    (length : Z) (flags : flags_t) : outcome (memory * Z) :=
  AdvancedProcessBlocks128_6x2 (NEON.SIMON128_Dec_Block fuel) (NEON.SIMON128_Dec_6_Blocks fuel)
    subKeys rounds flags fuel m inBlocks xorBlocks outBlocks length.

(** ** One block at a time *)

(** A 16-byte block [(X, Y)], [X] its high lane, through the rounds of a
    schedule in order, and through their inverses in reverse order. *)
Definition encrypt_block (round : Z -> Z * Z -> Z * Z) (K : list Z) (b : vec) : vec :=
  let '(x, y) := fold_left (fun s k => round k s) K (hi b, lo b) in mkvec y x.

Definition decrypt_block (unround : Z -> Z * Z -> Z * Z) (K : list Z) (b : vec) : vec :=
  let '(x, y) := fold_right unround (hi b, lo b) K in mkvec y x.

(** ** The XOP build of the SSSE3 rotations *)

Module XOP.

(** [vprotq] on one lane: bit [i] of the result is bit [(i - c) mod 64] of
    the source, a rotation to the left for a positive count. *)
Definition rotate_lane (c : Z) (x : Z) : Z :=
  fold_right (fun i acc => if Z.testbit x ((i - c) mod 64) then Z.setbit acc i else acc)
             0 (map Z.of_nat (seq 0 64)).

Definition _mm_roti_epi64 (v : vec) (c : Z) : vec := lanewise (rotate_lane c) v.

(** The generic templates, [__XOP__] branch. *)
Definition RotateLeft64_generic (R : Z) (val : vec) : vec := _mm_roti_epi64 val R.

Definition RotateRight64_generic (R : Z) (val : vec) : vec :=
  _mm_roti_epi64 val (64 - R).

(** The [<8>] specializations, [__XOP__] branch. *)
Definition RotateLeft64_8 (val : vec) : vec := _mm_roti_epi64 val 8.

Definition RotateRight64_8 (val : vec) : vec := _mm_roti_epi64 val (64 - 8).

(** Template instantiation: [R = 8] selects the specialization. *)
Definition RotateLeft64 (R : Z) (val : vec) : vec :=
  if R =? 8 then RotateLeft64_8 val else RotateLeft64_generic R val.

Definition RotateRight64 (R : Z) (val : vec) : vec :=
  if R =? 8 then RotateRight64_8 val else RotateRight64_generic R val.

End XOP.

(** *** The driver, one block at a time *)

Section DriverReference.

Variable f : vec -> vec.
Variable flags : flags_t.

(** Modelled from the spec: the per-block reference that section 8 compares
    the driver of adv_simd.h (not under src/) with.  One block: load it,
    update the counter, pre-XOR, apply the cipher [f] to that one block,
    post-XOR, store, advance the pointers, subtract 16 from the length. *)
Definition process_block (st : driver_state) : driver_state :=
  let b := load128 (mem st) (inBlocks st) in
  let m1 := if BT_InBlockIsCounter flags
            then store128 (mem st) (inBlocks st) (counter_succ b) else mem st in
  let b := match xorBlocks st with
           | Some xp => if BT_XorInput flags
                        then lanewise2 Z.lxor b (load128 m1 xp) else b
           | None => b
           end in
  let c := f b in
  let c := match xorBlocks st with
           | Some xp => if BT_XorInput flags
                        then c else lanewise2 Z.lxor c (load128 m1 xp)
           | None => c
           end in
  mkstate (store128 m1 (outBlocks st) c)
          (inBlocks st + in_stride flags)
          (option_map (fun xp => xp + stride flags) (xorBlocks st))
          (outBlocks st + stride flags)
          (length_left st - 16).

(** Modelled from the spec: [n] blocks, one after the other. *)
Fixpoint process_blocks (n : nat) (st : driver_state) : driver_state :=
  match n with
  | O => st
  | Datatypes.S n' => process_blocks n' (process_block st)
  end.

(** Modelled from the spec: one iteration of the driver on [n] blocks
    (adv_simd.h, not under src/) when the kernel acts as [f] on each of its
    blocks. *)
Definition process_with (n : nat) (st : driver_state) : driver_state :=
  let '(bs, m1) := gather flags n (mem st) (inBlocks st) in
  let bs := match xorBlocks st with
            | Some xp => if BT_XorInput flags then xor_with flags m1 xp bs else bs
            | None => bs
            end in
  let out := map f bs in
  let out := match xorBlocks st with
             | Some xp => if BT_XorInput flags then out else xor_with flags m1 xp out
             | None => out
             end in
  mkstate (scatter flags m1 (outBlocks st) out)
          (inBlocks st + Z.of_nat n * in_stride flags)
          (option_map (fun xp => xp + Z.of_nat n * stride flags) (xorBlocks st))
          (outBlocks st + Z.of_nat n * stride flags)
          (length_left st - 16 * Z.of_nat n).

(** Modelled from the spec: what output block [j] holds after a run without
    [BT_InBlockIsCounter], in terms of the memory before the run: the cipher
    applied to input block [j], with the XOR of block [j] of the secondary
    stream before or after it. *)
Definition block_result (m : memory) (inp : Z) (xorp : option Z) (j : Z) : vec :=
  let b := load128 m (inp + j * in_stride flags) in
  match xorp with
  | Some xp =>
      let x := load128 m (xp + j * stride flags) in
      if BT_XorInput flags then f (lanewise2 Z.lxor b x)
      else lanewise2 Z.lxor (f b) x
  | None => f b
  end.

End DriverReference.

(** Two 16-byte blocks that do not overlap. *)
Definition apart (p q : Z) : Prop := p + 16 <= q \/ q + 16 <= p.

(** Modelled from the spec: the aliasing the driver allows (section 5: the
    buffers do not alias, except that the output may be the input).  No
    output block is written over an input or XOR block that a later block
    still has to read, and the counter block is not part of the XOR
    stream. *)
Definition no_clobber (flags : flags_t) (n : Z) (inp : Z) (xorp : option Z)
    (outp : Z) : Prop :=
  (forall j j', 0 <= j < j' -> j' < n ->
     apart (outp + j * stride flags) (inp + j' * in_stride flags))
  /\ (forall xp, xorp = Some xp ->
        (forall j j', 0 <= j < j' -> j' < n ->
           apart (outp + j * stride flags) (xp + j' * stride flags))
        /\ (BT_InBlockIsCounter flags = true ->
            forall j, 0 <= j < n -> apart inp (xp + j * stride flags))).

(** Every cell of the memory holds a byte. *)
Definition bytes_mem (m : memory) : Prop := forall a, 0 <= m a < 256.
(** ** Arithmetic of rotations *)

Lemma land_shifted_small (a b n : Z) :
  0 <= n -> 0 <= b < 2 ^ n -> Z.land (a * 2 ^ n) b = 0.
Proof.
  intros Hn Hb. apply Z.bits_inj'. intros m Hm.
  rewrite Z.land_spec, Z.bits_0, <- Z.shiftl_mul_pow2 by assumption.
  destruct (Z_lt_dec m n) as [Hlt | Hge].
  - rewrite Z.shiftl_spec_low by assumption. reflexivity.
  - replace (Z.testbit b m) with false; [apply andb_false_r |].
    symmetry. rewrite <- (Z.mod_small b (2 ^ n)) by assumption.
    apply Z.mod_pow2_bits_high. lia.
Qed.

Lemma lor_disjoint_add (a b n : Z) :
  0 <= n -> 0 <= b < 2 ^ n -> Z.lor (a * 2 ^ n) b = a * 2 ^ n + b.
Proof.
  intros Hn Hb.
  pose proof (Z.add_lor_land (a * 2 ^ n) b) as E.
  rewrite land_shifted_small in E by assumption. lia.
Qed.

(** A left rotation by [R] moves the top [R] bits to the bottom. *)
Lemma rotl_arith (R x : Z) :
  0 < R < 64 -> in64 x ->
  Z.lor (shl64 R x) (shr64 (64 - R) x)
  = (x mod 2 ^ (64 - R)) * 2 ^ R + x / 2 ^ (64 - R).
Proof.
  intros HR Hx. unfold shl64, shr64, W64, in64, W64 in *.
  rewrite Z.shiftl_mul_pow2, Z.shiftr_div_pow2 by lia.
  assert (P1 : 0 < 2 ^ R) by (apply Z.pow_pos_nonneg; lia).
  assert (P2 : 0 < 2 ^ (64 - R)) by (apply Z.pow_pos_nonneg; lia).
  assert (E : 2 ^ 64 = 2 ^ (64 - R) * 2 ^ R)
    by (rewrite <- Z.pow_add_r by lia; f_equal; lia).
  assert (Hq : 0 <= x / 2 ^ (64 - R) < 2 ^ R).
  { split; [apply Z.div_pos; lia |].
    apply Z.div_lt_upper_bound; lia. }
  assert (Hm : (x * 2 ^ R) mod 2 ^ 64 = (x mod 2 ^ (64 - R)) * 2 ^ R).
  { rewrite E. rewrite Z.mul_mod_distr_r by lia. reflexivity. }
  rewrite Hm. apply lor_disjoint_add; lia.
Qed.

(** ** Range of the lane operations *)

Lemma in64_of_high_bits (z : Z) :
  0 <= z -> (forall n, 64 <= n -> Z.testbit z n = false) -> in64 z.
Proof.
  intros Hz Hb. unfold in64, W64.
  replace z with (z mod 2 ^ 64); [apply Z.mod_pos_bound; lia |].
  apply Z.bits_inj'. intros n Hn.
  destruct (Z_lt_dec n 64).
  - apply Z.mod_pow2_bits_low; lia.
  - rewrite Z.mod_pow2_bits_high by lia. symmetry. apply Hb. lia.
Qed.

Lemma in64_high_bit (z n : Z) : in64 z -> 64 <= n -> Z.testbit z n = false.
Proof.
  unfold in64, W64. intros Hz Hn.
  rewrite <- (Z.mod_small z (2 ^ 64)) by assumption.
  apply Z.mod_pow2_bits_high. lia.
Qed.

Lemma in64_lxor (a b : Z) : in64 a -> in64 b -> in64 (Z.lxor a b).
Proof.
  intros Ha Hb. apply in64_of_high_bits.
  - apply Z.lxor_nonneg. unfold in64 in *. lia.
  - intros n Hn. rewrite Z.lxor_spec, !in64_high_bit by assumption. reflexivity.
Qed.

Lemma in64_lor (a b : Z) : in64 a -> in64 b -> in64 (Z.lor a b).
Proof.
  intros Ha Hb. apply in64_of_high_bits.
  - apply Z.lor_nonneg. unfold in64 in *. lia.
  - intros n Hn. rewrite Z.lor_spec, !in64_high_bit by assumption. reflexivity.
Qed.

Lemma in64_land (a b : Z) : in64 a -> in64 b -> in64 (Z.land a b).
Proof.
  intros Ha Hb. apply in64_of_high_bits.
  - apply Z.land_nonneg. unfold in64 in *. lia.
  - intros n Hn. rewrite Z.land_spec, !in64_high_bit by assumption. reflexivity.
Qed.

Lemma in64_add64 (a b : Z) : in64 (add64 a b).
Proof. unfold in64, add64, W64. apply Z.mod_pos_bound. lia. Qed.

Lemma in64_sub64 (a b : Z) : in64 (sub64 a b).
Proof. unfold in64, sub64, W64. apply Z.mod_pos_bound. lia. Qed.

Lemma in64_shl64 (R x : Z) : in64 (shl64 R x).
Proof. unfold in64, shl64, W64. apply Z.mod_pos_bound. lia. Qed.

Lemma in64_shr64 (R x : Z) : 0 <= R -> in64 x -> in64 (shr64 R x).
Proof.
  unfold in64, shr64, W64. intros HR Hx.
  rewrite Z.shiftr_div_pow2 by assumption.
  assert (0 < 2 ^ R) by (apply Z.pow_pos_nonneg; lia).
  split; [apply Z.div_pos; lia |].
  apply Z.le_lt_trans with x; [| lia].
  apply Z.div_le_upper_bound; nia.
Qed.

Lemma in64_rotl64 (R x : Z) : 0 <= R <= 64 -> in64 x -> in64 (rotl64 R x).
Proof.
  intros HR Hx. unfold rotl64.
  apply in64_lor; [apply in64_shl64 | apply in64_shr64; [lia | assumption]].
Qed.

Lemma in64_rotr64 (R x : Z) : 0 <= R <= 64 -> in64 x -> in64 (rotr64 R x).
Proof.
  intros HR Hx. unfold rotr64.
  apply in64_lor; [apply in64_shl64 | apply in64_shr64; [lia | assumption]].
Qed.

(** ** Rotations undo each other *)

Lemma rotl64_arith (R x : Z) :
  0 < R < 64 -> in64 x ->
  rotl64 R x = (x mod 2 ^ (64 - R)) * 2 ^ R + x / 2 ^ (64 - R).
Proof. intros. unfold rotl64. apply rotl_arith; assumption. Qed.

Lemma rotr64_as_rotl64 (R x : Z) : rotr64 R x = rotl64 (64 - R) x.
Proof. unfold rotr64, rotl64. do 2 f_equal. lia. Qed.

Lemma rotl64_complement (R x : Z) :
  0 < R < 64 -> in64 x -> rotl64 (64 - R) (rotl64 R x) = x.
Proof.
  intros HR Hx.
  assert (Hy : in64 (rotl64 R x)) by (apply in64_rotl64; [lia | assumption]).
  rewrite (rotl64_arith (64 - R)) by (assumption || lia).
  rewrite (rotl64_arith R) by assumption.
  replace (64 - (64 - R)) with R by lia.
  unfold in64, W64 in Hx.
  assert (P1 : 0 < 2 ^ R) by (apply Z.pow_pos_nonneg; lia).
  assert (P2 : 0 < 2 ^ (64 - R)) by (apply Z.pow_pos_nonneg; lia).
  assert (E : 2 ^ 64 = 2 ^ (64 - R) * 2 ^ R)
    by (rewrite <- Z.pow_add_r by lia; f_equal; lia).
  pose proof (Z.mod_pos_bound x (2 ^ (64 - R)) P2) as Hr.
  assert (Hq : 0 <= x / 2 ^ (64 - R) < 2 ^ R).
  { split; [apply Z.div_pos; lia |]. apply Z.div_lt_upper_bound; lia. }
  set (q := x / 2 ^ (64 - R)) in *. set (r := x mod 2 ^ (64 - R)) in *.
  assert (Hx' : x = 2 ^ (64 - R) * q + r) by (apply Z.div_mod; lia).
  replace ((r * 2 ^ R + q) mod 2 ^ R) with q.
  2:{ rewrite Z.add_comm, Z.mod_add by lia. symmetry. apply Z.mod_small. lia. }
  replace ((r * 2 ^ R + q) / 2 ^ R) with r.
  2:{ rewrite Z.add_comm, Z.div_add by lia.
      rewrite Z.div_small by lia. reflexivity. }
  lia.
Qed.

Lemma rotr64_rotl64 (R x : Z) :
  0 < R < 64 -> in64 x -> rotr64 R (rotl64 R x) = x.
Proof. intros. rewrite rotr64_as_rotl64. apply rotl64_complement; assumption. Qed.

Lemma rotl64_rotr64 (R x : Z) :
  0 < R < 64 -> in64 x -> rotl64 R (rotr64 R x) = x.
Proof.
  intros HR Hx. rewrite rotr64_as_rotl64.
  replace R with (64 - (64 - R)) at 1 by lia.
  apply rotl64_complement; [lia | assumption].
Qed.

(** ** The byte-permute rotations, one lane at a time *)

Ltac byte_arith :=
  unfold in64, W64, byte_of, lane_of_bytes;
  change (2 ^ (8 * 0)) with 1; change (2 ^ (8 * 1)) with 256;
  change (2 ^ (8 * 2)) with 65536; change (2 ^ (8 * 3)) with 16777216;
  change (2 ^ (8 * 4)) with 4294967296;
  change (2 ^ (8 * 5)) with 1099511627776;
  change (2 ^ (8 * 6)) with 281474976710656;
  change (2 ^ (8 * 7)) with 72057594037927936;
  change (2 ^ (64 - 8)) with 72057594037927936;
  change (2 ^ (64 - (64 - 8))) with 256;
  change (2 ^ 8) with 256;
  change (2 ^ 64) with 18446744073709551616;
  intros; Z.div_mod_to_equations; lia.

Lemma bytes_up_one (x : Z) :
  in64 x ->
  lane_of_bytes [byte_of x 7; byte_of x 0; byte_of x 1; byte_of x 2;
                 byte_of x 3; byte_of x 4; byte_of x 5; byte_of x 6]
  = (x mod 2 ^ (64 - 8)) * 2 ^ 8 + x / 2 ^ (64 - 8).
Proof. byte_arith. Qed.

Lemma bytes_down_one (x : Z) :
  in64 x ->
  lane_of_bytes [byte_of x 1; byte_of x 2; byte_of x 3; byte_of x 4;
                 byte_of x 5; byte_of x 6; byte_of x 7; byte_of x 0]
  = (x mod 2 ^ (64 - (64 - 8))) * 2 ^ (64 - 8) + x / 2 ^ (64 - (64 - 8)).
Proof. byte_arith. Qed.

Lemma bytes_up_one_rotl64 (x : Z) :
  in64 x ->
  lane_of_bytes [byte_of x 7; byte_of x 0; byte_of x 1; byte_of x 2;
                 byte_of x 3; byte_of x 4; byte_of x 5; byte_of x 6]
  = rotl64 8 x.
Proof.
  intros Hx. rewrite bytes_up_one, rotl64_arith by (assumption || lia).
  reflexivity.
Qed.

Lemma bytes_down_one_rotr64 (x : Z) :
  in64 x ->
  lane_of_bytes [byte_of x 1; byte_of x 2; byte_of x 3; byte_of x 4;
                 byte_of x 5; byte_of x 6; byte_of x 7; byte_of x 0]
  = rotr64 8 x.
Proof.
  intros Hx. rewrite bytes_down_one, rotr64_as_rotl64, rotl64_arith
    by (assumption || lia).
  reflexivity.
Qed.

Lemma SSSE3_RotateLeft64_8_lanes (v : vec) :
  wf_vec v -> SSSE3.RotateLeft64_8 v = lanewise (rotl64 8) v.
Proof.
  intros [Hl Hh]. destruct v as [l h]. simpl in Hl, Hh.
  transitivity (mkvec
    (lane_of_bytes [byte_of l 7; byte_of l 0; byte_of l 1; byte_of l 2;
                    byte_of l 3; byte_of l 4; byte_of l 5; byte_of l 6])
    (lane_of_bytes [byte_of h 7; byte_of h 0; byte_of h 1; byte_of h 2;
                    byte_of h 3; byte_of h 4; byte_of h 5; byte_of h 6])).
  - reflexivity.
  - rewrite !bytes_up_one_rotl64 by assumption. reflexivity.
Qed.

Lemma SSSE3_RotateRight64_8_lanes (v : vec) :
  wf_vec v -> SSSE3.RotateRight64_8 v = lanewise (rotr64 8) v.
Proof.
  intros [Hl Hh]. destruct v as [l h]. simpl in Hl, Hh.
  transitivity (mkvec
    (lane_of_bytes [byte_of l 1; byte_of l 2; byte_of l 3; byte_of l 4;
                    byte_of l 5; byte_of l 6; byte_of l 7; byte_of l 0])
    (lane_of_bytes [byte_of h 1; byte_of h 2; byte_of h 3; byte_of h 4;
                    byte_of h 5; byte_of h 6; byte_of h 7; byte_of h 0])).
  - reflexivity.
  - rewrite !bytes_down_one_rotr64 by assumption. reflexivity.
Qed.

Lemma NEON_RotateLeft64_8_lanes (v : vec) :
  wf_vec v -> NEON.RotateLeft64_8 v = lanewise (rotl64 8) v.
Proof.
  intros [Hl Hh]. destruct v as [l h]. simpl in Hl, Hh.
  transitivity (mkvec
    (lane_of_bytes [byte_of l 7; byte_of l 0; byte_of l 1; byte_of l 2;
                    byte_of l 3; byte_of l 4; byte_of l 5; byte_of l 6])
    (lane_of_bytes [byte_of h 7; byte_of h 0; byte_of h 1; byte_of h 2;
                    byte_of h 3; byte_of h 4; byte_of h 5; byte_of h 6])).
  - reflexivity.
  - rewrite !bytes_up_one_rotl64 by assumption. reflexivity.
Qed.

Lemma NEON_RotateRight64_8_lanes (v : vec) :
  wf_vec v -> NEON.RotateRight64_8 v = lanewise (rotr64 8) v.
Proof.
  intros [Hl Hh]. destruct v as [l h]. simpl in Hl, Hh.
  transitivity (mkvec
    (lane_of_bytes [byte_of l 1; byte_of l 2; byte_of l 3; byte_of l 4;
                    byte_of l 5; byte_of l 6; byte_of l 7; byte_of l 0])
    (lane_of_bytes [byte_of h 1; byte_of h 2; byte_of h 3; byte_of h 4;
                    byte_of h 5; byte_of h 6; byte_of h 7; byte_of h 0])).
  - reflexivity.
  - rewrite !bytes_down_one_rotr64 by assumption. reflexivity.
Qed.

(** ** Reading round keys *)

Lemma read64_nth (K : list Z) (j : nat) (k : Z) :
  nth_error K j = Some k -> read64 K (Z.of_nat j) = Done k.
Proof.
  intros H. unfold read64.
  destruct (Z.ltb_spec (Z.of_nat j) 0) as [Hneg | _]; [lia |].
  rewrite Nat2Z.id, H. reflexivity.
Qed.

Lemma read64_beyond (K : list Z) (i : Z) :
  Z.of_nat (length K) <= i -> read64 K i = Fault.
Proof.
  intros H. unfold read64.
  destruct (Z.ltb_spec i 0) as [_ | Hpos]; [reflexivity |].
  destruct (nth_error K (Z.to_nat i)) eqn:E; [| reflexivity].
  assert (Z.to_nat i < length K)%nat by (apply nth_error_Some; congruence).
  lia.
Qed.

Lemma splat_length (K : list Z) : length (splat K) = (2 * length K)%nat.
Proof. induction K as [| k K IH]; simpl; [reflexivity | rewrite IH; lia]. Qed.

Lemma splat_nth_even (K : list Z) (j : nat) (k : Z) :
  nth_error K j = Some k -> nth_error (splat K) (2 * j) = Some k.
Proof.
  revert j. induction K as [| a K IH]; intros [| j] H; simpl in *; try discriminate.
  - assumption.
  - replace (j + S (j + 0))%nat with (S (2 * j)) by lia. simpl. apply IH, H.
Qed.

Lemma splat_nth_odd (K : list Z) (j : nat) (k : Z) :
  nth_error K j = Some k -> nth_error (splat K) (2 * j + 1) = Some k.
Proof.
  revert j. induction K as [| a K IH]; intros [| j] H; simpl in *; try discriminate.
  - assumption.
  - replace (j + S (j + 0) + 1)%nat with (S (2 * j + 1)) by lia. simpl. apply IH, H.
Qed.

Lemma load_splat (K : list Z) (j : nat) (k : Z) :
  nth_error K j = Some k ->
  SSSE3._mm_load_si128 (splat K) (2 * Z.of_nat j) = Done (mkvec k k).
Proof.
  intros H.
  assert (E1 : read64 (splat K) (2 * Z.of_nat j) = Done k).
  { replace (2 * Z.of_nat j) with (Z.of_nat (2 * j)) by lia.
    apply read64_nth, splat_nth_even, H. }
  assert (E2 : read64 (splat K) (2 * Z.of_nat j + 1) = Done k).
  { replace (2 * Z.of_nat j + 1) with (Z.of_nat (2 * j + 1)) by lia.
    apply read64_nth, splat_nth_odd, H. }
  unfold SSSE3._mm_load_si128. rewrite E1. cbn [bind]. rewrite E2. reflexivity.
Qed.

Lemma loaddup_nth (K : list Z) (j : nat) (k : Z) :
  nth_error K j = Some k ->
  SSSE3._mm_loaddup_pd K (Z.of_nat j) = Done (mkvec k k).
Proof.
  intros H. unfold SSSE3._mm_loaddup_pd. rewrite (read64_nth _ _ _ H). reflexivity.
Qed.

Lemma vld1q_dup_nth (K : list Z) (j : nat) (k : Z) :
  nth_error K j = Some k ->
  NEON.vld1q_dup_u64 K (Z.of_nat j) = Done (mkvec k k).
Proof.
  intros H. unfold NEON.vld1q_dup_u64. rewrite (read64_nth _ _ _ H). reflexivity.
Qed.

(** ** Counted loops *)

Section Loops.

Context {S : Type}.
Variable P : S -> Prop.
Variable body : Z -> S -> outcome S.

(** An upward loop with stride one consumes the keys front to back. *)
Lemma for_up_fold (h : Z -> S -> S) :
  forall (K : list Z) (fuel : nat) (i bound : Z) (s : S),
    0 <= i -> bound = i + Z.of_nat (length K) -> bound < W64 ->
    (forall j k s, P s -> nth_error K j = Some k ->
                   body (i + Z.of_nat j) s = Done (h k s) /\ P (h k s)) ->
    P s -> (length K <= fuel)%nat ->
    for_up fuel i bound 1 body s = Done (fold_left (fun s k => h k s) K s)
    /\ P (fold_left (fun s k => h k s) K s).
Proof.
  induction K as [| k K IH]; intros fuel i bound s Hi Hb Hw Hbody Hs Hf.
  - simpl in *. split; [| assumption].
    destruct fuel; simpl; destruct (Z.ltb_spec i bound); try lia; reflexivity.
  - destruct fuel as [| fuel]; [simpl in Hf; lia |].
    simpl length in *. simpl for_up.
    destruct (Z.ltb_spec i bound) as [_ | Hge]; [| lia].
    destruct (Hbody 0%nat k s Hs eq_refl) as [E Hs'].
    rewrite Z.add_0_r in E. rewrite E. cbn [bind].
    unfold size_t. rewrite Z.mod_small by (unfold W64 in *; lia).
    simpl fold_left. apply IH; try lia; try assumption.
    intros j k' s' Hs'' Hj.
    replace (i + 1 + Z.of_nat j) with (i + Z.of_nat (Datatypes.S j)) by lia.
    apply Hbody; assumption.
Qed.

(** With too little fuel the same loop is cut short. *)
Lemma for_up_short (h : Z -> S -> S) :
  forall (K : list Z) (fuel : nat) (i bound : Z) (s : S),
    0 <= i -> bound = i + Z.of_nat (length K) -> bound < W64 ->
    (forall j k s, P s -> nth_error K j = Some k ->
                   body (i + Z.of_nat j) s = Done (h k s) /\ P (h k s)) ->
    P s -> (fuel < length K)%nat ->
    for_up fuel i bound 1 body s = Timeout.
Proof.
  induction K as [| k K IH]; intros fuel i bound s Hi Hb Hw Hbody Hs Hf.
  - simpl in Hf. lia.
  - simpl length in *. destruct fuel as [| fuel]; simpl for_up;
      destruct (Z.ltb_spec i bound) as [_ | Hge]; try lia; [reflexivity |].
    destruct (Hbody 0%nat k s Hs eq_refl) as [E Hs'].
    rewrite Z.add_0_r in E. rewrite E. cbn [bind].
    unfold size_t. rewrite Z.mod_small by (unfold W64 in *; lia).
    apply IH; try lia; try assumption.
    intros j k' s' Hs'' Hj.
    replace (i + 1 + Z.of_nat j) with (i + Z.of_nat (Datatypes.S j)) by lia.
    apply Hbody; assumption.
Qed.

(** An upward loop with stride two consumes the keys two at a time. *)
Lemma for_up_fold2 (h : Z -> S -> S) :
  forall (m : nat) (K : list Z) (fuel : nat) (i bound : Z) (s : S),
    length K = (2 * m)%nat ->
    0 <= i -> bound + 1 = i + 2 * Z.of_nat m -> bound + 1 < W64 ->
    (forall j k1 k2 s, P s ->
       nth_error K (2 * j) = Some k1 -> nth_error K (2 * j + 1) = Some k2 ->
       body (i + 2 * Z.of_nat j) s = Done (h k2 (h k1 s)) /\ P (h k2 (h k1 s))) ->
    P s -> (m <= fuel)%nat ->
    for_up fuel i bound 2 body s = Done (fold_left (fun s k => h k s) K s)
    /\ P (fold_left (fun s k => h k s) K s).
Proof.
  induction m as [| m IH]; intros K fuel i bound s HK Hi Hb Hw Hbody Hs Hf.
  - destruct K; [| discriminate]. simpl. split; [| assumption].
    destruct fuel; simpl; destruct (Z.ltb_spec i bound); try lia; reflexivity.
  - destruct K as [| k1 [| k2 K]]; try (simpl in HK; lia).
    destruct fuel as [| fuel]; [lia |].
    simpl for_up.
    destruct (Z.ltb_spec i bound) as [_ | Hge]; [| lia].
    destruct (Hbody 0%nat k1 k2 s Hs eq_refl eq_refl) as [E Hs'].
    change (2 * Z.of_nat 0) with 0 in E. rewrite Z.add_0_r in E.
    rewrite E. cbn [bind].
    unfold size_t. rewrite Z.mod_small by (unfold W64 in *; lia).
    simpl fold_left. apply IH; try lia; try assumption.
    + simpl in HK. lia.
    + intros j a b s' Hs'' Ha Hb'.
      replace (i + 2 + 2 * Z.of_nat j) with (i + 2 * Z.of_nat (Datatypes.S j)) by lia.
      apply Hbody; [assumption | |].
      * replace (2 * Datatypes.S j)%nat with (Datatypes.S (Datatypes.S (2 * j))) by lia.
        exact Ha.
      * replace (2 * Datatypes.S j + 1)%nat
          with (Datatypes.S (Datatypes.S (2 * j + 1))) by lia.
        exact Hb'.
Qed.

Lemma for_up_short2 (h : Z -> S -> S) :
  forall (m : nat) (K : list Z) (fuel : nat) (i bound : Z) (s : S),
    length K = (2 * m)%nat ->
    0 <= i -> bound + 1 = i + 2 * Z.of_nat m -> bound + 1 < W64 ->
    (forall j k1 k2 s, P s ->
       nth_error K (2 * j) = Some k1 -> nth_error K (2 * j + 1) = Some k2 ->
       body (i + 2 * Z.of_nat j) s = Done (h k2 (h k1 s)) /\ P (h k2 (h k1 s))) ->
    P s -> (fuel < m)%nat ->
    for_up fuel i bound 2 body s = Timeout.
Proof.
  induction m as [| m IH]; intros K fuel i bound s HK Hi Hb Hw Hbody Hs Hf.
  - lia.
  - destruct K as [| k1 [| k2 K]]; try (simpl in HK; lia).
    destruct fuel as [| fuel]; simpl for_up;
      destruct (Z.ltb_spec i bound) as [_ | Hge]; try lia; [reflexivity |].
    destruct (Hbody 0%nat k1 k2 s Hs eq_refl eq_refl) as [E Hs'].
    change (2 * Z.of_nat 0) with 0 in E. rewrite Z.add_0_r in E.
    rewrite E. cbn [bind].
    unfold size_t. rewrite Z.mod_small by (unfold W64 in *; lia).
    apply IH with (K := K); try lia; try assumption.
    + simpl in HK. lia.
    + intros j a b s' Hs'' Ha Hb'.
      replace (i + 2 + 2 * Z.of_nat j) with (i + 2 * Z.of_nat (Datatypes.S j)) by lia.
      apply Hbody; [assumption | |].
      * replace (2 * Datatypes.S j)%nat with (Datatypes.S (Datatypes.S (2 * j))) by lia.
        exact Ha.
      * replace (2 * Datatypes.S j + 1)%nat
          with (Datatypes.S (Datatypes.S (2 * j + 1))) by lia.
        exact Hb'.
Qed.

(** A downward loop with stride one consumes the keys back to front. *)
Lemma for_down_fold (u : Z -> S -> S) :
  forall (K : list Z) (fuel : nat) (s : S),
    (forall j k s, P s -> nth_error K j = Some k ->
                   body (Z.of_nat j) s = Done (u k s) /\ P (u k s)) ->
    P s -> (length K <= fuel)%nat ->
    for_down fuel (Z.of_nat (length K) - 1) 1 body s = Done (fold_right u s K)
    /\ P (fold_right u s K).
Proof.
  induction K as [| k K IH] using rev_ind; intros fuel s Hbody Hs Hf.
  - simpl. split; [| assumption]. destruct fuel; reflexivity.
  - rewrite length_app in *. simpl length in *.
    destruct fuel as [| fuel]; [lia |].
    simpl for_down.
    destruct (Z.leb_spec 0 (Z.of_nat (length K + 1) - 1)) as [_ | Hneg]; [| lia].
    replace (Z.of_nat (length K + 1) - 1) with (Z.of_nat (length K)) by lia.
    assert (Hk : nth_error (K ++ [k]) (length K) = Some k).
    { rewrite nth_error_app2 by lia. rewrite Nat.sub_diag. reflexivity. }
    destruct (Hbody _ _ s Hs Hk) as [E Hs']. rewrite E. cbn [bind].
    rewrite fold_right_app. simpl fold_right.
    apply IH; try lia; try assumption.
    intros j k' s' Hs'' Hj. apply Hbody; [assumption |].
    rewrite nth_error_app1; [assumption |].
    apply nth_error_Some. congruence.
Qed.

End Loops.

Lemma split_last2 {A : Type} (K : list A) (n : nat) :
  length K = Datatypes.S (Datatypes.S n) ->
  exists K' a b, K = K' ++ [a; b] /\ length K' = n.
Proof.
  intros H.
  pose proof (firstn_skipn n K) as E.
  assert (Hs : length (skipn n K) = 2%nat) by (rewrite length_skipn; lia).
  destruct (skipn n K) as [| a [| b [| c r]]]; try discriminate.
  exists (firstn n K), a, b. split; [symmetry; exact E |].
  rewrite length_firstn. lia.
Qed.

Section LoopsDown2.

Context {S : Type}.
Variable P : S -> Prop.
Variable body : Z -> S -> outcome S.

(** A downward loop with stride two consumes the keys two at a time, back
    to front. *)
Lemma for_down_fold2 (u : Z -> S -> S) :
  forall (m : nat) (K : list Z) (fuel : nat) (s : S),
    length K = (2 * m)%nat ->
    (forall j k1 k2 s, P s ->
       nth_error K (2 * j) = Some k1 -> nth_error K (2 * j + 1) = Some k2 ->
       body (2 * Z.of_nat j) s = Done (u k1 (u k2 s)) /\ P (u k1 (u k2 s))) ->
    P s -> (m <= fuel)%nat ->
    for_down fuel (2 * Z.of_nat m - 2) 2 body s = Done (fold_right u s K)
    /\ P (fold_right u s K).
Proof.
  induction m as [| m IH]; intros K fuel s HK Hbody Hs Hf.
  - destruct K; [| discriminate]. simpl. split; [| assumption].
    destruct fuel; reflexivity.
  - destruct (split_last2 K (2 * m)) as (K' & a & b & EK & HK'); [lia |].
    subst K.
    destruct fuel as [| fuel]; [lia |].
    cbn [for_down].
    destruct (Z.leb_spec 0 (2 * Z.of_nat (Datatypes.S m) - 2)) as [_ | Hneg]; [| lia].
    replace (2 * Z.of_nat (Datatypes.S m) - 2) with (2 * Z.of_nat m) by lia.
    assert (Ha : nth_error (K' ++ [a; b]) (2 * m) = Some a).
    { rewrite nth_error_app2 by lia. rewrite HK', Nat.sub_diag. reflexivity. }
    assert (Hb : nth_error (K' ++ [a; b]) (2 * m + 1) = Some b).
    { rewrite nth_error_app2 by lia. rewrite HK'.
      replace (2 * m + 1 - 2 * m)%nat with 1%nat by lia. reflexivity. }
    destruct (Hbody _ _ _ s Hs Ha Hb) as [E Hs']. rewrite E. cbn [bind].
    rewrite fold_right_app. simpl fold_right.
    apply IH; try lia; try assumption.
    intros j k1 k2 s' Hs'' Hj1 Hj2. apply Hbody; [assumption | |].
    + rewrite nth_error_app1; [assumption |]. apply nth_error_Some. congruence.
    + rewrite nth_error_app1; [assumption |]. apply nth_error_Some. congruence.
Qed.

End LoopsDown2.

(** ** One kernel round is the scalar round on both lanes *)

Lemma wf_mkvec (a b : Z) : in64 a -> in64 b -> wf_vec (mkvec a b).
Proof. intros; split; assumption. Qed.

Lemma size_t_small (z : Z) : 0 <= z < W64 -> size_t z = z.
Proof. intros H. unfold size_t. apply Z.mod_small. exact H. Qed.

Lemma uint_small (z : Z) : 0 <= z < W32 -> uint z = z.
Proof. intros H. unfold uint. apply Z.mod_small. exact H. Qed.

Lemma speck_enc_round_wf (k : Z) (s : vec * vec) :
  in64 k -> wf_pair s -> wf_pair (on_lanes (speck_enc_round k) s).
Proof.
  intros Hk [[Hxl Hxh] [Hyl Hyh]]. destruct s as [[xl xh] [yl yh]]. simpl in *.
  split; split; simpl;
    repeat (first [ apply in64_lxor | apply in64_add64 | apply in64_rotl64
                  | apply in64_rotr64 | assumption | lia ]).
Qed.

Lemma speck_dec_round_wf (k : Z) (s : vec * vec) :
  in64 k -> wf_pair s -> wf_pair (on_lanes (speck_dec_round k) s).
Proof.
  intros Hk [[Hxl Hxh] [Hyl Hyh]]. destruct s as [[xl xh] [yl yh]]. simpl in *.
  split; split; simpl;
    repeat (first [ apply in64_rotl64 | apply in64_rotr64 | apply in64_lxor
                  | apply in64_sub64 | assumption | lia ]).
Qed.

Lemma simon_f_in64 (v : Z) : in64 v -> in64 (simon_f v).
Proof.
  intros Hv. unfold simon_f.
  repeat (first [ apply in64_lxor | apply in64_land | apply in64_rotl64
                | assumption | lia ]).
Qed.

Lemma simon_round_wf (k : Z) (s : vec * vec) :
  in64 k -> wf_pair s -> wf_pair (on_lanes (simon_round k) s).
Proof.
  intros Hk [[Hxl Hxh] [Hyl Hyh]]. destruct s as [[xl xh] [yl yh]]. simpl in *.
  split; split; simpl;
    repeat (first [ apply in64_lxor | apply in64_land | apply in64_rotl64
                  | assumption | lia ]).
Qed.

Lemma simon_unround_wf (k : Z) (s : vec * vec) :
  in64 k -> wf_pair s -> wf_pair (on_lanes (simon_unround k) s).
Proof.
  intros Hk [[Hxl Hxh] [Hyl Hyh]]. destruct s as [[xl xh] [yl yh]]. simpl in *.
  split; split; simpl;
    repeat (first [ apply in64_lxor | apply in64_land | apply in64_rotl64
                  | assumption | lia ]).
Qed.

Lemma wf_lxor (a b : vec) : wf_vec a -> wf_vec b -> wf_vec (lanewise2 Z.lxor a b).
Proof. intros [? ?] [? ?]. split; simpl; apply in64_lxor; assumption. Qed.

Lemma wf_land (a b : vec) : wf_vec a -> wf_vec b -> wf_vec (lanewise2 Z.land a b).
Proof. intros [? ?] [? ?]. split; simpl; apply in64_land; assumption. Qed.

Lemma wf_add64 (a b : vec) : wf_vec (lanewise2 add64 a b).
Proof. split; simpl; apply in64_add64. Qed.

Lemma wf_sub64 (a b : vec) : wf_vec (lanewise2 sub64 a b).
Proof. split; simpl; apply in64_sub64. Qed.

Lemma wf_rotl64 (R : Z) (v : vec) :
  0 <= R <= 64 -> wf_vec v -> wf_vec (lanewise (rotl64 R) v).
Proof. intros HR [? ?]. split; simpl; apply in64_rotl64; assumption. Qed.

Lemma wf_rotr64 (R : Z) (v : vec) :
  0 <= R <= 64 -> wf_vec v -> wf_vec (lanewise (rotr64 R) v).
Proof. intros HR [? ?]. split; simpl; apply in64_rotr64; assumption. Qed.

Lemma wf_simon_f (v : vec) : wf_vec v -> wf_vec (lanewise simon_f v).
Proof. intros [? ?]. split; simpl; apply simon_f_in64; assumption. Qed.

Ltac wf_tac :=
  repeat first
    [ assumption
    | apply wf_add64
    | apply wf_sub64
    | apply wf_lxor
    | apply wf_land
    | apply wf_simon_f
    | apply wf_rotl64; [lia |]
    | apply wf_rotr64; [lia |]
    | apply wf_mkvec ].

Lemma SSSE3_RotateLeft64_lanes (R : Z) (v : vec) :
  R <> 8 \/ wf_vec v -> SSSE3.RotateLeft64 R v = lanewise (rotl64 R) v.
Proof.
  intros H. unfold SSSE3.RotateLeft64.
  destruct (Z.eqb_spec R 8) as [-> | Hne].
  - destruct H as [H | H]; [contradiction |].
    apply SSSE3_RotateLeft64_8_lanes, H.
  - reflexivity.
Qed.

Lemma SSSE3_RotateRight64_lanes (R : Z) (v : vec) :
  R <> 8 \/ wf_vec v -> SSSE3.RotateRight64 R v = lanewise (rotr64 R) v.
Proof.
  intros H. unfold SSSE3.RotateRight64.
  destruct (Z.eqb_spec R 8) as [-> | Hne].
  - destruct H as [H | H]; [contradiction |].
    apply SSSE3_RotateRight64_8_lanes, H.
  - reflexivity.
Qed.

Lemma NEON_RotateLeft64_lanes (R : Z) (v : vec) :
  R <> 8 \/ wf_vec v -> NEON.RotateLeft64 R v = lanewise (rotl64 R) v.
Proof.
  intros H. unfold NEON.RotateLeft64.
  destruct (Z.eqb_spec R 8) as [-> | Hne].
  - destruct H as [H | H]; [contradiction |].
    apply NEON_RotateLeft64_8_lanes, H.
  - reflexivity.
Qed.

Lemma NEON_RotateRight64_lanes (R : Z) (v : vec) :
  R <> 8 \/ wf_vec v -> NEON.RotateRight64 R v = lanewise (rotr64 R) v.
Proof.
  intros H. unfold NEON.RotateRight64.
  destruct (Z.eqb_spec R 8) as [-> | Hne].
  - destruct H as [H | H]; [contradiction |].
    apply NEON_RotateRight64_8_lanes, H.
  - reflexivity.
Qed.

Ltac rot_side := first [ left; lia | right; wf_tac ].

Ltac rot_lanes :=
  repeat first
    [ rewrite SSSE3_RotateLeft64_lanes by rot_side
    | rewrite SSSE3_RotateRight64_lanes by rot_side
    | rewrite NEON_RotateLeft64_lanes by rot_side
    | rewrite NEON_RotateRight64_lanes by rot_side ].

Lemma SSSE3_SIMON128_f_lanes (v : vec) :
  wf_vec v -> SSSE3.SIMON128_f v = lanewise simon_f v.
Proof. intros H. unfold SSSE3.SIMON128_f. rot_lanes. reflexivity. Qed.

Lemma NEON_SIMON128_f_lanes (v : vec) :
  wf_vec v -> NEON.SIMON128_f v = lanewise simon_f v.
Proof. intros H. unfold NEON.SIMON128_f. rot_lanes. reflexivity. Qed.

Lemma SSSE3_SIMON128_f_wf (v : vec) : wf_vec v -> wf_vec (SSSE3.SIMON128_f v).
Proof. intros H. rewrite SSSE3_SIMON128_f_lanes by assumption. wf_tac. Qed.

Lemma NEON_SIMON128_f_wf (v : vec) : wf_vec v -> wf_vec (NEON.SIMON128_f v).
Proof. intros H. rewrite NEON_SIMON128_f_lanes by assumption. wf_tac. Qed.

Ltac wf_full :=
  repeat first
    [ assumption
    | apply SSSE3_SIMON128_f_wf
    | apply NEON_SIMON128_f_wf
    | apply wf_add64
    | apply wf_sub64
    | apply wf_lxor
    | apply wf_land
    | apply wf_simon_f
    | apply wf_rotl64; [lia |]
    | apply wf_rotr64; [lia |]
    | apply wf_mkvec ].

(** *** SPECK *)

Lemma SSSE3_SPECK128_Enc_round_lanes (K : list Z) (j : nat) (k : Z) (s : vec * vec) :
  nth_error K j = Some k -> Z.of_nat j * 2 < W64 -> wf_pair s ->
  SSSE3.SPECK128_Enc_round (splat K) (Z.of_nat j) s
  = Done (on_lanes (speck_enc_round k) s).
Proof.
  intros Hk Hj [Hx Hy]. destruct s as [x y]. simpl in Hx, Hy.
  unfold SSSE3.SPECK128_Enc_round.
  rewrite size_t_small by lia.
  replace (Z.of_nat j * 2) with (2 * Z.of_nat j) by lia.
  rewrite (load_splat _ _ _ Hk). cbn [bind].
  rot_lanes. reflexivity.
Qed.

Lemma SSSE3_SPECK128_Dec_round_lanes (K : list Z) (j : nat) (k : Z) (s : vec * vec) :
  nth_error K j = Some k -> wf_pair s ->
  SSSE3.SPECK128_Dec_round K (Z.of_nat j) s
  = Done (on_lanes (speck_dec_round k) s).
Proof.
  intros Hk [Hx Hy]. destruct s as [x y]. simpl in Hx, Hy.
  unfold SSSE3.SPECK128_Dec_round.
  rewrite (loaddup_nth _ _ _ Hk). cbn [bind].
  rot_lanes. reflexivity.
Qed.

Lemma NEON_SPECK128_Enc_round_lanes (K : list Z) (j : nat) (k : Z) (s : vec * vec) :
  nth_error K j = Some k -> wf_pair s ->
  NEON.SPECK128_Enc_round K (Z.of_nat j) s
  = Done (on_lanes (speck_enc_round k) s).
Proof.
  intros Hk [Hx Hy]. destruct s as [x y]. simpl in Hx, Hy.
  unfold NEON.SPECK128_Enc_round.
  rewrite (vld1q_dup_nth _ _ _ Hk). cbn [bind].
  rot_lanes. reflexivity.
Qed.

Lemma NEON_SPECK128_Dec_round_lanes (K : list Z) (j : nat) (k : Z) (s : vec * vec) :
  nth_error K j = Some k -> wf_pair s ->
  NEON.SPECK128_Dec_round K (Z.of_nat j) s
  = Done (on_lanes (speck_dec_round k) s).
Proof.
  intros Hk [Hx Hy]. destruct s as [x y]. simpl in Hx, Hy.
  unfold NEON.SPECK128_Dec_round.
  rewrite (vld1q_dup_nth _ _ _ Hk). cbn [bind].
  rot_lanes. reflexivity.
Qed.

(** *** SIMON *)

Lemma SSSE3_SIMON128_Enc_round2_lanes (K : list Z) (j : nat) (k1 k2 : Z) (s : vec * vec) :
  nth_error K (2 * j) = Some k1 -> nth_error K (2 * j + 1) = Some k2 ->
  4 * Z.of_nat j + 4 < W64 -> wf_pair s -> in64 k1 -> in64 k2 ->
  SSSE3.SIMON128_Enc_round2 (splat K) (2 * Z.of_nat j) s
  = Done (on_lanes (simon_round k2) (on_lanes (simon_round k1) s)).
Proof.
  intros H1 H2 Hj [Hx Hy] Hk1 Hk2. destruct s as [x y]. simpl in Hx, Hy.
  unfold SSSE3.SIMON128_Enc_round2.
  rewrite (size_t_small (2 * Z.of_nat j + 1)) by lia.
  rewrite !size_t_small by lia.
  replace (2 * Z.of_nat j * 2) with (2 * Z.of_nat (2 * j)) by lia.
  replace ((2 * Z.of_nat j + 1) * 2) with (2 * Z.of_nat (2 * j + 1)) by lia.
  rewrite (load_splat _ _ _ H1). cbn [bind].
  rewrite (load_splat _ _ _ H2). cbn [bind].
  rewrite !SSSE3_SIMON128_f_lanes by wf_full.
  destruct x, y. reflexivity.
Qed.

Lemma NEON_SIMON128_Enc_round2_lanes (K : list Z) (j : nat) (k1 k2 : Z) (s : vec * vec) :
  nth_error K (2 * j) = Some k1 -> nth_error K (2 * j + 1) = Some k2 ->
  wf_pair s -> in64 k1 -> in64 k2 ->
  NEON.SIMON128_Enc_round2 K (2 * Z.of_nat j) s
  = Done (on_lanes (simon_round k2) (on_lanes (simon_round k1) s)).
Proof.
  intros H1 H2 [Hx Hy] Hk1 Hk2. destruct s as [x y]. simpl in Hx, Hy.
  unfold NEON.SIMON128_Enc_round2.
  replace (2 * Z.of_nat j + 1) with (Z.of_nat (2 * j + 1)) by lia.
  replace (2 * Z.of_nat j) with (Z.of_nat (2 * j)) by lia.
  rewrite (vld1q_dup_nth _ _ _ H1). cbn [bind].
  rewrite (vld1q_dup_nth _ _ _ H2). cbn [bind].
  rewrite !NEON_SIMON128_f_lanes by wf_full.
  destruct x, y. reflexivity.
Qed.

Lemma lxor_swap_last (a b c : Z) : Z.lxor (Z.lxor a b) c = Z.lxor (Z.lxor a c) b.
Proof. rewrite !Z.lxor_assoc. f_equal. apply Z.lxor_comm. Qed.

Lemma SSSE3_SIMON128_Dec_round2_lanes (K : list Z) (j : nat) (k1 k2 : Z) (s : vec * vec) :
  nth_error K (2 * j) = Some k1 -> nth_error K (2 * j + 1) = Some k2 ->
  wf_pair s -> in64 k1 -> in64 k2 ->
  SSSE3.SIMON128_Dec_round2 K (2 * Z.of_nat j) s
  = Done (on_lanes (simon_unround k1) (on_lanes (simon_unround k2) s)).
Proof.
  intros H1 H2 [Hx Hy] Hk1 Hk2. destruct s as [x y]. simpl in Hx, Hy.
  unfold SSSE3.SIMON128_Dec_round2.
  replace (2 * Z.of_nat j + 1) with (Z.of_nat (2 * j + 1)) by lia.
  replace (2 * Z.of_nat j) with (Z.of_nat (2 * j)) by lia.
  rewrite (loaddup_nth _ _ _ H2). cbn [bind].
  rewrite (loaddup_nth _ _ _ H1). cbn [bind].
  rewrite !SSSE3_SIMON128_f_lanes by wf_full.
  destruct x, y. reflexivity.
Qed.

Lemma NEON_SIMON128_Dec_round2_lanes (K : list Z) (j : nat) (k1 k2 : Z) (s : vec * vec) :
  nth_error K (2 * j) = Some k1 -> nth_error K (2 * j + 1) = Some k2 ->
  wf_pair s -> in64 k1 -> in64 k2 ->
  NEON.SIMON128_Dec_round2 K (2 * Z.of_nat j) s
  = Done (on_lanes (simon_unround k1) (on_lanes (simon_unround k2) s)).
Proof.
  intros H1 H2 [Hx Hy] Hk1 Hk2. destruct s as [x y]. simpl in Hx, Hy.
  unfold NEON.SIMON128_Dec_round2.
  replace (2 * Z.of_nat j + 1) with (Z.of_nat (2 * j + 1)) by lia.
  replace (2 * Z.of_nat j) with (Z.of_nat (2 * j)) by lia.
  rewrite (vld1q_dup_nth _ _ _ H2). cbn [bind].
  rewrite (vld1q_dup_nth _ _ _ H1). cbn [bind].
  rewrite !NEON_SIMON128_f_lanes by wf_full.
  destruct x, y. reflexivity.
Qed.

(** ** Whole kernels *)

Lemma to_int_pred (r : Z) : 0 <= r <= 2 ^ 31 -> to_int (uint (r - 1)) = r - 1.
Proof.
  intros H. unfold to_int, uint, W32.
  destruct (Z.eq_dec r 0) as [-> | Hr].
  - reflexivity.
  - rewrite Z.mod_small by lia.
    destruct (Z.ltb_spec (r - 1) (2 ^ 31)); lia.
Qed.

Lemma Forall_nth_error {A : Type} (Q : A -> Prop) (l : list A) (j : nat) (a : A) :
  Forall Q l -> nth_error l j = Some a -> Q a.
Proof.
  intros HF Hn. rewrite Forall_forall in HF. apply HF.
  eapply nth_error_In. exact Hn.
Qed.

Lemma undo_run_rounds (round unround : Z -> Z * Z -> Z * Z) :
  (forall k s, in64 k -> wf_pair s ->
     wf_pair (on_lanes (round k) s)
     /\ on_lanes (unround k) (on_lanes (round k) s) = s) ->
  forall K s, Forall in64 K -> wf_pair s ->
    undo_rounds unround K (run_rounds round K s) = s.
Proof.
  intros Hinv K. induction K as [| k K IH]; intros s HK Hs.
  - reflexivity.
  - inversion HK as [| ? ? Hk HK']; subst.
    destruct (Hinv k s Hk Hs) as [Hw E].
    unfold undo_rounds, run_rounds in *. simpl.
    rewrite IH by assumption. exact E.
Qed.

Lemma speck_dec_enc_round (k : Z) (s : vec * vec) :
  in64 k -> wf_pair s ->
  on_lanes (speck_dec_round k) (on_lanes (speck_enc_round k) s) = s.
Proof.
  intros Hk [[Hxl Hxh] [Hyl Hyh]]. destruct s as [[xl xh] [yl yh]].
  cbn [fst snd lo hi] in Hxl, Hxh, Hyl, Hyh.
  assert (L : forall x y, in64 x -> in64 y ->
            speck_dec_round k (speck_enc_round k (x, y)) = (x, y)).
  { intros x y Hx Hy. unfold speck_enc_round, speck_dec_round.
    set (x' := Z.lxor (add64 (rotr64 8 x) y) k).
    assert (Ey : rotr64 3 (Z.lxor (Z.lxor (rotl64 3 y) x') x') = y).
    { rewrite Z.lxor_assoc, Z.lxor_nilpotent, Z.lxor_0_r.
      apply rotr64_rotl64; [lia | assumption]. }
    rewrite Ey. f_equal.
    unfold x'. rewrite Z.lxor_assoc, Z.lxor_nilpotent, Z.lxor_0_r.
    assert (Hr : in64 (rotr64 8 x)) by (apply in64_rotr64; [lia | assumption]).
    assert (Es : sub64 (add64 (rotr64 8 x) y) y = rotr64 8 x).
    { unfold sub64, add64, in64, W64 in *.
      rewrite Zminus_mod_idemp_l.
      replace (rotr64 8 x + y - y) with (rotr64 8 x) by lia.
      apply Z.mod_small. assumption. }
    rewrite Es. apply rotl64_rotr64; [lia | assumption]. }
  unfold on_lanes.
  pose proof (L xl yl Hxl Hyl) as El. pose proof (L xh yh Hxh Hyh) as Eh.
  cbn [lo hi fst snd].
  destruct (speck_enc_round k (xl, yl)) as [al bl].
  destruct (speck_enc_round k (xh, yh)) as [ah bh].
  cbn [lo hi fst snd]. rewrite El, Eh. reflexivity.
Qed.

Lemma simon_unround_round (k : Z) (s : vec * vec) :
  on_lanes (simon_unround k) (on_lanes (simon_round k) s) = s.
Proof.
  destruct s as [[xl xh] [yl yh]]. unfold on_lanes, simon_round, simon_unround.
  cbn [lo hi fst snd].
  rewrite !(lxor_swap_last _ (simon_f _) k).
  rewrite !(Z.lxor_assoc _ (simon_f _) (simon_f _)).
  rewrite !Z.lxor_nilpotent, !Z.lxor_0_r.
  rewrite !(Z.lxor_assoc _ k k), !Z.lxor_nilpotent, !Z.lxor_0_r.
  reflexivity.
Qed.

Lemma SSSE3_transpose_wf (blocks : vec * vec) :
  wf_pair blocks -> wf_pair (SSSE3.transpose blocks).
Proof.
  destruct blocks as [[a b] [c d]]. intros [[? ?] [? ?]]. split; split; assumption.
Qed.

Lemma SSSE3_detranspose_wf (s : vec * vec) :
  wf_pair s -> wf_pair (SSSE3.detranspose s).
Proof.
  destruct s as [[a b] [c d]]. intros [[? ?] [? ?]]. split; split; assumption.
Qed.

Lemma NEON_transpose_wf (blocks : vec * vec) :
  wf_pair blocks -> wf_pair (NEON.transpose blocks).
Proof.
  destruct blocks as [[a b] [c d]]. intros [[? ?] [? ?]]. split; split; assumption.
Qed.

Lemma NEON_detranspose_wf (s : vec * vec) :
  wf_pair s -> wf_pair (NEON.detranspose s).
Proof.
  destruct s as [[a b] [c d]]. intros [[? ?] [? ?]]. split; split; assumption.
Qed.

Lemma SSSE3_SPECK128_Enc_Block_spec (K : list Z) (fuel : nat) (blocks : vec * vec) :
  Forall in64 K -> wf_pair blocks ->
  Z.of_nat (length K) < 2 ^ 32 -> (length K <= fuel)%nat ->
  SSSE3.SPECK128_Enc_Block fuel (splat K) (Z.of_nat (length K)) blocks
  = Done (SSSE3.detranspose (run_rounds speck_enc_round K (SSSE3.transpose blocks)))
  /\ wf_pair (run_rounds speck_enc_round K (SSSE3.transpose blocks)).
Proof.
  intros HK Hb Hlen Hfuel.
  pose proof (SSSE3_transpose_wf _ Hb) as Ht. destruct blocks as [b0 b1].
  destruct (for_up_fold wf_pair (SSSE3.SPECK128_Enc_round (splat K))
              (fun k s => on_lanes (speck_enc_round k) s)
              K fuel 0 (Z.of_nat (length K)) (SSSE3.transpose (b0, b1)))
    as [E Hw]; try assumption; try (unfold W64; lia).
  { intros j k s Hs Hj. rewrite Z.add_0_l. split.
    - apply SSSE3_SPECK128_Enc_round_lanes; try assumption.
      assert (j < length K)%nat by (apply nth_error_Some; congruence).
      unfold W64. lia.
    - apply speck_enc_round_wf; [| assumption].
      eapply Forall_nth_error; eassumption. }
  split; [| exact Hw].
  unfold SSSE3.SPECK128_Enc_Block.
  rewrite size_t_small by (unfold W64; lia).
  change (SSSE3._mm_unpackhi_epi64 b0 b1, SSSE3._mm_unpacklo_epi64 b0 b1)
    with (SSSE3.transpose (b0, b1)).
  rewrite E. cbn [bind]. unfold run_rounds.
  destruct (fold_left _ K _) as [x y]. reflexivity.
Qed.

Lemma SSSE3_transpose_detranspose (s : vec * vec) :
  SSSE3.transpose (SSSE3.detranspose s) = s.
Proof. destruct s as [[a b] [c d]]. reflexivity. Qed.

Lemma NEON_transpose_detranspose (s : vec * vec) :
  NEON.transpose (NEON.detranspose s) = s.
Proof. destruct s as [[a b] [c d]]. reflexivity. Qed.

Lemma SSSE3_SPECK128_Dec_Block_spec (K : list Z) (fuel : nat) (blocks : vec * vec) :
  Forall in64 K -> wf_pair blocks ->
  Z.of_nat (length K) <= 2 ^ 31 -> (length K <= fuel)%nat ->
  SSSE3.SPECK128_Dec_Block fuel K (Z.of_nat (length K)) blocks
  = Done (SSSE3.detranspose (undo_rounds speck_dec_round K (SSSE3.transpose blocks)))
  /\ wf_pair (undo_rounds speck_dec_round K (SSSE3.transpose blocks)).
Proof.
  intros HK Hb Hlen Hfuel.
  pose proof (SSSE3_transpose_wf _ Hb) as Ht. destruct blocks as [b0 b1].
  destruct (for_down_fold wf_pair (SSSE3.SPECK128_Dec_round K)
              (fun k s => on_lanes (speck_dec_round k) s)
              K fuel (SSSE3.transpose (b0, b1)))
    as [E Hw]; try assumption.
  { intros j k s Hs Hj. split.
    - apply SSSE3_SPECK128_Dec_round_lanes; assumption.
    - apply speck_dec_round_wf; [| assumption].
      eapply Forall_nth_error; eassumption. }
  split; [| exact Hw].
  unfold SSSE3.SPECK128_Dec_Block.
  rewrite to_int_pred by lia.
  change (SSSE3._mm_unpackhi_epi64 b0 b1, SSSE3._mm_unpacklo_epi64 b0 b1)
    with (SSSE3.transpose (b0, b1)).
  rewrite E. cbn [bind]. unfold undo_rounds.
  destruct (fold_right _ _ K) as [x y]. reflexivity.
Qed.

Lemma NEON_SPECK128_Enc_Block_spec (K : list Z) (fuel : nat) (blocks : vec * vec) :
  Forall in64 K -> wf_pair blocks ->
  Z.of_nat (length K) < 2 ^ 32 -> (length K <= fuel)%nat ->
  NEON.SPECK128_Enc_Block fuel K (Z.of_nat (length K)) blocks
  = Done (NEON.detranspose (run_rounds speck_enc_round K (NEON.transpose blocks)))
  /\ wf_pair (run_rounds speck_enc_round K (NEON.transpose blocks)).
Proof.
  intros HK Hb Hlen Hfuel.
  pose proof (NEON_transpose_wf _ Hb) as Ht. destruct blocks as [b0 b1].
  destruct (for_up_fold wf_pair (NEON.SPECK128_Enc_round K)
              (fun k s => on_lanes (speck_enc_round k) s)
              K fuel 0 (Z.of_nat (length K)) (NEON.transpose (b0, b1)))
    as [E Hw]; try assumption; try (unfold W64; lia).
  { intros j k s Hs Hj. rewrite Z.add_0_l. split.
    - apply NEON_SPECK128_Enc_round_lanes; assumption.
    - apply speck_enc_round_wf; [| assumption].
      eapply Forall_nth_error; eassumption. }
  split; [| exact Hw].
  unfold NEON.SPECK128_Enc_Block.
  rewrite size_t_small by (unfold W64; lia).
  change (NEON.UnpackHigh64 b0 b1, NEON.UnpackLow64 b0 b1)
    with (NEON.transpose (b0, b1)).
  rewrite E. cbn [bind]. unfold run_rounds.
  destruct (fold_left _ K _) as [x y]. reflexivity.
Qed.

Lemma NEON_SPECK128_Dec_Block_spec (K : list Z) (fuel : nat) (blocks : vec * vec) :
  Forall in64 K -> wf_pair blocks ->
  Z.of_nat (length K) <= 2 ^ 31 -> (length K <= fuel)%nat ->
  NEON.SPECK128_Dec_Block fuel K (Z.of_nat (length K)) blocks
  = Done (NEON.detranspose (undo_rounds speck_dec_round K (NEON.transpose blocks)))
  /\ wf_pair (undo_rounds speck_dec_round K (NEON.transpose blocks)).
Proof.
  intros HK Hb Hlen Hfuel.
  pose proof (NEON_transpose_wf _ Hb) as Ht. destruct blocks as [b0 b1].
  destruct (for_down_fold wf_pair (NEON.SPECK128_Dec_round K)
              (fun k s => on_lanes (speck_dec_round k) s)
              K fuel (NEON.transpose (b0, b1)))
    as [E Hw]; try assumption.
  { intros j k s Hs Hj. split.
    - apply NEON_SPECK128_Dec_round_lanes; assumption.
    - apply speck_dec_round_wf; [| assumption].
      eapply Forall_nth_error; eassumption. }
  split; [| exact Hw].
  unfold NEON.SPECK128_Dec_Block.
  rewrite to_int_pred by lia.
  change (NEON.UnpackHigh64 b0 b1, NEON.UnpackLow64 b0 b1)
    with (NEON.transpose (b0, b1)).
  rewrite E. cbn [bind]. unfold undo_rounds.
  destruct (fold_right _ _ K) as [x y]. reflexivity.
Qed.

(** *** Parity of the round count *)

Lemma land_1_mod (r : Z) : Z.land r 1 = r mod 2.
Proof. change 1 with (Z.ones 1) at 1. rewrite Z.land_ones by lia. reflexivity. Qed.

Lemma land_clear_bit0 (r : Z) : 0 <= r < W32 -> Z.land r (W32 - 2) = 2 * (r / 2).
Proof.
  intros Hr. change (W32 - 2) with (Z.shiftl (Z.ones 31) 1).
  apply Z.bits_inj'. intros n Hn. rewrite Z.land_spec.
  destruct (Z.eq_dec n 0) as [-> | Hn0].
  - rewrite Z.shiftl_spec_low by lia. rewrite Z.testbit_even_0.
    apply andb_false_r.
  - rewrite Z.shiftl_spec by lia.
    replace n with (Z.succ (n - 1)) at 3 by lia.
    rewrite Z.testbit_even_succ by lia.
    rewrite <- Z.shiftr_div_pow2 with (n := 1) by lia.
    rewrite Z.shiftr_spec by lia.
    replace (n - 1 + 1) with n by lia.
    destruct (Z_lt_dec (n - 1) 31) as [Hlt | Hge].
    + rewrite Z.ones_spec_low by lia. apply andb_true_r.
    + rewrite Z.ones_spec_high by lia. rewrite andb_false_r.
      symmetry. rewrite <- (Z.mod_small r (2 ^ 32)) by exact Hr.
      apply Z.mod_pow2_bits_high. lia.
Qed.

Lemma to_int_pred2 (r : Z) : 0 <= r <= 2 ^ 31 -> to_int (uint (r - 2)) = r - 2.
Proof.
  intros H. unfold to_int, uint, W32.
  destruct (Z_lt_dec r 2) as [Hlt | Hge].
  - assert (Hc : r = 0 \/ r = 1) by lia. destruct Hc as [-> | ->]; reflexivity.
  - rewrite Z.mod_small by lia.
    destruct (Z.ltb_spec (r - 2) (2 ^ 31)); lia.
Qed.

(** Every schedule is a run of key pairs followed by at most one key. *)
Lemma even_prefix (K : list Z) :
  exists (m : nat) (L T : list Z),
    K = L ++ T /\ length L = (2 * m)%nat /\ (T = [] \/ exists k, T = [k]).
Proof.
  exists (length K / 2)%nat, (firstn (2 * (length K / 2)) K),
         (skipn (2 * (length K / 2)) K).
  pose proof (Nat.div_mod_eq (length K) 2) as D.
  pose proof (Nat.mod_upper_bound (length K) 2 ltac:(lia)) as B.
  split; [symmetry; apply firstn_skipn |].
  split; [rewrite length_firstn; lia |].
  assert (Hs : (length (skipn (2 * (length K / 2)) K) <= 1)%nat)
    by (rewrite length_skipn; lia).
  destruct (skipn (2 * (length K / 2)) K) as [| k [| k' r]].
  - left. reflexivity.
  - right. exists k. reflexivity.
  - simpl in Hs. lia.
Qed.

(** *** SIMON: the odd-round tail and head *)

Lemma SSSE3_SIMON128_Enc_tail_even (subkeys : list Z) (rounds : Z) (s : vec * vec) :
  Z.land rounds 1 = 0 -> SSSE3.SIMON128_Enc_tail subkeys rounds s = Done s.
Proof. intros H. unfold SSSE3.SIMON128_Enc_tail. destruct s. rewrite H. reflexivity. Qed.

Lemma SSSE3_SIMON128_Enc_tail_odd (K : list Z) (n : nat) (k : Z) (s : vec * vec) :
  nth_error K n = Some k -> Z.land (Z.of_nat n + 1) 1 = 1 ->
  Z.of_nat n + 1 <= 2 ^ 31 -> wf_pair s ->
  SSSE3.SIMON128_Enc_tail (splat K) (Z.of_nat n + 1) s
  = Done (on_lanes (simon_round k) s).
Proof.
  intros Hk Hodd Hn [Hx Hy]. destruct s as [x y]. simpl in Hx, Hy.
  unfold SSSE3.SIMON128_Enc_tail. rewrite Hodd. cbn [Z.eqb].
  replace (Z.of_nat n + 1 - 1) with (Z.of_nat n) by lia.
  rewrite (uint_small (Z.of_nat n)) by (unfold W32; lia).
  rewrite uint_small by (unfold W32; lia).
  replace (Z.of_nat n * 2) with (2 * Z.of_nat n) by lia.
  rewrite (load_splat _ _ _ Hk). cbn [bind].
  rewrite !SSSE3_SIMON128_f_lanes by wf_full.
  destruct x, y. reflexivity.
Qed.

Lemma NEON_SIMON128_Enc_tail_even (subkeys : list Z) (rounds : Z) (s : vec * vec) :
  Z.land rounds 1 = 0 -> NEON.SIMON128_Enc_tail subkeys rounds s = Done s.
Proof. intros H. unfold NEON.SIMON128_Enc_tail. destruct s. rewrite H. reflexivity. Qed.

Lemma NEON_SIMON128_Enc_tail_odd (K : list Z) (n : nat) (k : Z) (s : vec * vec) :
  nth_error K n = Some k -> Z.land (Z.of_nat n + 1) 1 = 1 -> wf_pair s ->
  NEON.SIMON128_Enc_tail K (Z.of_nat n + 1) s
  = Done (on_lanes (simon_round k) s).
Proof.
  intros Hk Hodd [Hx Hy]. destruct s as [x y]. simpl in Hx, Hy.
  unfold NEON.SIMON128_Enc_tail. rewrite Hodd. cbn [Z.eqb].
  replace (Z.of_nat n + 1 - 1) with (Z.of_nat n) by lia.
  rewrite (vld1q_dup_nth _ _ _ Hk). cbn [bind].
  rewrite !NEON_SIMON128_f_lanes by wf_full.
  destruct x, y. reflexivity.
Qed.

Lemma SSSE3_SIMON128_Dec_head_even (subkeys : list Z) (rounds : Z) (s : vec * vec) :
  Z.land rounds 1 = 0 -> SSSE3.SIMON128_Dec_head subkeys rounds s = Done (rounds, s).
Proof. intros H. unfold SSSE3.SIMON128_Dec_head. destruct s. rewrite H. reflexivity. Qed.

Lemma SSSE3_SIMON128_Dec_head_odd (K : list Z) (n : nat) (k : Z) (s : vec * vec) :
  nth_error K n = Some k -> Z.land (Z.of_nat n + 1) 1 = 1 ->
  Z.of_nat n < W32 -> wf_pair s ->
  SSSE3.SIMON128_Dec_head K (Z.of_nat n + 1) s
  = Done (Z.of_nat n, on_lanes (simon_unround k) s).
Proof.
  intros Hk Hodd Hn [Hx Hy]. destruct s as [x y]. simpl in Hx, Hy.
  unfold SSSE3.SIMON128_Dec_head. rewrite Hodd. cbn [Z.eqb].
  replace (Z.of_nat n + 1 - 1) with (Z.of_nat n) by lia.
  rewrite uint_small by lia.
  rewrite (loaddup_nth _ _ _ Hk). cbn [bind SSSE3.Swap128 fst snd].
  rewrite !SSSE3_SIMON128_f_lanes by wf_full.
  destruct x as [xl xh], y as [yl yh].
  unfold on_lanes, simon_unround, SSSE3._mm_xor_si128, lanewise2, lanewise.
  cbn [lo hi fst snd].
  rewrite (lxor_swap_last xl k), (lxor_swap_last xh k). reflexivity.
Qed.

Lemma NEON_SIMON128_Dec_head_even (subkeys : list Z) (rounds : Z) (s : vec * vec) :
  Z.land rounds 1 = 0 -> NEON.SIMON128_Dec_head subkeys rounds s = Done (rounds, s).
Proof. intros H. unfold NEON.SIMON128_Dec_head. destruct s. rewrite H. reflexivity. Qed.

Lemma NEON_SIMON128_Dec_head_odd (K : list Z) (n : nat) (k : Z) (s : vec * vec) :
  nth_error K n = Some k -> Z.land (Z.of_nat n + 1) 1 = 1 ->
  Z.of_nat n < W32 -> wf_pair s ->
  NEON.SIMON128_Dec_head K (Z.of_nat n + 1) s
  = Done (Z.of_nat n, on_lanes (simon_unround k) s).
Proof.
  intros Hk Hodd Hn [Hx Hy]. destruct s as [x y]. simpl in Hx, Hy.
  unfold NEON.SIMON128_Dec_head. rewrite Hodd. cbn [Z.eqb NEON.swap fst snd].
  replace (Z.of_nat n + 1 - 1) with (Z.of_nat n) by lia.
  rewrite uint_small by lia.
  rewrite (vld1q_dup_nth _ _ _ Hk). cbn [bind].
  rewrite !NEON_SIMON128_f_lanes by wf_full.
  destruct x as [xl xh], y as [yl yh].
  unfold on_lanes, simon_unround, NEON.veorq_u64, lanewise2, lanewise.
  cbn [lo hi fst snd].
  rewrite (lxor_swap_last xl k), (lxor_swap_last xh k). reflexivity.
Qed.

Lemma parity_even (m : nat) : Z.land (Z.of_nat (2 * m)) 1 = 0.
Proof.
  rewrite land_1_mod, Nat2Z.inj_mul. change (Z.of_nat 2) with 2.
  Z.div_mod_to_equations. lia.
Qed.

Lemma parity_odd (m : nat) : Z.land (Z.of_nat (2 * m) + 1) 1 = 1.
Proof.
  rewrite land_1_mod, Nat2Z.inj_mul. change (Z.of_nat 2) with 2.
  Z.div_mod_to_equations. lia.
Qed.

Lemma SIMON_bound_pairs (m : nat) (t : Z) :
  (1 <= m)%nat -> 0 <= t <= 1 -> 2 * Z.of_nat m + t < W32 ->
  size_t (Z.land (2 * Z.of_nat m + t) (W32 - 2) - 1) = 2 * Z.of_nat m - 1.
Proof.
  intros Hm Ht Hr. rewrite land_clear_bit0 by lia.
  replace ((2 * Z.of_nat m + t) / 2) with (Z.of_nat m)
    by (Z.div_mod_to_equations; lia).
  apply size_t_small. unfold W64, W32 in *. lia.
Qed.

(** *** SIMON: whole kernels *)

Lemma run_rounds_app (round : Z -> Z * Z -> Z * Z) (L T : list Z) (s : vec * vec) :
  run_rounds round (L ++ T) s = run_rounds round T (run_rounds round L s).
Proof. unfold run_rounds. apply fold_left_app. Qed.

Lemma undo_rounds_app (unround : Z -> Z * Z -> Z * Z) (L T : list Z) (s : vec * vec) :
  undo_rounds unround (L ++ T) s = undo_rounds unround L (undo_rounds unround T s).
Proof. unfold undo_rounds. apply fold_right_app. Qed.

Lemma SSSE3_SIMON128_Enc_loop (m : nat) (L T : list Z) (fuel : nat) (s : vec * vec) :
  length L = (2 * m)%nat -> (1 <= m)%nat -> (length T <= 1)%nat ->
  Forall in64 (L ++ T) -> wf_pair s ->
  Z.of_nat (length (L ++ T)) < 2 ^ 32 -> (m <= fuel)%nat ->
  for_up fuel 0 (SSSE3.SIMON128_Enc_bound (Z.of_nat (length (L ++ T)))) 2
    (SSSE3.SIMON128_Enc_round2 (splat (L ++ T))) s
  = Done (run_rounds simon_round L s)
  /\ wf_pair (run_rounds simon_round L s).
Proof.
  intros HL Hm HT HK Hs Hlen Hfuel.
  rewrite length_app in *.
  unfold SSSE3.SIMON128_Enc_bound.
  replace (Z.of_nat (length L + length T))
    with (2 * Z.of_nat m + Z.of_nat (length T)) by lia.
  rewrite SIMON_bound_pairs by (unfold W32; lia).
  apply for_up_fold2 with (P := wf_pair) (m := m) (h := fun k s => on_lanes (simon_round k) s);
    try assumption; try lia; try (unfold W64; lia).
  intros j k1 k2 s' Hs' H1 H2. rewrite Z.add_0_l.
  assert (J1 : (2 * j < length L)%nat) by (apply nth_error_Some; congruence).
  assert (J2 : (2 * j + 1 < length L)%nat) by (apply nth_error_Some; congruence).
  assert (K1 : nth_error (L ++ T) (2 * j) = Some k1)
    by (rewrite nth_error_app1 by assumption; exact H1).
  assert (K2 : nth_error (L ++ T) (2 * j + 1) = Some k2)
    by (rewrite nth_error_app1 by assumption; exact H2).
  assert (I1 : in64 k1) by (eapply Forall_nth_error; eassumption).
  assert (I2 : in64 k2) by (eapply Forall_nth_error; eassumption).
  split.
  - apply SSSE3_SIMON128_Enc_round2_lanes; try assumption. unfold W64. lia.
  - apply simon_round_wf; [assumption |]. apply simon_round_wf; assumption.
Qed.

Lemma SSSE3_SIMON128_Enc_Block_spec (K : list Z) (fuel : nat) (blocks : vec * vec) :
  Forall in64 K -> wf_pair blocks ->
  2 <= Z.of_nat (length K) <= 2 ^ 31 -> (length K / 2 <= fuel)%nat ->
  SSSE3.SIMON128_Enc_Block fuel (splat K) (Z.of_nat (length K)) blocks
  = Done (SSSE3.detranspose (run_rounds simon_round K (SSSE3.transpose blocks)))
  /\ wf_pair (run_rounds simon_round K (SSSE3.transpose blocks)).
Proof.
  intros HK Hb Hlen Hfuel.
  pose proof (SSSE3_transpose_wf _ Hb) as Ht. destruct blocks as [b0 b1].
  destruct (even_prefix K) as (m & L & T & EK & HL & HT). subst K.
  assert (HT' : (length T <= 1)%nat)
    by (destruct HT as [-> | [k ->]]; simpl; lia).
  assert (Hdiv : (length (L ++ T) / 2 = m)%nat).
  { rewrite length_app, HL. symmetry.
    apply Nat.div_unique with (r := length T); lia. }
  rewrite Hdiv in Hfuel.
  assert (Hm : (1 <= m)%nat) by (rewrite length_app in Hlen; lia).
  destruct (SSSE3_SIMON128_Enc_loop m L T fuel (SSSE3.transpose (b0, b1)))
    as [E Hw]; try assumption; try lia.
  unfold SSSE3.SIMON128_Enc_Block.
  change (SSSE3._mm_unpackhi_epi64 b0 b1, SSSE3._mm_unpacklo_epi64 b0 b1)
    with (SSSE3.transpose (b0, b1)).
  rewrite E. cbn [bind].
  rewrite run_rounds_app.
  set (s := run_rounds simon_round L (SSSE3.transpose (b0, b1))) in *.
  destruct HT as [-> | [k ->]].
  - rewrite app_nil_r, HL.
    rewrite SSSE3_SIMON128_Enc_tail_even by apply parity_even.
    cbn [bind]. split; [| exact Hw].
    unfold run_rounds. simpl fold_left. destruct s as [x y]. reflexivity.
  - assert (Hk : nth_error (L ++ [k]) (2 * m) = Some k).
    { rewrite nth_error_app2 by lia. rewrite HL, Nat.sub_diag. reflexivity. }
    assert (Ik : in64 k) by (eapply Forall_nth_error; eassumption).
    rewrite length_app in *. simpl length in *. rewrite HL in *.
    replace (Z.of_nat (2 * m + 1)) with (Z.of_nat (2 * m) + 1) in * by lia.
    rewrite (SSSE3_SIMON128_Enc_tail_odd _ _ k); try assumption;
      try apply parity_odd; try lia.
    cbn [bind]. unfold run_rounds at 1 2. simpl fold_left.
    split; [| apply simon_round_wf; assumption].
    destruct (on_lanes (simon_round k) s) as [x y]. reflexivity.
Qed.

Lemma SSSE3_SIMON128_Enc_loop_short (m : nat) (L T : list Z) (fuel : nat) (s : vec * vec) :
  length L = (2 * m)%nat -> (1 <= m)%nat -> (length T <= 1)%nat ->
  Forall in64 (L ++ T) -> wf_pair s ->
  Z.of_nat (length (L ++ T)) < 2 ^ 32 -> (fuel < m)%nat ->
  for_up fuel 0 (SSSE3.SIMON128_Enc_bound (Z.of_nat (length (L ++ T)))) 2
    (SSSE3.SIMON128_Enc_round2 (splat (L ++ T))) s
  = Timeout.
Proof.
  intros HL Hm HT HK Hs Hlen Hfuel.
  rewrite length_app in *.
  unfold SSSE3.SIMON128_Enc_bound.
  replace (Z.of_nat (length L + length T))
    with (2 * Z.of_nat m + Z.of_nat (length T)) by lia.
  rewrite SIMON_bound_pairs by (unfold W32; lia).
  apply for_up_short2 with (P := wf_pair) (m := m) (K := L)
                           (h := fun k s => on_lanes (simon_round k) s);
    try assumption; try lia; try (unfold W64; lia).
  intros j k1 k2 s' Hs' H1 H2. rewrite Z.add_0_l.
  assert (J1 : (2 * j < length L)%nat) by (apply nth_error_Some; congruence).
  assert (J2 : (2 * j + 1 < length L)%nat) by (apply nth_error_Some; congruence).
  assert (K1 : nth_error (L ++ T) (2 * j) = Some k1)
    by (rewrite nth_error_app1 by assumption; exact H1).
  assert (K2 : nth_error (L ++ T) (2 * j + 1) = Some k2)
    by (rewrite nth_error_app1 by assumption; exact H2).
  assert (I1 : in64 k1) by (eapply Forall_nth_error; eassumption).
  assert (I2 : in64 k2) by (eapply Forall_nth_error; eassumption).
  split.
  - apply SSSE3_SIMON128_Enc_round2_lanes; try assumption. unfold W64. lia.
  - apply simon_round_wf; [assumption |]. apply simon_round_wf; assumption.
Qed.

Lemma SSSE3_SIMON128_Enc_Block_short (K : list Z) (fuel : nat) (blocks : vec * vec) :
  Forall in64 K -> wf_pair blocks ->
  2 <= Z.of_nat (length K) < 2 ^ 32 -> (fuel < length K / 2)%nat ->
  SSSE3.SIMON128_Enc_Block fuel (splat K) (Z.of_nat (length K)) blocks = Timeout.
Proof.
  intros HK Hb Hlen Hfuel.
  pose proof (SSSE3_transpose_wf _ Hb) as Ht. destruct blocks as [b0 b1].
  destruct (even_prefix K) as (m & L & T & EK & HL & HT). subst K.
  assert (HT' : (length T <= 1)%nat)
    by (destruct HT as [-> | [k ->]]; simpl; lia).
  assert (Hdiv : (length (L ++ T) / 2 = m)%nat).
  { rewrite length_app, HL. symmetry.
    apply Nat.div_unique with (r := length T); lia. }
  rewrite Hdiv in Hfuel.
  assert (Hm : (1 <= m)%nat) by (rewrite length_app in Hlen; lia).
  unfold SSSE3.SIMON128_Enc_Block.
  change (SSSE3._mm_unpackhi_epi64 b0 b1, SSSE3._mm_unpacklo_epi64 b0 b1)
    with (SSSE3.transpose (b0, b1)).
  rewrite (SSSE3_SIMON128_Enc_loop_short m L T); try assumption; try lia.
  reflexivity.
Qed.

Lemma NEON_SIMON128_Enc_loop (m : nat) (L T : list Z) (fuel : nat) (s : vec * vec) :
  length L = (2 * m)%nat -> (1 <= m)%nat -> (length T <= 1)%nat ->
  Forall in64 (L ++ T) -> wf_pair s ->
  Z.of_nat (length (L ++ T)) < 2 ^ 32 -> (m <= fuel)%nat ->
  for_up fuel 0 (NEON.SIMON128_Enc_bound (Z.of_nat (length (L ++ T)))) 2
    (NEON.SIMON128_Enc_round2 (L ++ T)) s
  = Done (run_rounds simon_round L s)
  /\ wf_pair (run_rounds simon_round L s).
Proof.
  intros HL Hm HT HK Hs Hlen Hfuel.
  rewrite length_app in *.
  unfold NEON.SIMON128_Enc_bound.
  replace (Z.of_nat (length L + length T))
    with (2 * Z.of_nat m + Z.of_nat (length T)) by lia.
  rewrite SIMON_bound_pairs by (unfold W32; lia).
  apply for_up_fold2 with (P := wf_pair) (m := m) (h := fun k s => on_lanes (simon_round k) s);
    try assumption; try lia; try (unfold W64; lia).
  intros j k1 k2 s' Hs' H1 H2. rewrite Z.add_0_l.
  assert (J1 : (2 * j < length L)%nat) by (apply nth_error_Some; congruence).
  assert (J2 : (2 * j + 1 < length L)%nat) by (apply nth_error_Some; congruence).
  assert (K1 : nth_error (L ++ T) (2 * j) = Some k1)
    by (rewrite nth_error_app1 by assumption; exact H1).
  assert (K2 : nth_error (L ++ T) (2 * j + 1) = Some k2)
    by (rewrite nth_error_app1 by assumption; exact H2).
  assert (I1 : in64 k1) by (eapply Forall_nth_error; eassumption).
  assert (I2 : in64 k2) by (eapply Forall_nth_error; eassumption).
  split.
  - apply NEON_SIMON128_Enc_round2_lanes; assumption.
  - apply simon_round_wf; [assumption |]. apply simon_round_wf; assumption.
Qed.

Lemma NEON_SIMON128_Enc_loop_short (m : nat) (L T : list Z) (fuel : nat) (s : vec * vec) :
  length L = (2 * m)%nat -> (1 <= m)%nat -> (length T <= 1)%nat ->
  Forall in64 (L ++ T) -> wf_pair s ->
  Z.of_nat (length (L ++ T)) < 2 ^ 32 -> (fuel < m)%nat ->
  for_up fuel 0 (NEON.SIMON128_Enc_bound (Z.of_nat (length (L ++ T)))) 2
    (NEON.SIMON128_Enc_round2 (L ++ T)) s
  = Timeout.
Proof.
  intros HL Hm HT HK Hs Hlen Hfuel.
  rewrite length_app in *.
  unfold NEON.SIMON128_Enc_bound.
  replace (Z.of_nat (length L + length T))
    with (2 * Z.of_nat m + Z.of_nat (length T)) by lia.
  rewrite SIMON_bound_pairs by (unfold W32; lia).
  apply for_up_short2 with (P := wf_pair) (m := m) (K := L)
                           (h := fun k s => on_lanes (simon_round k) s);
    try assumption; try lia; try (unfold W64; lia).
  intros j k1 k2 s' Hs' H1 H2. rewrite Z.add_0_l.
  assert (J1 : (2 * j < length L)%nat) by (apply nth_error_Some; congruence).
  assert (J2 : (2 * j + 1 < length L)%nat) by (apply nth_error_Some; congruence).
  assert (K1 : nth_error (L ++ T) (2 * j) = Some k1)
    by (rewrite nth_error_app1 by assumption; exact H1).
  assert (K2 : nth_error (L ++ T) (2 * j + 1) = Some k2)
    by (rewrite nth_error_app1 by assumption; exact H2).
  assert (I1 : in64 k1) by (eapply Forall_nth_error; eassumption).
  assert (I2 : in64 k2) by (eapply Forall_nth_error; eassumption).
  split.
  - apply NEON_SIMON128_Enc_round2_lanes; assumption.
  - apply simon_round_wf; [assumption |]. apply simon_round_wf; assumption.
Qed.

Lemma NEON_SIMON128_Enc_Block_spec (K : list Z) (fuel : nat) (blocks : vec * vec) :
  Forall in64 K -> wf_pair blocks ->
  2 <= Z.of_nat (length K) < 2 ^ 32 -> (length K / 2 <= fuel)%nat ->
  NEON.SIMON128_Enc_Block fuel K (Z.of_nat (length K)) blocks
  = Done (NEON.detranspose (run_rounds simon_round K (NEON.transpose blocks)))
  /\ wf_pair (run_rounds simon_round K (NEON.transpose blocks)).
Proof.
  intros HK Hb Hlen Hfuel.
  pose proof (NEON_transpose_wf _ Hb) as Ht. destruct blocks as [b0 b1].
  destruct (even_prefix K) as (m & L & T & EK & HL & HT). subst K.
  assert (HT' : (length T <= 1)%nat)
    by (destruct HT as [-> | [k ->]]; simpl; lia).
  assert (Hdiv : (length (L ++ T) / 2 = m)%nat).
  { rewrite length_app, HL. symmetry.
    apply Nat.div_unique with (r := length T); lia. }
  rewrite Hdiv in Hfuel.
  assert (Hm : (1 <= m)%nat) by (rewrite length_app in Hlen; lia).
  destruct (NEON_SIMON128_Enc_loop m L T fuel (NEON.transpose (b0, b1)))
    as [E Hw]; try assumption; try lia.
  unfold NEON.SIMON128_Enc_Block.
  change (NEON.UnpackHigh64 b0 b1, NEON.UnpackLow64 b0 b1)
    with (NEON.transpose (b0, b1)).
  rewrite E. cbn [bind].
  rewrite run_rounds_app.
  set (s := run_rounds simon_round L (NEON.transpose (b0, b1))) in *.
  destruct HT as [-> | [k ->]].
  - rewrite app_nil_r, HL.
    rewrite NEON_SIMON128_Enc_tail_even by apply parity_even.
    cbn [bind]. split; [| exact Hw].
    unfold run_rounds. simpl fold_left. destruct s as [x y]. reflexivity.
  - assert (Hk : nth_error (L ++ [k]) (2 * m) = Some k).
    { rewrite nth_error_app2 by lia. rewrite HL, Nat.sub_diag. reflexivity. }
    assert (Ik : in64 k) by (eapply Forall_nth_error; eassumption).
    rewrite length_app in *. simpl length in *. rewrite HL in *.
    replace (Z.of_nat (2 * m + 1)) with (Z.of_nat (2 * m) + 1) in * by lia.
    rewrite (NEON_SIMON128_Enc_tail_odd _ _ k); try assumption;
      try apply parity_odd; try lia.
    cbn [bind]. unfold run_rounds at 1 2. simpl fold_left.
    split; [| apply simon_round_wf; assumption].
    destruct (on_lanes (simon_round k) s) as [x y]. reflexivity.
Qed.

Lemma NEON_SIMON128_Enc_Block_short (K : list Z) (fuel : nat) (blocks : vec * vec) :
  Forall in64 K -> wf_pair blocks ->
  2 <= Z.of_nat (length K) < 2 ^ 32 -> (fuel < length K / 2)%nat ->
  NEON.SIMON128_Enc_Block fuel K (Z.of_nat (length K)) blocks = Timeout.
Proof.
  intros HK Hb Hlen Hfuel.
  pose proof (NEON_transpose_wf _ Hb) as Ht. destruct blocks as [b0 b1].
  destruct (even_prefix K) as (m & L & T & EK & HL & HT). subst K.
  assert (HT' : (length T <= 1)%nat)
    by (destruct HT as [-> | [k ->]]; simpl; lia).
  assert (Hdiv : (length (L ++ T) / 2 = m)%nat).
  { rewrite length_app, HL. symmetry.
    apply Nat.div_unique with (r := length T); lia. }
  rewrite Hdiv in Hfuel.
  assert (Hm : (1 <= m)%nat) by (rewrite length_app in Hlen; lia).
  unfold NEON.SIMON128_Enc_Block.
  change (NEON.UnpackHigh64 b0 b1, NEON.UnpackLow64 b0 b1)
    with (NEON.transpose (b0, b1)).
  rewrite (NEON_SIMON128_Enc_loop_short m L T); try assumption; try lia.
  reflexivity.
Qed.

Lemma SSSE3_SIMON128_Dec_loop (m : nat) (L T : list Z) (fuel : nat) (s : vec * vec) :
  length L = (2 * m)%nat -> Forall in64 (L ++ T) -> wf_pair s ->
  Z.of_nat (2 * m) <= 2 ^ 31 -> (m <= fuel)%nat ->
  for_down fuel (to_int (uint (Z.of_nat (2 * m) - 2))) 2
    (SSSE3.SIMON128_Dec_round2 (L ++ T)) s
  = Done (undo_rounds simon_unround L s)
  /\ wf_pair (undo_rounds simon_unround L s).
Proof.
  intros HL HK Hs Hlen Hfuel.
  rewrite to_int_pred2 by lia.
  replace (Z.of_nat (2 * m) - 2) with (2 * Z.of_nat m - 2) by lia.
  apply for_down_fold2 with (P := wf_pair) (m := m)
                            (u := fun k s => on_lanes (simon_unround k) s);
    try assumption.
  intros j k1 k2 s' Hs' H1 H2.
  assert (J1 : (2 * j < length L)%nat) by (apply nth_error_Some; congruence).
  assert (J2 : (2 * j + 1 < length L)%nat) by (apply nth_error_Some; congruence).
  assert (K1 : nth_error (L ++ T) (2 * j) = Some k1)
    by (rewrite nth_error_app1 by assumption; exact H1).
  assert (K2 : nth_error (L ++ T) (2 * j + 1) = Some k2)
    by (rewrite nth_error_app1 by assumption; exact H2).
  assert (I1 : in64 k1) by (eapply Forall_nth_error; eassumption).
  assert (I2 : in64 k2) by (eapply Forall_nth_error; eassumption).
  split.
  - apply SSSE3_SIMON128_Dec_round2_lanes; assumption.
  - apply simon_unround_wf; [assumption |]. apply simon_unround_wf; assumption.
Qed.

Lemma SSSE3_SIMON128_Dec_Block_spec (K : list Z) (fuel : nat) (blocks : vec * vec) :
  Forall in64 K -> wf_pair blocks ->
  Z.of_nat (length K) <= 2 ^ 31 -> (length K / 2 <= fuel)%nat ->
  SSSE3.SIMON128_Dec_Block fuel K (Z.of_nat (length K)) blocks
  = Done (SSSE3.detranspose (undo_rounds simon_unround K (SSSE3.transpose blocks)))
  /\ wf_pair (undo_rounds simon_unround K (SSSE3.transpose blocks)).
Proof.
  intros HK Hb Hlen Hfuel.
  pose proof (SSSE3_transpose_wf _ Hb) as Ht. destruct blocks as [b0 b1].
  destruct (even_prefix K) as (m & L & T & EK & HL & HT). subst K.
  assert (Hdiv : (length (L ++ T) / 2 = m)%nat).
  { rewrite length_app, HL. symmetry.
    apply Nat.div_unique with (r := length T);
      destruct HT as [-> | [k ->]]; simpl; lia. }
  rewrite Hdiv in Hfuel.
  unfold SSSE3.SIMON128_Dec_Block.
  change (SSSE3._mm_unpackhi_epi64 b0 b1, SSSE3._mm_unpacklo_epi64 b0 b1)
    with (SSSE3.transpose (b0, b1)).
  rewrite undo_rounds_app.
  set (s := SSSE3.transpose (b0, b1)) in *.
  rewrite length_app in *.
  destruct HT as [-> | [k ->]].
  - simpl length in *. rewrite Nat.add_0_r in *. rewrite HL in *.
    rewrite SSSE3_SIMON128_Dec_head_even by apply parity_even. cbn [bind].
    destruct (SSSE3_SIMON128_Dec_loop m L [] fuel s) as [E Hw];
      try assumption; try lia.
    rewrite E. cbn [bind].
    change (undo_rounds simon_unround [] s) with s.
    split; [| exact Hw].
    destruct (undo_rounds simon_unround L s) as [x y]. reflexivity.
  - assert (Hk : nth_error (L ++ [k]) (2 * m) = Some k).
    { rewrite nth_error_app2 by lia. rewrite HL, Nat.sub_diag. reflexivity. }
    assert (Ik : in64 k) by (eapply Forall_nth_error; eassumption).
    simpl length in *. rewrite HL in *.
    replace (Z.of_nat (2 * m + 1)) with (Z.of_nat (2 * m) + 1) in * by lia.
    rewrite (SSSE3_SIMON128_Dec_head_odd _ _ k); try assumption;
      try apply parity_odd; try (unfold W32; lia).
    cbn [bind].
    destruct (SSSE3_SIMON128_Dec_loop m L [k] fuel (on_lanes (simon_unround k) s))
      as [E Hw]; try assumption; try lia.
    { apply simon_unround_wf; assumption. }
    rewrite E. cbn [bind].
    change (undo_rounds simon_unround [k] s) with (on_lanes (simon_unround k) s).
    split; [| exact Hw].
    destruct (undo_rounds simon_unround L _) as [x y]. reflexivity.
Qed.

Lemma NEON_SIMON128_Dec_loop (m : nat) (L T : list Z) (fuel : nat) (s : vec * vec) :
  length L = (2 * m)%nat -> Forall in64 (L ++ T) -> wf_pair s ->
  Z.of_nat (2 * m) <= 2 ^ 31 -> (m <= fuel)%nat ->
  for_down fuel (to_int (uint (Z.of_nat (2 * m) - 2))) 2
    (NEON.SIMON128_Dec_round2 (L ++ T)) s
  = Done (undo_rounds simon_unround L s)
  /\ wf_pair (undo_rounds simon_unround L s).
Proof.
  intros HL HK Hs Hlen Hfuel.
  rewrite to_int_pred2 by lia.
  replace (Z.of_nat (2 * m) - 2) with (2 * Z.of_nat m - 2) by lia.
  apply for_down_fold2 with (P := wf_pair) (m := m)
                            (u := fun k s => on_lanes (simon_unround k) s);
    try assumption.
  intros j k1 k2 s' Hs' H1 H2.
  assert (J1 : (2 * j < length L)%nat) by (apply nth_error_Some; congruence).
  assert (J2 : (2 * j + 1 < length L)%nat) by (apply nth_error_Some; congruence).
  assert (K1 : nth_error (L ++ T) (2 * j) = Some k1)
    by (rewrite nth_error_app1 by assumption; exact H1).
  assert (K2 : nth_error (L ++ T) (2 * j + 1) = Some k2)
    by (rewrite nth_error_app1 by assumption; exact H2).
  assert (I1 : in64 k1) by (eapply Forall_nth_error; eassumption).
  assert (I2 : in64 k2) by (eapply Forall_nth_error; eassumption).
  split.
  - apply NEON_SIMON128_Dec_round2_lanes; assumption.
  - apply simon_unround_wf; [assumption |]. apply simon_unround_wf; assumption.
Qed.

Lemma NEON_SIMON128_Dec_Block_spec (K : list Z) (fuel : nat) (blocks : vec * vec) :
  Forall in64 K -> wf_pair blocks ->
  Z.of_nat (length K) <= 2 ^ 31 -> (length K / 2 <= fuel)%nat ->
  NEON.SIMON128_Dec_Block fuel K (Z.of_nat (length K)) blocks
  = Done (NEON.detranspose (undo_rounds simon_unround K (NEON.transpose blocks)))
  /\ wf_pair (undo_rounds simon_unround K (NEON.transpose blocks)).
Proof.
  intros HK Hb Hlen Hfuel.
  pose proof (NEON_transpose_wf _ Hb) as Ht. destruct blocks as [b0 b1].
  destruct (even_prefix K) as (m & L & T & EK & HL & HT). subst K.
  assert (Hdiv : (length (L ++ T) / 2 = m)%nat).
  { rewrite length_app, HL. symmetry.
    apply Nat.div_unique with (r := length T);
      destruct HT as [-> | [k ->]]; simpl; lia. }
  rewrite Hdiv in Hfuel.
  unfold NEON.SIMON128_Dec_Block.
  change (NEON.UnpackHigh64 b0 b1, NEON.UnpackLow64 b0 b1)
    with (NEON.transpose (b0, b1)).
  rewrite undo_rounds_app.
  set (s := NEON.transpose (b0, b1)) in *.
  rewrite length_app in *.
  destruct HT as [-> | [k ->]].
  - simpl length in *. rewrite Nat.add_0_r in *. rewrite HL in *.
    rewrite NEON_SIMON128_Dec_head_even by apply parity_even. cbn [bind].
    destruct (NEON_SIMON128_Dec_loop m L [] fuel s) as [E Hw];
      try assumption; try lia.
    rewrite E. cbn [bind].
    change (undo_rounds simon_unround [] s) with s.
    split; [| exact Hw].
    destruct (undo_rounds simon_unround L s) as [x y]. reflexivity.
  - assert (Hk : nth_error (L ++ [k]) (2 * m) = Some k).
    { rewrite nth_error_app2 by lia. rewrite HL, Nat.sub_diag. reflexivity. }
    assert (Ik : in64 k) by (eapply Forall_nth_error; eassumption).
    simpl length in *. rewrite HL in *.
    replace (Z.of_nat (2 * m + 1)) with (Z.of_nat (2 * m) + 1) in * by lia.
    rewrite (NEON_SIMON128_Dec_head_odd _ _ k); try assumption;
      try apply parity_odd; try (unfold W32; lia).
    cbn [bind].
    destruct (NEON_SIMON128_Dec_loop m L [k] fuel (on_lanes (simon_unround k) s))
      as [E Hw]; try assumption; try lia.
    { apply simon_unround_wf; assumption. }
    rewrite E. cbn [bind].
    change (undo_rounds simon_unround [k] s) with (on_lanes (simon_unround k) s).
    split; [| exact Hw].
    destruct (undo_rounds simon_unround L _) as [x y]. reflexivity.
Qed.

(** ** Round trip of the kernels *)

Lemma simon_round_inverse (k : Z) (s : vec * vec) :
  in64 k -> wf_pair s ->
  wf_pair (on_lanes (simon_round k) s)
  /\ on_lanes (simon_unround k) (on_lanes (simon_round k) s) = s.
Proof.
  intros Hk Hs. split; [apply simon_round_wf; assumption |].
  apply simon_unround_round.
Qed.

Lemma speck_round_inverse (k : Z) (s : vec * vec) :
  in64 k -> wf_pair s ->
  wf_pair (on_lanes (speck_enc_round k) s)
  /\ on_lanes (speck_dec_round k) (on_lanes (speck_enc_round k) s) = s.
Proof.
  intros Hk Hs. split; [apply speck_enc_round_wf; assumption |].
  apply speck_dec_enc_round; assumption.
Qed.

Lemma SSSE3_detranspose_transpose (blocks : vec * vec) :
  SSSE3.detranspose (SSSE3.transpose blocks) = blocks.
Proof. destruct blocks as [[a b] [c d]]. reflexivity. Qed.

Lemma NEON_detranspose_transpose (blocks : vec * vec) :
  NEON.detranspose (NEON.transpose blocks) = blocks.
Proof. destruct blocks as [[a b] [c d]]. reflexivity. Qed.

Lemma SSSE3_SPECK128_roundtrip (K : list Z) (fuel : nat) (blocks : vec * vec) :
  Forall in64 K -> wf_pair blocks ->
  Z.of_nat (length K) < 2 ^ 31 -> (length K <= fuel)%nat ->
  bind (SSSE3.SPECK128_Enc_Block fuel (splat K) (Z.of_nat (length K)) blocks)
       (SSSE3.SPECK128_Dec_Block fuel K (Z.of_nat (length K)))
  = Done blocks.
Proof.
  intros HK Hb Hlen Hfuel.
  destruct (SSSE3_SPECK128_Enc_Block_spec K fuel blocks) as [E Hw];
    try assumption; try lia.
  rewrite E. cbn [bind].
  destruct (SSSE3_SPECK128_Dec_Block_spec K fuel
              (SSSE3.detranspose (run_rounds speck_enc_round K (SSSE3.transpose blocks))))
    as [D _]; try assumption; try lia.
  { apply SSSE3_detranspose_wf, Hw. }
  rewrite D, SSSE3_transpose_detranspose.
  rewrite (undo_run_rounds _ _ speck_round_inverse)
    by (assumption || apply SSSE3_transpose_wf, Hb).
  rewrite SSSE3_detranspose_transpose. reflexivity.
Qed.

Lemma NEON_SPECK128_roundtrip (K : list Z) (fuel : nat) (blocks : vec * vec) :
  Forall in64 K -> wf_pair blocks ->
  Z.of_nat (length K) < 2 ^ 31 -> (length K <= fuel)%nat ->
  bind (NEON.SPECK128_Enc_Block fuel K (Z.of_nat (length K)) blocks)
       (NEON.SPECK128_Dec_Block fuel K (Z.of_nat (length K)))
  = Done blocks.
Proof.
  intros HK Hb Hlen Hfuel.
  destruct (NEON_SPECK128_Enc_Block_spec K fuel blocks) as [E Hw];
    try assumption; try lia.
  rewrite E. cbn [bind].
  destruct (NEON_SPECK128_Dec_Block_spec K fuel
              (NEON.detranspose (run_rounds speck_enc_round K (NEON.transpose blocks))))
    as [D _]; try assumption; try lia.
  { apply NEON_detranspose_wf, Hw. }
  rewrite D, NEON_transpose_detranspose.
  rewrite (undo_run_rounds _ _ speck_round_inverse)
    by (assumption || apply NEON_transpose_wf, Hb).
  rewrite NEON_detranspose_transpose. reflexivity.
Qed.

Lemma half_le (n fuel : nat) : (n <= fuel)%nat -> (n / 2 <= fuel)%nat.
Proof.
  intros H. apply Nat.le_trans with n; [| exact H].
  apply Nat.Div0.div_le_upper_bound. lia.
Qed.

Lemma SSSE3_SIMON128_roundtrip (K : list Z) (fuel : nat) (blocks : vec * vec) :
  Forall in64 K -> wf_pair blocks ->
  2 <= Z.of_nat (length K) < 2 ^ 31 -> (length K / 2 <= fuel)%nat ->
  bind (SSSE3.SIMON128_Enc_Block fuel (splat K) (Z.of_nat (length K)) blocks)
       (SSSE3.SIMON128_Dec_Block fuel K (Z.of_nat (length K)))
  = Done blocks.
Proof.
  intros HK Hb Hlen Hfuel.
  destruct (SSSE3_SIMON128_Enc_Block_spec K fuel blocks) as [E Hw];
    try assumption; try lia.
  rewrite E. cbn [bind].
  destruct (SSSE3_SIMON128_Dec_Block_spec K fuel
              (SSSE3.detranspose (run_rounds simon_round K (SSSE3.transpose blocks))))
    as [D _]; try assumption; try lia.
  { apply SSSE3_detranspose_wf, Hw. }
  rewrite D, SSSE3_transpose_detranspose.
  rewrite (undo_run_rounds _ _ simon_round_inverse)
    by (assumption || apply SSSE3_transpose_wf, Hb).
  rewrite SSSE3_detranspose_transpose. reflexivity.
Qed.

Lemma NEON_SIMON128_roundtrip (K : list Z) (fuel : nat) (blocks : vec * vec) :
  Forall in64 K -> wf_pair blocks ->
  2 <= Z.of_nat (length K) < 2 ^ 31 -> (length K / 2 <= fuel)%nat ->
  bind (NEON.SIMON128_Enc_Block fuel K (Z.of_nat (length K)) blocks)
       (NEON.SIMON128_Dec_Block fuel K (Z.of_nat (length K)))
  = Done blocks.
Proof.
  intros HK Hb Hlen Hfuel.
  destruct (NEON_SIMON128_Enc_Block_spec K fuel blocks) as [E Hw];
    try assumption; try lia.
  rewrite E. cbn [bind].
  destruct (NEON_SIMON128_Dec_Block_spec K fuel
              (NEON.detranspose (run_rounds simon_round K (NEON.transpose blocks))))
    as [D _]; try assumption; try lia.
  { apply NEON_detranspose_wf, Hw. }
  rewrite D, NEON_transpose_detranspose.
  rewrite (undo_run_rounds _ _ simon_round_inverse)
    by (assumption || apply NEON_transpose_wf, Hb).
  rewrite NEON_detranspose_transpose. reflexivity.
Qed.

(** ** Six blocks are three pairs *)

Section Three.

Variable body : Z -> vec * vec -> outcome (vec * vec).
Variable body6 : Z -> vec * vec * vec * vec * vec * vec
                 -> outcome (vec * vec * vec * vec * vec * vec).

Hypothesis body6_three : forall i x1 y1 x2 y2 x3 y3,
  body6 i (x1, y1, x2, y2, x3, y3)
  = three (body i (x1, y1)) (body i (x2, y2)) (body i (x3, y3)).

Hypothesis body_uniform : forall i s s', same_shape (body i s) (body i s').

Lemma for_up_same_shape (bound step : Z) :
  forall fuel i s s',
    same_shape (for_up fuel i bound step body s) (for_up fuel i bound step body s').
Proof.
  induction fuel as [| fuel IH]; intros i s s'; simpl;
    destruct (i <? bound); try exact I.
  pose proof (body_uniform i s s') as U.
  destruct (body i s), (body i s'); simpl in *; try contradiction; try exact I.
  apply IH.
Qed.

Lemma for_down_same_shape (step : Z) :
  forall fuel i s s',
    same_shape (for_down fuel i step body s) (for_down fuel i step body s').
Proof.
  induction fuel as [| fuel IH]; intros i s s'; simpl;
    destruct (0 <=? i); try exact I.
  pose proof (body_uniform i s s') as U.
  destruct (body i s), (body i s'); simpl in *; try contradiction; try exact I.
  apply IH.
Qed.

Lemma for_up_three (bound step : Z) :
  forall fuel i x1 y1 x2 y2 x3 y3,
    for_up fuel i bound step body6 (x1, y1, x2, y2, x3, y3)
    = three (for_up fuel i bound step body (x1, y1))
            (for_up fuel i bound step body (x2, y2))
            (for_up fuel i bound step body (x3, y3)).
Proof.
  induction fuel as [| fuel IH]; intros i x1 y1 x2 y2 x3 y3; simpl;
    destruct (i <? bound); try reflexivity.
  rewrite body6_three.
  pose proof (body_uniform i (x1, y1) (x2, y2)) as U2.
  pose proof (body_uniform i (x1, y1) (x3, y3)) as U3.
  destruct (body i (x1, y1)) as [[a1 b1] | |],
           (body i (x2, y2)) as [[a2 b2] | |],
           (body i (x3, y3)) as [[a3 b3] | |];
    simpl in *; try contradiction; try reflexivity.
  apply IH.
Qed.

Lemma for_down_three (step : Z) :
  forall fuel i x1 y1 x2 y2 x3 y3,
    for_down fuel i step body6 (x1, y1, x2, y2, x3, y3)
    = three (for_down fuel i step body (x1, y1))
            (for_down fuel i step body (x2, y2))
            (for_down fuel i step body (x3, y3)).
Proof.
  induction fuel as [| fuel IH]; intros i x1 y1 x2 y2 x3 y3; simpl;
    destruct (0 <=? i); try reflexivity.
  rewrite body6_three.
  pose proof (body_uniform i (x1, y1) (x2, y2)) as U2.
  pose proof (body_uniform i (x1, y1) (x3, y3)) as U3.
  destruct (body i (x1, y1)) as [[a1 b1] | |],
           (body i (x2, y2)) as [[a2 b2] | |],
           (body i (x3, y3)) as [[a3 b3] | |];
    simpl in *; try contradiction; try reflexivity.
  apply IH.
Qed.

End Three.

(** Three runs of one shape, finished by the same total continuation. *)
Lemma three_finish (a b c : outcome (vec * vec)) (f : vec * vec -> vec * vec) :
  same_shape a b -> same_shape a c ->
  ('(x1, y1, x2, y2, x3, y3) <- three a b c ;;
   Done (fst (f (x1, y1)), snd (f (x1, y1)),
         fst (f (x2, y2)), snd (f (x2, y2)),
         fst (f (x3, y3)), snd (f (x3, y3))))
  = three (s <- a ;; Done (f s)) (s <- b ;; Done (f s)) (s <- c ;; Done (f s)).
Proof.
  intros U2 U3.
  destruct a as [[a1 b1] | |], b as [[a2 b2] | |], c as [[a3 b3] | |];
    simpl in *; try contradiction; try reflexivity.
  destruct (f (a1, b1)), (f (a2, b2)), (f (a3, b3)). reflexivity.
Qed.

Ltac uniform_body :=
  intros i [x y] [x' y'];
  repeat match goal with
         | |- context [bind ?c _] =>
             lazymatch c with
             | bind _ _ => fail
             | _ => destruct c; cbn [bind same_shape]
             end
         end;
  try exact I.

(** *** SSSE3: SPECK-128 *)

Lemma SSSE3_SPECK128_Enc_6_round_three (subkeys : list Z) i x1 y1 x2 y2 x3 y3 :
  SSSE3.SPECK128_Enc_6_round subkeys i (x1, y1, x2, y2, x3, y3)
  = three (SSSE3.SPECK128_Enc_round subkeys i (x1, y1))
          (SSSE3.SPECK128_Enc_round subkeys i (x2, y2))
          (SSSE3.SPECK128_Enc_round subkeys i (x3, y3)).
Proof.
  unfold SSSE3.SPECK128_Enc_6_round, SSSE3.SPECK128_Enc_round.
  destruct (SSSE3._mm_load_si128 subkeys _); reflexivity.
Qed.

Lemma SSSE3_SPECK128_Enc_round_uniform (subkeys : list Z) i s s' :
  same_shape (SSSE3.SPECK128_Enc_round subkeys i s)
             (SSSE3.SPECK128_Enc_round subkeys i s').
Proof.
  destruct s, s'. unfold SSSE3.SPECK128_Enc_round.
  destruct (SSSE3._mm_load_si128 subkeys _); exact I.
Qed.

Lemma SSSE3_SPECK128_Enc_6_Blocks_three (fuel : nat) (subkeys : list Z) (rounds : Z)
    (b0 b1 b2 b3 b4 b5 : vec) :
  SSSE3.SPECK128_Enc_6_Blocks fuel subkeys rounds (b0, b1, b2, b3, b4, b5)
  = three (SSSE3.SPECK128_Enc_Block fuel subkeys rounds (b0, b1))
          (SSSE3.SPECK128_Enc_Block fuel subkeys rounds (b2, b3))
          (SSSE3.SPECK128_Enc_Block fuel subkeys rounds (b4, b5)).
Proof.
  unfold SSSE3.SPECK128_Enc_6_Blocks, SSSE3.SPECK128_Enc_Block.
  rewrite (for_up_three _ _ (SSSE3_SPECK128_Enc_6_round_three subkeys)
             (SSSE3_SPECK128_Enc_round_uniform subkeys)).
  match goal with
  | |- context [three ?a ?b ?c] =>
      pose proof (for_up_same_shape _ (SSSE3_SPECK128_Enc_round_uniform subkeys)
                    (size_t rounds) 1 fuel 0
                    (SSSE3._mm_unpackhi_epi64 b0 b1, SSSE3._mm_unpacklo_epi64 b0 b1)
                    (SSSE3._mm_unpackhi_epi64 b2 b3, SSSE3._mm_unpacklo_epi64 b2 b3)) as U2;
      pose proof (for_up_same_shape _ (SSSE3_SPECK128_Enc_round_uniform subkeys)
                    (size_t rounds) 1 fuel 0
                    (SSSE3._mm_unpackhi_epi64 b0 b1, SSSE3._mm_unpacklo_epi64 b0 b1)
                    (SSSE3._mm_unpackhi_epi64 b4 b5, SSSE3._mm_unpacklo_epi64 b4 b5)) as U3;
      destruct a as [[? ?] | |], b as [[? ?] | |], c as [[? ?] | |]
  end; simpl in U2, U3; try contradiction; reflexivity.
Qed.

Lemma SSSE3_SPECK128_Dec_6_round_three (subkeys : list Z) i x1 y1 x2 y2 x3 y3 :
  SSSE3.SPECK128_Dec_6_round subkeys i (x1, y1, x2, y2, x3, y3)
  = three (SSSE3.SPECK128_Dec_round subkeys i (x1, y1))
          (SSSE3.SPECK128_Dec_round subkeys i (x2, y2))
          (SSSE3.SPECK128_Dec_round subkeys i (x3, y3)).
Proof.
  unfold SSSE3.SPECK128_Dec_6_round, SSSE3.SPECK128_Dec_round.
  destruct (SSSE3._mm_loaddup_pd subkeys _); reflexivity.
Qed.

Lemma SSSE3_SPECK128_Dec_round_uniform (subkeys : list Z) i s s' :
  same_shape (SSSE3.SPECK128_Dec_round subkeys i s)
             (SSSE3.SPECK128_Dec_round subkeys i s').
Proof.
  destruct s, s'. unfold SSSE3.SPECK128_Dec_round.
  destruct (SSSE3._mm_loaddup_pd subkeys _); exact I.
Qed.

Lemma SSSE3_SPECK128_Dec_6_Blocks_three (fuel : nat) (subkeys : list Z) (rounds : Z)
    (b0 b1 b2 b3 b4 b5 : vec) :
  SSSE3.SPECK128_Dec_6_Blocks fuel subkeys rounds (b0, b1, b2, b3, b4, b5)
  = three (SSSE3.SPECK128_Dec_Block fuel subkeys rounds (b0, b1))
          (SSSE3.SPECK128_Dec_Block fuel subkeys rounds (b2, b3))
          (SSSE3.SPECK128_Dec_Block fuel subkeys rounds (b4, b5)).
Proof.
  unfold SSSE3.SPECK128_Dec_6_Blocks, SSSE3.SPECK128_Dec_Block.
  rewrite (for_down_three _ _ (SSSE3_SPECK128_Dec_6_round_three subkeys)
             (SSSE3_SPECK128_Dec_round_uniform subkeys)).
  match goal with
  | |- context [three ?a ?b ?c] =>
      pose proof (for_down_same_shape _ (SSSE3_SPECK128_Dec_round_uniform subkeys)
                    1 fuel (to_int (uint (rounds - 1)))
                    (SSSE3._mm_unpackhi_epi64 b0 b1, SSSE3._mm_unpacklo_epi64 b0 b1)
                    (SSSE3._mm_unpackhi_epi64 b2 b3, SSSE3._mm_unpacklo_epi64 b2 b3)) as U2;
      pose proof (for_down_same_shape _ (SSSE3_SPECK128_Dec_round_uniform subkeys)
                    1 fuel (to_int (uint (rounds - 1)))
                    (SSSE3._mm_unpackhi_epi64 b0 b1, SSSE3._mm_unpacklo_epi64 b0 b1)
                    (SSSE3._mm_unpackhi_epi64 b4 b5, SSSE3._mm_unpacklo_epi64 b4 b5)) as U3;
      destruct a as [[? ?] | |], b as [[? ?] | |], c as [[? ?] | |]
  end; simpl in U2, U3; try contradiction; reflexivity.
Qed.

(** *** SSSE3: SIMON-128 *)

Lemma SSSE3_SIMON128_Enc_6_round2_three (subkeys : list Z) i x1 y1 x2 y2 x3 y3 :
  SSSE3.SIMON128_Enc_6_round2 subkeys i (x1, y1, x2, y2, x3, y3)
  = three (SSSE3.SIMON128_Enc_round2 subkeys i (x1, y1))
          (SSSE3.SIMON128_Enc_round2 subkeys i (x2, y2))
          (SSSE3.SIMON128_Enc_round2 subkeys i (x3, y3)).
Proof.
  unfold SSSE3.SIMON128_Enc_6_round2, SSSE3.SIMON128_Enc_round2.
  destruct (SSSE3._mm_load_si128 subkeys (size_t (i * 2))); [| reflexivity | reflexivity].
  cbn [bind three].
  destruct (SSSE3._mm_load_si128 subkeys (size_t (size_t (i + 1) * 2))); reflexivity.
Qed.

Lemma SSSE3_SIMON128_Enc_round2_uniform (subkeys : list Z) i s s' :
  same_shape (SSSE3.SIMON128_Enc_round2 subkeys i s)
             (SSSE3.SIMON128_Enc_round2 subkeys i s').
Proof.
  destruct s, s'. unfold SSSE3.SIMON128_Enc_round2.
  destruct (SSSE3._mm_load_si128 subkeys (size_t (i * 2))); try exact I.
  cbn [bind].
  destruct (SSSE3._mm_load_si128 subkeys (size_t (size_t (i + 1) * 2))); exact I.
Qed.

Lemma SSSE3_SIMON128_Enc_6_tail_three (subkeys : list Z) rounds x1 y1 x2 y2 x3 y3 :
  SSSE3.SIMON128_Enc_6_tail subkeys rounds (x1, y1, x2, y2, x3, y3)
  = three (SSSE3.SIMON128_Enc_tail subkeys rounds (x1, y1))
          (SSSE3.SIMON128_Enc_tail subkeys rounds (x2, y2))
          (SSSE3.SIMON128_Enc_tail subkeys rounds (x3, y3)).
Proof.
  unfold SSSE3.SIMON128_Enc_6_tail, SSSE3.SIMON128_Enc_tail.
  destruct (Z.land rounds 1 =? 0); [reflexivity |].
  destruct (SSSE3._mm_load_si128 subkeys _); reflexivity.
Qed.

Lemma SSSE3_SIMON128_Enc_tail_uniform (subkeys : list Z) rounds s s' :
  same_shape (SSSE3.SIMON128_Enc_tail subkeys rounds s)
             (SSSE3.SIMON128_Enc_tail subkeys rounds s').
Proof.
  destruct s, s'. unfold SSSE3.SIMON128_Enc_tail.
  destruct (Z.land rounds 1 =? 0); [exact I |].
  destruct (SSSE3._mm_load_si128 subkeys _); exact I.
Qed.

Lemma SSSE3_SIMON128_Enc_6_Blocks_three (fuel : nat) (subkeys : list Z) (rounds : Z)
    (b0 b1 b2 b3 b4 b5 : vec) :
  SSSE3.SIMON128_Enc_6_Blocks fuel subkeys rounds (b0, b1, b2, b3, b4, b5)
  = three (SSSE3.SIMON128_Enc_Block fuel subkeys rounds (b0, b1))
          (SSSE3.SIMON128_Enc_Block fuel subkeys rounds (b2, b3))
          (SSSE3.SIMON128_Enc_Block fuel subkeys rounds (b4, b5)).
Proof.
  unfold SSSE3.SIMON128_Enc_6_Blocks, SSSE3.SIMON128_Enc_Block.
  rewrite (for_up_three _ _ (SSSE3_SIMON128_Enc_6_round2_three subkeys)
             (SSSE3_SIMON128_Enc_round2_uniform subkeys)).
  match goal with
  | |- context [three ?a ?b ?c] =>
      pose proof (for_up_same_shape _ (SSSE3_SIMON128_Enc_round2_uniform subkeys)
                    (SSSE3.SIMON128_Enc_bound rounds) 2 fuel 0
                    (SSSE3._mm_unpackhi_epi64 b0 b1, SSSE3._mm_unpacklo_epi64 b0 b1)
                    (SSSE3._mm_unpackhi_epi64 b2 b3, SSSE3._mm_unpacklo_epi64 b2 b3)) as U2;
      pose proof (for_up_same_shape _ (SSSE3_SIMON128_Enc_round2_uniform subkeys)
                    (SSSE3.SIMON128_Enc_bound rounds) 2 fuel 0
                    (SSSE3._mm_unpackhi_epi64 b0 b1, SSSE3._mm_unpacklo_epi64 b0 b1)
                    (SSSE3._mm_unpackhi_epi64 b4 b5, SSSE3._mm_unpacklo_epi64 b4 b5)) as U3;
      destruct a as [[p1 q1] | |], b as [[p2 q2] | |], c as [[p3 q3] | |]
  end; simpl in U2, U3; try contradiction; try reflexivity.
  cbn [bind three]. rewrite SSSE3_SIMON128_Enc_6_tail_three.
  pose proof (SSSE3_SIMON128_Enc_tail_uniform subkeys rounds (p1, q1) (p2, q2)) as V2.
  pose proof (SSSE3_SIMON128_Enc_tail_uniform subkeys rounds (p1, q1) (p3, q3)) as V3.
  destruct (SSSE3.SIMON128_Enc_tail subkeys rounds (p1, q1)) as [[? ?] | |],
           (SSSE3.SIMON128_Enc_tail subkeys rounds (p2, q2)) as [[? ?] | |],
           (SSSE3.SIMON128_Enc_tail subkeys rounds (p3, q3)) as [[? ?] | |];
    simpl in V2, V3; try contradiction; reflexivity.
Qed.

Lemma SSSE3_SIMON128_Dec_6_round2_three (subkeys : list Z) i x1 y1 x2 y2 x3 y3 :
  SSSE3.SIMON128_Dec_6_round2 subkeys i (x1, y1, x2, y2, x3, y3)
  = three (SSSE3.SIMON128_Dec_round2 subkeys i (x1, y1))
          (SSSE3.SIMON128_Dec_round2 subkeys i (x2, y2))
          (SSSE3.SIMON128_Dec_round2 subkeys i (x3, y3)).
Proof.
  unfold SSSE3.SIMON128_Dec_6_round2, SSSE3.SIMON128_Dec_round2.
  destruct (SSSE3._mm_loaddup_pd subkeys (i + 1)); [| reflexivity | reflexivity].
  cbn [bind three].
  destruct (SSSE3._mm_loaddup_pd subkeys i); reflexivity.
Qed.

Lemma SSSE3_SIMON128_Dec_round2_uniform (subkeys : list Z) i s s' :
  same_shape (SSSE3.SIMON128_Dec_round2 subkeys i s)
             (SSSE3.SIMON128_Dec_round2 subkeys i s').
Proof.
  destruct s, s'. unfold SSSE3.SIMON128_Dec_round2.
  destruct (SSSE3._mm_loaddup_pd subkeys (i + 1)); try exact I.
  cbn [bind].
  destruct (SSSE3._mm_loaddup_pd subkeys i); exact I.
Qed.

Lemma SSSE3_SIMON128_Dec_loops_three (fuel : nat) (subkeys : list Z) (r : Z)
    (x1 y1 x2 y2 x3 y3 : vec) :
  ('(x1, y1, x2, y2, x3, y3) <-
     for_down fuel (to_int (uint (r - 2))) 2 (SSSE3.SIMON128_Dec_6_round2 subkeys)
       (x1, y1, x2, y2, x3, y3) ;;
   Done (SSSE3._mm_unpacklo_epi64 y1 x1, SSSE3._mm_unpackhi_epi64 y1 x1,
         SSSE3._mm_unpacklo_epi64 y2 x2, SSSE3._mm_unpackhi_epi64 y2 x2,
         SSSE3._mm_unpacklo_epi64 y3 x3, SSSE3._mm_unpackhi_epi64 y3 x3))
  = three
      ('(x1, y1) <- for_down fuel (to_int (uint (r - 2))) 2
                      (SSSE3.SIMON128_Dec_round2 subkeys) (x1, y1) ;;
       Done (SSSE3._mm_unpacklo_epi64 y1 x1, SSSE3._mm_unpackhi_epi64 y1 x1))
      ('(x2, y2) <- for_down fuel (to_int (uint (r - 2))) 2
                      (SSSE3.SIMON128_Dec_round2 subkeys) (x2, y2) ;;
       Done (SSSE3._mm_unpacklo_epi64 y2 x2, SSSE3._mm_unpackhi_epi64 y2 x2))
      ('(x3, y3) <- for_down fuel (to_int (uint (r - 2))) 2
                      (SSSE3.SIMON128_Dec_round2 subkeys) (x3, y3) ;;
       Done (SSSE3._mm_unpacklo_epi64 y3 x3, SSSE3._mm_unpackhi_epi64 y3 x3)).
Proof.
  rewrite (for_down_three _ _ (SSSE3_SIMON128_Dec_6_round2_three subkeys)
             (SSSE3_SIMON128_Dec_round2_uniform subkeys)).
  match goal with
  | |- context [three ?a ?b ?c] =>
      pose proof (for_down_same_shape _ (SSSE3_SIMON128_Dec_round2_uniform subkeys)
                    2 fuel (to_int (uint (r - 2))) (x1, y1) (x2, y2)) as U2;
      pose proof (for_down_same_shape _ (SSSE3_SIMON128_Dec_round2_uniform subkeys)
                    2 fuel (to_int (uint (r - 2))) (x1, y1) (x3, y3)) as U3;
      destruct a as [[? ?] | |], b as [[? ?] | |], c as [[? ?] | |]
  end; simpl in U2, U3; try contradiction; reflexivity.
Qed.

Lemma SSSE3_SIMON128_Dec_6_Blocks_three (fuel : nat) (subkeys : list Z) (rounds : Z)
    (b0 b1 b2 b3 b4 b5 : vec) :
  SSSE3.SIMON128_Dec_6_Blocks fuel subkeys rounds (b0, b1, b2, b3, b4, b5)
  = three (SSSE3.SIMON128_Dec_Block fuel subkeys rounds (b0, b1))
          (SSSE3.SIMON128_Dec_Block fuel subkeys rounds (b2, b3))
          (SSSE3.SIMON128_Dec_Block fuel subkeys rounds (b4, b5)).
Proof.
  unfold SSSE3.SIMON128_Dec_6_Blocks, SSSE3.SIMON128_Dec_Block,
    SSSE3.SIMON128_Dec_6_head, SSSE3.SIMON128_Dec_head.
  destruct (Z.land rounds 1 =? 0).
  - cbn [bind]. apply SSSE3_SIMON128_Dec_loops_three.
  - cbn [SSSE3.Swap128 fst snd].
    destruct (SSSE3._mm_loaddup_pd subkeys (rounds - 1)); [| reflexivity | reflexivity].
    cbn [bind]. apply SSSE3_SIMON128_Dec_loops_three.
Qed.

(** *** NEON: SPECK-128 *)

Lemma NEON_SPECK128_Enc_6_round_three (subkeys : list Z) i x1 y1 x2 y2 x3 y3 :
  NEON.SPECK128_Enc_6_round subkeys i (x1, y1, x2, y2, x3, y3)
  = three (NEON.SPECK128_Enc_round subkeys i (x1, y1))
          (NEON.SPECK128_Enc_round subkeys i (x2, y2))
          (NEON.SPECK128_Enc_round subkeys i (x3, y3)).
Proof.
  unfold NEON.SPECK128_Enc_6_round, NEON.SPECK128_Enc_round.
  destruct (NEON.vld1q_dup_u64 subkeys _); reflexivity.
Qed.

Lemma NEON_SPECK128_Enc_round_uniform (subkeys : list Z) i s s' :
  same_shape (NEON.SPECK128_Enc_round subkeys i s)
             (NEON.SPECK128_Enc_round subkeys i s').
Proof.
  destruct s, s'. unfold NEON.SPECK128_Enc_round.
  destruct (NEON.vld1q_dup_u64 subkeys _); exact I.
Qed.

Lemma NEON_SPECK128_Enc_6_Blocks_three (fuel : nat) (subkeys : list Z) (rounds : Z)
    (b0 b1 b2 b3 b4 b5 : vec) :
  NEON.SPECK128_Enc_6_Blocks fuel subkeys rounds (b0, b1, b2, b3, b4, b5)
  = three (NEON.SPECK128_Enc_Block fuel subkeys rounds (b0, b1))
          (NEON.SPECK128_Enc_Block fuel subkeys rounds (b2, b3))
          (NEON.SPECK128_Enc_Block fuel subkeys rounds (b4, b5)).
Proof.
  unfold NEON.SPECK128_Enc_6_Blocks, NEON.SPECK128_Enc_Block.
  rewrite (for_up_three _ _ (NEON_SPECK128_Enc_6_round_three subkeys)
             (NEON_SPECK128_Enc_round_uniform subkeys)).
  match goal with
  | |- context [three ?a ?b ?c] =>
      pose proof (for_up_same_shape _ (NEON_SPECK128_Enc_round_uniform subkeys)
                    (size_t rounds) 1 fuel 0
                    (NEON.UnpackHigh64 b0 b1, NEON.UnpackLow64 b0 b1)
                    (NEON.UnpackHigh64 b2 b3, NEON.UnpackLow64 b2 b3)) as U2;
      pose proof (for_up_same_shape _ (NEON_SPECK128_Enc_round_uniform subkeys)
                    (size_t rounds) 1 fuel 0
                    (NEON.UnpackHigh64 b0 b1, NEON.UnpackLow64 b0 b1)
                    (NEON.UnpackHigh64 b4 b5, NEON.UnpackLow64 b4 b5)) as U3;
      destruct a as [[? ?] | |], b as [[? ?] | |], c as [[? ?] | |]
  end; simpl in U2, U3; try contradiction; reflexivity.
Qed.

Lemma NEON_SPECK128_Dec_6_round_three (subkeys : list Z) i x1 y1 x2 y2 x3 y3 :
  NEON.SPECK128_Dec_6_round subkeys i (x1, y1, x2, y2, x3, y3)
  = three (NEON.SPECK128_Dec_round subkeys i (x1, y1))
          (NEON.SPECK128_Dec_round subkeys i (x2, y2))
          (NEON.SPECK128_Dec_round subkeys i (x3, y3)).
Proof.
  unfold NEON.SPECK128_Dec_6_round, NEON.SPECK128_Dec_round.
  destruct (NEON.vld1q_dup_u64 subkeys _); reflexivity.
Qed.

Lemma NEON_SPECK128_Dec_round_uniform (subkeys : list Z) i s s' :
  same_shape (NEON.SPECK128_Dec_round subkeys i s)
             (NEON.SPECK128_Dec_round subkeys i s').
Proof.
  destruct s, s'. unfold NEON.SPECK128_Dec_round.
  destruct (NEON.vld1q_dup_u64 subkeys _); exact I.
Qed.

Lemma NEON_SPECK128_Dec_6_Blocks_three (fuel : nat) (subkeys : list Z) (rounds : Z)
    (b0 b1 b2 b3 b4 b5 : vec) :
  NEON.SPECK128_Dec_6_Blocks fuel subkeys rounds (b0, b1, b2, b3, b4, b5)
  = three (NEON.SPECK128_Dec_Block fuel subkeys rounds (b0, b1))
          (NEON.SPECK128_Dec_Block fuel subkeys rounds (b2, b3))
          (NEON.SPECK128_Dec_Block fuel subkeys rounds (b4, b5)).
Proof.
  unfold NEON.SPECK128_Dec_6_Blocks, NEON.SPECK128_Dec_Block.
  rewrite (for_down_three _ _ (NEON_SPECK128_Dec_6_round_three subkeys)
             (NEON_SPECK128_Dec_round_uniform subkeys)).
  match goal with
  | |- context [three ?a ?b ?c] =>
      pose proof (for_down_same_shape _ (NEON_SPECK128_Dec_round_uniform subkeys)
                    1 fuel (to_int (uint (rounds - 1)))
                    (NEON.UnpackHigh64 b0 b1, NEON.UnpackLow64 b0 b1)
                    (NEON.UnpackHigh64 b2 b3, NEON.UnpackLow64 b2 b3)) as U2;
      pose proof (for_down_same_shape _ (NEON_SPECK128_Dec_round_uniform subkeys)
                    1 fuel (to_int (uint (rounds - 1)))
                    (NEON.UnpackHigh64 b0 b1, NEON.UnpackLow64 b0 b1)
                    (NEON.UnpackHigh64 b4 b5, NEON.UnpackLow64 b4 b5)) as U3;
      destruct a as [[? ?] | |], b as [[? ?] | |], c as [[? ?] | |]
  end; simpl in U2, U3; try contradiction; reflexivity.
Qed.

(** *** NEON: SIMON-128 *)

Lemma NEON_SIMON128_Enc_6_round2_three (subkeys : list Z) i x1 y1 x2 y2 x3 y3 :
  NEON.SIMON128_Enc_6_round2 subkeys i (x1, y1, x2, y2, x3, y3)
  = three (NEON.SIMON128_Enc_round2 subkeys i (x1, y1))
          (NEON.SIMON128_Enc_round2 subkeys i (x2, y2))
          (NEON.SIMON128_Enc_round2 subkeys i (x3, y3)).
Proof.
  unfold NEON.SIMON128_Enc_6_round2, NEON.SIMON128_Enc_round2.
  destruct (NEON.vld1q_dup_u64 subkeys i); [| reflexivity | reflexivity].
  cbn [bind three].
  destruct (NEON.vld1q_dup_u64 subkeys (i + 1)); reflexivity.
Qed.

Lemma NEON_SIMON128_Enc_round2_uniform (subkeys : list Z) i s s' :
  same_shape (NEON.SIMON128_Enc_round2 subkeys i s)
             (NEON.SIMON128_Enc_round2 subkeys i s').
Proof.
  destruct s, s'. unfold NEON.SIMON128_Enc_round2.
  destruct (NEON.vld1q_dup_u64 subkeys i); try exact I.
  cbn [bind].
  destruct (NEON.vld1q_dup_u64 subkeys (i + 1)); exact I.
Qed.

Lemma NEON_SIMON128_Enc_6_tail_three (subkeys : list Z) rounds x1 y1 x2 y2 x3 y3 :
  NEON.SIMON128_Enc_6_tail subkeys rounds (x1, y1, x2, y2, x3, y3)
  = three (NEON.SIMON128_Enc_tail subkeys rounds (x1, y1))
          (NEON.SIMON128_Enc_tail subkeys rounds (x2, y2))
          (NEON.SIMON128_Enc_tail subkeys rounds (x3, y3)).
Proof.
  unfold NEON.SIMON128_Enc_6_tail, NEON.SIMON128_Enc_tail.
  destruct (Z.land rounds 1 =? 0); [reflexivity |].
  destruct (NEON.vld1q_dup_u64 subkeys _); reflexivity.
Qed.

Lemma NEON_SIMON128_Enc_tail_uniform (subkeys : list Z) rounds s s' :
  same_shape (NEON.SIMON128_Enc_tail subkeys rounds s)
             (NEON.SIMON128_Enc_tail subkeys rounds s').
Proof.
  destruct s, s'. unfold NEON.SIMON128_Enc_tail.
  destruct (Z.land rounds 1 =? 0); [exact I |].
  destruct (NEON.vld1q_dup_u64 subkeys _); exact I.
Qed.

Lemma NEON_SIMON128_Enc_6_Blocks_three (fuel : nat) (subkeys : list Z) (rounds : Z)
    (b0 b1 b2 b3 b4 b5 : vec) :
  NEON.SIMON128_Enc_6_Blocks fuel subkeys rounds (b0, b1, b2, b3, b4, b5)
  = three (NEON.SIMON128_Enc_Block fuel subkeys rounds (b0, b1))
          (NEON.SIMON128_Enc_Block fuel subkeys rounds (b2, b3))
          (NEON.SIMON128_Enc_Block fuel subkeys rounds (b4, b5)).
Proof.
  unfold NEON.SIMON128_Enc_6_Blocks, NEON.SIMON128_Enc_Block.
  rewrite (for_up_three _ _ (NEON_SIMON128_Enc_6_round2_three subkeys)
             (NEON_SIMON128_Enc_round2_uniform subkeys)).
  match goal with
  | |- context [three ?a ?b ?c] =>
      pose proof (for_up_same_shape _ (NEON_SIMON128_Enc_round2_uniform subkeys)
                    (NEON.SIMON128_Enc_bound rounds) 2 fuel 0
                    (NEON.UnpackHigh64 b0 b1, NEON.UnpackLow64 b0 b1)
                    (NEON.UnpackHigh64 b2 b3, NEON.UnpackLow64 b2 b3)) as U2;
      pose proof (for_up_same_shape _ (NEON_SIMON128_Enc_round2_uniform subkeys)
                    (NEON.SIMON128_Enc_bound rounds) 2 fuel 0
                    (NEON.UnpackHigh64 b0 b1, NEON.UnpackLow64 b0 b1)
                    (NEON.UnpackHigh64 b4 b5, NEON.UnpackLow64 b4 b5)) as U3;
      destruct a as [[p1 q1] | |], b as [[p2 q2] | |], c as [[p3 q3] | |]
  end; simpl in U2, U3; try contradiction; try reflexivity.
  cbn [bind three]. rewrite NEON_SIMON128_Enc_6_tail_three.
  pose proof (NEON_SIMON128_Enc_tail_uniform subkeys rounds (p1, q1) (p2, q2)) as V2.
  pose proof (NEON_SIMON128_Enc_tail_uniform subkeys rounds (p1, q1) (p3, q3)) as V3.
  destruct (NEON.SIMON128_Enc_tail subkeys rounds (p1, q1)) as [[? ?] | |],
           (NEON.SIMON128_Enc_tail subkeys rounds (p2, q2)) as [[? ?] | |],
           (NEON.SIMON128_Enc_tail subkeys rounds (p3, q3)) as [[? ?] | |];
    simpl in V2, V3; try contradiction; reflexivity.
Qed.

Lemma NEON_SIMON128_Dec_6_round2_three (subkeys : list Z) i x1 y1 x2 y2 x3 y3 :
  NEON.SIMON128_Dec_6_round2 subkeys i (x1, y1, x2, y2, x3, y3)
  = three (NEON.SIMON128_Dec_round2 subkeys i (x1, y1))
          (NEON.SIMON128_Dec_round2 subkeys i (x2, y2))
          (NEON.SIMON128_Dec_round2 subkeys i (x3, y3)).
Proof.
  unfold NEON.SIMON128_Dec_6_round2, NEON.SIMON128_Dec_round2.
  destruct (NEON.vld1q_dup_u64 subkeys (i + 1)); [| reflexivity | reflexivity].
  cbn [bind three].
  destruct (NEON.vld1q_dup_u64 subkeys i); reflexivity.
Qed.

Lemma NEON_SIMON128_Dec_round2_uniform (subkeys : list Z) i s s' :
  same_shape (NEON.SIMON128_Dec_round2 subkeys i s)
             (NEON.SIMON128_Dec_round2 subkeys i s').
Proof.
  destruct s, s'. unfold NEON.SIMON128_Dec_round2.
  destruct (NEON.vld1q_dup_u64 subkeys (i + 1)); try exact I.
  cbn [bind].
  destruct (NEON.vld1q_dup_u64 subkeys i); exact I.
Qed.

Lemma NEON_SIMON128_Dec_loops_three (fuel : nat) (subkeys : list Z) (r : Z)
    (x1 y1 x2 y2 x3 y3 : vec) :
  ('(x1, y1, x2, y2, x3, y3) <-
     for_down fuel (to_int (uint (r - 2))) 2 (NEON.SIMON128_Dec_6_round2 subkeys)
       (x1, y1, x2, y2, x3, y3) ;;
   Done (NEON.UnpackLow64 y1 x1, NEON.UnpackHigh64 y1 x1,
         NEON.UnpackLow64 y2 x2, NEON.UnpackHigh64 y2 x2,
         NEON.UnpackLow64 y3 x3, NEON.UnpackHigh64 y3 x3))
  = three
      ('(x1, y1) <- for_down fuel (to_int (uint (r - 2))) 2
                      (NEON.SIMON128_Dec_round2 subkeys) (x1, y1) ;;
       Done (NEON.UnpackLow64 y1 x1, NEON.UnpackHigh64 y1 x1))
      ('(x2, y2) <- for_down fuel (to_int (uint (r - 2))) 2
                      (NEON.SIMON128_Dec_round2 subkeys) (x2, y2) ;;
       Done (NEON.UnpackLow64 y2 x2, NEON.UnpackHigh64 y2 x2))
      ('(x3, y3) <- for_down fuel (to_int (uint (r - 2))) 2
                      (NEON.SIMON128_Dec_round2 subkeys) (x3, y3) ;;
       Done (NEON.UnpackLow64 y3 x3, NEON.UnpackHigh64 y3 x3)).
Proof.
  rewrite (for_down_three _ _ (NEON_SIMON128_Dec_6_round2_three subkeys)
             (NEON_SIMON128_Dec_round2_uniform subkeys)).
  match goal with
  | |- context [three ?a ?b ?c] =>
      pose proof (for_down_same_shape _ (NEON_SIMON128_Dec_round2_uniform subkeys)
                    2 fuel (to_int (uint (r - 2))) (x1, y1) (x2, y2)) as U2;
      pose proof (for_down_same_shape _ (NEON_SIMON128_Dec_round2_uniform subkeys)
                    2 fuel (to_int (uint (r - 2))) (x1, y1) (x3, y3)) as U3;
      destruct a as [[? ?] | |], b as [[? ?] | |], c as [[? ?] | |]
  end; simpl in U2, U3; try contradiction; reflexivity.
Qed.

Lemma NEON_SIMON128_Dec_6_Blocks_three (fuel : nat) (subkeys : list Z) (rounds : Z)
    (b0 b1 b2 b3 b4 b5 : vec) :
  NEON.SIMON128_Dec_6_Blocks fuel subkeys rounds (b0, b1, b2, b3, b4, b5)
  = three (NEON.SIMON128_Dec_Block fuel subkeys rounds (b0, b1))
          (NEON.SIMON128_Dec_Block fuel subkeys rounds (b2, b3))
          (NEON.SIMON128_Dec_Block fuel subkeys rounds (b4, b5)).
Proof.
  unfold NEON.SIMON128_Dec_6_Blocks, NEON.SIMON128_Dec_Block,
    NEON.SIMON128_Dec_6_head, NEON.SIMON128_Dec_head.
  destruct (Z.land rounds 1 =? 0).
  - cbn [bind]. apply NEON_SIMON128_Dec_loops_three.
  - cbn [NEON.swap fst snd].
    destruct (NEON.vld1q_dup_u64 subkeys (rounds - 1)); [| reflexivity | reflexivity].
    cbn [bind]. apply NEON_SIMON128_Dec_loops_three.
Qed.

(** ** SIMON-128 with fewer than two rounds *)

Lemma SIMON128_Enc_bound_wraps (rounds : Z) :
  0 <= rounds < 2 ->
  SSSE3.SIMON128_Enc_bound rounds = W64 - 1
  /\ NEON.SIMON128_Enc_bound rounds = W64 - 1.
Proof.
  intros H. assert (C : rounds = 0 \/ rounds = 1) by lia.
  destruct C as [-> | ->]; split; reflexivity.
Qed.

Lemma NEON_SIMON128_Enc_round2_short_schedule (K : list Z) (s : vec * vec) :
  (length K < 2)%nat -> NEON.SIMON128_Enc_round2 K 0 s = Fault.
Proof.
  intros H. destruct s as [x y]. unfold NEON.SIMON128_Enc_round2, NEON.vld1q_dup_u64.
  destruct K as [| k0 [| k1 K]]; [reflexivity | reflexivity | simpl in H; lia].
Qed.

Lemma SSSE3_SIMON128_Enc_round2_short_schedule (K : list Z) (s : vec * vec) :
  (length K < 2)%nat -> SSSE3.SIMON128_Enc_round2 (splat K) 0 s = Fault.
Proof.
  intros H. destruct s as [x y]. unfold SSSE3.SIMON128_Enc_round2, SSSE3._mm_load_si128.
  destruct K as [| k0 [| k1 K]]; [reflexivity | reflexivity | simpl in H; lia].
Qed.

Lemma NEON_SIMON128_Enc_Block_small (K : list Z) (fuel : nat) (blocks : vec * vec) :
  Z.of_nat (length K) < 2 ->
  NEON.SIMON128_Enc_Block fuel K (Z.of_nat (length K)) blocks
  = match fuel with O => Timeout | Datatypes.S _ => Fault end.
Proof.
  intros H. destruct blocks as [b0 b1]. unfold NEON.SIMON128_Enc_Block.
  destruct (SIMON128_Enc_bound_wraps (Z.of_nat (length K))) as [_ ->]; [lia |].
  destruct fuel as [| fuel]; [reflexivity |].
  cbn [for_up]. change (0 <? W64 - 1) with true. cbv iota.
  rewrite NEON_SIMON128_Enc_round2_short_schedule by lia. reflexivity.
Qed.

Lemma SSSE3_SIMON128_Enc_Block_small (K : list Z) (fuel : nat) (blocks : vec * vec) :
  Z.of_nat (length K) < 2 ->
  SSSE3.SIMON128_Enc_Block fuel (splat K) (Z.of_nat (length K)) blocks
  = match fuel with O => Timeout | Datatypes.S _ => Fault end.
Proof.
  intros H. destruct blocks as [b0 b1]. unfold SSSE3.SIMON128_Enc_Block.
  destruct (SIMON128_Enc_bound_wraps (Z.of_nat (length K))) as [-> _]; [lia |].
  destruct fuel as [| fuel]; [reflexivity |].
  cbn [for_up]. change (0 <? W64 - 1) with true. cbv iota.
  rewrite SSSE3_SIMON128_Enc_round2_short_schedule by lia. reflexivity.
Qed.

(** With the wrapped bound [2^64 - 1] the stride-2 counter never reaches the
    bound, whatever the round-key array: the paired loop cannot end. *)
Lemma for_up_wrapped_never_done {S : Type} (body : Z -> S -> outcome S) :
  forall (fuel : nat) (i : Z) (s : S) (r : S),
    0 <= i < W64 -> i mod 2 = 0 ->
    for_up fuel i (W64 - 1) 2 body s <> Done r.
Proof.
  assert (Hodd : forall i, 0 <= i < W64 -> i mod 2 = 0 -> i < W64 - 1).
  { intros i Hi He. unfold W64 in *. Z.div_mod_to_equations. lia. }
  induction fuel as [| fuel IH]; intros i s r Hi He; cbn [for_up];
    pose proof (Hodd i Hi He) as Hlt;
    destruct (Z.ltb_spec i (W64 - 1)) as [_ | Hge]; try lia; try discriminate.
  destruct (body i s) as [s' | |]; cbn [bind]; try discriminate.
  apply IH.
  - unfold size_t, W64. apply Z.mod_pos_bound. lia.
  - unfold size_t, W64 in *. Z.div_mod_to_equations. lia.
Qed.

Lemma SIMON128_Enc_Block_never_returns (subkeys : list Z) (rounds : Z) (fuel : nat)
    (blocks : vec * vec) (r : vec * vec) :
  0 <= rounds < 2 ->
  SSSE3.SIMON128_Enc_Block fuel subkeys rounds blocks <> Done r
  /\ NEON.SIMON128_Enc_Block fuel subkeys rounds blocks <> Done r.
Proof.
  intros H. destruct blocks as [b0 b1].
  destruct (SIMON128_Enc_bound_wraps rounds H) as [B1 B2].
  unfold SSSE3.SIMON128_Enc_Block, NEON.SIMON128_Enc_Block. rewrite B1, B2.
  split.
  - destruct (for_up fuel 0 (W64 - 1) 2 (SSSE3.SIMON128_Enc_round2 subkeys) _)
      as [s | |] eqn:E; cbn [bind]; try discriminate.
    exfalso. revert E. apply for_up_wrapped_never_done; [unfold W64; lia | reflexivity].
  - destruct (for_up fuel 0 (W64 - 1) 2 (NEON.SIMON128_Enc_round2 subkeys) _)
      as [s | |] eqn:E; cbn [bind]; try discriminate.
    exfalso. revert E. apply for_up_wrapped_never_done; [unfold W64; lia | reflexivity].
Qed.

(** ** SIMON-128 by pairs *)

Lemma flat_pairs_length (KP : list (Z * Z)) :
  length (flat_pairs KP) = (2 * length KP)%nat.
Proof. induction KP as [| p KP IH]; simpl; [reflexivity | rewrite IH; lia]. Qed.

Lemma simon_round_twice (k1 k2 : Z) (s : vec * vec) :
  on_lanes (simon_round k2) (on_lanes (simon_round k1) s)
  = on_lanes (simon_enc_pair k1 k2) s.
Proof. destruct s as [[xl xh] [yl yh]]. reflexivity. Qed.

Lemma simon_unround_twice (k1 k2 : Z) (s : vec * vec) :
  on_lanes (simon_unround k1) (on_lanes (simon_unround k2) s)
  = on_lanes (simon_dec_pair k1 k2) s.
Proof. destruct s as [[xl xh] [yl yh]]. reflexivity. Qed.

Lemma simon_round_last (k : Z) (s : vec * vec) :
  on_lanes (simon_round k) s = on_lanes (simon_enc_last k) s.
Proof. destruct s as [[xl xh] [yl yh]]. reflexivity. Qed.

Lemma simon_unround_first (k : Z) (s : vec * vec) :
  on_lanes (simon_unround k) s = on_lanes (simon_dec_first k) s.
Proof.
  destruct s as [[xl xh] [yl yh]]. unfold on_lanes, simon_unround, simon_dec_first.
  cbn [lo hi fst snd].
  rewrite (lxor_swap_last xl k), (lxor_swap_last xh k). reflexivity.
Qed.

Lemma run_rounds_flat_pairs (KP : list (Z * Z)) (s : vec * vec) :
  run_rounds simon_round (flat_pairs KP) s = run_pairs KP s.
Proof.
  revert s. induction KP as [| [k1 k2] KP IH]; intros s; [reflexivity |].
  unfold run_rounds, run_pairs in *. simpl.
  rewrite simon_round_twice. apply IH.
Qed.

Lemma undo_rounds_flat_pairs (KP : list (Z * Z)) (s : vec * vec) :
  undo_rounds simon_unround (flat_pairs KP) s = undo_pairs KP s.
Proof.
  induction KP as [| [k1 k2] KP IH]; [reflexivity |].
  unfold undo_rounds, undo_pairs in *. simpl.
  rewrite IH. apply simon_unround_twice.
Qed.

Lemma odd_schedule_length (KP : list (Z * Z)) (k : Z) :
  length (flat_pairs KP ++ [k]) = (2 * length KP + 1)%nat.
Proof. rewrite length_app, flat_pairs_length. simpl. lia. Qed.

Lemma odd_schedule_half (KP : list (Z * Z)) (k : Z) :
  (length (flat_pairs KP ++ [k]) / 2 = length KP)%nat.
Proof.
  rewrite odd_schedule_length. symmetry.
  apply Nat.div_unique with (r := 1%nat); lia.
Qed.

(** Past 2^31 rounds the tail index [(rounds-1)*2] of the SSSE3 kernel wraps
    in [unsigned int] arithmetic and an earlier key is loaded. *)
Lemma SSSE3_SIMON128_Enc_tail_odd_wrapped (K : list Z) (n : nat) (k' : Z) (s : vec * vec) :
  nth_error K (Z.to_nat (Z.of_nat n - 2 ^ 31)) = Some k' ->
  Z.land (Z.of_nat n + 1) 1 = 1 ->
  2 ^ 31 <= Z.of_nat n -> Z.of_nat n + 1 < 2 ^ 32 -> wf_pair s ->
  SSSE3.SIMON128_Enc_tail (splat K) (Z.of_nat n + 1) s
  = Done (on_lanes (simon_round k') s).
Proof.
  intros Hk Hodd Hlo Hhi [Hx Hy]. destruct s as [x y]. simpl in Hx, Hy.
  unfold SSSE3.SIMON128_Enc_tail. rewrite Hodd. cbn [Z.eqb].
  replace (Z.of_nat n + 1 - 1) with (Z.of_nat n) by lia.
  rewrite (uint_small (Z.of_nat n)) by (unfold W32; lia).
  assert (E : uint (Z.of_nat n * 2)
              = 2 * Z.of_nat (Z.to_nat (Z.of_nat n - 2 ^ 31))).
  { unfold uint, W32. rewrite Z2Nat.id by lia.
    symmetry. apply Z.mod_unique with (q := 1); lia. }
  rewrite E, (load_splat _ _ _ Hk). cbn [bind].
  rewrite !SSSE3_SIMON128_f_lanes by wf_full.
  destruct x, y. reflexivity.
Qed.

(** The SSSE3 encryption kernel on any schedule of 2 to 2^32 - 1 keys: it
    returns the rounds of a schedule [K'] of the same length, which is [K]
    itself up to 2^31 rounds. *)
Lemma SSSE3_SIMON128_Enc_Block_runs (K : list Z) (fuel : nat) (blocks : vec * vec) :
  Forall in64 K -> wf_pair blocks ->
  2 <= Z.of_nat (length K) < 2 ^ 32 -> (length K / 2 <= fuel)%nat ->
  exists K',
    length K' = length K
    /\ (Z.of_nat (length K) <= 2 ^ 31 -> K' = K)
    /\ SSSE3.SIMON128_Enc_Block fuel (splat K) (Z.of_nat (length K)) blocks
       = Done (SSSE3.detranspose (run_rounds simon_round K' (SSSE3.transpose blocks))).
Proof.
  intros HK Hb Hlen Hfuel.
  destruct (Z_le_dec (Z.of_nat (length K)) (2 ^ 31)) as [Hsmall | Hbig].
  { exists K. split; [reflexivity |]. split; [reflexivity |].
    apply SSSE3_SIMON128_Enc_Block_spec; assumption || lia. }
  pose proof (SSSE3_transpose_wf _ Hb) as Ht. destruct blocks as [b0 b1].
  destruct (even_prefix K) as (m & L & T & EK & HL & HT). subst K.
  assert (HT' : (length T <= 1)%nat)
    by (destruct HT as [-> | [k ->]]; simpl; lia).
  assert (Hdiv : (length (L ++ T) / 2 = m)%nat).
  { rewrite length_app, HL. symmetry.
    apply Nat.div_unique with (r := length T); lia. }
  rewrite Hdiv in Hfuel.
  assert (Hm : (1 <= m)%nat) by (rewrite length_app in Hlen; lia).
  destruct (SSSE3_SIMON128_Enc_loop m L T fuel (SSSE3.transpose (b0, b1)))
    as [E Hw]; try assumption; try lia.
  unfold SSSE3.SIMON128_Enc_Block.
  change (SSSE3._mm_unpackhi_epi64 b0 b1, SSSE3._mm_unpacklo_epi64 b0 b1)
    with (SSSE3.transpose (b0, b1)).
  rewrite E. cbn [bind].
  set (s := run_rounds simon_round L (SSSE3.transpose (b0, b1))) in *.
  destruct HT as [-> | [k ->]].
  - exists (L ++ []). split; [reflexivity |]. split; [reflexivity |].
    rewrite run_rounds_app. fold s.
    rewrite app_nil_r, HL.
    rewrite SSSE3_SIMON128_Enc_tail_even by apply parity_even.
    cbn [bind]. unfold run_rounds. simpl fold_left. destruct s as [x y]. reflexivity.
  - rewrite length_app in *. simpl length in *. rewrite HL in *.
    assert (Hj : (Z.to_nat (Z.of_nat (2 * m) - 2 ^ 31) < length (L ++ [k]))%nat)
      by (rewrite length_app, HL; simpl; lia).
    destruct (nth_error (L ++ [k]) (Z.to_nat (Z.of_nat (2 * m) - 2 ^ 31)))
      as [k' |] eqn:Hk'; [| apply nth_error_None in Hk'; lia].
    exists (L ++ [k']). split; [rewrite length_app; simpl; lia |].
    split; [intros; lia |].
    replace (Z.of_nat (2 * m + 1)) with (Z.of_nat (2 * m) + 1) in * by lia.
    rewrite (SSSE3_SIMON128_Enc_tail_odd_wrapped _ _ k'); try assumption;
      try apply parity_odd; try lia.
    cbn [bind]. rewrite run_rounds_app. fold s.
    unfold run_rounds at 1. simpl fold_left.
    destruct (on_lanes (simon_round k') s) as [x y]. reflexivity.
Qed.

(** ** The driver *)

Section DriverFacts.

Variable func2 : list Z -> Z -> vec * vec -> outcome (vec * vec).
Variable func6 : list Z -> Z -> vec * vec * vec * vec * vec * vec
                 -> outcome (vec * vec * vec * vec * vec * vec).
Variable subKeys : list Z.
Variable rounds : Z.
Variable flags : flags_t.

Hypothesis func2_total : forall b, exists r, func2 subKeys (uint rounds) b = Done r.
Hypothesis func6_total : forall b, exists r, func6 subKeys (uint rounds) b = Done r.

Lemma gather_length (n : nat) (m : memory) (p : Z) :
  length (fst (gather flags n m p)) = n.
Proof.
  revert m p. induction n as [| n IH]; intros m p; simpl; [reflexivity |].
  specialize (IH (if BT_InBlockIsCounter flags
                  then store128 m p (counter_succ (load128 m p)) else m)
                 (p + in_stride flags)).
  destruct (gather flags n _ _) as [bs m'']. simpl in *. lia.
Qed.

Lemma xor_with_length (m : memory) (xp : Z) (bs : list vec) :
  length (xor_with flags m xp bs) = length bs.
Proof. revert xp. induction bs as [| b r IH]; intros xp; simpl; [| rewrite IH]; reflexivity. Qed.

Lemma run_kernel_total (n : nat) (bs : list vec) :
  length bs = n -> n = 6%nat \/ n = 2%nat \/ n = 1%nat ->
  exists out, run_kernel func2 func6 subKeys rounds bs = Done out /\ length out = n.
Proof.
  intros Hl Hn.
  destruct Hn as [-> | [-> | ->]].
  - destruct bs as [| b0 [| b1 [| b2 [| b3 [| b4 [| b5 [| b6 r]]]]]]]; try discriminate.
    unfold run_kernel.
    destruct (func6_total (b0, b1, b2, b3, b4, b5)) as [[[[[[c0 c1] c2] c3] c4] c5] E].
    rewrite E. eexists. split; reflexivity.
  - destruct bs as [| b0 [| b1 [| b2 r]]]; try discriminate.
    unfold run_kernel.
    destruct (func2_total (b0, b1)) as [[c0 c1] E].
    rewrite E. eexists. split; reflexivity.
  - destruct bs as [| b0 [| b1 r]]; try discriminate.
    unfold run_kernel.
    destruct (func2_total (b0, mkvec 0 0)) as [[c0 c1] E].
    rewrite E. eexists. split; reflexivity.
Qed.

(** One iteration returns and takes [16 n] bytes off the length. *)
Lemma process_total (n : nat) (st : driver_state) :
  n = 6%nat \/ n = 2%nat \/ n = 1%nat ->
  exists out,
    length out = n
    /\ process func2 func6 subKeys rounds flags n st
       = Done (mkstate (scatter flags (snd (gather flags n (mem st) (inBlocks st)))
                          (outBlocks st) out)
                       (inBlocks st + Z.of_nat n * in_stride flags)
                       (option_map (fun xp => xp + Z.of_nat n * stride flags)
                                   (xorBlocks st))
                       (outBlocks st + Z.of_nat n * stride flags)
                       (length_left st - 16 * Z.of_nat n)).
Proof.
  intros Hn. unfold process.
  pose proof (gather_length n (mem st) (inBlocks st)) as Hg.
  destruct (gather flags n (mem st) (inBlocks st)) as [bs m1]. simpl in Hg.
  set (bs' := match xorBlocks st with
              | Some xp => if BT_XorInput flags then xor_with flags m1 xp bs else bs
              | None => bs
              end).
  assert (Hb : length bs' = n).
  { unfold bs'. destruct (xorBlocks st); [destruct (BT_XorInput flags) |];
      rewrite ?xor_with_length; assumption. }
  destruct (run_kernel_total n bs' Hb Hn) as (out & E & Ho).
  rewrite E. cbn [bind snd].
  eexists. split; [| reflexivity].
  destruct (xorBlocks st); [destruct (BT_XorInput flags) |];
    rewrite ?xor_with_length; assumption.
Qed.

(** A [while (length >= c)] loop whose body always returns and takes [c]
    bytes off the length: it returns, leaves [length mod c], and carries an
    invariant of the body along. *)
Lemma while_ge_run (I : driver_state -> Prop) (c : Z)
    (body : driver_state -> outcome driver_state) :
  0 < c ->
  (forall st, I st -> c <= length_left st ->
     exists st', body st = Done st' /\ length_left st' = length_left st - c /\ I st') ->
  forall fuel st,
    I st -> 0 <= length_left st -> (Z.to_nat (length_left st / c) <= fuel)%nat ->
    exists st', while_ge fuel c body st = Done st'
                /\ length_left st' = length_left st mod c /\ I st'.
Proof.
  intros Hc Hbody. induction fuel as [| fuel IH]; intros st HI Hl Hf.
  - assert (Hsmall : length_left st < c).
    { assert (length_left st / c <= 0) by lia.
      destruct (Z_lt_dec (length_left st) c) as [Hlt | Hge]; [exact Hlt |].
      assert (1 <= length_left st / c) by (apply Z.div_le_lower_bound; lia). lia. }
    exists st. simpl.
    destruct (Z.leb_spec c (length_left st)); [lia |].
    rewrite Z.mod_small by lia. auto.
  - simpl. destruct (Z.leb_spec c (length_left st)) as [Hge | Hlt].
    + destruct (Hbody st HI Hge) as (st1 & E & El & HI1).
      rewrite E. cbn [bind].
      assert (Hq : length_left st1 / c = length_left st / c - 1).
      { rewrite El. replace (length_left st - c) with (length_left st + (-1) * c) by lia.
        rewrite Z.div_add by lia. lia. }
      destruct (IH st1 HI1) as (st2 & E2 & El2 & HI2); try lia.
      exists st2. split; [exact E2 |]. split; [| exact HI2].
      rewrite El2, El.
      replace (length_left st - c) with (length_left st + (-1) * c) by lia.
      apply Z.mod_add. lia.
    + exists st. rewrite Z.mod_small by lia. auto.
Qed.

Lemma div_le_16 (l c : Z) : 0 <= l -> 16 <= c -> l / c <= l / 16.
Proof.
  intros Hl Hc.
  apply Z.div_le_lower_bound; [lia |].
  assert (c * (l / c) <= l) by (apply Z.mul_div_le; lia).
  assert (0 <= l / c) by (apply Z.div_pos; lia).
  nia.
Qed.

(** The three loops together, with an invariant kept by every iteration. *)
Lemma driver_loops_run (I : driver_state -> Prop) (fuel : nat) (st : driver_state) :
  (forall n st, n = 6%nat \/ n = 2%nat \/ n = 1%nat -> I st ->
     16 * Z.of_nat n <= length_left st ->
     forall st', process func2 func6 subKeys rounds flags n st = Done st' -> I st') ->
  I st -> 0 <= length_left st -> (Z.to_nat (length_left st / 16) <= fuel)%nat ->
  exists st', driver_loops func2 func6 subKeys rounds flags fuel st = Done st'
              /\ length_left st' = length_left st mod 16 /\ I st'.
Proof.
  intros Hinv HI Hl Hf.
  assert (Hbody : forall n, n = 6%nat \/ n = 2%nat \/ n = 1%nat ->
            forall s, I s -> 16 * Z.of_nat n <= length_left s ->
            exists s', process func2 func6 subKeys rounds flags n s = Done s'
                       /\ length_left s' = length_left s - 16 * Z.of_nat n /\ I s').
  { intros n Hn s Hs Hle. destruct (process_total n s Hn) as (out & _ & E).
    eexists. split; [exact E |]. split; [reflexivity |].
    eapply Hinv; eassumption. }
  unfold driver_loops.
  assert (H1 : exists st1,
             (if BT_AllowParallel flags
              then while_ge fuel (6 * 16) (process func2 func6 subKeys rounds flags 6) st
              else Done st) = Done st1
             /\ 0 <= length_left st1 <= length_left st
             /\ length_left st1 mod 16 = length_left st mod 16 /\ I st1).
  { destruct (BT_AllowParallel flags).
    - destruct (while_ge_run I (6 * 16) (process func2 func6 subKeys rounds flags 6))
        with (fuel := fuel) (st := st) as (st1 & E & El & HI1); try assumption; try lia.
      { intros s Hs Hle. apply (Hbody 6%nat); auto. }
      { pose proof (div_le_16 (length_left st) (6 * 16) Hl ltac:(lia)). lia. }
      exists st1. split; [exact E |]. rewrite El.
      split; [| split; [| exact HI1]].
      + pose proof (Z.mod_pos_bound (length_left st) (6 * 16) ltac:(lia)).
        pose proof (Z.mod_le (length_left st) (6 * 16) Hl ltac:(lia)). lia.
      + Z.div_mod_to_equations. lia.
    - exists st. repeat split; try assumption; lia. }
  destruct H1 as (st1 & E1 & Hl1 & Hm1 & HI1). rewrite E1. cbn [bind].
  destruct (while_ge_run I (2 * 16) (process func2 func6 subKeys rounds flags 2))
    with (fuel := fuel) (st := st1) as (st2 & E2 & El2 & HI2); try assumption; try lia.
  { intros s Hs Hle. apply (Hbody 2%nat); auto. }
  { pose proof (div_le_16 (length_left st1) (2 * 16) ltac:(lia) ltac:(lia)).
    assert (length_left st1 / 16 <= length_left st / 16)
      by (apply Z.div_le_mono; lia). lia. }
  rewrite E2. cbn [bind].
  assert (Hl2 : 0 <= length_left st2 <= length_left st1).
  { rewrite El2.
    pose proof (Z.mod_pos_bound (length_left st1) (2 * 16) ltac:(lia)).
    pose proof (Z.mod_le (length_left st1) (2 * 16) ltac:(lia) ltac:(lia)). lia. }
  destruct (while_ge_run I 16 (process func2 func6 subKeys rounds flags 1))
    with (fuel := fuel) (st := st2) as (st3 & E3 & El3 & HI3); try assumption; try lia.
  { intros s Hs Hle. apply (Hbody 1%nat); auto. }
  { assert (length_left st2 / 16 <= length_left st / 16)
      by (apply Z.div_le_mono; lia). lia. }
  exists st3. split; [exact E3 |]. split; [| exact HI3].
  rewrite El3, El2, <- Hm1. Z.div_mod_to_equations. lia.
Qed.

End DriverFacts.

(** *** What a forward run writes *)

Lemma store128_outside (m : memory) (p : Z) (v : vec) (a : Z) :
  a < p \/ p + 16 <= a -> store128 m p v a = m a.
Proof.
  intros H. unfold store128.
  destruct (Z.leb_spec p a), (Z.ltb_spec a (p + 16)); simpl; try reflexivity; lia.
Qed.

Section ForwardRun.

Variable flags : flags_t.
Hypothesis forward : BT_DontIncrementInOutPointers flags = false
                     /\ BT_ReverseDirection flags = false
                     /\ BT_InBlockIsCounter flags = false.

Lemma forward_stride : stride flags = 16.
Proof. destruct forward as (H1 & H2 & _). unfold stride. rewrite H1, H2. reflexivity. Qed.

Lemma gather_keeps_memory (n : nat) (m : memory) (p : Z) :
  snd (gather flags n m p) = m.
Proof.
  destruct forward as (_ & _ & H3).
  revert m p. induction n as [| n IH]; intros m p; simpl; [reflexivity |].
  rewrite H3. specialize (IH m (p + in_stride flags)).
  destruct (gather flags n m (p + in_stride flags)) as [bs m'']. exact IH.
Qed.

Lemma scatter_outside (bs : list vec) (m : memory) (p a : Z) :
  a < p \/ p + 16 * Z.of_nat (length bs) <= a -> scatter flags m p bs a = m a.
Proof.
  revert m p. induction bs as [| b r IH]; intros m p H; simpl; [reflexivity |].
  rewrite forward_stride. simpl length in H.
  rewrite IH by lia. apply store128_outside. lia.
Qed.

End ForwardRun.

(** ** Kernels return on every input once they return on one *)

Lemma NEON_SPECK128_Enc_Block_total (K : list Z) (fuel : nat) :
  Forall in64 K -> Z.of_nat (length K) < 2 ^ 32 -> (length K <= fuel)%nat ->
  forall b, exists r, NEON.SPECK128_Enc_Block fuel K (Z.of_nat (length K)) b = Done r.
Proof.
  intros HK Hlen Hfuel [b0 b1].
  assert (Hz : wf_pair (mkvec 0 0, mkvec 0 0))
    by (repeat split; simpl; unfold W64; lia).
  destruct (NEON_SPECK128_Enc_Block_spec K fuel _ HK Hz Hlen Hfuel) as [E _].
  unfold NEON.SPECK128_Enc_Block in *.
  pose proof (for_up_same_shape _ (NEON_SPECK128_Enc_round_uniform K)
                (size_t (Z.of_nat (length K))) 1 fuel 0
                (NEON.UnpackHigh64 b0 b1, NEON.UnpackLow64 b0 b1)
                (NEON.UnpackHigh64 (mkvec 0 0) (mkvec 0 0),
                 NEON.UnpackLow64 (mkvec 0 0) (mkvec 0 0))) as U.
  destruct (for_up fuel 0 _ 1 _ (NEON.UnpackHigh64 (mkvec 0 0) (mkvec 0 0), _))
    as [[x0 y0] | |]; try discriminate.
  destruct (for_up fuel 0 _ 1 _ (NEON.UnpackHigh64 b0 b1, _)) as [[x y] | |];
    simpl in U; try contradiction.
  eexists. reflexivity.
Qed.

Lemma NEON_SPECK128_Enc_6_Blocks_total (K : list Z) (fuel : nat) :
  Forall in64 K -> Z.of_nat (length K) < 2 ^ 32 -> (length K <= fuel)%nat ->
  forall b, exists r, NEON.SPECK128_Enc_6_Blocks fuel K (Z.of_nat (length K)) b = Done r.
Proof.
  intros HK Hlen Hfuel [[[[[b0 b1] b2] b3] b4] b5].
  rewrite NEON_SPECK128_Enc_6_Blocks_three.
  destruct (NEON_SPECK128_Enc_Block_total K fuel HK Hlen Hfuel (b0, b1)) as [[? ?] ->].
  destruct (NEON_SPECK128_Enc_Block_total K fuel HK Hlen Hfuel (b2, b3)) as [[? ?] ->].
  destruct (NEON_SPECK128_Enc_Block_total K fuel HK Hlen Hfuel (b4, b5)) as [[? ?] ->].
  eexists. reflexivity.
Qed.

Lemma Done_inj {A : Type} (a b : A) : Done a = Done b -> a = b.
Proof. intros H. congruence. Qed.


(** ** Loops whose bodies agree on the indices they visit *)

Section LoopExt.

Context {S : Type}.
Variables body body' : Z -> S -> outcome S.

Lemma for_up_ext (bound step : Z) :
  (forall j s, 0 <= j < bound -> body j s = body' j s) ->
  forall (fuel : nat) (i : Z) (s : S), 0 <= i ->
    for_up fuel i bound step body s = for_up fuel i bound step body' s.
Proof.
  intros H. induction fuel as [| fuel IH]; intros i s Hi; cbn [for_up].
  - reflexivity.
  - destruct (Z.ltb_spec i bound) as [Hlt | Hge]; [| reflexivity].
    rewrite H by lia. destruct (body' i s); cbn [bind]; try reflexivity.
    apply IH. unfold size_t, W64.
    pose proof (Z.mod_pos_bound (i + step) (2 ^ 64)). lia.
Qed.

Lemma for_down_ext (step i0 : Z) :
  0 <= step ->
  (forall j s, 0 <= j <= i0 -> body j s = body' j s) ->
  forall (fuel : nat) (i : Z) (s : S), i <= i0 ->
    for_down fuel i step body s = for_down fuel i step body' s.
Proof.
  intros Hstep H. induction fuel as [| fuel IH]; intros i s Hi; cbn [for_down].
  - reflexivity.
  - destruct (Z.leb_spec 0 i) as [Hle | Hlt]; [| reflexivity].
    rewrite H by lia. destruct (body' i s); cbn [bind]; try reflexivity.
    apply IH. lia.
Qed.

End LoopExt.

(** ** The two instruction sets compute the same *)

Lemma RotateLeft64_backends (R : Z) (v : vec) :
  SSSE3.RotateLeft64 R v = NEON.RotateLeft64 R v.
Proof.
  unfold SSSE3.RotateLeft64, NEON.RotateLeft64.
  destruct (R =? 8); [destruct v; reflexivity | reflexivity].
Qed.

Lemma RotateRight64_backends (R : Z) (v : vec) :
  SSSE3.RotateRight64 R v = NEON.RotateRight64 R v.
Proof.
  unfold SSSE3.RotateRight64, NEON.RotateRight64.
  destruct (R =? 8); [destruct v; reflexivity | reflexivity].
Qed.

Lemma SIMON128_f_backends (v : vec) : SSSE3.SIMON128_f v = NEON.SIMON128_f v.
Proof.
  unfold SSSE3.SIMON128_f, NEON.SIMON128_f.
  rewrite !RotateLeft64_backends. reflexivity.
Qed.

Lemma load_splat_dup (K : list Z) (i : Z) :
  0 <= i ->
  SSSE3._mm_load_si128 (splat K) (2 * i) = NEON.vld1q_dup_u64 K i.
Proof.
  intros Hi. rewrite <- (Z2Nat.id i) by assumption.
  destruct (nth_error K (Z.to_nat i)) as [k |] eqn:E.
  - rewrite (load_splat _ _ _ E), (vld1q_dup_nth _ _ _ E). reflexivity.
  - apply nth_error_None in E.
    unfold SSSE3._mm_load_si128, NEON.vld1q_dup_u64.
    rewrite (read64_beyond (splat K)) by (rewrite splat_length; lia).
    rewrite (read64_beyond K) by lia. reflexivity.
Qed.

Lemma SPECK128_Enc_round_backends (K : list Z) (i : Z) (s : vec * vec) :
  0 <= i < 2 ^ 63 ->
  SSSE3.SPECK128_Enc_round (splat K) i s = NEON.SPECK128_Enc_round K i s.
Proof.
  intros Hi. destruct s as [x y].
  unfold SSSE3.SPECK128_Enc_round, NEON.SPECK128_Enc_round.
  rewrite size_t_small by (unfold W64; lia).
  replace (i * 2) with (2 * i) by lia. rewrite load_splat_dup by lia.
  destruct (NEON.vld1q_dup_u64 K i); cbn [bind]; [| reflexivity | reflexivity].
  rewrite ?RotateRight64_backends, ?RotateLeft64_backends; reflexivity.
Qed.

Lemma SPECK128_Dec_round_backends (A : list Z) (i : Z) (s : vec * vec) :
  SSSE3.SPECK128_Dec_round A i s = NEON.SPECK128_Dec_round A i s.
Proof.
  destruct s as [x y].
  unfold SSSE3.SPECK128_Dec_round, NEON.SPECK128_Dec_round.
  change (SSSE3._mm_loaddup_pd A i) with (NEON.vld1q_dup_u64 A i).
  destruct (NEON.vld1q_dup_u64 A i); cbn [bind]; [| reflexivity | reflexivity].
  rewrite ?RotateRight64_backends, ?RotateLeft64_backends; reflexivity.
Qed.

Lemma SIMON128_Enc_round2_backends (K : list Z) (i : Z) (s : vec * vec) :
  0 <= i < 2 ^ 62 ->
  SSSE3.SIMON128_Enc_round2 (splat K) i s = NEON.SIMON128_Enc_round2 K i s.
Proof.
  intros Hi. destruct s as [x y].
  unfold SSSE3.SIMON128_Enc_round2, NEON.SIMON128_Enc_round2.
  rewrite !size_t_small by (rewrite ?size_t_small; unfold W64; lia).
  replace (i * 2) with (2 * i) by lia.
  replace ((i + 1) * 2) with (2 * (i + 1)) by lia.
  rewrite !load_splat_dup by lia.
  destruct (NEON.vld1q_dup_u64 K i); cbn [bind]; [| reflexivity | reflexivity].
  destruct (NEON.vld1q_dup_u64 K (i + 1)); cbn [bind]; [| reflexivity | reflexivity].
  rewrite !SIMON128_f_backends; reflexivity.
Qed.

Lemma SIMON128_Enc_tail_backends (K : list Z) (rounds : Z) (s : vec * vec) :
  1 <= rounds <= 2 ^ 31 ->
  SSSE3.SIMON128_Enc_tail (splat K) rounds s = NEON.SIMON128_Enc_tail K rounds s.
Proof.
  intros Hr. destruct s as [x y].
  unfold SSSE3.SIMON128_Enc_tail, NEON.SIMON128_Enc_tail.
  destruct (Z.land rounds 1 =? 0); [reflexivity |].
  rewrite (uint_small (rounds - 1)) by (unfold W32; lia).
  rewrite uint_small by (unfold W32; lia).
  replace ((rounds - 1) * 2) with (2 * (rounds - 1)) by lia.
  rewrite load_splat_dup by lia.
  destruct (NEON.vld1q_dup_u64 K (rounds - 1)); cbn [bind]; [| reflexivity | reflexivity].
  rewrite SIMON128_f_backends; reflexivity.
Qed.

Lemma SIMON128_Dec_head_backends (A : list Z) (rounds : Z) (s : vec * vec) :
  SSSE3.SIMON128_Dec_head A rounds s = NEON.SIMON128_Dec_head A rounds s.
Proof.
  destruct s as [x y].
  unfold SSSE3.SIMON128_Dec_head, NEON.SIMON128_Dec_head.
  destruct (Z.land rounds 1 =? 0); [reflexivity |].
  cbn [SSSE3.Swap128 NEON.swap fst snd].
  change (SSSE3._mm_loaddup_pd A (rounds - 1)) with (NEON.vld1q_dup_u64 A (rounds - 1)).
  destruct (NEON.vld1q_dup_u64 A (rounds - 1)); cbn [bind]; [| reflexivity | reflexivity].
  rewrite SIMON128_f_backends; reflexivity.
Qed.

Lemma SIMON128_Dec_round2_backends (A : list Z) (i : Z) (s : vec * vec) :
  SSSE3.SIMON128_Dec_round2 A i s = NEON.SIMON128_Dec_round2 A i s.
Proof.
  destruct s as [x y].
  unfold SSSE3.SIMON128_Dec_round2, NEON.SIMON128_Dec_round2.
  change SSSE3._mm_loaddup_pd with NEON.vld1q_dup_u64.
  destruct (NEON.vld1q_dup_u64 A (i + 1)); cbn [bind]; [| reflexivity | reflexivity].
  destruct (NEON.vld1q_dup_u64 A i); cbn [bind]; [| reflexivity | reflexivity].
  rewrite !SIMON128_f_backends; reflexivity.
Qed.

Lemma SIMON128_Enc_bound_small (rounds : Z) :
  2 <= rounds < W32 ->
  SSSE3.SIMON128_Enc_bound rounds = 2 * (rounds / 2) - 1
  /\ NEON.SIMON128_Enc_bound rounds = 2 * (rounds / 2) - 1.
Proof.
  intros Hr. unfold SSSE3.SIMON128_Enc_bound, NEON.SIMON128_Enc_bound.
  rewrite land_clear_bit0 by lia.
  rewrite size_t_small; [split; reflexivity |].
  unfold W32, W64 in *. Z.div_mod_to_equations. lia.
Qed.

Lemma SPECK128_Enc_Block_backends (fuel : nat) (K : list Z) (rounds : Z)
    (blocks : vec * vec) :
  0 <= rounds < W32 ->
  SSSE3.SPECK128_Enc_Block fuel (splat K) rounds blocks
  = NEON.SPECK128_Enc_Block fuel K rounds blocks.
Proof.
  intros Hr. destruct blocks as [b0 b1].
  unfold SSSE3.SPECK128_Enc_Block, NEON.SPECK128_Enc_Block.
  rewrite (for_up_ext (SSSE3.SPECK128_Enc_round (splat K)) (NEON.SPECK128_Enc_round K));
    [reflexivity | | lia].
  intros j s Hj. apply SPECK128_Enc_round_backends.
  rewrite size_t_small in Hj by (unfold W32, W64 in *; lia).
  unfold W32 in *. lia.
Qed.

Lemma SPECK128_Dec_Block_backends (fuel : nat) (A : list Z) (rounds : Z)
    (blocks : vec * vec) :
  SSSE3.SPECK128_Dec_Block fuel A rounds blocks
  = NEON.SPECK128_Dec_Block fuel A rounds blocks.
Proof.
  destruct blocks as [b0 b1].
  unfold SSSE3.SPECK128_Dec_Block, NEON.SPECK128_Dec_Block.
  rewrite (for_down_ext (SSSE3.SPECK128_Dec_round A) (NEON.SPECK128_Dec_round A) 1
             (to_int (uint (rounds - 1))));
    [reflexivity | lia | | lia].
  intros j s _. apply SPECK128_Dec_round_backends.
Qed.

Lemma SIMON128_Enc_Block_backends (fuel : nat) (K : list Z) (rounds : Z)
    (blocks : vec * vec) :
  2 <= rounds <= 2 ^ 31 ->
  SSSE3.SIMON128_Enc_Block fuel (splat K) rounds blocks
  = NEON.SIMON128_Enc_Block fuel K rounds blocks.
Proof.
  intros Hr. destruct blocks as [b0 b1].
  unfold SSSE3.SIMON128_Enc_Block, NEON.SIMON128_Enc_Block.
  destruct (SIMON128_Enc_bound_small rounds) as [E1 E2]; [unfold W32; lia |].
  rewrite E1, E2.
  rewrite (for_up_ext (SSSE3.SIMON128_Enc_round2 (splat K)) (NEON.SIMON128_Enc_round2 K));
    [| | lia].
  - cbn [SSSE3.transpose]. 
    destruct (for_up fuel 0 (2 * (rounds / 2) - 1) 2 (NEON.SIMON128_Enc_round2 K) _);
      cbn [bind]; [| reflexivity | reflexivity].
    rewrite SIMON128_Enc_tail_backends by lia. reflexivity.
  - intros j s Hj. apply SIMON128_Enc_round2_backends.
    Z.div_mod_to_equations. lia.
Qed.

Lemma SIMON128_Dec_Block_backends (fuel : nat) (A : list Z) (rounds : Z)
    (blocks : vec * vec) :
  SSSE3.SIMON128_Dec_Block fuel A rounds blocks
  = NEON.SIMON128_Dec_Block fuel A rounds blocks.
Proof.
  destruct blocks as [b0 b1].
  unfold SSSE3.SIMON128_Dec_Block, NEON.SIMON128_Dec_Block.
  rewrite SIMON128_Dec_head_backends.
  destruct (NEON.SIMON128_Dec_head A rounds _) as [[r s] | |]; cbn [bind];
    [| reflexivity | reflexivity].
  rewrite (for_down_ext (SSSE3.SIMON128_Dec_round2 A) (NEON.SIMON128_Dec_round2 A) 2
             (to_int (uint (r - 2))));
    [reflexivity | lia | | lia].
  intros j s' _. apply SIMON128_Dec_round2_backends.
Qed.

(** The 6-block kernels, by way of the 2-block ones. *)
Lemma SPECK128_Enc_6_Blocks_backends (fuel : nat) (K : list Z) (rounds : Z)
    (b0 b1 b2 b3 b4 b5 : vec) :
  0 <= rounds < W32 ->
  SSSE3.SPECK128_Enc_6_Blocks fuel (splat K) rounds (b0, b1, b2, b3, b4, b5)
  = NEON.SPECK128_Enc_6_Blocks fuel K rounds (b0, b1, b2, b3, b4, b5).
Proof.
  intros Hr.
  rewrite SSSE3_SPECK128_Enc_6_Blocks_three, NEON_SPECK128_Enc_6_Blocks_three.
  rewrite (SPECK128_Enc_Block_backends fuel K rounds (b0, b1)) by assumption.
  rewrite (SPECK128_Enc_Block_backends fuel K rounds (b2, b3)) by assumption.
  rewrite (SPECK128_Enc_Block_backends fuel K rounds (b4, b5)) by assumption.
  reflexivity.
Qed.

Lemma SPECK128_Dec_6_Blocks_backends (fuel : nat) (A : list Z) (rounds : Z)
    (b0 b1 b2 b3 b4 b5 : vec) :
  SSSE3.SPECK128_Dec_6_Blocks fuel A rounds (b0, b1, b2, b3, b4, b5)
  = NEON.SPECK128_Dec_6_Blocks fuel A rounds (b0, b1, b2, b3, b4, b5).
Proof.
  rewrite SSSE3_SPECK128_Dec_6_Blocks_three, NEON_SPECK128_Dec_6_Blocks_three.
  rewrite (SPECK128_Dec_Block_backends fuel A rounds (b0, b1)).
  rewrite (SPECK128_Dec_Block_backends fuel A rounds (b2, b3)).
  rewrite (SPECK128_Dec_Block_backends fuel A rounds (b4, b5)).
  reflexivity.
Qed.

Lemma SIMON128_Enc_6_Blocks_backends (fuel : nat) (K : list Z) (rounds : Z)
    (b0 b1 b2 b3 b4 b5 : vec) :
  2 <= rounds <= 2 ^ 31 ->
  SSSE3.SIMON128_Enc_6_Blocks fuel (splat K) rounds (b0, b1, b2, b3, b4, b5)
  = NEON.SIMON128_Enc_6_Blocks fuel K rounds (b0, b1, b2, b3, b4, b5).
Proof.
  intros Hr.
  rewrite SSSE3_SIMON128_Enc_6_Blocks_three, NEON_SIMON128_Enc_6_Blocks_three.
  rewrite (SIMON128_Enc_Block_backends fuel K rounds (b0, b1)) by assumption.
  rewrite (SIMON128_Enc_Block_backends fuel K rounds (b2, b3)) by assumption.
  rewrite (SIMON128_Enc_Block_backends fuel K rounds (b4, b5)) by assumption.
  reflexivity.
Qed.

Lemma SIMON128_Dec_6_Blocks_backends (fuel : nat) (A : list Z) (rounds : Z)
    (b0 b1 b2 b3 b4 b5 : vec) :
  SSSE3.SIMON128_Dec_6_Blocks fuel A rounds (b0, b1, b2, b3, b4, b5)
  = NEON.SIMON128_Dec_6_Blocks fuel A rounds (b0, b1, b2, b3, b4, b5).
Proof.
  rewrite SSSE3_SIMON128_Dec_6_Blocks_three, NEON_SIMON128_Dec_6_Blocks_three.
  rewrite (SIMON128_Dec_Block_backends fuel A rounds (b0, b1)).
  rewrite (SIMON128_Dec_Block_backends fuel A rounds (b2, b3)).
  rewrite (SIMON128_Dec_Block_backends fuel A rounds (b4, b5)).
  reflexivity.
Qed.

(** ** The round keys a kernel reads *)

Lemma read64_firstn (n : nat) (A : list Z) (j : Z) :
  0 <= j < Z.of_nat n -> read64 (firstn n A) j = read64 A j.
Proof.
  intros Hj. unfold read64. rewrite nth_error_firstn.
  destruct (Nat.ltb_spec (Z.to_nat j) n); [reflexivity | lia].
Qed.

Lemma read64_prefix (n : nat) (A B : list Z) (j : Z) :
  firstn n A = firstn n B -> 0 <= j < Z.of_nat n -> read64 A j = read64 B j.
Proof.
  intros E Hj.
  rewrite <- (read64_firstn n A), <- (read64_firstn n B) by assumption.
  rewrite E. reflexivity.
Qed.

Ltac prefix_reads E :=
  unfold SSSE3._mm_load_si128, SSSE3._mm_loaddup_pd, NEON.vld1q_dup_u64;
  repeat (rewrite (read64_prefix _ _ _ _ E) by lia);
  reflexivity.

Section KeyPrefix.

Variables (n : nat) (A B : list Z).
Hypothesis E : firstn n A = firstn n B.

Lemma SSSE3_SPECK128_Enc_round_prefix (i : Z) (s : vec * vec) :
  0 <= i -> 2 * i + 1 < Z.of_nat n -> 2 * i + 1 < W64 ->
  SSSE3.SPECK128_Enc_round A i s = SSSE3.SPECK128_Enc_round B i s.
Proof.
  intros H0 H1 H2. destruct s as [x y]. unfold SSSE3.SPECK128_Enc_round.
  rewrite size_t_small by lia. prefix_reads E.
Qed.

Lemma SSSE3_SPECK128_Dec_round_prefix (i : Z) (s : vec * vec) :
  0 <= i < Z.of_nat n ->
  SSSE3.SPECK128_Dec_round A i s = SSSE3.SPECK128_Dec_round B i s.
Proof.
  intros H0. destruct s as [x y]. unfold SSSE3.SPECK128_Dec_round. prefix_reads E.
Qed.

Lemma NEON_SPECK128_Enc_round_prefix (i : Z) (s : vec * vec) :
  0 <= i < Z.of_nat n ->
  NEON.SPECK128_Enc_round A i s = NEON.SPECK128_Enc_round B i s.
Proof.
  intros H0. destruct s as [x y]. unfold NEON.SPECK128_Enc_round. prefix_reads E.
Qed.

Lemma NEON_SPECK128_Dec_round_prefix (i : Z) (s : vec * vec) :
  0 <= i < Z.of_nat n ->
  NEON.SPECK128_Dec_round A i s = NEON.SPECK128_Dec_round B i s.
Proof.
  intros H0. destruct s as [x y]. unfold NEON.SPECK128_Dec_round. prefix_reads E.
Qed.

Lemma SSSE3_SIMON128_Enc_round2_prefix (i : Z) (s : vec * vec) :
  0 <= i -> 2 * i + 3 < Z.of_nat n -> 2 * i + 3 < W64 ->
  SSSE3.SIMON128_Enc_round2 A i s = SSSE3.SIMON128_Enc_round2 B i s.
Proof.
  intros H0 H1 H2. destruct s as [x y]. unfold SSSE3.SIMON128_Enc_round2.
  rewrite (size_t_small (i + 1)) by lia.
  rewrite !size_t_small by lia. prefix_reads E.
Qed.

Lemma SSSE3_SIMON128_Enc_tail_prefix (rounds : Z) (s : vec * vec) :
  1 <= rounds <= 2 ^ 31 -> 2 * rounds <= Z.of_nat n ->
  SSSE3.SIMON128_Enc_tail A rounds s = SSSE3.SIMON128_Enc_tail B rounds s.
Proof.
  intros H0 H1. destruct s as [x y]. unfold SSSE3.SIMON128_Enc_tail.
  destruct (Z.land rounds 1 =? 0); [reflexivity |].
  rewrite (uint_small (rounds - 1)) by (unfold W32; lia).
  rewrite uint_small by (unfold W32; lia). prefix_reads E.
Qed.

Lemma SSSE3_SIMON128_Dec_head_prefix (rounds : Z) (s : vec * vec) :
  1 <= rounds <= Z.of_nat n \/ Z.land rounds 1 = 0 ->
  SSSE3.SIMON128_Dec_head A rounds s = SSSE3.SIMON128_Dec_head B rounds s.
Proof.
  intros H0. destruct s as [x y]. unfold SSSE3.SIMON128_Dec_head.
  destruct (Z.eqb_spec (Z.land rounds 1) 0) as [Hz | Hnz]; [reflexivity |].
  destruct H0 as [H0 | H0]; [| contradiction]. prefix_reads E.
Qed.

Lemma SSSE3_SIMON128_Dec_round2_prefix (i : Z) (s : vec * vec) :
  0 <= i -> i + 1 < Z.of_nat n ->
  SSSE3.SIMON128_Dec_round2 A i s = SSSE3.SIMON128_Dec_round2 B i s.
Proof.
  intros H0 H1. destruct s as [x y]. unfold SSSE3.SIMON128_Dec_round2. prefix_reads E.
Qed.

Lemma NEON_SIMON128_Enc_round2_prefix (i : Z) (s : vec * vec) :
  0 <= i -> i + 1 < Z.of_nat n ->
  NEON.SIMON128_Enc_round2 A i s = NEON.SIMON128_Enc_round2 B i s.
Proof.
  intros H0 H1. destruct s as [x y]. unfold NEON.SIMON128_Enc_round2. prefix_reads E.
Qed.

Lemma NEON_SIMON128_Enc_tail_prefix (rounds : Z) (s : vec * vec) :
  1 <= rounds <= Z.of_nat n ->
  NEON.SIMON128_Enc_tail A rounds s = NEON.SIMON128_Enc_tail B rounds s.
Proof.
  intros H0. destruct s as [x y]. unfold NEON.SIMON128_Enc_tail.
  destruct (Z.land rounds 1 =? 0); [reflexivity |]. prefix_reads E.
Qed.

Lemma NEON_SIMON128_Dec_head_prefix (rounds : Z) (s : vec * vec) :
  1 <= rounds <= Z.of_nat n \/ Z.land rounds 1 = 0 ->
  NEON.SIMON128_Dec_head A rounds s = NEON.SIMON128_Dec_head B rounds s.
Proof.
  intros H0. destruct s as [x y]. unfold NEON.SIMON128_Dec_head.
  destruct (Z.eqb_spec (Z.land rounds 1) 0) as [Hz | Hnz]; [reflexivity |].
  destruct H0 as [H0 | H0]; [| contradiction].
  cbn [NEON.swap fst snd]. prefix_reads E.
Qed.

Lemma NEON_SIMON128_Dec_round2_prefix (i : Z) (s : vec * vec) :
  0 <= i -> i + 1 < Z.of_nat n ->
  NEON.SIMON128_Dec_round2 A i s = NEON.SIMON128_Dec_round2 B i s.
Proof.
  intros H0 H1. destruct s as [x y]. unfold NEON.SIMON128_Dec_round2. prefix_reads E.
Qed.

End KeyPrefix.

Lemma to_int_uint_le (z d : Z) :
  0 <= z < W32 -> 0 <= d <= 2 -> to_int (uint (z - d)) <= z - d.
Proof.
  intros Hz Hd. unfold to_int, uint, W32 in *.
  destruct (Z.ltb_spec ((z - d) mod 2 ^ 32) (2 ^ 31));
    Z.div_mod_to_equations; lia.
Qed.

Lemma SSSE3_SPECK128_Enc_Block_prefix (fuel : nat) (A B : list Z) (rounds : Z)
    (blocks : vec * vec) :
  0 <= rounds < W32 ->
  firstn (Z.to_nat (2 * rounds)) A = firstn (Z.to_nat (2 * rounds)) B ->
  SSSE3.SPECK128_Enc_Block fuel A rounds blocks
  = SSSE3.SPECK128_Enc_Block fuel B rounds blocks.
Proof.
  intros Hr E. destruct blocks as [b0 b1]. unfold SSSE3.SPECK128_Enc_Block.
  rewrite (for_up_ext (SSSE3.SPECK128_Enc_round A) (SSSE3.SPECK128_Enc_round B));
    [reflexivity | | lia].
  intros j s Hj. rewrite size_t_small in Hj by (unfold W32, W64 in *; lia).
  apply (SSSE3_SPECK128_Enc_round_prefix _ _ _ E); unfold W32, W64 in *; lia.
Qed.

Lemma NEON_SPECK128_Enc_Block_prefix (fuel : nat) (A B : list Z) (rounds : Z)
    (blocks : vec * vec) :
  0 <= rounds < W32 ->
  firstn (Z.to_nat rounds) A = firstn (Z.to_nat rounds) B ->
  NEON.SPECK128_Enc_Block fuel A rounds blocks
  = NEON.SPECK128_Enc_Block fuel B rounds blocks.
Proof.
  intros Hr E. destruct blocks as [b0 b1]. unfold NEON.SPECK128_Enc_Block.
  rewrite (for_up_ext (NEON.SPECK128_Enc_round A) (NEON.SPECK128_Enc_round B));
    [reflexivity | | lia].
  intros j s Hj. rewrite size_t_small in Hj by (unfold W32, W64 in *; lia).
  apply (NEON_SPECK128_Enc_round_prefix _ _ _ E); lia.
Qed.

Lemma SSSE3_SPECK128_Dec_Block_prefix (fuel : nat) (A B : list Z) (rounds : Z)
    (blocks : vec * vec) :
  0 <= rounds < W32 ->
  firstn (Z.to_nat rounds) A = firstn (Z.to_nat rounds) B ->
  SSSE3.SPECK128_Dec_Block fuel A rounds blocks
  = SSSE3.SPECK128_Dec_Block fuel B rounds blocks.
Proof.
  intros Hr E. destruct blocks as [b0 b1]. unfold SSSE3.SPECK128_Dec_Block.
  pose proof (to_int_uint_le rounds 1 Hr ltac:(lia)) as Hi.
  rewrite (for_down_ext (SSSE3.SPECK128_Dec_round A) (SSSE3.SPECK128_Dec_round B) 1
             (to_int (uint (rounds - 1))));
    [reflexivity | lia | | lia].
  intros j s Hj. apply (SSSE3_SPECK128_Dec_round_prefix _ _ _ E); lia.
Qed.

Lemma NEON_SPECK128_Dec_Block_prefix (fuel : nat) (A B : list Z) (rounds : Z)
    (blocks : vec * vec) :
  0 <= rounds < W32 ->
  firstn (Z.to_nat rounds) A = firstn (Z.to_nat rounds) B ->
  NEON.SPECK128_Dec_Block fuel A rounds blocks
  = NEON.SPECK128_Dec_Block fuel B rounds blocks.
Proof.
  intros Hr E.
  rewrite <- (SPECK128_Dec_Block_backends fuel A rounds blocks).
  rewrite <- (SPECK128_Dec_Block_backends fuel B rounds blocks).
  apply SSSE3_SPECK128_Dec_Block_prefix; assumption.
Qed.

Lemma SSSE3_SIMON128_Enc_Block_prefix (fuel : nat) (A B : list Z) (rounds : Z)
    (blocks : vec * vec) :
  2 <= rounds <= 2 ^ 31 ->
  firstn (Z.to_nat (2 * rounds)) A = firstn (Z.to_nat (2 * rounds)) B ->
  SSSE3.SIMON128_Enc_Block fuel A rounds blocks
  = SSSE3.SIMON128_Enc_Block fuel B rounds blocks.
Proof.
  intros Hr E. destruct blocks as [b0 b1]. unfold SSSE3.SIMON128_Enc_Block.
  destruct (SIMON128_Enc_bound_small rounds) as [E1 _]; [unfold W32; lia |].
  rewrite E1.
  rewrite (for_up_ext (SSSE3.SIMON128_Enc_round2 A) (SSSE3.SIMON128_Enc_round2 B));
    [| | lia].
  - destruct (for_up fuel 0 (2 * (rounds / 2) - 1) 2 (SSSE3.SIMON128_Enc_round2 B) _);
      cbn [bind]; [| reflexivity | reflexivity].
    rewrite (SSSE3_SIMON128_Enc_tail_prefix _ _ _ E) by lia. reflexivity.
  - intros j s Hj.
    apply (SSSE3_SIMON128_Enc_round2_prefix _ _ _ E);
      unfold W64; Z.div_mod_to_equations; lia.
Qed.

Lemma NEON_SIMON128_Enc_Block_prefix (fuel : nat) (A B : list Z) (rounds : Z)
    (blocks : vec * vec) :
  2 <= rounds < W32 ->
  firstn (Z.to_nat rounds) A = firstn (Z.to_nat rounds) B ->
  NEON.SIMON128_Enc_Block fuel A rounds blocks
  = NEON.SIMON128_Enc_Block fuel B rounds blocks.
Proof.
  intros Hr E. destruct blocks as [b0 b1]. unfold NEON.SIMON128_Enc_Block.
  destruct (SIMON128_Enc_bound_small rounds) as [_ E2]; [lia |].
  rewrite E2.
  rewrite (for_up_ext (NEON.SIMON128_Enc_round2 A) (NEON.SIMON128_Enc_round2 B));
    [| | lia].
  - destruct (for_up fuel 0 (2 * (rounds / 2) - 1) 2 (NEON.SIMON128_Enc_round2 B) _);
      cbn [bind]; [| reflexivity | reflexivity].
    rewrite (NEON_SIMON128_Enc_tail_prefix _ _ _ E) by lia. reflexivity.
  - intros j s Hj.
    apply (NEON_SIMON128_Enc_round2_prefix _ _ _ E);
      Z.div_mod_to_equations; lia.
Qed.

Lemma SSSE3_SIMON128_Dec_Block_prefix (fuel : nat) (A B : list Z) (rounds : Z)
    (blocks : vec * vec) :
  0 <= rounds < W32 ->
  firstn (Z.to_nat rounds) A = firstn (Z.to_nat rounds) B ->
  SSSE3.SIMON128_Dec_Block fuel A rounds blocks
  = SSSE3.SIMON128_Dec_Block fuel B rounds blocks.
Proof.
  intros Hr E. destruct blocks as [b0 b1]. unfold SSSE3.SIMON128_Dec_Block.
  assert (Hodd : Z.land rounds 1 <> 0 -> 1 <= rounds).
  { intros Hn. destruct (Z.eq_dec rounds 0) as [-> | ?]; [contradiction Hn; reflexivity | lia]. }
  rewrite (SSSE3_SIMON128_Dec_head_prefix _ _ _ E)
    by (destruct (Z.eq_dec (Z.land rounds 1) 0); [right; assumption | left; lia]).
  unfold SSSE3.SIMON128_Dec_head.
  destruct (Z.eqb_spec (Z.land rounds 1) 0) as [Hz | Hnz]; cbn [bind].
  - pose proof (to_int_uint_le rounds 2 Hr ltac:(lia)) as Hi.
    pose proof (for_down_ext (SSSE3.SIMON128_Dec_round2 A)
                  (SSSE3.SIMON128_Dec_round2 B) 2 (to_int (uint (rounds - 2)))) as X.
    rewrite X; [reflexivity | lia | | lia].
    intros j s Hj. apply (SSSE3_SIMON128_Dec_round2_prefix _ _ _ E); lia.
  - specialize (Hodd Hnz).
    destruct (SSSE3._mm_loaddup_pd B (rounds - 1)); cbn [bind];
      [| reflexivity | reflexivity].
    cbn [bind SSSE3.Swap128 fst snd].
    rewrite (uint_small (rounds - 1)) by lia.
    pose proof (to_int_uint_le (rounds - 1) 2 ltac:(lia) ltac:(lia)) as Hi.
    pose proof (for_down_ext (SSSE3.SIMON128_Dec_round2 A)
                  (SSSE3.SIMON128_Dec_round2 B) 2 (to_int (uint (rounds - 1 - 2)))) as X.
    rewrite X; [reflexivity | lia | | lia].
    intros j s Hj. apply (SSSE3_SIMON128_Dec_round2_prefix _ _ _ E); lia.
Qed.

Lemma NEON_SIMON128_Dec_Block_prefix (fuel : nat) (A B : list Z) (rounds : Z)
    (blocks : vec * vec) :
  0 <= rounds < W32 ->
  firstn (Z.to_nat rounds) A = firstn (Z.to_nat rounds) B ->
  NEON.SIMON128_Dec_Block fuel A rounds blocks
  = NEON.SIMON128_Dec_Block fuel B rounds blocks.
Proof.
  intros Hr E.
  rewrite <- (SIMON128_Dec_Block_backends fuel A rounds blocks).
  rewrite <- (SIMON128_Dec_Block_backends fuel B rounds blocks).
  apply SSSE3_SIMON128_Dec_Block_prefix; assumption.
Qed.

(** ** A round-key array that is too short *)

Section Stuck.

Context {S : Type}.
Variable body : Z -> S -> outcome S.

Lemma for_up_stuck (bound step j : Z) :
  0 < step -> bound + step <= W64 ->
  (forall s r, body j s <> Done r) ->
  forall (fuel : nat) (i : Z) (s r : S),
    0 <= i <= j -> j < bound -> (j - i) mod step = 0 ->
    for_up fuel i bound step body s <> Done r.
Proof.
  intros Hstep Hb Hj.
  induction fuel as [| fuel IH]; intros i s r Hi Hjb Hm; cbn [for_up].
  - destruct (Z.ltb_spec i bound); [discriminate | lia].
  - destruct (Z.ltb_spec i bound) as [Hlt | Hge]; [| lia].
    destruct (Z.eq_dec i j) as [-> | Hne].
    + destruct (body j s) eqn:Eb; cbn [bind]; try discriminate.
      exfalso. exact (Hj _ _ Eb).
    + destruct (body i s); cbn [bind]; try discriminate.
      assert (Hle : i + step <= j).
      { assert (Hq : j - i = step * ((j - i) / step))
          by (apply Z.div_exact; lia).
        assert (0 < (j - i) / step) by nia. nia. }
      rewrite size_t_small by (unfold W64 in *; lia).
      apply IH; [lia | lia |].
      replace (j - (i + step)) with (j - i + (-1) * step) by lia.
      rewrite Z.mod_add by lia. assumption.
Qed.

Lemma for_down_stuck (i step : Z) :
  0 <= i -> (forall s r, body i s <> Done r) ->
  forall (fuel : nat) (s r : S), for_down fuel i step body s <> Done r.
Proof.
  intros Hi Hb fuel s r. destruct fuel as [| fuel]; cbn [for_down];
    destruct (Z.leb_spec 0 i); try lia; try discriminate.
  destruct (body i s) eqn:Eb; cbn [bind]; try discriminate.
  exfalso. exact (Hb _ _ Eb).
Qed.

End Stuck.

Lemma bind_stuck {A B : Type} (c : outcome A) (k : A -> outcome B) (r : B) :
  (forall a, c <> Done a) -> bind c k <> Done r.
Proof.
  intros H. destruct c as [a | |]; cbn [bind]; try discriminate.
  exfalso. exact (H a eq_refl).
Qed.

Lemma load_si128_beyond (A : list Z) (idx : Z) (v : vec) :
  Z.of_nat (length A) <= idx + 1 -> SSSE3._mm_load_si128 A idx <> Done v.
Proof.
  intros H. unfold SSSE3._mm_load_si128.
  destruct (read64 A idx); cbn [bind]; try discriminate.
  rewrite read64_beyond by lia. discriminate.
Qed.

Lemma loaddup_beyond (A : list Z) (idx : Z) (v : vec) :
  Z.of_nat (length A) <= idx -> SSSE3._mm_loaddup_pd A idx <> Done v.
Proof.
  intros H. unfold SSSE3._mm_loaddup_pd.
  rewrite read64_beyond by lia. discriminate.
Qed.

Lemma vld1q_dup_beyond (A : list Z) (idx : Z) (v : vec) :
  Z.of_nat (length A) <= idx -> NEON.vld1q_dup_u64 A idx <> Done v.
Proof. exact (loaddup_beyond A idx v). Qed.

Lemma SSSE3_SPECK128_Enc_Block_short_keys (fuel : nat) (A : list Z) (rounds : Z)
    (blocks r : vec * vec) :
  0 <= rounds < W32 -> Z.of_nat (length A) < 2 * rounds ->
  SSSE3.SPECK128_Enc_Block fuel A rounds blocks <> Done r.
Proof.
  intros Hr Hlen. destruct blocks as [b0 b1]. unfold SSSE3.SPECK128_Enc_Block.
  apply bind_stuck. intros a.
  rewrite size_t_small by (unfold W32, W64 in *; lia).
  apply (for_up_stuck _ rounds 1 (Z.of_nat (length A) / 2));
    try (unfold W32, W64 in *; Z.div_mod_to_equations; lia).
  intros [x y] r'. unfold SSSE3.SPECK128_Enc_round.
  apply bind_stuck. intros v. apply load_si128_beyond.
  rewrite size_t_small by (unfold W32, W64 in *; Z.div_mod_to_equations; lia).
  Z.div_mod_to_equations; lia.
Qed.

Lemma NEON_SPECK128_Enc_Block_short_keys (fuel : nat) (A : list Z) (rounds : Z)
    (blocks r : vec * vec) :
  0 <= rounds < W32 -> Z.of_nat (length A) < rounds ->
  NEON.SPECK128_Enc_Block fuel A rounds blocks <> Done r.
Proof.
  intros Hr Hlen. destruct blocks as [b0 b1]. unfold NEON.SPECK128_Enc_Block.
  apply bind_stuck. intros a.
  rewrite size_t_small by (unfold W32, W64 in *; lia).
  apply (for_up_stuck _ rounds 1 (Z.of_nat (length A)));
    try (unfold W32, W64 in *; Z.div_mod_to_equations; lia).
  intros [x y] r'. unfold NEON.SPECK128_Enc_round.
  apply bind_stuck. intros v. apply vld1q_dup_beyond. lia.
Qed.

Lemma SSSE3_SPECK128_Dec_Block_short_keys (fuel : nat) (A : list Z) (rounds : Z)
    (blocks r : vec * vec) :
  1 <= rounds <= 2 ^ 31 -> Z.of_nat (length A) < rounds ->
  SSSE3.SPECK128_Dec_Block fuel A rounds blocks <> Done r.
Proof.
  intros Hr Hlen. destruct blocks as [b0 b1]. unfold SSSE3.SPECK128_Dec_Block.
  apply bind_stuck. intros a. rewrite to_int_pred by lia.
  apply for_down_stuck; [lia |].
  intros [x y] r'. unfold SSSE3.SPECK128_Dec_round.
  apply bind_stuck. intros v. apply loaddup_beyond. lia.
Qed.

Lemma NEON_SPECK128_Dec_Block_short_keys (fuel : nat) (A : list Z) (rounds : Z)
    (blocks r : vec * vec) :
  1 <= rounds <= 2 ^ 31 -> Z.of_nat (length A) < rounds ->
  NEON.SPECK128_Dec_Block fuel A rounds blocks <> Done r.
Proof.
  intros Hr Hlen.
  rewrite <- (SPECK128_Dec_Block_backends fuel A rounds blocks).
  apply SSSE3_SPECK128_Dec_Block_short_keys; assumption.
Qed.

Lemma SSSE3_SIMON128_Enc_Block_short_keys (fuel : nat) (A : list Z) (rounds : Z)
    (blocks r : vec * vec) :
  2 <= rounds <= 2 ^ 31 -> Z.of_nat (length A) < 2 * rounds ->
  SSSE3.SIMON128_Enc_Block fuel A rounds blocks <> Done r.
Proof.
  intros Hr Hlen. destruct blocks as [b0 b1]. unfold SSSE3.SIMON128_Enc_Block.
  destruct (SIMON128_Enc_bound_small rounds) as [E1 _]; [unfold W32; lia |].
  rewrite E1.
  destruct (Z_lt_dec (Z.of_nat (length A)) (4 * (rounds / 2))) as [Hs | Hl].
  - apply bind_stuck. intros a.
    apply (for_up_stuck _ _ 2 (2 * (Z.of_nat (length A) / 4)));
      try (unfold W64; Z.div_mod_to_equations; lia).
    intros [x y] r'. unfold SSSE3.SIMON128_Enc_round2.
    destruct (SSSE3._mm_load_si128 A (size_t (2 * (Z.of_nat (length A) / 4) * 2)));
      cbn [bind]; try discriminate.
    apply bind_stuck. intros v'. apply load_si128_beyond.
    rewrite !size_t_small;
      try rewrite size_t_small; unfold W64; Z.div_mod_to_equations; lia.
  - destruct (for_up fuel 0 _ 2 _ _) as [s | |]; cbn [bind]; try discriminate.
    apply bind_stuck. intros a. destruct s as [x y].
    unfold SSSE3.SIMON128_Enc_tail.
    assert (Hodd : rounds mod 2 = 1) by (Z.div_mod_to_equations; lia).
    rewrite land_1_mod, Hodd. cbn [Z.eqb].
    apply bind_stuck. intros v. apply load_si128_beyond.
    rewrite (uint_small (rounds - 1)) by (unfold W32; lia).
    rewrite uint_small by (unfold W32; lia). lia.
Qed.

Lemma NEON_SIMON128_Enc_Block_short_keys (fuel : nat) (A : list Z) (rounds : Z)
    (blocks r : vec * vec) :
  2 <= rounds < W32 -> Z.of_nat (length A) < rounds ->
  NEON.SIMON128_Enc_Block fuel A rounds blocks <> Done r.
Proof.
  intros Hr Hlen. destruct blocks as [b0 b1]. unfold NEON.SIMON128_Enc_Block.
  destruct (SIMON128_Enc_bound_small rounds) as [_ E2]; [lia |].
  rewrite E2.
  destruct (Z_lt_dec (Z.of_nat (length A)) (2 * (rounds / 2))) as [Hs | Hl].
  - apply bind_stuck. intros a.
    apply (for_up_stuck _ _ 2 (2 * (Z.of_nat (length A) / 2)));
      try (unfold W32, W64 in *; Z.div_mod_to_equations; lia).
    intros [x y] r'. unfold NEON.SIMON128_Enc_round2.
    destruct (NEON.vld1q_dup_u64 A (2 * (Z.of_nat (length A) / 2)));
      cbn [bind]; try discriminate.
    apply bind_stuck. intros v'. apply vld1q_dup_beyond.
    Z.div_mod_to_equations; lia.
  - destruct (for_up fuel 0 _ 2 _ _) as [s | |]; cbn [bind]; try discriminate.
    apply bind_stuck. intros a. destruct s as [x y].
    unfold NEON.SIMON128_Enc_tail.
    assert (Hodd : rounds mod 2 = 1) by (Z.div_mod_to_equations; lia).
    rewrite land_1_mod, Hodd. cbn [Z.eqb].
    apply bind_stuck. intros v. apply vld1q_dup_beyond. lia.
Qed.

Lemma SSSE3_SIMON128_Dec_Block_short_keys (fuel : nat) (A : list Z) (rounds : Z)
    (blocks r : vec * vec) :
  1 <= rounds <= 2 ^ 31 -> Z.of_nat (length A) < rounds ->
  SSSE3.SIMON128_Dec_Block fuel A rounds blocks <> Done r.
Proof.
  intros Hr Hlen. destruct blocks as [b0 b1]. unfold SSSE3.SIMON128_Dec_Block.
  unfold SSSE3.SIMON128_Dec_head. rewrite land_1_mod.
  destruct (Z.eqb_spec (rounds mod 2) 0) as [Hz | Hnz]; cbn [bind].
  - apply bind_stuck. intros a.
    rewrite to_int_pred2 by lia.
    apply for_down_stuck; [Z.div_mod_to_equations; lia |].
    intros [x y] r'. unfold SSSE3.SIMON128_Dec_round2.
    apply bind_stuck. intros v. apply loaddup_beyond. lia.
  - apply bind_stuck. intros a. apply bind_stuck. intros v.
    apply loaddup_beyond. lia.
Qed.

Lemma NEON_SIMON128_Dec_Block_short_keys (fuel : nat) (A : list Z) (rounds : Z)
    (blocks r : vec * vec) :
  1 <= rounds <= 2 ^ 31 -> Z.of_nat (length A) < rounds ->
  NEON.SIMON128_Dec_Block fuel A rounds blocks <> Done r.
Proof.
  intros Hr Hlen.
  rewrite <- (SIMON128_Dec_Block_backends fuel A rounds blocks).
  apply SSSE3_SIMON128_Dec_Block_short_keys; assumption.
Qed.

(** ** Encryption undoes decryption *)

Lemma run_undo_rounds (round unround : Z -> Z * Z -> Z * Z) :
  (forall k s, in64 k -> wf_pair s ->
     wf_pair (on_lanes (unround k) s)
     /\ on_lanes (round k) (on_lanes (unround k) s) = s) ->
  forall K s, Forall in64 K -> wf_pair s ->
    run_rounds round K (undo_rounds unround K s) = s.
Proof.
  intros Hinv K. induction K as [| k K IH] using rev_ind; intros s HK Hs.
  - reflexivity.
  - apply Forall_app in HK. destruct HK as [HK Hk].
    inversion Hk as [| ? ? Hk' _]; subst.
    destruct (Hinv k s Hk' Hs) as [Hw E].
    rewrite undo_rounds_app, run_rounds_app.
    change (undo_rounds unround [k] s) with (on_lanes (unround k) s).
    rewrite IH by assumption.
    change (run_rounds round [k] (on_lanes (unround k) s))
      with (on_lanes (round k) (on_lanes (unround k) s)).
    exact E.
Qed.

Lemma undo_rounds_wf (unround : Z -> Z * Z -> Z * Z) :
  (forall k s, in64 k -> wf_pair s -> wf_pair (on_lanes (unround k) s)) ->
  forall K s, Forall in64 K -> wf_pair s -> wf_pair (undo_rounds unround K s).
Proof.
  intros Hw K. induction K as [| k K IH]; intros s HK Hs.
  - assumption.
  - inversion HK; subst. cbn [undo_rounds fold_right].
    apply Hw; [assumption |]. apply IH; assumption.
Qed.

Lemma speck_enc_dec_round (k : Z) (s : vec * vec) :
  in64 k -> wf_pair s ->
  on_lanes (speck_enc_round k) (on_lanes (speck_dec_round k) s) = s.
Proof.
  intros Hk [[Hxl Hxh] [Hyl Hyh]]. destruct s as [[xl xh] [yl yh]].
  cbn [fst snd lo hi] in Hxl, Hxh, Hyl, Hyh.
  assert (L : forall x y, in64 x -> in64 y ->
            speck_enc_round k (speck_dec_round k (x, y)) = (x, y)).
  { intros x y Hx Hy. unfold speck_enc_round, speck_dec_round.
    set (y' := rotr64 3 (Z.lxor y x)).
    assert (Hy' : in64 y').
    { apply in64_rotr64; [lia |]. apply in64_lxor; assumption. }
    assert (Hs : in64 (sub64 (Z.lxor x k) y')) by apply in64_sub64.
    rewrite (rotr64_rotl64 8) by (lia || assumption).
    assert (Ea : add64 (sub64 (Z.lxor x k) y') y' = Z.lxor x k).
    { pose proof (in64_lxor x k Hx Hk) as Hxk.
      unfold sub64, add64, in64, W64 in *.
      rewrite Zplus_mod_idemp_l.
      replace (Z.lxor x k - y' + y') with (Z.lxor x k) by lia.
      apply Z.mod_small. assumption. }
    rewrite Ea.
    rewrite (Z.lxor_assoc x k k), Z.lxor_nilpotent, Z.lxor_0_r.
    unfold y'. rewrite (rotl64_rotr64 3) by (lia || apply in64_lxor; assumption).
    rewrite Z.lxor_assoc, Z.lxor_nilpotent, Z.lxor_0_r. reflexivity. }
  unfold on_lanes.
  pose proof (L xl yl Hxl Hyl) as El. pose proof (L xh yh Hxh Hyh) as Eh.
  cbn [lo hi fst snd].
  destruct (speck_dec_round k (xl, yl)) as [al bl].
  destruct (speck_dec_round k (xh, yh)) as [ah bh].
  cbn [lo hi fst snd]. rewrite El, Eh. reflexivity.
Qed.

Lemma simon_round_unround (k : Z) (s : vec * vec) :
  on_lanes (simon_round k) (on_lanes (simon_unround k) s) = s.
Proof.
  destruct s as [[xl xh] [yl yh]]. unfold on_lanes, simon_round, simon_unround.
  cbn [lo hi fst snd].
  rewrite !(lxor_swap_last _ (simon_f _) k).
  rewrite !(Z.lxor_assoc _ k k), !Z.lxor_nilpotent, !Z.lxor_0_r.
  rewrite !(Z.lxor_assoc _ (simon_f _) (simon_f _)).
  rewrite !Z.lxor_nilpotent, !Z.lxor_0_r.
  reflexivity.
Qed.

Lemma speck_unround_inverse (k : Z) (s : vec * vec) :
  in64 k -> wf_pair s ->
  wf_pair (on_lanes (speck_dec_round k) s)
  /\ on_lanes (speck_enc_round k) (on_lanes (speck_dec_round k) s) = s.
Proof.
  intros Hk Hs. split; [apply speck_dec_round_wf | apply speck_enc_dec_round]; assumption.
Qed.

Lemma simon_unround_inverse (k : Z) (s : vec * vec) :
  in64 k -> wf_pair s ->
  wf_pair (on_lanes (simon_unround k) s)
  /\ on_lanes (simon_round k) (on_lanes (simon_unround k) s) = s.
Proof.
  intros Hk Hs. split; [apply simon_unround_wf; assumption | apply simon_round_unround].
Qed.

Lemma SSSE3_SPECK128_reverse_roundtrip (K : list Z) (fuel : nat) (blocks : vec * vec) :
  Forall in64 K -> wf_pair blocks ->
  Z.of_nat (length K) <= 2 ^ 31 -> (length K <= fuel)%nat ->
  bind (SSSE3.SPECK128_Dec_Block fuel K (Z.of_nat (length K)) blocks)
       (SSSE3.SPECK128_Enc_Block fuel (splat K) (Z.of_nat (length K)))
  = Done blocks.
Proof.
  intros HK Hb Hlen Hfuel.
  destruct (SSSE3_SPECK128_Dec_Block_spec K fuel blocks) as [D Hw];
    try assumption; try lia.
  rewrite D. cbn [bind].
  destruct (SSSE3_SPECK128_Enc_Block_spec K fuel
              (SSSE3.detranspose (undo_rounds speck_dec_round K (SSSE3.transpose blocks))))
    as [E _]; try assumption; try lia.
  { apply SSSE3_detranspose_wf, Hw. }
  rewrite E, SSSE3_transpose_detranspose.
  rewrite (run_undo_rounds _ _ speck_unround_inverse)
    by (assumption || apply SSSE3_transpose_wf, Hb).
  rewrite SSSE3_detranspose_transpose. reflexivity.
Qed.

Lemma NEON_SPECK128_reverse_roundtrip (K : list Z) (fuel : nat) (blocks : vec * vec) :
  Forall in64 K -> wf_pair blocks ->
  Z.of_nat (length K) <= 2 ^ 31 -> (length K <= fuel)%nat ->
  bind (NEON.SPECK128_Dec_Block fuel K (Z.of_nat (length K)) blocks)
       (NEON.SPECK128_Enc_Block fuel K (Z.of_nat (length K)))
  = Done blocks.
Proof.
  intros HK Hb Hlen Hfuel.
  destruct (NEON_SPECK128_Dec_Block_spec K fuel blocks) as [D Hw];
    try assumption; try lia.
  rewrite D. cbn [bind].
  destruct (NEON_SPECK128_Enc_Block_spec K fuel
              (NEON.detranspose (undo_rounds speck_dec_round K (NEON.transpose blocks))))
    as [E _]; try assumption; try lia.
  { apply NEON_detranspose_wf, Hw. }
  rewrite E, NEON_transpose_detranspose.
  rewrite (run_undo_rounds _ _ speck_unround_inverse)
    by (assumption || apply NEON_transpose_wf, Hb).
  rewrite NEON_detranspose_transpose. reflexivity.
Qed.

Lemma SSSE3_SIMON128_reverse_roundtrip (K : list Z) (fuel : nat) (blocks : vec * vec) :
  Forall in64 K -> wf_pair blocks ->
  2 <= Z.of_nat (length K) <= 2 ^ 31 -> (length K / 2 <= fuel)%nat ->
  bind (SSSE3.SIMON128_Dec_Block fuel K (Z.of_nat (length K)) blocks)
       (SSSE3.SIMON128_Enc_Block fuel (splat K) (Z.of_nat (length K)))
  = Done blocks.
Proof.
  intros HK Hb Hlen Hfuel.
  destruct (SSSE3_SIMON128_Dec_Block_spec K fuel blocks) as [D Hw];
    try assumption; try lia.
  rewrite D. cbn [bind].
  destruct (SSSE3_SIMON128_Enc_Block_spec K fuel
              (SSSE3.detranspose (undo_rounds simon_unround K (SSSE3.transpose blocks))))
    as [E _]; try assumption; try lia.
  { apply SSSE3_detranspose_wf, Hw. }
  rewrite E, SSSE3_transpose_detranspose.
  rewrite (run_undo_rounds _ _ simon_unround_inverse)
    by (assumption || apply SSSE3_transpose_wf, Hb).
  rewrite SSSE3_detranspose_transpose. reflexivity.
Qed.

Lemma NEON_SIMON128_reverse_roundtrip (K : list Z) (fuel : nat) (blocks : vec * vec) :
  Forall in64 K -> wf_pair blocks ->
  2 <= Z.of_nat (length K) <= 2 ^ 31 -> (length K / 2 <= fuel)%nat ->
  bind (NEON.SIMON128_Dec_Block fuel K (Z.of_nat (length K)) blocks)
       (NEON.SIMON128_Enc_Block fuel K (Z.of_nat (length K)))
  = Done blocks.
Proof.
  intros HK Hb Hlen Hfuel.
  destruct (NEON_SIMON128_Dec_Block_spec K fuel blocks) as [D Hw];
    try assumption; try lia.
  rewrite D. cbn [bind].
  destruct (NEON_SIMON128_Enc_Block_spec K fuel
              (NEON.detranspose (undo_rounds simon_unround K (NEON.transpose blocks))))
    as [E _]; try assumption; try lia.
  { apply NEON_detranspose_wf, Hw. }
  rewrite E, NEON_transpose_detranspose.
  rewrite (run_undo_rounds _ _ simon_unround_inverse)
    by (assumption || apply NEON_transpose_wf, Hb).
  rewrite NEON_detranspose_transpose. reflexivity.
Qed.

(** ** One block at a time *)

Lemma run_rounds_lanes (round : Z -> Z * Z -> Z * Z) (K : list Z) :
  forall x y : vec,
    run_rounds round K (x, y)
    = (mkvec (fst (fold_left (fun s k => round k s) K (lo x, lo y)))
             (fst (fold_left (fun s k => round k s) K (hi x, hi y))),
       mkvec (snd (fold_left (fun s k => round k s) K (lo x, lo y)))
             (snd (fold_left (fun s k => round k s) K (hi x, hi y)))).
Proof.
  induction K as [| k K IH]; intros x y.
  - destruct x, y. reflexivity.
  - unfold run_rounds in *. cbn [fold_left].
    unfold on_lanes at 2. rewrite IH. cbn [lo hi].
    rewrite <- !surjective_pairing. reflexivity.
Qed.

Lemma undo_rounds_lanes (unround : Z -> Z * Z -> Z * Z) (K : list Z) :
  forall x y : vec,
    undo_rounds unround K (x, y)
    = (mkvec (fst (fold_right unround (lo x, lo y) K))
             (fst (fold_right unround (hi x, hi y) K)),
       mkvec (snd (fold_right unround (lo x, lo y) K))
             (snd (fold_right unround (hi x, hi y) K))).
Proof.
  induction K as [| k K IH]; intros x y.
  - destruct x, y. reflexivity.
  - unfold undo_rounds in *. cbn [fold_right].
    rewrite IH. unfold on_lanes. cbn [lo hi].
    rewrite <- !surjective_pairing. reflexivity.
Qed.

Lemma SSSE3_run_rounds_blocks (round : Z -> Z * Z -> Z * Z) (K : list Z) (b0 b1 : vec) :
  SSSE3.detranspose (run_rounds round K (SSSE3.transpose (b0, b1)))
  = (encrypt_block round K b0, encrypt_block round K b1).
Proof.
  cbn [SSSE3.transpose]. rewrite run_rounds_lanes. unfold encrypt_block.
  cbn [SSSE3.detranspose SSSE3._mm_unpackhi_epi64 SSSE3._mm_unpacklo_epi64 lo hi].
  destruct (fold_left _ K (hi b0, lo b0)), (fold_left _ K (hi b1, lo b1)).
  reflexivity.
Qed.

Lemma SSSE3_undo_rounds_blocks (unround : Z -> Z * Z -> Z * Z) (K : list Z) (b0 b1 : vec) :
  SSSE3.detranspose (undo_rounds unround K (SSSE3.transpose (b0, b1)))
  = (decrypt_block unround K b0, decrypt_block unround K b1).
Proof.
  cbn [SSSE3.transpose]. rewrite undo_rounds_lanes. unfold decrypt_block.
  cbn [SSSE3.detranspose SSSE3._mm_unpackhi_epi64 SSSE3._mm_unpacklo_epi64 lo hi].
  destruct (fold_right _ (hi b0, lo b0) K), (fold_right _ (hi b1, lo b1) K).
  reflexivity.
Qed.

Lemma NEON_run_rounds_blocks (round : Z -> Z * Z -> Z * Z) (K : list Z) (b0 b1 : vec) :
  NEON.detranspose (run_rounds round K (NEON.transpose (b0, b1)))
  = (encrypt_block round K b0, encrypt_block round K b1).
Proof. exact (SSSE3_run_rounds_blocks round K b0 b1). Qed.

Lemma NEON_undo_rounds_blocks (unround : Z -> Z * Z -> Z * Z) (K : list Z) (b0 b1 : vec) :
  NEON.detranspose (undo_rounds unround K (NEON.transpose (b0, b1)))
  = (decrypt_block unround K b0, decrypt_block unround K b1).
Proof. exact (SSSE3_undo_rounds_blocks unround K b0 b1). Qed.

(** ** Rotations are rotations of bits *)

Lemma testbit_collect (f : Z -> bool) (l : list Z) (n : Z) :
  0 <= n -> Forall (fun i => 0 <= i) l ->
  Z.testbit (fold_right (fun i acc => if f i then Z.setbit acc i else acc) 0 l) n
  = existsb (fun i => (i =? n) && f i) l.
Proof.
  intros Hn Hl. induction l as [| i l IH].
  - apply Z.bits_0.
  - inversion Hl as [| ? ? Hi Hl']; subst. cbn [fold_right existsb].
    destruct (f i).
    + rewrite Z.setbit_eqb by assumption. rewrite IH by assumption.
      rewrite andb_true_r. reflexivity.
    + rewrite IH by assumption. rewrite andb_false_r. reflexivity.
Qed.

Lemma existsb_index (f : Z -> bool) (m : nat) (n : Z) :
  0 <= n ->
  existsb (fun i => (i =? n) && f i) (map Z.of_nat (seq 0 m))
  = (n <? Z.of_nat m) && f n.
Proof.
  intros Hn. apply eq_true_iff_eq. rewrite existsb_exists, andb_true_iff. split.
  - intros (i & Hi & E). apply in_map_iff in Hi. destruct Hi as (j & <- & Hj).
    apply in_seq in Hj. apply andb_true_iff in E. destruct E as [E1 E2].
    apply Z.eqb_eq in E1. subst n. split; [apply Z.ltb_lt; lia | assumption].
  - intros [H1 H2]. apply Z.ltb_lt in H1. exists n. split.
    + apply in_map_iff. exists (Z.to_nat n). split; [lia |]. apply in_seq. lia.
    + rewrite Z.eqb_refl. assumption.
Qed.

Lemma rotate_lane_bits (c x n : Z) :
  0 <= n ->
  Z.testbit (XOP.rotate_lane c x) n
  = (n <? 64) && Z.testbit x ((n - c) mod 64).
Proof.
  intros Hn. unfold XOP.rotate_lane.
  rewrite (testbit_collect (fun i => Z.testbit x ((i - c) mod 64))).
  - apply (existsb_index (fun i => Z.testbit x ((i - c) mod 64)) 64). assumption.
  - assumption.
  - apply Forall_forall. intros i Hi. apply in_map_iff in Hi.
    destruct Hi as (j & <- & _). lia.
Qed.

Lemma rotl64_bits (R x n : Z) :
  0 < R < 64 -> in64 x -> 0 <= n ->
  Z.testbit (rotl64 R x) n = (n <? 64) && Z.testbit x ((n - R) mod 64).
Proof.
  intros HR Hx Hn. unfold rotl64, shl64, shr64, W64.
  rewrite Z.lor_spec, Z.shiftr_spec by assumption.
  destruct (Z.ltb_spec n 64) as [Hlt | Hge]; cbn [andb].
  - rewrite Z.mod_pow2_bits_low by lia. rewrite Z.shiftl_spec by assumption.
    destruct (Z_lt_dec n R) as [Hs | Hb].
    + rewrite (Z.testbit_neg_r x (n - R)) by lia. cbn [orb].
      f_equal. symmetry.
      replace (n - R) with (n + (64 - R) + (-1) * 64) by lia.
      rewrite Z.mod_add by lia. apply Z.mod_small. lia.
    + rewrite (in64_high_bit x (n + (64 - R))) by (assumption || lia).
      rewrite orb_false_r. f_equal. symmetry. apply Z.mod_small. lia.
  - rewrite Z.mod_pow2_bits_high by lia.
    rewrite (in64_high_bit x (n + (64 - R))) by (assumption || lia). reflexivity.
Qed.

Lemma rotate_lane_rotl64 (R x : Z) :
  0 < R < 64 -> in64 x -> XOP.rotate_lane R x = rotl64 R x.
Proof.
  intros HR Hx. apply Z.bits_inj'. intros n Hn.
  rewrite rotate_lane_bits, rotl64_bits by assumption. reflexivity.
Qed.

Lemma XOP_RotateLeft64_lanes (R : Z) (v : vec) :
  0 < R < 64 -> wf_vec v -> XOP.RotateLeft64 R v = lanewise (rotl64 R) v.
Proof.
  intros HR [Hl Hh]. unfold XOP.RotateLeft64.
  destruct (Z.eqb_spec R 8) as [-> | Hne];
    unfold XOP.RotateLeft64_8, XOP.RotateLeft64_generic, XOP._mm_roti_epi64, lanewise;
    rewrite !rotate_lane_rotl64 by assumption; reflexivity.
Qed.

Lemma XOP_RotateRight64_lanes (R : Z) (v : vec) :
  0 < R < 64 -> wf_vec v -> XOP.RotateRight64 R v = lanewise (rotr64 R) v.
Proof.
  intros HR [Hl Hh]. unfold XOP.RotateRight64.
  destruct (Z.eqb_spec R 8) as [-> | Hne];
    unfold XOP.RotateRight64_8, XOP.RotateRight64_generic, XOP._mm_roti_epi64, lanewise;
    rewrite !rotate_lane_rotl64 by (assumption || lia);
    rewrite !rotr64_as_rotl64; reflexivity.
Qed.

Lemma lanewise_rotr64_rotl64 (R : Z) (v : vec) :
  0 < R < 64 -> wf_vec v -> lanewise (rotr64 R) (lanewise (rotl64 R) v) = v.
Proof.
  intros HR [Hl Hh]. destruct v as [l h]. unfold lanewise. cbn [lo hi] in *.
  rewrite !rotr64_rotl64 by assumption. reflexivity.
Qed.

Lemma lanewise_rotl64_rotr64 (R : Z) (v : vec) :
  0 < R < 64 -> wf_vec v -> lanewise (rotl64 R) (lanewise (rotr64 R) v) = v.
Proof.
  intros HR [Hl Hh]. destruct v as [l h]. unfold lanewise. cbn [lo hi] in *.
  rewrite !rotl64_rotr64 by assumption. reflexivity.
Qed.

(** ** The kernels, block by block *)

Lemma SSSE3_SPECK128_Enc_Block_blocks (K : list Z) (fuel : nat) (b0 b1 : vec) :
  Forall in64 K -> wf_vec b0 -> wf_vec b1 ->
  Z.of_nat (length K) < 2 ^ 32 -> (length K <= fuel)%nat ->
  SSSE3.SPECK128_Enc_Block fuel (splat K) (Z.of_nat (length K)) (b0, b1)
  = Done (encrypt_block speck_enc_round K b0, encrypt_block speck_enc_round K b1).
Proof.
  intros HK H0 H1 Hlen Hfuel.
  destruct (SSSE3_SPECK128_Enc_Block_spec K fuel (b0, b1) HK (conj H0 H1) Hlen Hfuel)
    as [E _].
  rewrite E, SSSE3_run_rounds_blocks. reflexivity.
Qed.

Lemma SSSE3_SPECK128_Dec_Block_blocks (K : list Z) (fuel : nat) (b0 b1 : vec) :
  Forall in64 K -> wf_vec b0 -> wf_vec b1 ->
  Z.of_nat (length K) <= 2 ^ 31 -> (length K <= fuel)%nat ->
  SSSE3.SPECK128_Dec_Block fuel K (Z.of_nat (length K)) (b0, b1)
  = Done (decrypt_block speck_dec_round K b0, decrypt_block speck_dec_round K b1).
Proof.
  intros HK H0 H1 Hlen Hfuel.
  destruct (SSSE3_SPECK128_Dec_Block_spec K fuel (b0, b1) HK (conj H0 H1) Hlen Hfuel)
    as [E _].
  rewrite E, SSSE3_undo_rounds_blocks. reflexivity.
Qed.

Lemma SSSE3_SIMON128_Enc_Block_blocks (K : list Z) (fuel : nat) (b0 b1 : vec) :
  Forall in64 K -> wf_vec b0 -> wf_vec b1 ->
  2 <= Z.of_nat (length K) <= 2 ^ 31 -> (length K / 2 <= fuel)%nat ->
  SSSE3.SIMON128_Enc_Block fuel (splat K) (Z.of_nat (length K)) (b0, b1)
  = Done (encrypt_block simon_round K b0, encrypt_block simon_round K b1).
Proof.
  intros HK H0 H1 Hlen Hfuel.
  destruct (SSSE3_SIMON128_Enc_Block_spec K fuel (b0, b1) HK (conj H0 H1) Hlen Hfuel)
    as [E _].
  rewrite E, SSSE3_run_rounds_blocks. reflexivity.
Qed.

Lemma SSSE3_SIMON128_Dec_Block_blocks (K : list Z) (fuel : nat) (b0 b1 : vec) :
  Forall in64 K -> wf_vec b0 -> wf_vec b1 ->
  Z.of_nat (length K) <= 2 ^ 31 -> (length K / 2 <= fuel)%nat ->
  SSSE3.SIMON128_Dec_Block fuel K (Z.of_nat (length K)) (b0, b1)
  = Done (decrypt_block simon_unround K b0, decrypt_block simon_unround K b1).
Proof.
  intros HK H0 H1 Hlen Hfuel.
  destruct (SSSE3_SIMON128_Dec_Block_spec K fuel (b0, b1) HK (conj H0 H1) Hlen Hfuel)
    as [E _].
  rewrite E, SSSE3_undo_rounds_blocks. reflexivity.
Qed.

Lemma SSSE3_SPECK128_Enc_6_Blocks_blocks (K : list Z) (fuel : nat) (b0 b1 b2 b3 b4 b5 : vec) :
  Forall in64 K ->
  wf_vec b0 -> wf_vec b1 -> wf_vec b2 -> wf_vec b3 -> wf_vec b4 -> wf_vec b5 ->
  Z.of_nat (length K) < 2 ^ 32 -> (length K <= fuel)%nat ->
  SSSE3.SPECK128_Enc_6_Blocks fuel (splat K) (Z.of_nat (length K)) (b0, b1, b2, b3, b4, b5)
  = Done (encrypt_block speck_enc_round K b0, encrypt_block speck_enc_round K b1,
          encrypt_block speck_enc_round K b2, encrypt_block speck_enc_round K b3,
          encrypt_block speck_enc_round K b4, encrypt_block speck_enc_round K b5).
Proof.
  intros HK H0 H1 H2 H3 H4 H5 Hlen Hfuel.
  rewrite SSSE3_SPECK128_Enc_6_Blocks_three.
  rewrite (SSSE3_SPECK128_Enc_Block_blocks K fuel b0 b1) by assumption.
  rewrite (SSSE3_SPECK128_Enc_Block_blocks K fuel b2 b3) by assumption.
  rewrite (SSSE3_SPECK128_Enc_Block_blocks K fuel b4 b5) by assumption.
  reflexivity.
Qed.

Lemma SSSE3_SPECK128_Dec_6_Blocks_blocks (K : list Z) (fuel : nat) (b0 b1 b2 b3 b4 b5 : vec) :
  Forall in64 K ->
  wf_vec b0 -> wf_vec b1 -> wf_vec b2 -> wf_vec b3 -> wf_vec b4 -> wf_vec b5 ->
  Z.of_nat (length K) <= 2 ^ 31 -> (length K <= fuel)%nat ->
  SSSE3.SPECK128_Dec_6_Blocks fuel K (Z.of_nat (length K)) (b0, b1, b2, b3, b4, b5)
  = Done (decrypt_block speck_dec_round K b0, decrypt_block speck_dec_round K b1,
          decrypt_block speck_dec_round K b2, decrypt_block speck_dec_round K b3,
          decrypt_block speck_dec_round K b4, decrypt_block speck_dec_round K b5).
Proof.
  intros HK H0 H1 H2 H3 H4 H5 Hlen Hfuel.
  rewrite SSSE3_SPECK128_Dec_6_Blocks_three.
  rewrite (SSSE3_SPECK128_Dec_Block_blocks K fuel b0 b1) by assumption.
  rewrite (SSSE3_SPECK128_Dec_Block_blocks K fuel b2 b3) by assumption.
  rewrite (SSSE3_SPECK128_Dec_Block_blocks K fuel b4 b5) by assumption.
  reflexivity.
Qed.

Lemma SSSE3_SIMON128_Enc_6_Blocks_blocks (K : list Z) (fuel : nat) (b0 b1 b2 b3 b4 b5 : vec) :
  Forall in64 K ->
  wf_vec b0 -> wf_vec b1 -> wf_vec b2 -> wf_vec b3 -> wf_vec b4 -> wf_vec b5 ->
  2 <= Z.of_nat (length K) <= 2 ^ 31 -> (length K / 2 <= fuel)%nat ->
  SSSE3.SIMON128_Enc_6_Blocks fuel (splat K) (Z.of_nat (length K)) (b0, b1, b2, b3, b4, b5)
  = Done (encrypt_block simon_round K b0, encrypt_block simon_round K b1,
          encrypt_block simon_round K b2, encrypt_block simon_round K b3,
          encrypt_block simon_round K b4, encrypt_block simon_round K b5).
Proof.
  intros HK H0 H1 H2 H3 H4 H5 Hlen Hfuel.
  rewrite SSSE3_SIMON128_Enc_6_Blocks_three.
  rewrite (SSSE3_SIMON128_Enc_Block_blocks K fuel b0 b1) by assumption.
  rewrite (SSSE3_SIMON128_Enc_Block_blocks K fuel b2 b3) by assumption.
  rewrite (SSSE3_SIMON128_Enc_Block_blocks K fuel b4 b5) by assumption.
  reflexivity.
Qed.

Lemma SSSE3_SIMON128_Dec_6_Blocks_blocks (K : list Z) (fuel : nat) (b0 b1 b2 b3 b4 b5 : vec) :
  Forall in64 K ->
  wf_vec b0 -> wf_vec b1 -> wf_vec b2 -> wf_vec b3 -> wf_vec b4 -> wf_vec b5 ->
  Z.of_nat (length K) <= 2 ^ 31 -> (length K / 2 <= fuel)%nat ->
  SSSE3.SIMON128_Dec_6_Blocks fuel K (Z.of_nat (length K)) (b0, b1, b2, b3, b4, b5)
  = Done (decrypt_block simon_unround K b0, decrypt_block simon_unround K b1,
          decrypt_block simon_unround K b2, decrypt_block simon_unround K b3,
          decrypt_block simon_unround K b4, decrypt_block simon_unround K b5).
Proof.
  intros HK H0 H1 H2 H3 H4 H5 Hlen Hfuel.
  rewrite SSSE3_SIMON128_Dec_6_Blocks_three.
  rewrite (SSSE3_SIMON128_Dec_Block_blocks K fuel b0 b1) by assumption.
  rewrite (SSSE3_SIMON128_Dec_Block_blocks K fuel b2 b3) by assumption.
  rewrite (SSSE3_SIMON128_Dec_Block_blocks K fuel b4 b5) by assumption.
  reflexivity.
Qed.

Lemma NEON_SPECK128_Enc_Block_blocks (K : list Z) (fuel : nat) (b0 b1 : vec) :
  Forall in64 K -> wf_vec b0 -> wf_vec b1 ->
  Z.of_nat (length K) < 2 ^ 32 -> (length K <= fuel)%nat ->
  NEON.SPECK128_Enc_Block fuel K (Z.of_nat (length K)) (b0, b1)
  = Done (encrypt_block speck_enc_round K b0, encrypt_block speck_enc_round K b1).
Proof.
  intros HK H0 H1 Hlen Hfuel.
  destruct (NEON_SPECK128_Enc_Block_spec K fuel (b0, b1) HK (conj H0 H1) Hlen Hfuel)
    as [E _].
  rewrite E, NEON_run_rounds_blocks. reflexivity.
Qed.

Lemma NEON_SPECK128_Dec_Block_blocks (K : list Z) (fuel : nat) (b0 b1 : vec) :
  Forall in64 K -> wf_vec b0 -> wf_vec b1 ->
  Z.of_nat (length K) <= 2 ^ 31 -> (length K <= fuel)%nat ->
  NEON.SPECK128_Dec_Block fuel K (Z.of_nat (length K)) (b0, b1)
  = Done (decrypt_block speck_dec_round K b0, decrypt_block speck_dec_round K b1).
Proof.
  intros HK H0 H1 Hlen Hfuel.
  destruct (NEON_SPECK128_Dec_Block_spec K fuel (b0, b1) HK (conj H0 H1) Hlen Hfuel)
    as [E _].
  rewrite E, NEON_undo_rounds_blocks. reflexivity.
Qed.

Lemma NEON_SIMON128_Enc_Block_blocks (K : list Z) (fuel : nat) (b0 b1 : vec) :
  Forall in64 K -> wf_vec b0 -> wf_vec b1 ->
  2 <= Z.of_nat (length K) < 2 ^ 32 -> (length K / 2 <= fuel)%nat ->
  NEON.SIMON128_Enc_Block fuel K (Z.of_nat (length K)) (b0, b1)
  = Done (encrypt_block simon_round K b0, encrypt_block simon_round K b1).
Proof.
  intros HK H0 H1 Hlen Hfuel.
  destruct (NEON_SIMON128_Enc_Block_spec K fuel (b0, b1) HK (conj H0 H1) Hlen Hfuel)
    as [E _].
  rewrite E, NEON_run_rounds_blocks. reflexivity.
Qed.

Lemma NEON_SIMON128_Dec_Block_blocks (K : list Z) (fuel : nat) (b0 b1 : vec) :
  Forall in64 K -> wf_vec b0 -> wf_vec b1 ->
  Z.of_nat (length K) <= 2 ^ 31 -> (length K / 2 <= fuel)%nat ->
  NEON.SIMON128_Dec_Block fuel K (Z.of_nat (length K)) (b0, b1)
  = Done (decrypt_block simon_unround K b0, decrypt_block simon_unround K b1).
Proof.
  intros HK H0 H1 Hlen Hfuel.
  destruct (NEON_SIMON128_Dec_Block_spec K fuel (b0, b1) HK (conj H0 H1) Hlen Hfuel)
    as [E _].
  rewrite E, NEON_undo_rounds_blocks. reflexivity.
Qed.

Lemma NEON_SPECK128_Enc_6_Blocks_blocks (K : list Z) (fuel : nat) (b0 b1 b2 b3 b4 b5 : vec) :
  Forall in64 K ->
  wf_vec b0 -> wf_vec b1 -> wf_vec b2 -> wf_vec b3 -> wf_vec b4 -> wf_vec b5 ->
  Z.of_nat (length K) < 2 ^ 32 -> (length K <= fuel)%nat ->
  NEON.SPECK128_Enc_6_Blocks fuel K (Z.of_nat (length K)) (b0, b1, b2, b3, b4, b5)
  = Done (encrypt_block speck_enc_round K b0, encrypt_block speck_enc_round K b1,
          encrypt_block speck_enc_round K b2, encrypt_block speck_enc_round K b3,
          encrypt_block speck_enc_round K b4, encrypt_block speck_enc_round K b5).
Proof.
  intros HK H0 H1 H2 H3 H4 H5 Hlen Hfuel.
  rewrite NEON_SPECK128_Enc_6_Blocks_three.
  rewrite (NEON_SPECK128_Enc_Block_blocks K fuel b0 b1) by assumption.
  rewrite (NEON_SPECK128_Enc_Block_blocks K fuel b2 b3) by assumption.
  rewrite (NEON_SPECK128_Enc_Block_blocks K fuel b4 b5) by assumption.
  reflexivity.
Qed.

Lemma NEON_SPECK128_Dec_6_Blocks_blocks (K : list Z) (fuel : nat) (b0 b1 b2 b3 b4 b5 : vec) :
  Forall in64 K ->
  wf_vec b0 -> wf_vec b1 -> wf_vec b2 -> wf_vec b3 -> wf_vec b4 -> wf_vec b5 ->
  Z.of_nat (length K) <= 2 ^ 31 -> (length K <= fuel)%nat ->
  NEON.SPECK128_Dec_6_Blocks fuel K (Z.of_nat (length K)) (b0, b1, b2, b3, b4, b5)
  = Done (decrypt_block speck_dec_round K b0, decrypt_block speck_dec_round K b1,
          decrypt_block speck_dec_round K b2, decrypt_block speck_dec_round K b3,
          decrypt_block speck_dec_round K b4, decrypt_block speck_dec_round K b5).
Proof.
  intros HK H0 H1 H2 H3 H4 H5 Hlen Hfuel.
  rewrite NEON_SPECK128_Dec_6_Blocks_three.
  rewrite (NEON_SPECK128_Dec_Block_blocks K fuel b0 b1) by assumption.
  rewrite (NEON_SPECK128_Dec_Block_blocks K fuel b2 b3) by assumption.
  rewrite (NEON_SPECK128_Dec_Block_blocks K fuel b4 b5) by assumption.
  reflexivity.
Qed.

Lemma NEON_SIMON128_Enc_6_Blocks_blocks (K : list Z) (fuel : nat) (b0 b1 b2 b3 b4 b5 : vec) :
  Forall in64 K ->
  wf_vec b0 -> wf_vec b1 -> wf_vec b2 -> wf_vec b3 -> wf_vec b4 -> wf_vec b5 ->
  2 <= Z.of_nat (length K) < 2 ^ 32 -> (length K / 2 <= fuel)%nat ->
  NEON.SIMON128_Enc_6_Blocks fuel K (Z.of_nat (length K)) (b0, b1, b2, b3, b4, b5)
  = Done (encrypt_block simon_round K b0, encrypt_block simon_round K b1,
          encrypt_block simon_round K b2, encrypt_block simon_round K b3,
          encrypt_block simon_round K b4, encrypt_block simon_round K b5).
Proof.
  intros HK H0 H1 H2 H3 H4 H5 Hlen Hfuel.
  rewrite NEON_SIMON128_Enc_6_Blocks_three.
  rewrite (NEON_SIMON128_Enc_Block_blocks K fuel b0 b1) by assumption.
  rewrite (NEON_SIMON128_Enc_Block_blocks K fuel b2 b3) by assumption.
  rewrite (NEON_SIMON128_Enc_Block_blocks K fuel b4 b5) by assumption.
  reflexivity.
Qed.

Lemma NEON_SIMON128_Dec_6_Blocks_blocks (K : list Z) (fuel : nat) (b0 b1 b2 b3 b4 b5 : vec) :
  Forall in64 K ->
  wf_vec b0 -> wf_vec b1 -> wf_vec b2 -> wf_vec b3 -> wf_vec b4 -> wf_vec b5 ->
  Z.of_nat (length K) <= 2 ^ 31 -> (length K / 2 <= fuel)%nat ->
  NEON.SIMON128_Dec_6_Blocks fuel K (Z.of_nat (length K)) (b0, b1, b2, b3, b4, b5)
  = Done (decrypt_block simon_unround K b0, decrypt_block simon_unround K b1,
          decrypt_block simon_unround K b2, decrypt_block simon_unround K b3,
          decrypt_block simon_unround K b4, decrypt_block simon_unround K b5).
Proof.
  intros HK H0 H1 H2 H3 H4 H5 Hlen Hfuel.
  rewrite NEON_SIMON128_Dec_6_Blocks_three.
  rewrite (NEON_SIMON128_Dec_Block_blocks K fuel b0 b1) by assumption.
  rewrite (NEON_SIMON128_Dec_Block_blocks K fuel b2 b3) by assumption.
  rewrite (NEON_SIMON128_Dec_Block_blocks K fuel b4 b5) by assumption.
  reflexivity.
Qed.

(** ** Loops take their iterations *)

Section NeedsFuel.

Context {S : Type}.
Variable body : Z -> S -> outcome S.

Lemma for_up_needs_fuel (bound step : Z) :
  0 < step -> bound + step <= W64 ->
  forall (fuel : nat) (i : Z) (s r : S),
    0 <= i -> i + step * Z.of_nat fuel < bound ->
    for_up fuel i bound step body s <> Done r.
Proof.
  intros Hstep Hb.
  induction fuel as [| fuel IH]; intros i s r Hi Hlt; cbn [for_up].
  - destruct (Z.ltb_spec i bound); [discriminate | lia].
  - destruct (Z.ltb_spec i bound) as [H | H]; [| lia].
    destruct (body i s); cbn [bind]; try discriminate.
    rewrite size_t_small by (unfold W64 in *; lia).
    apply IH; lia.
Qed.

Lemma for_down_needs_fuel (step : Z) :
  0 < step ->
  forall (fuel : nat) (i : Z) (s r : S),
    step * Z.of_nat fuel <= i ->
    for_down fuel i step body s <> Done r.
Proof.
  intros Hstep.
  induction fuel as [| fuel IH]; intros i s r Hle; cbn [for_down].
  - destruct (Z.leb_spec 0 i); [discriminate | lia].
  - destruct (Z.leb_spec 0 i) as [H | H]; [| lia].
    destruct (body i s); cbn [bind]; try discriminate.
    apply IH. lia.
Qed.

End NeedsFuel.

(** ** The data do not steer the kernels *)

Lemma same_shape_bind {A B A' B' : Type} (a : outcome A) (a' : outcome A')
    (k : A -> outcome B) (k' : A' -> outcome B') :
  same_shape a a' -> (forall x x', same_shape (k x) (k' x')) ->
  same_shape (bind a k) (bind a' k').
Proof.
  intros Ha Hk. destruct a, a'; cbn [same_shape bind] in *;
    try contradiction; try exact I.
  apply Hk.
Qed.

Lemma for_down_negative {S : Type} (body : Z -> S -> outcome S) (fuel : nat)
    (i step : Z) (s : S) :
  i < 0 -> for_down fuel i step body s = Done s.
Proof.
  intros Hi. destruct fuel; cbn [for_down];
    destruct (Z.leb_spec 0 i); try lia; reflexivity.
Qed.

Lemma three_roundtrip
    (enc dec : vec * vec -> outcome (vec * vec))
    (enc6 dec6 : vec * vec * vec * vec * vec * vec
                 -> outcome (vec * vec * vec * vec * vec * vec)) :
  (forall b0 b1 b2 b3 b4 b5,
     enc6 (b0, b1, b2, b3, b4, b5)
     = three (enc (b0, b1)) (enc (b2, b3)) (enc (b4, b5))) ->
  (forall b0 b1 b2 b3 b4 b5,
     dec6 (b0, b1, b2, b3, b4, b5)
     = three (dec (b0, b1)) (dec (b2, b3)) (dec (b4, b5))) ->
  forall b0 b1 b2 b3 b4 b5,
    bind (enc (b0, b1)) dec = Done (b0, b1) ->
    bind (enc (b2, b3)) dec = Done (b2, b3) ->
    bind (enc (b4, b5)) dec = Done (b4, b5) ->
    bind (enc6 (b0, b1, b2, b3, b4, b5)) dec6 = Done (b0, b1, b2, b3, b4, b5).
Proof.
  intros H6 D6 b0 b1 b2 b3 b4 b5 E1 E2 E3. rewrite H6.
  destruct (enc (b0, b1)) as [[a0 a1] | |]; cbn [bind] in E1; try discriminate.
  destruct (enc (b2, b3)) as [[a2 a3] | |]; cbn [bind] in E2; try discriminate.
  destruct (enc (b4, b5)) as [[a4 a5] | |]; cbn [bind] in E3; try discriminate.
  cbn [three bind]. rewrite D6, E1, E2, E3. reflexivity.
Qed.

(** ** Kernels return when the round keys are there *)

Lemma read64_in_range (A : list Z) (j : Z) :
  0 <= j < Z.of_nat (length A) -> exists k, read64 A j = Done k.
Proof.
  intros H. unfold read64. destruct (Z.ltb_spec j 0); [lia |].
  destruct (nth_error A (Z.to_nat j)) eqn:E; [eexists; reflexivity |].
  apply nth_error_None in E. lia.
Qed.

Section Total.

Context {S : Type}.
Variable body : Z -> S -> outcome S.

Lemma for_up_total (bound step : Z) :
  0 < step -> bound + step <= W64 ->
  (forall j s, 0 <= j < bound -> exists s', body j s = Done s') ->
  forall (fuel : nat) (i : Z) (s : S),
    0 <= i -> bound <= i + step * Z.of_nat fuel ->
    exists s', for_up fuel i bound step body s = Done s'.
Proof.
  intros Hstep Hb Hbody.
  induction fuel as [| fuel IH]; intros i s Hi Hf; cbn [for_up].
  - destruct (Z.ltb_spec i bound); [lia | eexists; reflexivity].
  - destruct (Z.ltb_spec i bound) as [H | H]; [| eexists; reflexivity].
    destruct (Hbody i s) as [s' E]; [lia |]. rewrite E. cbn [bind].
    rewrite size_t_small by (unfold W64 in *; lia).
    apply IH; lia.
Qed.

Lemma for_down_total (step i0 : Z) :
  0 < step ->
  (forall j s, 0 <= j <= i0 -> exists s', body j s = Done s') ->
  forall (fuel : nat) (i : Z) (s : S),
    i <= i0 -> i < step * Z.of_nat fuel ->
    exists s', for_down fuel i step body s = Done s'.
Proof.
  intros Hstep Hbody.
  induction fuel as [| fuel IH]; intros i s Hi Hf; cbn [for_down].
  - destruct (Z.leb_spec 0 i); [lia | eexists; reflexivity].
  - destruct (Z.leb_spec 0 i) as [H | H]; [| eexists; reflexivity].
    destruct (Hbody i s) as [s' E]; [lia |]. rewrite E. cbn [bind].
    apply IH; lia.
Qed.

End Total.

Lemma loaddup_in_range (A : list Z) (idx : Z) :
  0 <= idx < Z.of_nat (length A) ->
  exists v, SSSE3._mm_loaddup_pd A idx = Done v.
Proof.
  intros H. unfold SSSE3._mm_loaddup_pd.
  destruct (read64_in_range A idx) as [k E]; [lia |].
  rewrite E. cbn [bind]. eexists. reflexivity.
Qed.

Lemma vld1q_dup_in_range (A : list Z) (idx : Z) :
  0 <= idx < Z.of_nat (length A) ->
  exists v, NEON.vld1q_dup_u64 A idx = Done v.
Proof. exact (loaddup_in_range A idx). Qed.

Lemma NEON_SPECK128_Enc_Block_returns (fuel : nat) (A : list Z) (rounds : Z)
    (blocks : vec * vec) :
  0 <= rounds < W32 -> rounds <= Z.of_nat (length A) -> rounds <= Z.of_nat fuel ->
  exists r, NEON.SPECK128_Enc_Block fuel A rounds blocks = Done r.
Proof.
  intros Hr Hlen Hf. destruct blocks as [b0 b1]. unfold NEON.SPECK128_Enc_Block.
  rewrite size_t_small by (unfold W32, W64 in *; lia).
  destruct (for_up_total (NEON.SPECK128_Enc_round A) rounds 1) with
    (fuel := fuel) (i := 0)
    (s := (NEON.UnpackHigh64 b0 b1, NEON.UnpackLow64 b0 b1))
    as [[x y] E]; try (unfold W32, W64 in *; lia).
  - intros j [x y] Hj. unfold NEON.SPECK128_Enc_round.
    destruct (vld1q_dup_in_range A j) as [rk Ek]; try lia.
    rewrite Ek. cbn [bind]. eexists. reflexivity.
  - rewrite E. cbn [bind]. eexists. reflexivity.
Qed.

Lemma SSSE3_SPECK128_Dec_Block_returns (fuel : nat) (A : list Z) (rounds : Z)
    (blocks : vec * vec) :
  0 <= rounds < W32 -> rounds <= Z.of_nat (length A) -> rounds <= Z.of_nat fuel ->
  exists r, SSSE3.SPECK128_Dec_Block fuel A rounds blocks = Done r.
Proof.
  intros Hr Hlen Hf. destruct blocks as [b0 b1]. unfold SSSE3.SPECK128_Dec_Block.
  pose proof (to_int_uint_le rounds 1 Hr ltac:(lia)) as Hi.
  destruct (for_down_total (SSSE3.SPECK128_Dec_round A) 1 (to_int (uint (rounds - 1))))
    with (fuel := fuel) (i := to_int (uint (rounds - 1)))
         (s := (SSSE3._mm_unpackhi_epi64 b0 b1, SSSE3._mm_unpacklo_epi64 b0 b1))
    as [[x y] E]; try lia.
  - intros j [x y] Hj. unfold SSSE3.SPECK128_Dec_round.
    destruct (loaddup_in_range A j) as [rk Ek]; try lia.
    rewrite Ek. cbn [bind]. eexists. reflexivity.
  - rewrite E. cbn [bind]. eexists. reflexivity.
Qed.

Lemma NEON_SPECK128_Dec_Block_returns (fuel : nat) (A : list Z) (rounds : Z)
    (blocks : vec * vec) :
  0 <= rounds < W32 -> rounds <= Z.of_nat (length A) -> rounds <= Z.of_nat fuel ->
  exists r, NEON.SPECK128_Dec_Block fuel A rounds blocks = Done r.
Proof.
  intros Hr Hlen Hf.
  rewrite <- (SPECK128_Dec_Block_backends fuel A rounds blocks).
  apply SSSE3_SPECK128_Dec_Block_returns; assumption.
Qed.

Lemma NEON_SIMON128_Enc_Block_returns (fuel : nat) (A : list Z) (rounds : Z)
    (blocks : vec * vec) :
  2 <= rounds < W32 -> rounds <= Z.of_nat (length A) ->
  rounds / 2 <= Z.of_nat fuel ->
  exists r, NEON.SIMON128_Enc_Block fuel A rounds blocks = Done r.
Proof.
  intros Hr Hlen Hf. destruct blocks as [b0 b1]. unfold NEON.SIMON128_Enc_Block.
  destruct (SIMON128_Enc_bound_small rounds Hr) as [_ E2]. rewrite E2.
  destruct (for_up_total (NEON.SIMON128_Enc_round2 A) (2 * (rounds / 2) - 1) 2) with
    (fuel := fuel) (i := 0)
    (s := (NEON.UnpackHigh64 b0 b1, NEON.UnpackLow64 b0 b1))
    as [[x y] E]; try (unfold W32, W64 in *; Z.div_mod_to_equations; lia).
  - intros j [x y] Hj. unfold NEON.SIMON128_Enc_round2.
    destruct (vld1q_dup_in_range A j) as [rk1 Ek1];
      try (Z.div_mod_to_equations; lia).
    destruct (vld1q_dup_in_range A (j + 1)) as [rk2 Ek2];
      try (Z.div_mod_to_equations; lia).
    rewrite Ek1. cbn [bind]. rewrite Ek2. cbn [bind]. eexists. reflexivity.
  - rewrite E. cbn [bind]. unfold NEON.SIMON128_Enc_tail.
    destruct (Z.land rounds 1 =? 0); cbn [bind]; [eexists; reflexivity |].
    destruct (vld1q_dup_in_range A (rounds - 1)) as [rk Ek]; [lia |].
    rewrite Ek. cbn [bind NEON.swap fst snd]. eexists. reflexivity.
Qed.

Lemma SSSE3_SIMON128_Dec_Block_returns (fuel : nat) (A : list Z) (rounds : Z)
    (blocks : vec * vec) :
  0 <= rounds < W32 -> rounds <= Z.of_nat (length A) ->
  rounds / 2 <= Z.of_nat fuel ->
  exists r, SSSE3.SIMON128_Dec_Block fuel A rounds blocks = Done r.
Proof.
  intros Hr Hlen Hf. destruct blocks as [b0 b1].
  unfold SSSE3.SIMON128_Dec_Block, SSSE3.SIMON128_Dec_head.
  rewrite land_1_mod.
  assert (Loop : forall q s, 0 <= q <= rounds -> q / 2 <= rounds / 2 ->
            exists r, for_down fuel (to_int (uint (q - 2))) 2
                        (SSSE3.SIMON128_Dec_round2 A) s = Done r).
  { intros q s Hq Hq2.
    pose proof (to_int_uint_le q 2 ltac:(lia) ltac:(lia)) as Hi.
    apply (for_down_total (SSSE3.SIMON128_Dec_round2 A) 2 (to_int (uint (q - 2))));
      try lia.
    - intros j [x y] Hj. unfold SSSE3.SIMON128_Dec_round2.
      destruct (loaddup_in_range A (j + 1)) as [rk1 Ek1]; [lia |].
      destruct (loaddup_in_range A j) as [rk2 Ek2]; [lia |].
      rewrite Ek1. cbn [bind]. rewrite Ek2. cbn [bind]. eexists. reflexivity.
    - Z.div_mod_to_equations. lia. }
  destruct (Z.eqb_spec (rounds mod 2) 0) as [He | Ho]; cbn [bind].
  - destruct (Loop rounds
                (SSSE3._mm_unpackhi_epi64 b0 b1, SSSE3._mm_unpacklo_epi64 b0 b1))
      as [[x y] E]; try lia.
    rewrite E. cbn [bind]. eexists. reflexivity.
  - assert (H1 : 1 <= rounds) by (Z.div_mod_to_equations; lia).
    destruct (loaddup_in_range A (rounds - 1)) as [rk Ek]; [lia |].
    rewrite Ek. cbn [bind SSSE3.Swap128 fst snd].
    rewrite (uint_small (rounds - 1)) by lia.
    match goal with
    | |- context [for_down fuel _ 2 _ ?s] =>
        destruct (Loop (rounds - 1) s) as [[x y] E];
          [lia | Z.div_mod_to_equations; lia |]
    end.
    rewrite E. cbn [bind]. eexists. reflexivity.
Qed.

Lemma NEON_SIMON128_Dec_Block_returns (fuel : nat) (A : list Z) (rounds : Z)
    (blocks : vec * vec) :
  0 <= rounds < W32 -> rounds <= Z.of_nat (length A) ->
  rounds / 2 <= Z.of_nat fuel ->
  exists r, NEON.SIMON128_Dec_Block fuel A rounds blocks = Done r.
Proof.
  intros Hr Hlen Hf.
  rewrite <- (SIMON128_Dec_Block_backends fuel A rounds blocks).
  apply SSSE3_SIMON128_Dec_Block_returns; assumption.
Qed.

(** ** Kernels end within their iterations *)

Lemma bind_no_timeout {A B : Type} (c : outcome A) (k : A -> outcome B) :
  c <> Timeout -> (forall a, k a <> Timeout) -> bind c k <> Timeout.
Proof.
  intros Hc Hk. destruct c as [a | |]; cbn [bind]; [apply Hk | discriminate |].
  exfalso. exact (Hc eq_refl).
Qed.

Lemma read64_no_timeout (A : list Z) (idx : Z) : read64 A idx <> Timeout.
Proof.
  unfold read64. destruct (idx <? 0); [discriminate |].
  destruct (nth_error A (Z.to_nat idx)); discriminate.
Qed.

Lemma load_si128_no_timeout (A : list Z) (idx : Z) : SSSE3._mm_load_si128 A idx <> Timeout.
Proof.
  unfold SSSE3._mm_load_si128.
  apply bind_no_timeout; [apply read64_no_timeout | intros l].
  apply bind_no_timeout; [apply read64_no_timeout | intros h]. discriminate.
Qed.

Lemma loaddup_no_timeout (A : list Z) (idx : Z) : SSSE3._mm_loaddup_pd A idx <> Timeout.
Proof.
  unfold SSSE3._mm_loaddup_pd.
  apply bind_no_timeout; [apply read64_no_timeout | intros k]. discriminate.
Qed.

Lemma vld1q_dup_no_timeout (A : list Z) (idx : Z) : NEON.vld1q_dup_u64 A idx <> Timeout.
Proof. exact (loaddup_no_timeout A idx). Qed.

(** A result that is neither a return nor a timeout is a read outside the
    round-key array. *)
Lemma outcome_fault {A : Type} (c : outcome A) :
  (forall r, c <> Done r) -> c <> Timeout -> c = Fault.
Proof.
  intros Hd Ht. destruct c as [a | |]; [| reflexivity |].
  - exfalso. exact (Hd a eq_refl).
  - exfalso. exact (Ht eq_refl).
Qed.

Section NoTimeout.

Context {S : Type}.
Variable body : Z -> S -> outcome S.
Hypothesis body_no_timeout : forall j s, body j s <> Timeout.

Lemma for_up_no_timeout (bound step : Z) :
  0 < step -> bound + step <= W64 ->
  forall (fuel : nat) (i : Z) (s : S),
    0 <= i -> bound <= i + step * Z.of_nat fuel ->
    for_up fuel i bound step body s <> Timeout.
Proof.
  intros Hstep Hb.
  induction fuel as [| fuel IH]; intros i s Hi Hf; cbn [for_up].
  - destruct (Z.ltb_spec i bound); [lia | discriminate].
  - destruct (Z.ltb_spec i bound) as [H | H]; [| discriminate].
    apply bind_no_timeout; [apply body_no_timeout | intros s'].
    rewrite size_t_small by (unfold W64 in *; lia).
    apply IH; lia.
Qed.

Lemma for_down_no_timeout (step : Z) :
  0 < step ->
  forall (fuel : nat) (i : Z) (s : S),
    i < step * Z.of_nat fuel -> for_down fuel i step body s <> Timeout.
Proof.
  intros Hstep.
  induction fuel as [| fuel IH]; intros i s Hf; cbn [for_down].
  - destruct (Z.leb_spec 0 i); [lia | discriminate].
  - destruct (Z.leb_spec 0 i) as [H | H]; [| discriminate].
    apply bind_no_timeout; [apply body_no_timeout | intros s'].
    apply IH; lia.
Qed.

End NoTimeout.

Lemma SSSE3_SPECK128_Enc_Block_no_timeout (fuel : nat) (A : list Z) (rounds : Z)
    (blocks : vec * vec) :
  0 <= rounds < W32 -> rounds <= Z.of_nat fuel ->
  SSSE3.SPECK128_Enc_Block fuel A rounds blocks <> Timeout.
Proof.
  intros Hr Hf. destruct blocks as [b0 b1]. unfold SSSE3.SPECK128_Enc_Block.
  rewrite size_t_small by (unfold W32, W64 in *; lia).
  apply bind_no_timeout; [| intros [x y]; discriminate].
  apply for_up_no_timeout; try (unfold W32, W64 in *; lia).
  intros j [x y]. unfold SSSE3.SPECK128_Enc_round.
  apply bind_no_timeout; [apply load_si128_no_timeout | intros rk; discriminate].
Qed.

Lemma NEON_SPECK128_Enc_Block_no_timeout (fuel : nat) (A : list Z) (rounds : Z)
    (blocks : vec * vec) :
  0 <= rounds < W32 -> rounds <= Z.of_nat fuel ->
  NEON.SPECK128_Enc_Block fuel A rounds blocks <> Timeout.
Proof.
  intros Hr Hf. destruct blocks as [b0 b1]. unfold NEON.SPECK128_Enc_Block.
  rewrite size_t_small by (unfold W32, W64 in *; lia).
  apply bind_no_timeout; [| intros [x y]; discriminate].
  apply for_up_no_timeout; try (unfold W32, W64 in *; lia).
  intros j [x y]. unfold NEON.SPECK128_Enc_round.
  apply bind_no_timeout; [apply vld1q_dup_no_timeout | intros rk; discriminate].
Qed.

Lemma SSSE3_SPECK128_Dec_Block_no_timeout (fuel : nat) (A : list Z) (rounds : Z)
    (blocks : vec * vec) :
  0 <= rounds < W32 -> rounds <= Z.of_nat fuel ->
  SSSE3.SPECK128_Dec_Block fuel A rounds blocks <> Timeout.
Proof.
  intros Hr Hf. destruct blocks as [b0 b1]. unfold SSSE3.SPECK128_Dec_Block.
  pose proof (to_int_uint_le rounds 1 Hr ltac:(lia)) as Hi.
  apply bind_no_timeout; [| intros [x y]; discriminate].
  apply for_down_no_timeout; try lia.
  intros j [x y]. unfold SSSE3.SPECK128_Dec_round.
  apply bind_no_timeout; [apply loaddup_no_timeout | intros rk; discriminate].
Qed.

Lemma NEON_SPECK128_Dec_Block_no_timeout (fuel : nat) (A : list Z) (rounds : Z)
    (blocks : vec * vec) :
  0 <= rounds < W32 -> rounds <= Z.of_nat fuel ->
  NEON.SPECK128_Dec_Block fuel A rounds blocks <> Timeout.
Proof.
  intros Hr Hf.
  rewrite <- (SPECK128_Dec_Block_backends fuel A rounds blocks).
  apply SSSE3_SPECK128_Dec_Block_no_timeout; assumption.
Qed.

Lemma SSSE3_SIMON128_Enc_Block_no_timeout (fuel : nat) (A : list Z) (rounds : Z)
    (blocks : vec * vec) :
  2 <= rounds < W32 -> rounds <= Z.of_nat fuel ->
  SSSE3.SIMON128_Enc_Block fuel A rounds blocks <> Timeout.
Proof.
  intros Hr Hf. destruct blocks as [b0 b1]. unfold SSSE3.SIMON128_Enc_Block.
  destruct (SIMON128_Enc_bound_small rounds Hr) as [E1 _]. rewrite E1.
  apply bind_no_timeout.
  - apply for_up_no_timeout;
      try (unfold W32, W64 in *; Z.div_mod_to_equations; lia).
    intros j [x y]. unfold SSSE3.SIMON128_Enc_round2.
    apply bind_no_timeout; [apply load_si128_no_timeout | intros rk1].
    apply bind_no_timeout; [apply load_si128_no_timeout | intros rk2; discriminate].
  - intros [x y]. apply bind_no_timeout; [| intros [x' y']; discriminate].
    unfold SSSE3.SIMON128_Enc_tail.
    destruct (Z.land rounds 1 =? 0); [discriminate |].
    apply bind_no_timeout; [apply load_si128_no_timeout | intros rk; discriminate].
Qed.

Lemma NEON_SIMON128_Enc_Block_no_timeout (fuel : nat) (A : list Z) (rounds : Z)
    (blocks : vec * vec) :
  2 <= rounds < W32 -> rounds <= Z.of_nat fuel ->
  NEON.SIMON128_Enc_Block fuel A rounds blocks <> Timeout.
Proof.
  intros Hr Hf. destruct blocks as [b0 b1]. unfold NEON.SIMON128_Enc_Block.
  destruct (SIMON128_Enc_bound_small rounds Hr) as [_ E2]. rewrite E2.
  apply bind_no_timeout.
  - apply for_up_no_timeout;
      try (unfold W32, W64 in *; Z.div_mod_to_equations; lia).
    intros j [x y]. unfold NEON.SIMON128_Enc_round2.
    apply bind_no_timeout; [apply vld1q_dup_no_timeout | intros rk1].
    apply bind_no_timeout; [apply vld1q_dup_no_timeout | intros rk2; discriminate].
  - intros [x y]. apply bind_no_timeout; [| intros [x' y']; discriminate].
    unfold NEON.SIMON128_Enc_tail.
    destruct (Z.land rounds 1 =? 0); [discriminate |].
    apply bind_no_timeout; [apply vld1q_dup_no_timeout | intros rk; discriminate].
Qed.

Lemma SSSE3_SIMON128_Dec_Block_no_timeout (fuel : nat) (A : list Z) (rounds : Z)
    (blocks : vec * vec) :
  0 <= rounds < W32 -> rounds <= Z.of_nat fuel ->
  SSSE3.SIMON128_Dec_Block fuel A rounds blocks <> Timeout.
Proof.
  intros Hr Hf. destruct blocks as [b0 b1].
  unfold SSSE3.SIMON128_Dec_Block, SSSE3.SIMON128_Dec_head.
  assert (Loop : forall q s, 0 <= q <= rounds ->
            (' (x1, y1) <- for_down fuel (to_int (uint (q - 2))) 2
                             (SSSE3.SIMON128_Dec_round2 A) s ;;
             Done (SSSE3._mm_unpacklo_epi64 y1 x1, SSSE3._mm_unpackhi_epi64 y1 x1))
            <> Timeout).
  { intros q s Hq.
    pose proof (to_int_uint_le q 2 ltac:(lia) ltac:(lia)) as Hi.
    apply bind_no_timeout; [| intros [x y]; discriminate].
    apply for_down_no_timeout; try lia.
    intros j [x y]. unfold SSSE3.SIMON128_Dec_round2.
    apply bind_no_timeout; [apply loaddup_no_timeout | intros rk1].
    apply bind_no_timeout; [apply loaddup_no_timeout | intros rk2; discriminate]. }
  destruct (Z.land rounds 1 =? 0) eqn:Ep.
  - cbn [bind]. apply Loop. lia.
  - destruct (Z.eq_dec rounds 0) as [-> | Hnz]; [discriminate Ep |].
    pose proof (loaddup_no_timeout A (rounds - 1)) as Hl.
    destruct (SSSE3._mm_loaddup_pd A (rounds - 1)) as [rk | |]; cbn [bind];
      [| discriminate | exfalso; exact (Hl eq_refl)].
    cbn [bind SSSE3.Swap128 fst snd].
    apply Loop. rewrite uint_small by lia. lia.
Qed.

Lemma NEON_SIMON128_Dec_Block_no_timeout (fuel : nat) (A : list Z) (rounds : Z)
    (blocks : vec * vec) :
  0 <= rounds < W32 -> rounds <= Z.of_nat fuel ->
  NEON.SIMON128_Dec_Block fuel A rounds blocks <> Timeout.
Proof.
  intros Hr Hf.
  rewrite <- (SIMON128_Dec_Block_backends fuel A rounds blocks).
  apply SSSE3_SIMON128_Dec_Block_no_timeout; assumption.
Qed.

(** ** The driver, block by block *)

Lemma store128_inside (m : memory) (p : Z) (v : vec) (i : Z) :
  0 <= i < 16 -> store128 m p v (p + i) = nth (Z.to_nat i) (to_bytes v) 0.
Proof.
  intros H. unfold store128.
  destruct (Z.leb_spec p (p + i)); [| lia].
  destruct (Z.ltb_spec (p + i) (p + 16)); [| lia].
  cbn [andb]. replace (p + i - p) with i by lia. reflexivity.
Qed.

Lemma load128_ext (m m' : memory) (p : Z) :
  (forall i, 0 <= i < 16 -> m (p + i) = m' (p + i)) -> load128 m p = load128 m' p.
Proof.
  intros H. unfold load128. cbn [map].
  rewrite !H by lia. reflexivity.
Qed.

Lemma load128_store128_apart (m : memory) (p q : Z) (v : vec) :
  apart q p -> load128 (store128 m q v) p = load128 m p.
Proof.
  intros H. apply load128_ext. intros i Hi.
  apply store128_outside. unfold apart in H. lia.
Qed.

Lemma store128_comm (m : memory) (p q : Z) (v w : vec) :
  apart p q ->
  store128 (store128 m p v) q w = store128 (store128 m q w) p v.
Proof.
  intros H. apply functional_extensionality. intros a. unfold store128, apart in *.
  destruct (Z.leb_spec q a), (Z.ltb_spec a (q + 16)),
           (Z.leb_spec p a), (Z.ltb_spec a (p + 16));
    cbn [andb]; try reflexivity; lia.
Qed.

Lemma byte_of_range (x i : Z) : 0 <= byte_of x i < 256.
Proof. unfold byte_of. apply Z.mod_pos_bound. lia. Qed.

Lemma to_bytes_nth (v : vec) (n : nat) : 0 <= nth n (to_bytes v) 0 < 256.
Proof.
  unfold to_bytes, bytes_of_lane. cbn [map app].
  do 16 (destruct n as [| n]; [cbn [nth]; apply byte_of_range |]).
  destruct n; cbn [nth]; lia.
Qed.

Lemma bytes_mem_store128 (m : memory) (p : Z) (v : vec) :
  bytes_mem m -> bytes_mem (store128 m p v).
Proof.
  intros H a. unfold store128.
  destruct ((p <=? a) && (a <? p + 16)); [apply to_bytes_nth | apply H].
Qed.

Lemma load128_wf (m : memory) (p : Z) : bytes_mem m -> wf_vec (load128 m p).
Proof.
  intros H. unfold load128. cbn [map].
  assert (B : forall i, 0 <= m (p + i) < 256) by (intros i; apply H).
  pose proof (B 0); pose proof (B 1); pose proof (B 2); pose proof (B 3);
  pose proof (B 4); pose proof (B 5); pose proof (B 6); pose proof (B 7);
  pose proof (B 8); pose proof (B 9); pose proof (B 10); pose proof (B 11);
  pose proof (B 12); pose proof (B 13); pose proof (B 14); pose proof (B 15).
  split; unfold in64, W64; cbn [lo hi lane_of_bytes]; lia.
Qed.

Section DriverBlocks.

Variable flags : flags_t.

Lemma stride_cases : stride flags = 0 \/ stride flags = 16 \/ stride flags = -16.
Proof.
  unfold stride. destruct (BT_DontIncrementInOutPointers flags);
    [| destruct (BT_ReverseDirection flags)]; auto.
Qed.

Lemma in_stride_counter : BT_InBlockIsCounter flags = true -> in_stride flags = 0.
Proof. intros H. unfold in_stride. rewrite H. reflexivity. Qed.

Lemma in_stride_plain : BT_InBlockIsCounter flags = false -> in_stride flags = stride flags.
Proof. intros H. unfold in_stride. rewrite H. reflexivity. Qed.

Lemma gather_S (k : nat) (m : memory) (p : Z) :
  gather flags (Datatypes.S k) m p
  = (load128 m p
       :: fst (gather flags k
                 (if BT_InBlockIsCounter flags
                  then store128 m p (counter_succ (load128 m p)) else m)
                 (p + in_stride flags)),
     snd (gather flags k
            (if BT_InBlockIsCounter flags
             then store128 m p (counter_succ (load128 m p)) else m)
            (p + in_stride flags))).
Proof.
  cbn [gather].
  destruct (gather flags k _ (p + in_stride flags)) as [bs m'']. reflexivity.
Qed.

(** [gather] writes the counter block only. *)
Lemma gather_outside (k : nat) (m : memory) (p a : Z) :
  BT_InBlockIsCounter flags = false \/ a < p \/ p + 16 <= a ->
  snd (gather flags k m p) a = m a.
Proof.
  revert m p. induction k as [| k IH]; intros m p H; [reflexivity |].
  rewrite gather_S. cbn [snd].
  destruct (BT_InBlockIsCounter flags) eqn:C.
  - rewrite IH by (rewrite (in_stride_counter C); right;
                   destruct H as [H | H]; [discriminate | lia]).
    apply store128_outside. destruct H as [H | H]; [discriminate | lia].
  - apply IH. left. reflexivity.
Qed.

Lemma gather_load_elsewhere (k : nat) (m : memory) (p q : Z) :
  BT_InBlockIsCounter flags = false \/ apart p q ->
  load128 (snd (gather flags k m p)) q = load128 m q.
Proof.
  intros H. apply load128_ext. intros i Hi. apply gather_outside.
  destruct H as [H | H]; [left; exact H | right; unfold apart in H; lia].
Qed.

(** A store into a block that [gather] does not touch can wait. *)
Lemma gather_store (k : nat) (m : memory) (p q : Z) (v : vec) :
  (forall j, 0 <= j < Z.of_nat k -> apart q (p + j * in_stride flags)) ->
  gather flags k (store128 m q v) p
  = (fst (gather flags k m p), store128 (snd (gather flags k m p)) q v).
Proof.
  revert m p. induction k as [| k IH]; intros m p H; [reflexivity |].
  rewrite !gather_S.
  assert (H0 : apart q p).
  { specialize (H 0 ltac:(lia)). replace (p + 0 * in_stride flags) with p in H by lia.
    exact H. }
  assert (HS : forall j, 0 <= j < Z.of_nat k ->
                 apart q (p + in_stride flags + j * in_stride flags)).
  { intros j Hj. specialize (H (j + 1) ltac:(lia)).
    replace (p + (j + 1) * in_stride flags)
      with (p + in_stride flags + j * in_stride flags) in H by lia.
    exact H. }
  rewrite (load128_store128_apart m p q v H0).
  destruct (BT_InBlockIsCounter flags).
  - rewrite (store128_comm m q p v (counter_succ (load128 m p)) H0).
    rewrite (IH _ _ HS). reflexivity.
  - rewrite (IH _ _ HS). reflexivity.
Qed.

Lemma xor_with_ext (m m' : memory) (bs : list vec) :
  forall xp,
    (forall j, 0 <= j < Z.of_nat (length bs) ->
       load128 m (xp + j * stride flags) = load128 m' (xp + j * stride flags)) ->
    xor_with flags m xp bs = xor_with flags m' xp bs.
Proof.
  induction bs as [| b r IH]; intros xp H; [reflexivity |].
  cbn [xor_with]. cbn [length] in H. f_equal.
  - f_equal. specialize (H 0 ltac:(lia)).
    replace (xp + 0 * stride flags) with xp in H by lia. exact H.
  - apply IH. intros j Hj. specialize (H (j + 1) ltac:(lia)).
    replace (xp + (j + 1) * stride flags)
      with (xp + stride flags + j * stride flags) in H by lia.
    exact H.
Qed.

(** [scatter] writes its blocks only. *)
Lemma scatter_outside_blocks (bs : list vec) :
  forall (m : memory) (p a : Z),
    (forall j, 0 <= j < Z.of_nat (length bs) ->
       a < p + j * stride flags \/ p + j * stride flags + 16 <= a) ->
    scatter flags m p bs a = m a.
Proof.
  induction bs as [| b r IH]; intros m p a H; [reflexivity |].
  cbn [scatter]. cbn [length] in H. rewrite IH.
  - apply store128_outside. specialize (H 0 ltac:(lia)). lia.
  - intros j Hj. specialize (H (j + 1) ltac:(lia)). lia.
Qed.

Lemma bytes_mem_gather (k : nat) (m : memory) (p : Z) :
  bytes_mem m ->
  Forall wf_vec (fst (gather flags k m p)) /\ bytes_mem (snd (gather flags k m p)).
Proof.
  revert m p. induction k as [| k IH]; intros m p H.
  - split; [constructor | exact H].
  - rewrite gather_S. cbn [fst snd].
    assert (H' : bytes_mem (if BT_InBlockIsCounter flags
                            then store128 m p (counter_succ (load128 m p)) else m)).
    { destruct (BT_InBlockIsCounter flags); [apply bytes_mem_store128 |]; exact H. }
    destruct (IH _ (p + in_stride flags) H') as [F B].
    split; [constructor; [apply load128_wf; exact H | exact F] | exact B].
Qed.

Lemma xor_with_wf (m : memory) (bs : list vec) :
  bytes_mem m -> Forall wf_vec bs -> forall xp, Forall wf_vec (xor_with flags m xp bs).
Proof.
  intros H F. induction F as [| b r Hb Hr IH]; intros xp; cbn [xor_with];
    constructor.
  - apply wf_lxor; [exact Hb | apply load128_wf; exact H].
  - apply IH.
Qed.

Lemma bytes_mem_scatter (bs : list vec) :
  forall (m : memory) (p : Z), bytes_mem m -> bytes_mem (scatter flags m p bs).
Proof.
  induction bs as [| b r IH]; intros m p H; [exact H |].
  cbn [scatter]. apply IH. apply bytes_mem_store128. exact H.
Qed.

End DriverBlocks.

Section DriverSteps.

Variable f : vec -> vec.
Variable flags : flags_t.

Lemma process_with_eq (n : nat) (st : driver_state) :
  process_with f flags n st
  = mkstate
      (scatter flags (snd (gather flags n (mem st) (inBlocks st))) (outBlocks st)
         (match xorBlocks st with
          | Some xp =>
              if BT_XorInput flags
              then map f (xor_with flags (snd (gather flags n (mem st) (inBlocks st)))
                            xp (fst (gather flags n (mem st) (inBlocks st))))
              else xor_with flags (snd (gather flags n (mem st) (inBlocks st)))
                     xp (map f (fst (gather flags n (mem st) (inBlocks st))))
          | None => map f (fst (gather flags n (mem st) (inBlocks st)))
          end))
      (inBlocks st + Z.of_nat n * in_stride flags)
      (option_map (fun xp => xp + Z.of_nat n * stride flags) (xorBlocks st))
      (outBlocks st + Z.of_nat n * stride flags)
      (length_left st - 16 * Z.of_nat n).
Proof.
  unfold process_with.
  destruct (gather flags n (mem st) (inBlocks st)) as [bs m1]. cbn [fst snd].
  destruct (xorBlocks st); [destruct (BT_XorInput flags) |]; reflexivity.
Qed.

Lemma no_clobber_le (n k : Z) (inp : Z) (xorp : option Z) (outp : Z) :
  k <= n -> no_clobber flags n inp xorp outp -> no_clobber flags k inp xorp outp.
Proof.
  intros Hk [H1 H2]. split.
  - intros j j' Hj Hj'. apply H1; lia.
  - intros xp E. destruct (H2 xp E) as [H3 H4]. split.
    + intros j j' Hj Hj'. apply H3; lia.
    + intros C j Hj. apply H4; [exact C | lia].
Qed.

Lemma no_clobber_step (k : nat) (inp : Z) (xorp : option Z) (outp : Z) :
  no_clobber flags (Z.of_nat (Datatypes.S k)) inp xorp outp ->
  no_clobber flags (Z.of_nat k) (inp + in_stride flags)
    (option_map (fun xp => xp + stride flags) xorp) (outp + stride flags).
Proof.
  intros [H1 H2]. split.
  - intros j j' Hj Hj'. specialize (H1 (j + 1) (j' + 1) ltac:(lia) ltac:(lia)).
    unfold apart in *. lia.
  - intros xp E. destruct xorp as [xp0 |]; [| discriminate].
    cbn [option_map] in E. injection E as <-.
    destruct (H2 xp0 eq_refl) as [H3 H4]. split.
    + intros j j' Hj Hj'. specialize (H3 (j + 1) (j' + 1) ltac:(lia) ltac:(lia)).
      unfold apart in *. lia.
    + intros C j Hj. specialize (H4 C (j + 1) ltac:(lia)).
      rewrite (in_stride_counter flags C). unfold apart in *. lia.
Qed.

(** The first block of an iteration can be taken on its own. *)
Lemma process_with_S (k : nat) (st : driver_state) :
  no_clobber flags (Z.of_nat (Datatypes.S k)) (inBlocks st) (xorBlocks st) (outBlocks st) ->
  process_with f flags (Datatypes.S k) st = process_with f flags k (process_block f flags st).
Proof.
  intros [H1 H2]. destruct st as [m p x o l]. cbn [mem inBlocks xorBlocks outBlocks] in *.
  rewrite !process_with_eq. unfold process_block.
  cbn [mem inBlocks xorBlocks outBlocks length_left].
  rewrite gather_S. cbn [fst snd].
  set (b := load128 m p).
  set (m1 := if BT_InBlockIsCounter flags then store128 m p (counter_succ b) else m).
  set (G := gather flags k m1 (p + in_stride flags)).
  assert (HG : forall c, gather flags k (store128 m1 o c) (p + in_stride flags)
                         = (fst G, store128 (snd G) o c)).
  { intros c. apply gather_store. intros j Hj.
    specialize (H1 0 (j + 1) ltac:(lia) ltac:(lia)). unfold apart in *. lia. }
  assert (HL : length (fst G) = k) by apply gather_length.
  assert (HP : p + Z.of_nat (Datatypes.S k) * in_stride flags
               = p + in_stride flags + Z.of_nat k * in_stride flags) by lia.
  assert (HO : o + Z.of_nat (Datatypes.S k) * stride flags
               = o + stride flags + Z.of_nat k * stride flags) by lia.
  assert (HLn : l - 16 * Z.of_nat (Datatypes.S k) = l - 16 - 16 * Z.of_nat k) by lia.
  rewrite HP, HO, HLn.
  destruct x as [xp |].
  - destruct (H2 xp eq_refl) as [H3 H4].
    assert (HX : load128 (snd G) xp = load128 m1 xp).
    { unfold G. apply gather_load_elsewhere.
      destruct (BT_InBlockIsCounter flags) eqn:C; [right | left; reflexivity].
      rewrite (in_stride_counter flags C).
      specialize (H4 eq_refl 0 ltac:(lia)). unfold apart in *. lia. }
    assert (HE : forall c bs, length bs = k ->
                   xor_with flags (store128 (snd G) o c) (xp + stride flags) bs
                   = xor_with flags (snd G) (xp + stride flags) bs).
    { intros c bs Hbs. apply xor_with_ext. intros j Hj.
      apply load128_store128_apart.
      specialize (H3 0 (j + 1) ltac:(lia) ltac:(lia)). unfold apart in *. lia. }
    assert (HXp : xp + Z.of_nat (Datatypes.S k) * stride flags
                  = xp + stride flags + Z.of_nat k * stride flags) by lia.
    cbn [option_map]. rewrite HXp.
    destruct (BT_XorInput flags).
    + rewrite HG. cbn [fst snd xor_with map scatter].
      rewrite HX, (HE _ (fst G) HL). reflexivity.
    + rewrite HG. cbn [fst snd xor_with map scatter].
      rewrite HX, (HE _ (map f (fst G))) by (rewrite length_map; exact HL).
      reflexivity.
  - rewrite HG. cbn [fst snd option_map map scatter]. reflexivity.
Qed.

Lemma process_with_O (st : driver_state) : process_with f flags 0 st = st.
Proof.
  rewrite process_with_eq. destruct st as [m p x o l].
  cbn [mem inBlocks xorBlocks outBlocks length_left gather fst snd map xor_with scatter].
  assert (E : option_map (fun xp => xp + Z.of_nat 0 * stride flags) x = x).
  { destruct x as [xp |]; cbn [option_map]; [f_equal; lia | reflexivity]. }
  rewrite E.
  replace (p + Z.of_nat 0 * in_stride flags) with p by lia.
  replace (o + Z.of_nat 0 * stride flags) with o by lia.
  replace (l - 16 * Z.of_nat 0) with l by lia.
  destruct x; [destruct (BT_XorInput flags) |]; reflexivity.
Qed.

(** An iteration on [k] blocks is [k] blocks one after the other. *)
Lemma process_with_blocks (k : nat) :
  forall st,
    no_clobber flags (Z.of_nat k) (inBlocks st) (xorBlocks st) (outBlocks st) ->
    process_with f flags k st = process_blocks f flags k st.
Proof.
  induction k as [| k IH]; intros st H.
  - apply process_with_O.
  - rewrite (process_with_S k st H). cbn [process_blocks]. apply IH.
    apply (no_clobber_step k _ _ _ H).
Qed.

Lemma process_blocks_add (a b : nat) (st : driver_state) :
  process_blocks f flags (a + b) st = process_blocks f flags b (process_blocks f flags a st).
Proof.
  revert st. induction a as [| a IH]; intros st; [reflexivity |].
  cbn [Nat.add process_blocks]. apply IH.
Qed.

Lemma no_clobber_blocks (t k : nat) (st : driver_state) :
  no_clobber flags (Z.of_nat (t + k)) (inBlocks st) (xorBlocks st) (outBlocks st) ->
  no_clobber flags (Z.of_nat k)
    (inBlocks (process_blocks f flags t st)) (xorBlocks (process_blocks f flags t st))
    (outBlocks (process_blocks f flags t st)).
Proof.
  revert st. induction t as [| t IH]; intros st H; [exact H |].
  cbn [process_blocks]. apply IH.
  apply (no_clobber_step (t + k) _ _ _ H).
Qed.

Lemma bytes_mem_process_with (n : nat) (st : driver_state) :
  bytes_mem (mem st) -> bytes_mem (mem (process_with f flags n st)).
Proof.
  intros H. rewrite process_with_eq. cbn [mem].
  apply bytes_mem_scatter. apply (bytes_mem_gather flags n _ _ H).
Qed.

(** What [n] blocks leave outside the blocks they write. *)
Lemma process_blocks_outside (n : nat) :
  forall st a,
    (forall j, 0 <= j < Z.of_nat n ->
       a < outBlocks st + j * stride flags \/ outBlocks st + j * stride flags + 16 <= a) ->
    (BT_InBlockIsCounter flags = true -> a < inBlocks st \/ inBlocks st + 16 <= a) ->
    mem (process_blocks f flags n st) a = mem st a.
Proof.
  induction n as [| n IH]; intros st a Ho Hc; [reflexivity |].
  cbn [process_blocks]. rewrite IH.
  - unfold process_block. cbn [mem].
    rewrite store128_outside by (specialize (Ho 0 ltac:(lia)); lia).
    destruct (BT_InBlockIsCounter flags); [| reflexivity].
    apply store128_outside. apply Hc. reflexivity.
  - intros j Hj. unfold process_block. cbn [outBlocks].
    specialize (Ho (j + 1) ltac:(lia)). lia.
  - intros C. unfold process_block. cbn [inBlocks].
    rewrite (in_stride_counter flags C). specialize (Hc C). lia.
Qed.

Lemma block_result_step (m : memory) (inp : Z) (xorp : option Z) (outp : Z) (c : vec) (j : Z) :
  apart outp (inp + (j + 1) * in_stride flags) ->
  (forall xp, xorp = Some xp -> apart outp (xp + (j + 1) * stride flags)) ->
  block_result f flags (store128 m outp c) (inp + in_stride flags)
    (option_map (fun xp => xp + stride flags) xorp) j
  = block_result f flags m inp xorp (j + 1).
Proof.
  intros Hi Hx. unfold block_result.
  replace (inp + in_stride flags + j * in_stride flags)
    with (inp + (j + 1) * in_stride flags) by lia.
  rewrite (load128_store128_apart m _ outp c Hi).
  destruct xorp as [xp |]; [| reflexivity]. cbn [option_map].
  replace (xp + stride flags + j * stride flags)
    with (xp + (j + 1) * stride flags) by lia.
  rewrite (load128_store128_apart m _ outp c (Hx xp eq_refl)). reflexivity.
Qed.

Lemma process_block_plain (st : driver_state) :
  BT_InBlockIsCounter flags = false ->
  process_block f flags st
  = mkstate (store128 (mem st) (outBlocks st)
               (block_result f flags (mem st) (inBlocks st) (xorBlocks st) 0))
            (inBlocks st + in_stride flags)
            (option_map (fun xp => xp + stride flags) (xorBlocks st))
            (outBlocks st + stride flags)
            (length_left st - 16).
Proof.
  intros C. unfold process_block, block_result. rewrite C.
  replace (inBlocks st + 0 * in_stride flags) with (inBlocks st) by lia.
  destruct (xorBlocks st) as [xp |]; [| reflexivity].
  replace (xp + 0 * stride flags) with xp by lia.
  destruct (BT_XorInput flags); reflexivity.
Qed.

(** Without a counter, output block [j] holds the result for block [j] of
    the memory before the run. *)
Lemma process_blocks_content (n : nat) :
  BT_InBlockIsCounter flags = false ->
  forall st j i,
    no_clobber flags (Z.of_nat n) (inBlocks st) (xorBlocks st) (outBlocks st) ->
    0 <= j < Z.of_nat n -> 0 <= i < 16 ->
    mem (process_blocks f flags n st) (outBlocks st + j * stride flags + i)
    = nth (Z.to_nat i)
        (to_bytes (block_result f flags (mem st) (inBlocks st) (xorBlocks st) j)) 0.
Proof.
  intros C. induction n as [| n IH]; intros st j i H Hj Hi; [lia |].
  pose proof (no_clobber_step n _ _ _ H) as H'.
  destruct H as [H1 H2].
  cbn [process_blocks]. rewrite (process_block_plain st C).
  destruct (Z.eq_dec j 0) as [-> | Hj0].
  - replace (outBlocks st + 0 * stride flags + i) with (outBlocks st + i) by lia.
    destruct (Z.eq_dec (stride flags) 0) as [Hs | Hs].
    + destruct n as [| n].
      * cbn [process_blocks mem]. apply store128_inside. exact Hi.
      * specialize (IH (mkstate (store128 (mem st) (outBlocks st)
                                  (block_result f flags (mem st) (inBlocks st) (xorBlocks st) 0))
                                (inBlocks st + in_stride flags)
                                (option_map (fun xp => xp + stride flags) (xorBlocks st))
                                (outBlocks st + stride flags)
                                (length_left st - 16)) 0 i).
        cbn [mem inBlocks xorBlocks outBlocks] in IH.
        replace (outBlocks st + stride flags + 0 * stride flags + i)
          with (outBlocks st + i) in IH by lia.
        rewrite IH; [| exact H' | lia | exact Hi].
        rewrite block_result_step.
        -- unfold block_result. rewrite (in_stride_plain flags C), Hs.
           replace (inBlocks st + (0 + 1) * 0) with (inBlocks st + 0 * 0) by lia.
           destruct (xorBlocks st) as [xp |]; [| reflexivity].
           replace (xp + (0 + 1) * 0) with (xp + 0 * 0) by lia. reflexivity.
        -- specialize (H1 0 1 ltac:(lia) ltac:(lia)). unfold apart in *. lia.
        -- intros xp E. destruct (H2 xp E) as [H3 _].
           specialize (H3 0 1 ltac:(lia) ltac:(lia)). unfold apart in *. lia.
    + rewrite process_blocks_outside.
      * cbn [mem]. apply store128_inside. exact Hi.
      * intros j' Hj'. cbn [outBlocks].
        destruct (stride_cases flags) as [E | [E | E]]; [lia | |]; rewrite E; lia.
      * intros C'. congruence.
  - specialize (IH (mkstate (store128 (mem st) (outBlocks st)
                              (block_result f flags (mem st) (inBlocks st) (xorBlocks st) 0))
                            (inBlocks st + in_stride flags)
                            (option_map (fun xp => xp + stride flags) (xorBlocks st))
                            (outBlocks st + stride flags)
                            (length_left st - 16)) (j - 1) i).
    cbn [mem inBlocks xorBlocks outBlocks] in IH.
    replace (outBlocks st + stride flags + (j - 1) * stride flags + i)
      with (outBlocks st + j * stride flags + i) in IH by lia.
    rewrite IH; [| exact H' | lia | exact Hi].
    rewrite block_result_step.
    + replace (j - 1 + 1) with j by lia. reflexivity.
    + specialize (H1 0 j ltac:(lia) ltac:(lia)).
      replace (j - 1 + 1) with j by lia. unfold apart in *. lia.
    + intros xp E. destruct (H2 xp E) as [H3 _].
      specialize (H3 0 j ltac:(lia) ltac:(lia)).
      replace (j - 1 + 1) with j by lia. unfold apart in *. lia.
Qed.

End DriverSteps.

Section DriverRefines.

Variable func2 : list Z -> Z -> vec * vec -> outcome (vec * vec).
Variable func6 : list Z -> Z -> vec * vec * vec * vec * vec * vec
                 -> outcome (vec * vec * vec * vec * vec * vec).
Variable subKeys : list Z.
Variable rounds : Z.
Variable flags : flags_t.
Variable f : vec -> vec.

Hypothesis func2_blocks : forall b0 b1, wf_vec b0 -> wf_vec b1 ->
  func2 subKeys (uint rounds) (b0, b1) = Done (f b0, f b1).
Hypothesis func6_blocks : forall b0 b1 b2 b3 b4 b5,
  wf_vec b0 -> wf_vec b1 -> wf_vec b2 -> wf_vec b3 -> wf_vec b4 -> wf_vec b5 ->
  func6 subKeys (uint rounds) (b0, b1, b2, b3, b4, b5)
  = Done (f b0, f b1, f b2, f b3, f b4, f b5).

Lemma run_kernel_blocks (bs : list vec) :
  Forall wf_vec bs ->
  length bs = 6%nat \/ length bs = 2%nat \/ length bs = 1%nat ->
  run_kernel func2 func6 subKeys rounds bs = Done (map f bs).
Proof.
  intros F Hn. destruct Hn as [Hn | [Hn | Hn]].
  - destruct bs as [| b0 [| b1 [| b2 [| b3 [| b4 [| b5 [| b6 r]]]]]]]; try discriminate.
    inversion F as [| ? ? W0 F0]; subst. inversion F0 as [| ? ? W1 F1]; subst.
    inversion F1 as [| ? ? W2 F2]; subst. inversion F2 as [| ? ? W3 F3]; subst.
    inversion F3 as [| ? ? W4 F4]; subst. inversion F4 as [| ? ? W5 F5]; subst.
    unfold run_kernel. rewrite (func6_blocks b0 b1 b2 b3 b4 b5 W0 W1 W2 W3 W4 W5).
    reflexivity.
  - destruct bs as [| b0 [| b1 [| b2 r]]]; try discriminate.
    inversion F as [| ? ? W0 F0]; subst. inversion F0 as [| ? ? W1 F1]; subst.
    unfold run_kernel. rewrite (func2_blocks b0 b1 W0 W1). reflexivity.
  - destruct bs as [| b0 [| b1 r]]; try discriminate.
    inversion F as [| ? ? W0 F0]; subst.
    assert (Wz : wf_vec (mkvec 0 0)) by (split; unfold in64, W64; simpl; lia).
    unfold run_kernel. rewrite (func2_blocks b0 (mkvec 0 0) W0 Wz). reflexivity.
Qed.

(** On a memory of bytes an iteration of the driver is the iteration with
    [f] in the place of the kernel. *)
Lemma process_blockwise (n : nat) (st : driver_state) :
  n = 6%nat \/ n = 2%nat \/ n = 1%nat -> bytes_mem (mem st) ->
  process func2 func6 subKeys rounds flags n st = Done (process_with f flags n st).
Proof.
  intros Hn Hm. unfold process, process_with.
  pose proof (gather_length flags n (mem st) (inBlocks st)) as Hl.
  destruct (bytes_mem_gather flags n (mem st) (inBlocks st) Hm) as [F B].
  destruct (gather flags n (mem st) (inBlocks st)) as [bs m1]. cbn [fst snd] in *.
  rewrite run_kernel_blocks.
  - reflexivity.
  - destruct (xorBlocks st); [destruct (BT_XorInput flags) |]; try exact F.
    apply xor_with_wf; assumption.
  - destruct (xorBlocks st); [destruct (BT_XorInput flags) |];
      rewrite ?xor_with_length, Hl; exact Hn.
Qed.

Hypothesis func2_total : forall b, exists r, func2 subKeys (uint rounds) b = Done r.
Hypothesis func6_total : forall b, exists r, func6 subKeys (uint rounds) b = Done r.

(** The loops of the driver leave what the blocks, one after the other,
    leave. *)
Lemma driver_loops_blocks (fuel : nat) (st : driver_state) :
  0 <= length_left st -> (Z.to_nat (length_left st / 16) <= fuel)%nat ->
  bytes_mem (mem st) ->
  no_clobber flags (length_left st / 16) (inBlocks st) (xorBlocks st) (outBlocks st) ->
  driver_loops func2 func6 subKeys rounds flags fuel st
  = Done (process_blocks f flags (Z.to_nat (length_left st / 16)) st).
Proof.
  intros Hl Hf Hm Hc.
  destruct (driver_loops_run func2 func6 subKeys rounds flags func2_total func6_total
              (fun s => exists t : nat,
                   s = process_blocks f flags t st
                   /\ length_left s = length_left st - 16 * Z.of_nat t
                   /\ bytes_mem (mem s))
              fuel st) as (st' & E & El & (t & Et & Elt & _)).
  - intros n s Hn (t & Et & Elt & Hb) Hle s' Es.
    rewrite (process_blockwise n s Hn Hb) in Es. apply Done_inj in Es. subst s'.
    exists (t + n)%nat.
    assert (Hk : no_clobber flags (Z.of_nat n) (inBlocks s) (xorBlocks s) (outBlocks s)).
    { rewrite Et. apply no_clobber_blocks.
      apply (no_clobber_le flags (length_left st / 16)); [| exact Hc].
      apply Z.div_le_lower_bound; lia. }
    split; [| split].
    + rewrite (process_with_blocks f flags n s Hk), Et. symmetry. apply process_blocks_add.
    + rewrite process_with_eq. cbn [length_left]. lia.
    + apply bytes_mem_process_with. exact Hb.
  - exists 0%nat. split; [reflexivity |]. split; [lia | exact Hm].
  - exact Hl.
  - exact Hf.
  - rewrite E. f_equal. rewrite Et. f_equal.
    rewrite El in Elt. Z.div_mod_to_equations. lia.
Qed.

End DriverRefines.

Section DriverFrame.

Variable func2 : list Z -> Z -> vec * vec -> outcome (vec * vec).
Variable func6 : list Z -> Z -> vec * vec * vec * vec * vec * vec
                 -> outcome (vec * vec * vec * vec * vec * vec).
Variable subKeys : list Z.
Variable rounds : Z.
Variable flags : flags_t.

Hypothesis func2_total : forall b, exists r, func2 subKeys (uint rounds) b = Done r.
Hypothesis func6_total : forall b, exists r, func6 subKeys (uint rounds) b = Done r.

(** The loops return, consume the whole blocks, and write only the output
    blocks of these and the counter block. *)
Lemma driver_loops_frame (fuel : nat) (st : driver_state) :
  0 <= length_left st -> (Z.to_nat (length_left st / 16) <= fuel)%nat ->
  exists st',
    driver_loops func2 func6 subKeys rounds flags fuel st = Done st'
    /\ length_left st' = length_left st mod 16
    /\ forall a,
         (forall j, 0 <= j < length_left st / 16 ->
            a < outBlocks st + j * stride flags
            \/ outBlocks st + j * stride flags + 16 <= a) ->
         (BT_InBlockIsCounter flags = true -> a < inBlocks st \/ inBlocks st + 16 <= a) ->
         mem st' a = mem st a.
Proof.
  intros Hl Hf.
  destruct (driver_loops_run func2 func6 subKeys rounds flags func2_total func6_total
              (fun s => exists t : Z,
                   0 <= t
                   /\ length_left s = length_left st - 16 * t
                   /\ outBlocks s = outBlocks st + t * stride flags
                   /\ inBlocks s = inBlocks st + t * in_stride flags
                   /\ forall a,
                        (forall j, 0 <= j < t ->
                           a < outBlocks st + j * stride flags
                           \/ outBlocks st + j * stride flags + 16 <= a) ->
                        (BT_InBlockIsCounter flags = true ->
                         a < inBlocks st \/ inBlocks st + 16 <= a) ->
                        mem s a = mem st a)
              fuel st) as (st' & E & El & (t & Ht & Elt & _ & _ & Hfr)).
  - intros n s Hn (t & Ht & Elt & Eo & Ei & Hfr) Hle s' Es.
    destruct (process_total func2 func6 subKeys rounds flags func2_total func6_total
                n s Hn) as (out & Hout & Ep).
    rewrite Ep in Es. apply Done_inj in Es. subst s'.
    exists (t + Z.of_nat n).
    cbn [mem inBlocks outBlocks length_left].
    split; [lia |]. split; [lia |]. split; [lia |]. split; [lia |].
    intros a Ho Hc.
    rewrite scatter_outside_blocks.
    + rewrite gather_outside.
      * apply Hfr; [| exact Hc]. intros j Hj. apply Ho. lia.
      * destruct (BT_InBlockIsCounter flags) eqn:C; [right | left; reflexivity].
        rewrite Ei, (in_stride_counter flags C). specialize (Hc eq_refl). lia.
    + intros j Hj. rewrite Hout in Hj. rewrite Eo.
      specialize (Ho (t + j) ltac:(lia)). lia.
  - exists 0. repeat split; lia.
  - exact Hl.
  - exact Hf.
  - exists st'. split; [exact E |]. split; [exact El |].
    intros a Ho Hc. apply Hfr; [| exact Hc].
    intros j Hj. apply Ho. rewrite El in Elt. Z.div_mod_to_equations. lia.
Qed.

End DriverFrame.
(** ** The claims *)

(** C1.  Round trip.  For every schedule [K] of 64-bit round keys with a
    round count that fits the kernels' [int] loop counter (at least one round
    for SPECK-128, at least two for SIMON-128; the counts 32, 33, 34 and
    68, 69, 72 of the interface are of this kind) and every pair of 128-bit blocks,
    running the decryption kernel on the output of the encryption kernel
    returns the blocks, on the SSSE3 kernels (pre-splatted keys to encrypt,
    scalar keys to decrypt) and on the NEON kernels alike, as soon as the
    fuel covers the loop iterations. *)
Theorem C1_roundtrip (K : list Z) (fuel : nat) (blocks : vec * vec) :
  Forall in64 K -> wf_pair blocks ->
  1 <= Z.of_nat (length K) < 2 ^ 31 -> (length K <= fuel)%nat ->
  bind (SSSE3.SPECK128_Enc_Block fuel (splat K) (Z.of_nat (length K)) blocks)
       (SSSE3.SPECK128_Dec_Block fuel K (Z.of_nat (length K))) = Done blocks
  /\ bind (NEON.SPECK128_Enc_Block fuel K (Z.of_nat (length K)) blocks)
          (NEON.SPECK128_Dec_Block fuel K (Z.of_nat (length K))) = Done blocks
  /\ (2 <= Z.of_nat (length K) ->
      bind (SSSE3.SIMON128_Enc_Block fuel (splat K) (Z.of_nat (length K)) blocks)
           (SSSE3.SIMON128_Dec_Block fuel K (Z.of_nat (length K))) = Done blocks
      /\ bind (NEON.SIMON128_Enc_Block fuel K (Z.of_nat (length K)) blocks)
              (NEON.SIMON128_Dec_Block fuel K (Z.of_nat (length K))) = Done blocks).
Proof.
  intros HK Hb Hlen Hfuel.
  split; [apply SSSE3_SPECK128_roundtrip; assumption || lia |].
  split; [apply NEON_SPECK128_roundtrip; assumption || lia |].
  intros H2. pose proof (half_le _ _ Hfuel).
  split; [apply SSSE3_SIMON128_roundtrip | apply NEON_SIMON128_roundtrip];
    assumption || lia.
Qed.

Lemma C1_roundtrip_witness :
  let K := [3; 1; 4; 1; 5] in
  let blocks := (mkvec 6 7, mkvec 8 9) in
  bind (SSSE3.SPECK128_Enc_Block 5 (splat K) (Z.of_nat (length K)) blocks)
       (SSSE3.SPECK128_Dec_Block 5 K (Z.of_nat (length K))) = Done blocks
  /\ bind (NEON.SPECK128_Enc_Block 5 K (Z.of_nat (length K)) blocks)
          (NEON.SPECK128_Dec_Block 5 K (Z.of_nat (length K))) = Done blocks
  /\ bind (SSSE3.SIMON128_Enc_Block 5 (splat K) (Z.of_nat (length K)) blocks)
          (SSSE3.SIMON128_Dec_Block 5 K (Z.of_nat (length K))) = Done blocks
  /\ bind (NEON.SIMON128_Enc_Block 5 K (Z.of_nat (length K)) blocks)
          (NEON.SIMON128_Dec_Block 5 K (Z.of_nat (length K))) = Done blocks.
Proof.
  intros K blocks.
  assert (HK : Forall in64 K) by (repeat constructor; unfold W64; lia).
  assert (Hb : wf_pair blocks) by (repeat split; simpl; unfold W64; lia).
  assert (Hlen : 1 <= Z.of_nat (length K) < 2 ^ 31) by (simpl; lia).
  assert (Hfuel : (length K <= 5)%nat) by (simpl; lia).
  assert (H2 : 2 <= Z.of_nat (length K)) by (simpl; lia).
  destruct (C1_roundtrip K 5 blocks HK Hb Hlen Hfuel) as (E1 & E2 & E3).
  destruct (E3 H2) as [E4 E5].
  split; [exact E1 | split; [exact E2 | split; [exact E4 | exact E5]]].
Defined.

(** C2.  SPECK-128/128 test vector.  With the 32-round schedule of key
    [0f0e0d0c0b0a0908 0706050403020100], encrypting the block
    [X = 6c61766975716520], [Y = 7469206564616d20] gives
    [X = a65d985179783265], [Y = 7860fedf5c570d18]: in the first slot of the
    2-block kernel (the second slot holding a zero block), on the SSSE3
    kernel with the pre-splatted schedule and on the NEON kernel, and in
    all six slots of the 6-block kernel. *)
Theorem C2_speck128_128_vector :
  let K := speck128_128_test_schedule in
  let pt := block_of 0x6c61766975716520 0x7469206564616d20 in
  let ct := block_of 0xa65d985179783265 0x7860fedf5c570d18 in
  (r <- SSSE3.SPECK128_Enc_Block 32 (splat K) 32 (pt, mkvec 0 0) ;; Done (fst r))
    = Done ct
  /\ (r <- NEON.SPECK128_Enc_Block 32 K 32 (pt, mkvec 0 0) ;; Done (fst r))
    = Done ct
  /\ SSSE3.SPECK128_Enc_6_Blocks 32 (splat K) 32 (pt, pt, pt, pt, pt, pt)
    = Done (ct, ct, ct, ct, ct, ct).
Proof. repeat split; vm_compute; reflexivity. Qed.

(** C3.  SPECK-128 round.  With round key [k = k[i]], one iteration of the
    encryption loop computes [x <- (rotr64<8>(x) + y) xor k] and then
    [y <- rotl64<3>(y) xor x] on each lane, and one iteration of the
    decryption loop computes [y <- rotr64<3>(y xor x)] and then
    [x <- rotl64<8>((x xor k) - y)], with addition and subtraction modulo
    2^64; the encryption kernel applies its iterations for [i = 0] up to
    [rounds - 1], and the decryption kernel applies its iterations for
    [i = rounds - 1] down to [0]. *)
Theorem C3_speck_round (K : list Z) (i : nat) (k : Z) (s : vec * vec) (fuel : nat) :
  nth_error K i = Some k -> wf_pair s ->
  Forall in64 K -> Z.of_nat (length K) <= 2 ^ 31 -> (length K <= fuel)%nat ->
  (SSSE3.SPECK128_Enc_round (splat K) (Z.of_nat i) s
     = Done (on_lanes (speck_enc_round k) s)
   /\ NEON.SPECK128_Enc_round K (Z.of_nat i) s
     = Done (on_lanes (speck_enc_round k) s))
  /\ (SSSE3.SPECK128_Dec_round K (Z.of_nat i) s
        = Done (on_lanes (speck_dec_round k) s)
      /\ NEON.SPECK128_Dec_round K (Z.of_nat i) s
        = Done (on_lanes (speck_dec_round k) s))
  /\ (SSSE3.SPECK128_Enc_Block fuel (splat K) (Z.of_nat (length K)) s
        = Done (SSSE3.detranspose
                  (fold_left (fun s k => on_lanes (speck_enc_round k) s)
                     K (SSSE3.transpose s)))
      /\ NEON.SPECK128_Enc_Block fuel K (Z.of_nat (length K)) s
        = Done (NEON.detranspose
                  (fold_left (fun s k => on_lanes (speck_enc_round k) s)
                     K (NEON.transpose s))))
  /\ (SSSE3.SPECK128_Dec_Block fuel K (Z.of_nat (length K)) s
        = Done (SSSE3.detranspose
                  (fold_right (fun k s => on_lanes (speck_dec_round k) s)
                     (SSSE3.transpose s) K))
      /\ NEON.SPECK128_Dec_Block fuel K (Z.of_nat (length K)) s
        = Done (NEON.detranspose
                  (fold_right (fun k s => on_lanes (speck_dec_round k) s)
                     (NEON.transpose s) K))).
Proof.
  intros Hk Hs HK Hlen Hfuel.
  assert (Hi : (i < length K)%nat) by (apply nth_error_Some; congruence).
  assert (Hlen' : Z.of_nat (length K) < 2 ^ 32) by lia.
  split; [| split; [| split]].
  - split.
    + apply SSSE3_SPECK128_Enc_round_lanes; try assumption. unfold W64. lia.
    + apply NEON_SPECK128_Enc_round_lanes; assumption.
  - split.
    + apply SSSE3_SPECK128_Dec_round_lanes; assumption.
    + apply NEON_SPECK128_Dec_round_lanes; assumption.
  - split.
    + apply (SSSE3_SPECK128_Enc_Block_spec K fuel s HK Hs Hlen' Hfuel).
    + apply (NEON_SPECK128_Enc_Block_spec K fuel s HK Hs Hlen' Hfuel).
  - split.
    + apply SSSE3_SPECK128_Dec_Block_spec; assumption.
    + apply NEON_SPECK128_Dec_Block_spec; assumption.
Qed.

Lemma C3_speck_round_witness :
  let K := [3; 1; 4] in
  let s := (mkvec 6 7, mkvec 8 9) in
  (SSSE3.SPECK128_Enc_round (splat K) (Z.of_nat 1) s
     = Done (on_lanes (speck_enc_round 1) s)
   /\ NEON.SPECK128_Enc_round K (Z.of_nat 1) s
     = Done (on_lanes (speck_enc_round 1) s))
  /\ (SSSE3.SPECK128_Dec_round K (Z.of_nat 1) s
        = Done (on_lanes (speck_dec_round 1) s)
      /\ NEON.SPECK128_Dec_round K (Z.of_nat 1) s
        = Done (on_lanes (speck_dec_round 1) s))
  /\ (SSSE3.SPECK128_Enc_Block 3 (splat K) (Z.of_nat (length K)) s
        = Done (SSSE3.detranspose
                  (fold_left (fun s k => on_lanes (speck_enc_round k) s)
                     K (SSSE3.transpose s)))
      /\ NEON.SPECK128_Enc_Block 3 K (Z.of_nat (length K)) s
        = Done (NEON.detranspose
                  (fold_left (fun s k => on_lanes (speck_enc_round k) s)
                     K (NEON.transpose s))))
  /\ (SSSE3.SPECK128_Dec_Block 3 K (Z.of_nat (length K)) s
        = Done (SSSE3.detranspose
                  (fold_right (fun k s => on_lanes (speck_dec_round k) s)
                     (SSSE3.transpose s) K))
      /\ NEON.SPECK128_Dec_Block 3 K (Z.of_nat (length K)) s
        = Done (NEON.detranspose
                  (fold_right (fun k s => on_lanes (speck_dec_round k) s)
                     (NEON.transpose s) K))).
Proof.
  intros K s. apply (C3_speck_round K 1 1 s 3).
  - reflexivity.
  - repeat split; simpl; unfold W64; lia.
  - repeat constructor; unfold W64; lia.
  - simpl. lia.
  - simpl. lia.
Defined.

(** C4 (amended).  SIMON-128 with an odd round count of at least three, the
    schedule being the key pairs [KP] followed by the last key [k]: the
    encryption kernel runs the pairs in order, then performs the one final
    single-round update with [k] and swaps the registers; the decryption
    kernel first swaps the registers and performs the single round with
    [k], then runs the pairs in reverse; and decryption undoes encryption.
    On the SSSE3 and on the NEON kernels. *)
Theorem C4_simon_odd_rounds (KP : list (Z * Z)) (k : Z) (fuel : nat)
    (blocks : vec * vec) :
  KP <> [] -> Forall in64 (flat_pairs KP ++ [k]) -> wf_pair blocks ->
  Z.of_nat (length (flat_pairs KP ++ [k])) < 2 ^ 31 -> (length KP <= fuel)%nat ->
  let K := flat_pairs KP ++ [k] in
  let rounds := Z.of_nat (length K) in
  (SSSE3.SIMON128_Enc_Block fuel (splat K) rounds blocks
     = Done (SSSE3.detranspose
               (on_lanes (simon_enc_last k) (run_pairs KP (SSSE3.transpose blocks))))
   /\ SSSE3.SIMON128_Dec_Block fuel K rounds blocks
     = Done (SSSE3.detranspose
               (undo_pairs KP (on_lanes (simon_dec_first k) (SSSE3.transpose blocks))))
   /\ bind (SSSE3.SIMON128_Enc_Block fuel (splat K) rounds blocks)
           (SSSE3.SIMON128_Dec_Block fuel K rounds) = Done blocks)
  /\ (NEON.SIMON128_Enc_Block fuel K rounds blocks
        = Done (NEON.detranspose
                  (on_lanes (simon_enc_last k) (run_pairs KP (NEON.transpose blocks))))
      /\ NEON.SIMON128_Dec_Block fuel K rounds blocks
        = Done (NEON.detranspose
                  (undo_pairs KP (on_lanes (simon_dec_first k) (NEON.transpose blocks))))
      /\ bind (NEON.SIMON128_Enc_Block fuel K rounds blocks)
              (NEON.SIMON128_Dec_Block fuel K rounds) = Done blocks).
Proof.
  intros HKP HK Hb Hlen Hfuel K rounds. subst rounds K.
  assert (Hhalf : (length (flat_pairs KP ++ [k]) / 2 <= fuel)%nat)
    by (rewrite odd_schedule_half; exact Hfuel).
  assert (Hpos : (1 <= length KP)%nat) by (destruct KP; [contradiction | simpl; lia]).
  pose proof (odd_schedule_length KP k) as HL.
  assert (Hge : 2 <= Z.of_nat (length (flat_pairs KP ++ [k])) <= 2 ^ 31) by lia.
  assert (Ee : forall s, run_rounds simon_round (flat_pairs KP ++ [k]) s
                         = on_lanes (simon_enc_last k) (run_pairs KP s)).
  { intros s. rewrite run_rounds_app, run_rounds_flat_pairs.
    unfold run_rounds. simpl. apply simon_round_last. }
  assert (Ed : forall s, undo_rounds simon_unround (flat_pairs KP ++ [k]) s
                         = undo_pairs KP (on_lanes (simon_dec_first k) s)).
  { intros s. rewrite undo_rounds_app, undo_rounds_flat_pairs.
    unfold undo_rounds at 1. simpl. rewrite simon_unround_first. reflexivity. }
  split; (split; [| split]).
  - rewrite <- Ee. apply SSSE3_SIMON128_Enc_Block_spec; assumption || lia.
  - rewrite <- Ed. apply SSSE3_SIMON128_Dec_Block_spec; assumption || lia.
  - apply SSSE3_SIMON128_roundtrip; assumption || lia.
  - rewrite <- Ee. apply NEON_SIMON128_Enc_Block_spec; assumption || lia.
  - rewrite <- Ed. apply NEON_SIMON128_Dec_Block_spec; assumption || lia.
  - apply NEON_SIMON128_roundtrip; assumption || lia.
Qed.

Lemma C4_simon_odd_rounds_witness :
  let KP := [(3, 1)] in
  let k := 4 in
  let blocks := (mkvec 6 7, mkvec 8 9) in
  let K := flat_pairs KP ++ [k] in
  let rounds := Z.of_nat (length K) in
  (SSSE3.SIMON128_Enc_Block 1 (splat K) rounds blocks
     = Done (SSSE3.detranspose
               (on_lanes (simon_enc_last k) (run_pairs KP (SSSE3.transpose blocks))))
   /\ SSSE3.SIMON128_Dec_Block 1 K rounds blocks
     = Done (SSSE3.detranspose
               (undo_pairs KP (on_lanes (simon_dec_first k) (SSSE3.transpose blocks))))
   /\ bind (SSSE3.SIMON128_Enc_Block 1 (splat K) rounds blocks)
           (SSSE3.SIMON128_Dec_Block 1 K rounds) = Done blocks)
  /\ (NEON.SIMON128_Enc_Block 1 K rounds blocks
        = Done (NEON.detranspose
                  (on_lanes (simon_enc_last k) (run_pairs KP (NEON.transpose blocks))))
      /\ NEON.SIMON128_Dec_Block 1 K rounds blocks
        = Done (NEON.detranspose
                  (undo_pairs KP (on_lanes (simon_dec_first k) (NEON.transpose blocks))))
      /\ bind (NEON.SIMON128_Enc_Block 1 K rounds blocks)
              (NEON.SIMON128_Dec_Block 1 K rounds) = Done blocks).
Proof.
  intros KP k blocks.
  apply (C4_simon_odd_rounds KP k 1 blocks).
  - discriminate.
  - unfold KP, k. simpl. repeat constructor; unfold W64; lia.
  - repeat split; simpl; unfold W64; lia.
  - simpl. lia.
  - simpl. lia.
Defined.

(** With a single round (schedule [[5]]) the encryption kernels never
    return: the loop bound [(rounds & ~1) - 1] has wrapped and the first
    paired iteration reads past the schedule. *)
Lemma C4_counterexample_one_round :
  ~ (exists fuel r,
       NEON.SIMON128_Enc_Block fuel [5] 1 (mkvec 6 7, mkvec 8 9) = Done r)
  /\ ~ (exists fuel r,
          SSSE3.SIMON128_Enc_Block fuel (splat [5]) 1 (mkvec 6 7, mkvec 8 9) = Done r).
Proof.
  split; intros (fuel & r & H).
  - change 1 with (Z.of_nat (length [5])) in H.
    rewrite NEON_SIMON128_Enc_Block_small in H by (simpl; lia).
    destruct fuel; discriminate.
  - change 1 with (Z.of_nat (length [5])) in H.
    rewrite SSSE3_SIMON128_Enc_Block_small in H by (simpl; lia).
    destruct fuel; discriminate.
Qed.

(** C5.  Kernel agreement.  For each cipher (SPECK-128, SIMON-128) and each
    direction, for every round-key array, round count, fuel and six-block
    input, the 6-block kernel returns exactly what the 2-block kernel returns
    on each of the three block pairs (and it faults or runs out of fuel
    exactly when they do); on the SSSE3 and on the NEON kernels. *)
Theorem C5_six_blocks_are_three_pairs (fuel : nat) (subkeys : list Z) (rounds : Z)
    (b0 b1 b2 b3 b4 b5 : vec) :
  SSSE3.SPECK128_Enc_6_Blocks fuel subkeys rounds (b0, b1, b2, b3, b4, b5)
    = three (SSSE3.SPECK128_Enc_Block fuel subkeys rounds (b0, b1))
            (SSSE3.SPECK128_Enc_Block fuel subkeys rounds (b2, b3))
            (SSSE3.SPECK128_Enc_Block fuel subkeys rounds (b4, b5))
  /\ SSSE3.SPECK128_Dec_6_Blocks fuel subkeys rounds (b0, b1, b2, b3, b4, b5)
    = three (SSSE3.SPECK128_Dec_Block fuel subkeys rounds (b0, b1))
            (SSSE3.SPECK128_Dec_Block fuel subkeys rounds (b2, b3))
            (SSSE3.SPECK128_Dec_Block fuel subkeys rounds (b4, b5))
  /\ SSSE3.SIMON128_Enc_6_Blocks fuel subkeys rounds (b0, b1, b2, b3, b4, b5)
    = three (SSSE3.SIMON128_Enc_Block fuel subkeys rounds (b0, b1))
            (SSSE3.SIMON128_Enc_Block fuel subkeys rounds (b2, b3))
            (SSSE3.SIMON128_Enc_Block fuel subkeys rounds (b4, b5))
  /\ SSSE3.SIMON128_Dec_6_Blocks fuel subkeys rounds (b0, b1, b2, b3, b4, b5)
    = three (SSSE3.SIMON128_Dec_Block fuel subkeys rounds (b0, b1))
            (SSSE3.SIMON128_Dec_Block fuel subkeys rounds (b2, b3))
            (SSSE3.SIMON128_Dec_Block fuel subkeys rounds (b4, b5))
  /\ NEON.SPECK128_Enc_6_Blocks fuel subkeys rounds (b0, b1, b2, b3, b4, b5)
    = three (NEON.SPECK128_Enc_Block fuel subkeys rounds (b0, b1))
            (NEON.SPECK128_Enc_Block fuel subkeys rounds (b2, b3))
            (NEON.SPECK128_Enc_Block fuel subkeys rounds (b4, b5))
  /\ NEON.SPECK128_Dec_6_Blocks fuel subkeys rounds (b0, b1, b2, b3, b4, b5)
    = three (NEON.SPECK128_Dec_Block fuel subkeys rounds (b0, b1))
            (NEON.SPECK128_Dec_Block fuel subkeys rounds (b2, b3))
            (NEON.SPECK128_Dec_Block fuel subkeys rounds (b4, b5))
  /\ NEON.SIMON128_Enc_6_Blocks fuel subkeys rounds (b0, b1, b2, b3, b4, b5)
    = three (NEON.SIMON128_Enc_Block fuel subkeys rounds (b0, b1))
            (NEON.SIMON128_Enc_Block fuel subkeys rounds (b2, b3))
            (NEON.SIMON128_Enc_Block fuel subkeys rounds (b4, b5))
  /\ NEON.SIMON128_Dec_6_Blocks fuel subkeys rounds (b0, b1, b2, b3, b4, b5)
    = three (NEON.SIMON128_Dec_Block fuel subkeys rounds (b0, b1))
            (NEON.SIMON128_Dec_Block fuel subkeys rounds (b2, b3))
            (NEON.SIMON128_Dec_Block fuel subkeys rounds (b4, b5)).
Proof.
  repeat split.
  - apply SSSE3_SPECK128_Enc_6_Blocks_three.
  - apply SSSE3_SPECK128_Dec_6_Blocks_three.
  - apply SSSE3_SIMON128_Enc_6_Blocks_three.
  - apply SSSE3_SIMON128_Dec_6_Blocks_three.
  - apply NEON_SPECK128_Enc_6_Blocks_three.
  - apply NEON_SPECK128_Dec_6_Blocks_three.
  - apply NEON_SIMON128_Enc_6_Blocks_three.
  - apply NEON_SIMON128_Dec_6_Blocks_three.
Qed.

(** C6.  Rotate specialization.  For every 128-bit vector [v] (two 64-bit
    lanes) the byte-permute specialization [RotateLeft64<8>] equals the generic
    template [(v << 8) | (v >> 56)] lane by lane, and [RotateRight64<8>]
    equals [(v << 56) | (v >> 8)]; on the SSSE3 shuffle and on the NEON table
    lookup. *)
Theorem C6_rotate8_specialization (v : vec) :
  wf_vec v ->
  SSSE3.RotateLeft64_8 v = SSSE3.RotateLeft64_generic 8 v
  /\ SSSE3.RotateRight64_8 v = SSSE3.RotateRight64_generic 8 v
  /\ NEON.RotateLeft64_8 v = NEON.RotateLeft64_generic 8 v
  /\ NEON.RotateRight64_8 v = NEON.RotateRight64_generic 8 v.
Proof.
  intros Hv.
  rewrite SSSE3_RotateLeft64_8_lanes, SSSE3_RotateRight64_8_lanes,
    NEON_RotateLeft64_8_lanes, NEON_RotateRight64_8_lanes by assumption.
  repeat split; reflexivity.
Qed.

Lemma C6_rotate8_specialization_witness :
  let v := mkvec 81985529216486895 18364758544493064720 in
  SSSE3.RotateLeft64_8 v = SSSE3.RotateLeft64_generic 8 v
  /\ SSSE3.RotateRight64_8 v = SSSE3.RotateRight64_generic 8 v
  /\ NEON.RotateLeft64_8 v = NEON.RotateLeft64_generic 8 v
  /\ NEON.RotateRight64_8 v = NEON.RotateRight64_generic 8 v.
Proof.
  intros v. apply (C6_rotate8_specialization v).
  split; simpl; unfold in64, W64; lia.
Defined.

(** C7.  Transpose invertibility.  The kernel-entry transpose
    [Xv = unpack_hi64(block0, block1)], [Yv = unpack_lo64(block0, block1)]
    followed by the kernel-exit detranspose [block0 = unpack_lo64(Yv, Xv)],
    [block1 = unpack_hi64(Yv, Xv)] gives back [(block0, block1)]. *)
Theorem C7_transpose_invertible (A B : vec) :
  SSSE3.detranspose (SSSE3.transpose (A, B)) = (A, B)
  /\ NEON.detranspose (NEON.transpose (A, B)) = (A, B).
Proof.
  split; [apply SSSE3_detranspose_transpose | apply NEON_detranspose_transpose].
Qed.

(** C8 (amended).  Round-key layouts.  The SSSE3 encryption kernels read
    the pre-splatted layout, loading the two words at [subkeys + i*2] in
    round [i]; the NEON encryption kernels and the decryption kernels of
    both instruction sets read the scalar layout, loading the word at
    [subkeys + i] and broadcasting it.  Under the matching layout every
    load yields [k[i]] in both lanes, every SPECK-128 round uses [k[i]] at
    round [i], and every kernel applies the rounds of [k[0], ..., k[rounds-1]]
    in its order. *)
Theorem C8_key_layouts (K : list Z) (i : nat) (k : Z) (s : vec * vec) (fuel : nat) :
  nth_error K i = Some k -> wf_pair s -> Forall in64 K ->
  2 <= Z.of_nat (length K) < 2 ^ 31 -> (length K <= fuel)%nat ->
  let rounds := Z.of_nat (length K) in
  (SSSE3._mm_load_si128 (splat K) (size_t (Z.of_nat i * 2)) = Done (mkvec k k)
   /\ SSSE3._mm_loaddup_pd K (Z.of_nat i) = Done (mkvec k k)
   /\ NEON.vld1q_dup_u64 K (Z.of_nat i) = Done (mkvec k k))
  /\ (SSSE3.SPECK128_Enc_round (splat K) (Z.of_nat i) s
        = Done (on_lanes (speck_enc_round k) s)
      /\ SSSE3.SPECK128_Dec_round K (Z.of_nat i) s
        = Done (on_lanes (speck_dec_round k) s)
      /\ NEON.SPECK128_Enc_round K (Z.of_nat i) s
        = Done (on_lanes (speck_enc_round k) s)
      /\ NEON.SPECK128_Dec_round K (Z.of_nat i) s
        = Done (on_lanes (speck_dec_round k) s))
  /\ (SSSE3.SPECK128_Enc_Block fuel (splat K) rounds s
        = Done (SSSE3.detranspose (run_rounds speck_enc_round K (SSSE3.transpose s)))
      /\ SSSE3.SPECK128_Dec_Block fuel K rounds s
        = Done (SSSE3.detranspose (undo_rounds speck_dec_round K (SSSE3.transpose s)))
      /\ SSSE3.SIMON128_Enc_Block fuel (splat K) rounds s
        = Done (SSSE3.detranspose (run_rounds simon_round K (SSSE3.transpose s)))
      /\ SSSE3.SIMON128_Dec_Block fuel K rounds s
        = Done (SSSE3.detranspose (undo_rounds simon_unround K (SSSE3.transpose s))))
  /\ (NEON.SPECK128_Enc_Block fuel K rounds s
        = Done (NEON.detranspose (run_rounds speck_enc_round K (NEON.transpose s)))
      /\ NEON.SPECK128_Dec_Block fuel K rounds s
        = Done (NEON.detranspose (undo_rounds speck_dec_round K (NEON.transpose s)))
      /\ NEON.SIMON128_Enc_Block fuel K rounds s
        = Done (NEON.detranspose (run_rounds simon_round K (NEON.transpose s)))
      /\ NEON.SIMON128_Dec_Block fuel K rounds s
        = Done (NEON.detranspose (undo_rounds simon_unround K (NEON.transpose s)))).
Proof.
  intros Hk Hs HK Hlen Hfuel rounds. subst rounds.
  assert (Hi : (i < length K)%nat) by (apply nth_error_Some; congruence).
  pose proof (half_le _ _ Hfuel) as Hhalf.
  split; [| split; [| split]].
  - split; [| split].
    + rewrite size_t_small by (unfold W64; lia).
      replace (Z.of_nat i * 2) with (2 * Z.of_nat i) by lia.
      apply load_splat, Hk.
    + apply loaddup_nth, Hk.
    + apply vld1q_dup_nth, Hk.
  - split; [| split; [| split]].
    + apply SSSE3_SPECK128_Enc_round_lanes; try assumption. unfold W64. lia.
    + apply SSSE3_SPECK128_Dec_round_lanes; assumption.
    + apply NEON_SPECK128_Enc_round_lanes; assumption.
    + apply NEON_SPECK128_Dec_round_lanes; assumption.
  - split; [| split; [| split]].
    + apply SSSE3_SPECK128_Enc_Block_spec; assumption || lia.
    + apply SSSE3_SPECK128_Dec_Block_spec; assumption || lia.
    + apply SSSE3_SIMON128_Enc_Block_spec; assumption || lia.
    + apply SSSE3_SIMON128_Dec_Block_spec; assumption || lia.
  - split; [| split; [| split]].
    + apply NEON_SPECK128_Enc_Block_spec; assumption || lia.
    + apply NEON_SPECK128_Dec_Block_spec; assumption || lia.
    + apply NEON_SIMON128_Enc_Block_spec; assumption || lia.
    + apply NEON_SIMON128_Dec_Block_spec; assumption || lia.
Qed.

Lemma C8_key_layouts_witness :
  let K := [3; 1; 4] in
  let s := (mkvec 6 7, mkvec 8 9) in
  let rounds := Z.of_nat (length K) in
  (SSSE3._mm_load_si128 (splat K) (size_t (Z.of_nat 2 * 2)) = Done (mkvec 4 4)
   /\ SSSE3._mm_loaddup_pd K (Z.of_nat 2) = Done (mkvec 4 4)
   /\ NEON.vld1q_dup_u64 K (Z.of_nat 2) = Done (mkvec 4 4))
  /\ (SSSE3.SPECK128_Enc_round (splat K) (Z.of_nat 2) s
        = Done (on_lanes (speck_enc_round 4) s)
      /\ SSSE3.SPECK128_Dec_round K (Z.of_nat 2) s
        = Done (on_lanes (speck_dec_round 4) s)
      /\ NEON.SPECK128_Enc_round K (Z.of_nat 2) s
        = Done (on_lanes (speck_enc_round 4) s)
      /\ NEON.SPECK128_Dec_round K (Z.of_nat 2) s
        = Done (on_lanes (speck_dec_round 4) s))
  /\ (SSSE3.SPECK128_Enc_Block 3 (splat K) rounds s
        = Done (SSSE3.detranspose (run_rounds speck_enc_round K (SSSE3.transpose s)))
      /\ SSSE3.SPECK128_Dec_Block 3 K rounds s
        = Done (SSSE3.detranspose (undo_rounds speck_dec_round K (SSSE3.transpose s)))
      /\ SSSE3.SIMON128_Enc_Block 3 (splat K) rounds s
        = Done (SSSE3.detranspose (run_rounds simon_round K (SSSE3.transpose s)))
      /\ SSSE3.SIMON128_Dec_Block 3 K rounds s
        = Done (SSSE3.detranspose (undo_rounds simon_unround K (SSSE3.transpose s))))
  /\ (NEON.SPECK128_Enc_Block 3 K rounds s
        = Done (NEON.detranspose (run_rounds speck_enc_round K (NEON.transpose s)))
      /\ NEON.SPECK128_Dec_Block 3 K rounds s
        = Done (NEON.detranspose (undo_rounds speck_dec_round K (NEON.transpose s)))
      /\ NEON.SIMON128_Enc_Block 3 K rounds s
        = Done (NEON.detranspose (run_rounds simon_round K (NEON.transpose s)))
      /\ NEON.SIMON128_Dec_Block 3 K rounds s
        = Done (NEON.detranspose (undo_rounds simon_unround K (NEON.transpose s)))).
Proof.
  intros K s.
  apply (C8_key_layouts K 2 4 s 3).
  - reflexivity.
  - repeat split; simpl; unfold W64; lia.
  - repeat constructor; unfold W64; lia.
  - simpl. lia.
  - simpl. lia.
Defined.

(** On NEON the encryption kernels index [subkeys + i], so on the
    pre-splatted layout [1; 1; 2; 2] of the schedule [1; 2] round 1 is fed
    [k[0]] and not [k[1]]. *)
Lemma C8_counterexample_neon_presplatted :
  let K := [1; 2] in
  let s := (mkvec 6 7, mkvec 8 9) in
  NEON.vld1q_dup_u64 (splat K) 1 = Done (mkvec 1 1)
  /\ NEON.SPECK128_Enc_round (splat K) 1 s = Done (on_lanes (speck_enc_round 1) s)
  /\ NEON.SPECK128_Enc_round (splat K) 1 s <> Done (on_lanes (speck_enc_round 2) s).
Proof.
  intros K s. split; [reflexivity |]. split.
  - vm_compute. reflexivity.
  - vm_compute. intros H. discriminate H.
Qed.



(** C10.  Termination of the SIMON-128 encryption kernels.  With a schedule
    of [rounds >= 2] round keys ([rounds] an [unsigned int]) the kernels
    return after exactly [rounds / 2] paired iterations (less fuel does not
    suffice) and their result is the single-round update applied [rounds]
    times, once per key and in order, the last one being the tail round
    when [rounds] is odd; up to 2^31 rounds, and on NEON always, the keys are
    those of the schedule.  With fewer than two rounds the loop bound
    [(rounds & ~1) - 1] is [2^64 - 1] and the kernels do not return, whatever
    round-key array they are given. *)
Theorem C10_simon_enc_terminates (K : list Z) (fuel : nat) (blocks : vec * vec) :
  Forall in64 K -> wf_pair blocks -> Z.of_nat (length K) < 2 ^ 32 ->
  let rounds := Z.of_nat (length K) in
  (2 <= rounds ->
     ((length K / 2 <= fuel)%nat ->
        (exists K',
           length K' = length K
           /\ (rounds <= 2 ^ 31 -> K' = K)
           /\ SSSE3.SIMON128_Enc_Block fuel (splat K) rounds blocks
              = Done (SSSE3.detranspose
                        (run_rounds simon_round K' (SSSE3.transpose blocks))))
        /\ NEON.SIMON128_Enc_Block fuel K rounds blocks
          = Done (NEON.detranspose (run_rounds simon_round K (NEON.transpose blocks))))
     /\ ((fuel < length K / 2)%nat ->
           SSSE3.SIMON128_Enc_Block fuel (splat K) rounds blocks = Timeout
           /\ NEON.SIMON128_Enc_Block fuel K rounds blocks = Timeout))
  /\ (rounds < 2 ->
        SSSE3.SIMON128_Enc_bound rounds = W64 - 1
        /\ NEON.SIMON128_Enc_bound rounds = W64 - 1
        /\ (forall subkeys r,
               SSSE3.SIMON128_Enc_Block fuel subkeys rounds blocks <> Done r
               /\ NEON.SIMON128_Enc_Block fuel subkeys rounds blocks <> Done r)).
Proof.
  intros HK Hb Hlen rounds. subst rounds. split.
  - intros H2. split.
    + intros Hfuel. split.
      * apply SSSE3_SIMON128_Enc_Block_runs; assumption || lia.
      * apply NEON_SIMON128_Enc_Block_spec; assumption || lia.
    + intros Hfuel. split.
      * apply SSSE3_SIMON128_Enc_Block_short; assumption || lia.
      * apply NEON_SIMON128_Enc_Block_short; assumption || lia.
  - intros H2.
    destruct (SIMON128_Enc_bound_wraps (Z.of_nat (length K))) as [B1 B2]; [lia |].
    split; [exact B1 |]. split; [exact B2 |].
    intros subkeys r. apply SIMON128_Enc_Block_never_returns. lia.
Qed.

Lemma C10_simon_enc_terminates_witness :
  let K := [3; 1; 4] in
  let blocks := (mkvec 6 7, mkvec 8 9) in
  ((exists K',
      length K' = length K
      /\ (Z.of_nat (length K) <= 2 ^ 31 -> K' = K)
      /\ SSSE3.SIMON128_Enc_Block 1 (splat K) (Z.of_nat (length K)) blocks
         = Done (SSSE3.detranspose
                   (run_rounds simon_round K' (SSSE3.transpose blocks))))
   /\ NEON.SIMON128_Enc_Block 1 K (Z.of_nat (length K)) blocks
     = Done (NEON.detranspose (run_rounds simon_round K (NEON.transpose blocks))))
  /\ (SSSE3.SIMON128_Enc_Block 0 (splat K) (Z.of_nat (length K)) blocks = Timeout
      /\ NEON.SIMON128_Enc_Block 0 K (Z.of_nat (length K)) blocks = Timeout)
  /\ (forall subkeys r,
        SSSE3.SIMON128_Enc_Block 1 subkeys (Z.of_nat (length [3])) blocks <> Done r
        /\ NEON.SIMON128_Enc_Block 1 subkeys (Z.of_nat (length [3])) blocks <> Done r).
Proof.
  intros K blocks.
  assert (HK : Forall in64 K) by (repeat constructor; unfold W64; lia).
  assert (H1 : Forall in64 [3]) by (repeat constructor; unfold W64; lia).
  assert (Hb : wf_pair blocks) by (repeat split; simpl; unfold W64; lia).
  assert (Hlen : Z.of_nat (length K) < 2 ^ 32) by (simpl; lia).
  assert (Hlen1 : Z.of_nat (length [3]) < 2 ^ 32) by (simpl; lia).
  assert (H2 : 2 <= Z.of_nat (length K)) by (simpl; lia).
  destruct (C10_simon_enc_terminates K 1 blocks HK Hb Hlen) as [A _].
  destruct (C10_simon_enc_terminates K 0 blocks HK Hb Hlen) as [B _].
  destruct (C10_simon_enc_terminates [3] 1 blocks H1 Hb Hlen1) as [_ C].
  destruct (A H2) as [A1 _]. destruct (B H2) as [_ B2].
  destruct C as (_ & _ & C4); [simpl; lia |].
  split; [apply A1; simpl; lia |].
  split; [apply B2; simpl; lia | exact C4].
Defined.

(** ** Further properties of the kernels *)

(** X1.  Backend agreement.  On every input the SSSE3 kernels, given the
    pre-splatted round keys for encryption and the scalar ones for
    decryption, end exactly as the NEON kernels do on the scalar round keys:
    the same blocks when they return, and a fault or an exhausted fuel
    together.  This holds for any round-key array, also one that is too
    short, for the 2-block and the 6-block kernels; for SIMON-128 encryption
    it needs at least two and at most 2^31 rounds. *)
Theorem backends_agree (fuel : nat) (K : list Z) (rounds : Z)
    (b0 b1 b2 b3 b4 b5 : vec) :
  0 <= rounds < 2 ^ 32 ->
  (SSSE3.SPECK128_Enc_Block fuel (splat K) rounds (b0, b1)
     = NEON.SPECK128_Enc_Block fuel K rounds (b0, b1)
   /\ SSSE3.SPECK128_Enc_6_Blocks fuel (splat K) rounds (b0, b1, b2, b3, b4, b5)
     = NEON.SPECK128_Enc_6_Blocks fuel K rounds (b0, b1, b2, b3, b4, b5))
  /\ (SSSE3.SPECK128_Dec_Block fuel K rounds (b0, b1)
        = NEON.SPECK128_Dec_Block fuel K rounds (b0, b1)
      /\ SSSE3.SPECK128_Dec_6_Blocks fuel K rounds (b0, b1, b2, b3, b4, b5)
        = NEON.SPECK128_Dec_6_Blocks fuel K rounds (b0, b1, b2, b3, b4, b5))
  /\ (SSSE3.SIMON128_Dec_Block fuel K rounds (b0, b1)
        = NEON.SIMON128_Dec_Block fuel K rounds (b0, b1)
      /\ SSSE3.SIMON128_Dec_6_Blocks fuel K rounds (b0, b1, b2, b3, b4, b5)
        = NEON.SIMON128_Dec_6_Blocks fuel K rounds (b0, b1, b2, b3, b4, b5))
  /\ (2 <= rounds <= 2 ^ 31 ->
      SSSE3.SIMON128_Enc_Block fuel (splat K) rounds (b0, b1)
        = NEON.SIMON128_Enc_Block fuel K rounds (b0, b1)
      /\ SSSE3.SIMON128_Enc_6_Blocks fuel (splat K) rounds (b0, b1, b2, b3, b4, b5)
        = NEON.SIMON128_Enc_6_Blocks fuel K rounds (b0, b1, b2, b3, b4, b5)).
Proof.
  intros Hr.
  split; [split; [apply SPECK128_Enc_Block_backends
                 | apply SPECK128_Enc_6_Blocks_backends]; exact Hr |].
  split; [split; [apply SPECK128_Dec_Block_backends
                 | apply SPECK128_Dec_6_Blocks_backends] |].
  split; [split; [apply SIMON128_Dec_Block_backends
                 | apply SIMON128_Dec_6_Blocks_backends] |].
  intros H2.
  split; [apply SIMON128_Enc_Block_backends
         | apply SIMON128_Enc_6_Blocks_backends]; exact H2.
Qed.

Lemma backends_agree_witness :
  let K := [3; 1; 4] in
  let b := mkvec 6 7 in
  let c := mkvec 8 9 in
  SSSE3.SPECK128_Enc_Block 3 (splat K) 3 (b, c)
    = NEON.SPECK128_Enc_Block 3 K 3 (b, c)
  /\ SSSE3.SIMON128_Enc_Block 3 (splat K) 3 (b, c)
    = NEON.SIMON128_Enc_Block 3 K 3 (b, c).
Proof.
  intros K b c.
  assert (Hr : 0 <= 3 < 2 ^ 32) by lia.
  assert (H2 : 2 <= 3 <= 2 ^ 31) by lia.
  destruct (backends_agree 3 K 3 b c b c b c Hr) as ([E1 _] & _ & _ & E4).
  destruct (E4 H2) as [E5 _].
  split; [exact E1 | exact E5].
Defined.

(** X2.  The round keys a kernel reads.  A kernel run for [rounds] rounds reads
    nothing beyond the first [rounds] words of the round-key array (the first
    [2 * rounds] words for the SSSE3 encryption kernels, whose keys are
    pre-splatted): two arrays that agree on that prefix give the same
    outcome, whatever follows the prefix.  For SIMON-128 encryption this
    needs at least two rounds. *)
Theorem kernels_read_only_their_round_keys (fuel : nat) (A B : list Z) (rounds : Z)
    (blocks : vec * vec) :
  0 <= rounds < 2 ^ 32 ->
  (firstn (Z.to_nat rounds) A = firstn (Z.to_nat rounds) B ->
     NEON.SPECK128_Enc_Block fuel A rounds blocks
       = NEON.SPECK128_Enc_Block fuel B rounds blocks
     /\ NEON.SPECK128_Dec_Block fuel A rounds blocks
       = NEON.SPECK128_Dec_Block fuel B rounds blocks
     /\ SSSE3.SPECK128_Dec_Block fuel A rounds blocks
       = SSSE3.SPECK128_Dec_Block fuel B rounds blocks
     /\ NEON.SIMON128_Dec_Block fuel A rounds blocks
       = NEON.SIMON128_Dec_Block fuel B rounds blocks
     /\ SSSE3.SIMON128_Dec_Block fuel A rounds blocks
       = SSSE3.SIMON128_Dec_Block fuel B rounds blocks
     /\ (2 <= rounds ->
         NEON.SIMON128_Enc_Block fuel A rounds blocks
           = NEON.SIMON128_Enc_Block fuel B rounds blocks))
  /\ (firstn (Z.to_nat (2 * rounds)) A = firstn (Z.to_nat (2 * rounds)) B ->
      SSSE3.SPECK128_Enc_Block fuel A rounds blocks
        = SSSE3.SPECK128_Enc_Block fuel B rounds blocks
      /\ (2 <= rounds <= 2 ^ 31 ->
          SSSE3.SIMON128_Enc_Block fuel A rounds blocks
            = SSSE3.SIMON128_Enc_Block fuel B rounds blocks)).
Proof.
  intros Hr. change (2 ^ 32) with W32 in Hr. split.
  - intros E.
    split; [apply NEON_SPECK128_Enc_Block_prefix; assumption |].
    split; [apply NEON_SPECK128_Dec_Block_prefix; assumption |].
    split; [apply SSSE3_SPECK128_Dec_Block_prefix; assumption |].
    split; [apply NEON_SIMON128_Dec_Block_prefix; assumption |].
    split; [apply SSSE3_SIMON128_Dec_Block_prefix; assumption |].
    intros H2. apply NEON_SIMON128_Enc_Block_prefix; [lia | assumption].
  - intros E.
    split; [apply SSSE3_SPECK128_Enc_Block_prefix; assumption |].
    intros H2. apply SSSE3_SIMON128_Enc_Block_prefix; assumption.
Qed.

Lemma kernels_read_only_their_round_keys_witness :
  let A := [3; 1; 4; 1; 5] in
  let B := [3; 1; 4; 1; 9; 2; 6] in
  let blocks := (mkvec 6 7, mkvec 8 9) in
  NEON.SIMON128_Enc_Block 1 A 2 blocks = NEON.SIMON128_Enc_Block 1 B 2 blocks
  /\ SSSE3.SIMON128_Enc_Block 1 A 2 blocks = SSSE3.SIMON128_Enc_Block 1 B 2 blocks.
Proof.
  intros A B blocks.
  assert (Hr : 0 <= 2 < 2 ^ 32) by lia.
  assert (E1 : firstn (Z.to_nat 2) A = firstn (Z.to_nat 2) B) by reflexivity.
  assert (E2 : firstn (Z.to_nat (2 * 2)) A = firstn (Z.to_nat (2 * 2)) B)
    by reflexivity.
  assert (H2 : 2 <= 2) by lia.
  assert (H3 : 2 <= 2 <= 2 ^ 31) by lia.
  destruct (kernels_read_only_their_round_keys 1 A B 2 blocks Hr) as [P Q].
  destruct (P E1) as (_ & _ & _ & _ & _ & P6).
  destruct (Q E2) as (_ & Q2).
  split; [exact (P6 H2) | exact (Q2 H3)].
Defined.

(** X3.  A round-key array that is too short is read outside its bounds.
    When the array holds fewer than [rounds] words (fewer than [2 * rounds]
    for the SSSE3 encryption kernels), a kernel run for [rounds] rounds, with
    iterations enough for them, asks for a word at an index outside the
    array: the run ends in [Fault], the outcome that [read64] gives for such
    an index and that nothing else in a kernel gives.  The kernels check no
    bound, they are handed a pointer and a count of rounds, so an array of
    that many words is a precondition of theirs; what the C++ program does
    after the read (it may well return, when the memory behind the array is
    readable) is left open. *)
Theorem short_key_array_is_read_out_of_bounds (fuel : nat) (A : list Z) (rounds : Z)
    (blocks : vec * vec) :
  1 <= rounds <= 2 ^ 31 -> rounds <= Z.of_nat fuel ->
  (Z.of_nat (length A) < rounds ->
     NEON.SPECK128_Enc_Block fuel A rounds blocks = Fault
     /\ NEON.SPECK128_Dec_Block fuel A rounds blocks = Fault
     /\ SSSE3.SPECK128_Dec_Block fuel A rounds blocks = Fault
     /\ NEON.SIMON128_Dec_Block fuel A rounds blocks = Fault
     /\ SSSE3.SIMON128_Dec_Block fuel A rounds blocks = Fault
     /\ (2 <= rounds -> NEON.SIMON128_Enc_Block fuel A rounds blocks = Fault))
  /\ (Z.of_nat (length A) < 2 * rounds ->
      SSSE3.SPECK128_Enc_Block fuel A rounds blocks = Fault
      /\ (2 <= rounds -> SSSE3.SIMON128_Enc_Block fuel A rounds blocks = Fault)).
Proof.
  intros Hr Hf.
  assert (Hw : 0 <= rounds < W32) by (unfold W32; lia).
  split.
  - intros Hlen.
    split; [apply outcome_fault;
            [intros r; apply NEON_SPECK128_Enc_Block_short_keys; assumption
            | apply NEON_SPECK128_Enc_Block_no_timeout; assumption] |].
    split; [apply outcome_fault;
            [intros r; apply NEON_SPECK128_Dec_Block_short_keys; assumption
            | apply NEON_SPECK128_Dec_Block_no_timeout; assumption] |].
    split; [apply outcome_fault;
            [intros r; apply SSSE3_SPECK128_Dec_Block_short_keys; assumption
            | apply SSSE3_SPECK128_Dec_Block_no_timeout; assumption] |].
    split; [apply outcome_fault;
            [intros r; apply NEON_SIMON128_Dec_Block_short_keys; assumption
            | apply NEON_SIMON128_Dec_Block_no_timeout; assumption] |].
    split; [apply outcome_fault;
            [intros r; apply SSSE3_SIMON128_Dec_Block_short_keys; assumption
            | apply SSSE3_SIMON128_Dec_Block_no_timeout; assumption] |].
    intros H2. apply outcome_fault.
    + intros r. apply NEON_SIMON128_Enc_Block_short_keys; unfold W32; lia.
    + apply NEON_SIMON128_Enc_Block_no_timeout; unfold W32; lia.
  - intros Hlen.
    split; [apply outcome_fault;
            [intros r; apply SSSE3_SPECK128_Enc_Block_short_keys; assumption
            | apply SSSE3_SPECK128_Enc_Block_no_timeout; assumption] |].
    intros H2. apply outcome_fault.
    + intros r. apply SSSE3_SIMON128_Enc_Block_short_keys; lia.
    + apply SSSE3_SIMON128_Enc_Block_no_timeout; unfold W32; lia.
Qed.

Lemma short_key_array_is_read_out_of_bounds_witness :
  let A := [3; 1; 4; 1] in
  let blocks := (mkvec 6 7, mkvec 8 9) in
  NEON.SIMON128_Enc_Block 9 A 5 blocks = Fault
  /\ SSSE3.SIMON128_Enc_Block 9 A 5 blocks = Fault.
Proof.
  intros A blocks.
  assert (Hr : 1 <= 5 <= 2 ^ 31) by lia.
  assert (Hf : 5 <= Z.of_nat 9) by lia.
  assert (H1 : Z.of_nat (length A) < 5) by (simpl; lia).
  assert (H2 : Z.of_nat (length A) < 2 * 5) by (simpl; lia).
  assert (H3 : 2 <= 5) by lia.
  destruct (short_key_array_is_read_out_of_bounds 9 A 5 blocks Hr Hf) as [P Q].
  destruct (P H1) as (_ & _ & _ & _ & _ & P6).
  destruct (Q H2) as (_ & Q2).
  split; [exact (P6 H3) | exact (Q2 H3)].
Defined.

(** X4.  Encryption undoes decryption.  For every schedule [K] of 64-bit round
    keys with at most 2^31 rounds (at least two for SIMON-128) and every pair
    of 128-bit blocks, running the encryption kernel on the output of the
    decryption kernel returns the blocks: with the round trip in the other
    direction, the two kernels are inverse permutations of the block
    pairs.  On the SSSE3 and on the NEON kernels. *)
Theorem encryption_undoes_decryption (K : list Z) (fuel : nat) (blocks : vec * vec) :
  Forall in64 K -> wf_pair blocks ->
  Z.of_nat (length K) <= 2 ^ 31 -> (length K <= fuel)%nat ->
  bind (SSSE3.SPECK128_Dec_Block fuel K (Z.of_nat (length K)) blocks)
       (SSSE3.SPECK128_Enc_Block fuel (splat K) (Z.of_nat (length K))) = Done blocks
  /\ bind (NEON.SPECK128_Dec_Block fuel K (Z.of_nat (length K)) blocks)
          (NEON.SPECK128_Enc_Block fuel K (Z.of_nat (length K))) = Done blocks
  /\ (2 <= Z.of_nat (length K) ->
      bind (SSSE3.SIMON128_Dec_Block fuel K (Z.of_nat (length K)) blocks)
           (SSSE3.SIMON128_Enc_Block fuel (splat K) (Z.of_nat (length K))) = Done blocks
      /\ bind (NEON.SIMON128_Dec_Block fuel K (Z.of_nat (length K)) blocks)
              (NEON.SIMON128_Enc_Block fuel K (Z.of_nat (length K))) = Done blocks).
Proof.
  intros HK Hb Hlen Hfuel.
  split; [apply SSSE3_SPECK128_reverse_roundtrip; assumption |].
  split; [apply NEON_SPECK128_reverse_roundtrip; assumption |].
  intros H2. pose proof (half_le _ _ Hfuel).
  split; [apply SSSE3_SIMON128_reverse_roundtrip
         | apply NEON_SIMON128_reverse_roundtrip]; assumption || lia.
Qed.

Lemma encryption_undoes_decryption_witness :
  let K := [3; 1; 4; 1; 5] in
  let blocks := (mkvec 6 7, mkvec 8 9) in
  bind (SSSE3.SPECK128_Dec_Block 5 K (Z.of_nat (length K)) blocks)
       (SSSE3.SPECK128_Enc_Block 5 (splat K) (Z.of_nat (length K))) = Done blocks
  /\ bind (NEON.SIMON128_Dec_Block 5 K (Z.of_nat (length K)) blocks)
          (NEON.SIMON128_Enc_Block 5 K (Z.of_nat (length K))) = Done blocks.
Proof.
  intros K blocks.
  assert (HK : Forall in64 K) by (repeat constructor; unfold W64; lia).
  assert (Hb : wf_pair blocks) by (repeat split; simpl; unfold W64; lia).
  assert (Hlen : Z.of_nat (length K) <= 2 ^ 31) by (simpl; lia).
  assert (Hfuel : (length K <= 5)%nat) by (simpl; lia).
  assert (H2 : 2 <= Z.of_nat (length K)) by (simpl; lia).
  destruct (encryption_undoes_decryption K 5 blocks HK Hb Hlen Hfuel)
    as (E1 & _ & E3).
  destruct (E3 H2) as [_ E5].
  split; [exact E1 | exact E5].
Defined.

(** X5.  The kernels, block by block.  With a schedule [K] of at most 2^31
    64-bit round keys, each block of a 2-block kernel is processed on its own:
    the output block in a slot is the input block of that slot, as [(X, Y)]
    with [X] the high lane, taken through the rounds of [K] in order (through
    their inverses in reverse order to decrypt), whatever the other slot
    holds.  For the SPECK-128 and SIMON-128 kernels of both instruction sets;
    SIMON-128 encryption needs at least two rounds. *)
Theorem kernels_work_block_by_block (K : list Z) (fuel : nat) (b0 b1 : vec) :
  Forall in64 K -> wf_vec b0 -> wf_vec b1 ->
  Z.of_nat (length K) <= 2 ^ 31 -> (length K <= fuel)%nat ->
  SSSE3.SPECK128_Enc_Block fuel (splat K) (Z.of_nat (length K)) (b0, b1)
     = Done (encrypt_block speck_enc_round K b0, encrypt_block speck_enc_round K b1)
  /\ SSSE3.SPECK128_Dec_Block fuel K (Z.of_nat (length K)) (b0, b1)
     = Done (decrypt_block speck_dec_round K b0, decrypt_block speck_dec_round K b1)
  /\ NEON.SPECK128_Enc_Block fuel K (Z.of_nat (length K)) (b0, b1)
     = Done (encrypt_block speck_enc_round K b0, encrypt_block speck_enc_round K b1)
  /\ NEON.SPECK128_Dec_Block fuel K (Z.of_nat (length K)) (b0, b1)
     = Done (decrypt_block speck_dec_round K b0, decrypt_block speck_dec_round K b1)
  /\ SSSE3.SIMON128_Dec_Block fuel K (Z.of_nat (length K)) (b0, b1)
     = Done (decrypt_block simon_unround K b0, decrypt_block simon_unround K b1)
  /\ NEON.SIMON128_Dec_Block fuel K (Z.of_nat (length K)) (b0, b1)
     = Done (decrypt_block simon_unround K b0, decrypt_block simon_unround K b1)
  /\ (2 <= Z.of_nat (length K) ->
      SSSE3.SIMON128_Enc_Block fuel (splat K) (Z.of_nat (length K)) (b0, b1)
     = Done (encrypt_block simon_round K b0, encrypt_block simon_round K b1)
      /\ NEON.SIMON128_Enc_Block fuel K (Z.of_nat (length K)) (b0, b1)
     = Done (encrypt_block simon_round K b0, encrypt_block simon_round K b1)).
Proof.
  intros HK H0 H1 Hlen Hfuel.
  split; [apply SSSE3_SPECK128_Enc_Block_blocks;
          solve [assumption | lia | apply half_le; assumption] |].
  split; [apply SSSE3_SPECK128_Dec_Block_blocks;
          solve [assumption | lia | apply half_le; assumption] |].
  split; [apply NEON_SPECK128_Enc_Block_blocks;
          solve [assumption | lia | apply half_le; assumption] |].
  split; [apply NEON_SPECK128_Dec_Block_blocks;
          solve [assumption | lia | apply half_le; assumption] |].
  split; [apply SSSE3_SIMON128_Dec_Block_blocks;
          solve [assumption | lia | apply half_le; assumption] |].
  split; [apply NEON_SIMON128_Dec_Block_blocks;
          solve [assumption | lia | apply half_le; assumption] |].
  intros H2.
  split; [apply SSSE3_SIMON128_Enc_Block_blocks | apply NEON_SIMON128_Enc_Block_blocks];
    solve [assumption | lia | apply half_le; assumption].
Qed.

Lemma kernels_work_block_by_block_witness :
  let K := [3; 1; 4; 1; 5] in
  let b0 := mkvec 6 7 in
  let b1 := mkvec 8 9 in
  SSSE3.SPECK128_Enc_Block 5 (splat K) (Z.of_nat (length K)) (b0, b1)
    = Done (encrypt_block speck_enc_round K b0, encrypt_block speck_enc_round K b1)
  /\ SSSE3.SIMON128_Enc_Block 5 (splat K) (Z.of_nat (length K)) (b0, b1)
    = Done (encrypt_block simon_round K b0, encrypt_block simon_round K b1).
Proof.
  intros K b0 b1.
  assert (HK : Forall in64 K) by (repeat constructor; unfold W64; lia).
  assert (H0 : wf_vec b0) by (unfold b0; split; unfold in64, W64; simpl; lia).
  assert (H1 : wf_vec b1) by (unfold b1; split; unfold in64, W64; simpl; lia).
  assert (Hlen : Z.of_nat (length K) <= 2 ^ 31) by (simpl; lia).
  assert (Hfuel : (length K <= 5)%nat) by (simpl; lia).
  assert (H2 : 2 <= Z.of_nat (length K)) by (simpl; lia).
  destruct (kernels_work_block_by_block K 5 b0 b1 HK H0 H1 Hlen Hfuel)
    as (E1 & _ & _ & _ & _ & _ & E7).
  destruct (E7 H2) as [E8 _].
  split; [exact E1 | exact E8].
Defined.

(** X6.  The 6-block kernels, block by block.  With a schedule [K] of at most
    2^31 64-bit round keys, a 6-block kernel returns, in each of its six
    slots, the input block of that slot taken through the rounds of [K] (or
    through their inverses in reverse order): the same function of one block
    as in the 2-block kernels, applied six times.  For the SPECK-128 and
    SIMON-128 kernels of both instruction sets; SIMON-128 encryption needs at
    least two rounds. *)
Theorem six_block_kernels_work_block_by_block (K : list Z) (fuel : nat)
    (b0 b1 b2 b3 b4 b5 : vec) :
  Forall in64 K ->
  wf_vec b0 -> wf_vec b1 -> wf_vec b2 -> wf_vec b3 -> wf_vec b4 -> wf_vec b5 ->
  Z.of_nat (length K) <= 2 ^ 31 -> (length K <= fuel)%nat ->
  SSSE3.SPECK128_Enc_6_Blocks fuel (splat K) (Z.of_nat (length K))
       (b0, b1, b2, b3, b4, b5)
     = Done (encrypt_block speck_enc_round K b0, encrypt_block speck_enc_round K b1,
             encrypt_block speck_enc_round K b2, encrypt_block speck_enc_round K b3,
             encrypt_block speck_enc_round K b4, encrypt_block speck_enc_round K b5)
  /\ SSSE3.SPECK128_Dec_6_Blocks fuel K (Z.of_nat (length K))
       (b0, b1, b2, b3, b4, b5)
     = Done (decrypt_block speck_dec_round K b0, decrypt_block speck_dec_round K b1,
             decrypt_block speck_dec_round K b2, decrypt_block speck_dec_round K b3,
             decrypt_block speck_dec_round K b4, decrypt_block speck_dec_round K b5)
  /\ NEON.SPECK128_Enc_6_Blocks fuel K (Z.of_nat (length K))
       (b0, b1, b2, b3, b4, b5)
     = Done (encrypt_block speck_enc_round K b0, encrypt_block speck_enc_round K b1,
             encrypt_block speck_enc_round K b2, encrypt_block speck_enc_round K b3,
             encrypt_block speck_enc_round K b4, encrypt_block speck_enc_round K b5)
  /\ NEON.SPECK128_Dec_6_Blocks fuel K (Z.of_nat (length K))
       (b0, b1, b2, b3, b4, b5)
     = Done (decrypt_block speck_dec_round K b0, decrypt_block speck_dec_round K b1,
             decrypt_block speck_dec_round K b2, decrypt_block speck_dec_round K b3,
             decrypt_block speck_dec_round K b4, decrypt_block speck_dec_round K b5)
  /\ SSSE3.SIMON128_Dec_6_Blocks fuel K (Z.of_nat (length K))
       (b0, b1, b2, b3, b4, b5)
     = Done (decrypt_block simon_unround K b0, decrypt_block simon_unround K b1,
             decrypt_block simon_unround K b2, decrypt_block simon_unround K b3,
             decrypt_block simon_unround K b4, decrypt_block simon_unround K b5)
  /\ NEON.SIMON128_Dec_6_Blocks fuel K (Z.of_nat (length K))
       (b0, b1, b2, b3, b4, b5)
     = Done (decrypt_block simon_unround K b0, decrypt_block simon_unround K b1,
             decrypt_block simon_unround K b2, decrypt_block simon_unround K b3,
             decrypt_block simon_unround K b4, decrypt_block simon_unround K b5)
  /\ (2 <= Z.of_nat (length K) ->
      SSSE3.SIMON128_Enc_6_Blocks fuel (splat K) (Z.of_nat (length K))
       (b0, b1, b2, b3, b4, b5)
     = Done (encrypt_block simon_round K b0, encrypt_block simon_round K b1,
             encrypt_block simon_round K b2, encrypt_block simon_round K b3,
             encrypt_block simon_round K b4, encrypt_block simon_round K b5)
      /\ NEON.SIMON128_Enc_6_Blocks fuel K (Z.of_nat (length K))
       (b0, b1, b2, b3, b4, b5)
     = Done (encrypt_block simon_round K b0, encrypt_block simon_round K b1,
             encrypt_block simon_round K b2, encrypt_block simon_round K b3,
             encrypt_block simon_round K b4, encrypt_block simon_round K b5)).
Proof.
  intros HK H0 H1 H2' H3 H4 H5 Hlen Hfuel.
  split; [apply SSSE3_SPECK128_Enc_6_Blocks_blocks;
          solve [assumption | lia | apply half_le; assumption] |].
  split; [apply SSSE3_SPECK128_Dec_6_Blocks_blocks;
          solve [assumption | lia | apply half_le; assumption] |].
  split; [apply NEON_SPECK128_Enc_6_Blocks_blocks;
          solve [assumption | lia | apply half_le; assumption] |].
  split; [apply NEON_SPECK128_Dec_6_Blocks_blocks;
          solve [assumption | lia | apply half_le; assumption] |].
  split; [apply SSSE3_SIMON128_Dec_6_Blocks_blocks;
          solve [assumption | lia | apply half_le; assumption] |].
  split; [apply NEON_SIMON128_Dec_6_Blocks_blocks;
          solve [assumption | lia | apply half_le; assumption] |].
  intros H2.
  split; [apply SSSE3_SIMON128_Enc_6_Blocks_blocks | apply NEON_SIMON128_Enc_6_Blocks_blocks];
    solve [assumption | lia | apply half_le; assumption].
Qed.

Lemma six_block_kernels_work_block_by_block_witness :
  let K := [3; 1; 4; 1; 5] in
  let b0 := mkvec 6 7 in
  let b1 := mkvec 8 9 in
  NEON.SPECK128_Dec_6_Blocks 5 K (Z.of_nat (length K)) (b0, b1, b1, b0, b0, b0)
    = Done (decrypt_block speck_dec_round K b0, decrypt_block speck_dec_round K b1,
            decrypt_block speck_dec_round K b1, decrypt_block speck_dec_round K b0,
            decrypt_block speck_dec_round K b0, decrypt_block speck_dec_round K b0)
  /\ NEON.SIMON128_Enc_6_Blocks 5 K (Z.of_nat (length K)) (b0, b1, b1, b0, b0, b0)
    = Done (encrypt_block simon_round K b0, encrypt_block simon_round K b1,
            encrypt_block simon_round K b1, encrypt_block simon_round K b0,
            encrypt_block simon_round K b0, encrypt_block simon_round K b0).
Proof.
  intros K b0 b1.
  assert (HK : Forall in64 K) by (repeat constructor; unfold W64; lia).
  assert (H0 : wf_vec b0) by (unfold b0; split; unfold in64, W64; simpl; lia).
  assert (H1 : wf_vec b1) by (unfold b1; split; unfold in64, W64; simpl; lia).
  assert (Hlen : Z.of_nat (length K) <= 2 ^ 31) by (simpl; lia).
  assert (Hfuel : (length K <= 5)%nat) by (simpl; lia).
  assert (H2 : 2 <= Z.of_nat (length K)) by (simpl; lia).
  destruct (six_block_kernels_work_block_by_block K 5 b0 b1 b1 b0 b0 b0
              HK H0 H1 H1 H0 H0 H0 Hlen Hfuel)
    as (_ & _ & _ & E4 & _ & _ & E7).
  destruct (E7 H2) as [_ E9].
  split; [exact E4 | exact E9].
Defined.

(** X7.  Round trip of the 6-block kernels.  For every schedule [K] of 64-bit
    round keys with fewer than 2^31 rounds (at least two for SIMON-128) and
    every six 128-bit blocks, the 6-block decryption kernel run on the output
    of the 6-block encryption kernel returns the six blocks.  On the SSSE3
    kernels (pre-splatted keys to encrypt, scalar keys to decrypt) and on the
    NEON kernels. *)
Theorem six_block_roundtrip (K : list Z) (fuel : nat) (b0 b1 b2 b3 b4 b5 : vec) :
  Forall in64 K ->
  wf_vec b0 -> wf_vec b1 -> wf_vec b2 -> wf_vec b3 -> wf_vec b4 -> wf_vec b5 ->
  Z.of_nat (length K) < 2 ^ 31 -> (length K <= fuel)%nat ->
  bind (SSSE3.SPECK128_Enc_6_Blocks fuel (splat K) (Z.of_nat (length K))
          (b0, b1, b2, b3, b4, b5))
       (SSSE3.SPECK128_Dec_6_Blocks fuel K (Z.of_nat (length K)))
    = Done (b0, b1, b2, b3, b4, b5)
  /\ bind (NEON.SPECK128_Enc_6_Blocks fuel K (Z.of_nat (length K))
             (b0, b1, b2, b3, b4, b5))
          (NEON.SPECK128_Dec_6_Blocks fuel K (Z.of_nat (length K)))
    = Done (b0, b1, b2, b3, b4, b5)
  /\ (2 <= Z.of_nat (length K) ->
      bind (SSSE3.SIMON128_Enc_6_Blocks fuel (splat K) (Z.of_nat (length K))
              (b0, b1, b2, b3, b4, b5))
           (SSSE3.SIMON128_Dec_6_Blocks fuel K (Z.of_nat (length K)))
        = Done (b0, b1, b2, b3, b4, b5)
      /\ bind (NEON.SIMON128_Enc_6_Blocks fuel K (Z.of_nat (length K))
                 (b0, b1, b2, b3, b4, b5))
              (NEON.SIMON128_Dec_6_Blocks fuel K (Z.of_nat (length K)))
        = Done (b0, b1, b2, b3, b4, b5)).
Proof.
  intros HK H0 H1 H2' H3 H4 H5 Hlen Hfuel.
  pose proof (half_le _ _ Hfuel) as Hhalf.
  split.
  { apply (three_roundtrip
             (SSSE3.SPECK128_Enc_Block fuel (splat K) (Z.of_nat (length K)))
             (SSSE3.SPECK128_Dec_Block fuel K (Z.of_nat (length K)))).
    - intros. apply SSSE3_SPECK128_Enc_6_Blocks_three.
    - intros. apply SSSE3_SPECK128_Dec_6_Blocks_three.
    - apply SSSE3_SPECK128_roundtrip; solve [assumption | split; assumption].
    - apply SSSE3_SPECK128_roundtrip; solve [assumption | split; assumption].
    - apply SSSE3_SPECK128_roundtrip; solve [assumption | split; assumption]. }
  split.
  { apply (three_roundtrip
             (NEON.SPECK128_Enc_Block fuel K (Z.of_nat (length K)))
             (NEON.SPECK128_Dec_Block fuel K (Z.of_nat (length K)))).
    - intros. apply NEON_SPECK128_Enc_6_Blocks_three.
    - intros. apply NEON_SPECK128_Dec_6_Blocks_three.
    - apply NEON_SPECK128_roundtrip; solve [assumption | split; assumption].
    - apply NEON_SPECK128_roundtrip; solve [assumption | split; assumption].
    - apply NEON_SPECK128_roundtrip; solve [assumption | split; assumption]. }
  intros Htwo. split.
  { apply (three_roundtrip
             (SSSE3.SIMON128_Enc_Block fuel (splat K) (Z.of_nat (length K)))
             (SSSE3.SIMON128_Dec_Block fuel K (Z.of_nat (length K)))).
    - intros. apply SSSE3_SIMON128_Enc_6_Blocks_three.
    - intros. apply SSSE3_SIMON128_Dec_6_Blocks_three.
    - apply SSSE3_SIMON128_roundtrip; solve [assumption | split; assumption | lia].
    - apply SSSE3_SIMON128_roundtrip; solve [assumption | split; assumption | lia].
    - apply SSSE3_SIMON128_roundtrip; solve [assumption | split; assumption | lia]. }
  { apply (three_roundtrip
             (NEON.SIMON128_Enc_Block fuel K (Z.of_nat (length K)))
             (NEON.SIMON128_Dec_Block fuel K (Z.of_nat (length K)))).
    - intros. apply NEON_SIMON128_Enc_6_Blocks_three.
    - intros. apply NEON_SIMON128_Dec_6_Blocks_three.
    - apply NEON_SIMON128_roundtrip; solve [assumption | split; assumption | lia].
    - apply NEON_SIMON128_roundtrip; solve [assumption | split; assumption | lia].
    - apply NEON_SIMON128_roundtrip; solve [assumption | split; assumption | lia]. }
Qed.

Lemma six_block_roundtrip_witness :
  let K := [3; 1; 4; 1; 5] in
  let b0 := mkvec 6 7 in
  let b1 := mkvec 8 9 in
  bind (SSSE3.SPECK128_Enc_6_Blocks 5 (splat K) (Z.of_nat (length K))
          (b0, b1, b1, b0, b0, b0))
       (SSSE3.SPECK128_Dec_6_Blocks 5 K (Z.of_nat (length K)))
    = Done (b0, b1, b1, b0, b0, b0)
  /\ bind (NEON.SIMON128_Enc_6_Blocks 5 K (Z.of_nat (length K))
             (b0, b1, b1, b0, b0, b0))
          (NEON.SIMON128_Dec_6_Blocks 5 K (Z.of_nat (length K)))
    = Done (b0, b1, b1, b0, b0, b0).
Proof.
  intros K b0 b1.
  assert (HK : Forall in64 K) by (repeat constructor; unfold W64; lia).
  assert (H0 : wf_vec b0) by (unfold b0; split; unfold in64, W64; simpl; lia).
  assert (H1 : wf_vec b1) by (unfold b1; split; unfold in64, W64; simpl; lia).
  assert (Hlen : Z.of_nat (length K) < 2 ^ 31) by (simpl; lia).
  assert (Hfuel : (length K <= 5)%nat) by (simpl; lia).
  assert (H2 : 2 <= Z.of_nat (length K)) by (simpl; lia).
  destruct (six_block_roundtrip K 5 b0 b1 b1 b0 b0 b0
              HK H0 H1 H1 H0 H0 H0 Hlen Hfuel) as (E1 & _ & E3).
  destruct (E3 H2) as [_ E5].
  split; [exact E1 | exact E5].
Defined.

(** X8.  The rotations undo each other.  For every rotation amount [0 < R < 64]
    and every vector of two 64-bit lanes, [RotateRight64<R>] undoes
    [RotateLeft64<R>] and [RotateLeft64<R>] undoes [RotateRight64<R>]; this
    includes the byte-permute specializations for [R = 8], on the SSSE3 and
    on the NEON templates. *)
Theorem rotations_undo_each_other (R : Z) (v : vec) :
  0 < R < 64 -> wf_vec v ->
  SSSE3.RotateRight64 R (SSSE3.RotateLeft64 R v) = v
  /\ SSSE3.RotateLeft64 R (SSSE3.RotateRight64 R v) = v
  /\ NEON.RotateRight64 R (NEON.RotateLeft64 R v) = v
  /\ NEON.RotateLeft64 R (NEON.RotateRight64 R v) = v.
Proof.
  intros HR Hv.
  assert (Hl : wf_vec (lanewise (rotl64 R) v)) by (apply wf_rotl64; [lia | assumption]).
  assert (Hr : wf_vec (lanewise (rotr64 R) v)) by (apply wf_rotr64; [lia | assumption]).
  rewrite (SSSE3_RotateLeft64_lanes R v), (SSSE3_RotateRight64_lanes R v),
          (NEON_RotateLeft64_lanes R v), (NEON_RotateRight64_lanes R v)
    by (right; assumption).
  rewrite SSSE3_RotateRight64_lanes, SSSE3_RotateLeft64_lanes,
          NEON_RotateRight64_lanes, NEON_RotateLeft64_lanes
    by (right; assumption).
  rewrite lanewise_rotr64_rotl64, lanewise_rotl64_rotr64 by assumption.
  repeat split.
Qed.

Lemma rotations_undo_each_other_witness :
  SSSE3.RotateRight64 8 (SSSE3.RotateLeft64 8 (mkvec 6 7)) = mkvec 6 7
  /\ NEON.RotateLeft64 3 (NEON.RotateRight64 3 (mkvec 6 7)) = mkvec 6 7.
Proof.
  assert (H8 : 0 < 8 < 64) by lia.
  assert (H3 : 0 < 3 < 64) by lia.
  assert (Hv : wf_vec (mkvec 6 7)) by (split; unfold in64, W64; simpl; lia).
  destruct (rotations_undo_each_other 8 (mkvec 6 7) H8 Hv) as (E1 & _).
  destruct (rotations_undo_each_other 3 (mkvec 6 7) H3 Hv) as (_ & _ & _ & E4).
  split; [exact E1 | exact E4].
Defined.

(** X9.  The rotations move bits.  For every rotation amount [0 < R < 64] and
    every vector of two 64-bit lanes, bit [n] of a lane of [RotateLeft64<R>]
    is bit [(n - R) mod 64] of that lane of the argument, and bit [n] of a
    lane of [RotateRight64<R>] is bit [(n + R) mod 64]: no bit is lost and
    the lanes do not mix.  On the SSSE3 and on the NEON templates, the
    [R = 8] specializations included. *)
Theorem rotations_move_bits (R : Z) (v : vec) (n : Z) :
  0 < R < 64 -> wf_vec v -> 0 <= n < 64 ->
  (Z.testbit (lo (SSSE3.RotateLeft64 R v)) n = Z.testbit (lo v) ((n - R) mod 64)
   /\ Z.testbit (hi (SSSE3.RotateLeft64 R v)) n = Z.testbit (hi v) ((n - R) mod 64)
   /\ Z.testbit (lo (SSSE3.RotateRight64 R v)) n = Z.testbit (lo v) ((n + R) mod 64)
   /\ Z.testbit (hi (SSSE3.RotateRight64 R v)) n = Z.testbit (hi v) ((n + R) mod 64))
  /\ (Z.testbit (lo (NEON.RotateLeft64 R v)) n = Z.testbit (lo v) ((n - R) mod 64)
      /\ Z.testbit (hi (NEON.RotateLeft64 R v)) n = Z.testbit (hi v) ((n - R) mod 64)
      /\ Z.testbit (lo (NEON.RotateRight64 R v)) n = Z.testbit (lo v) ((n + R) mod 64)
      /\ Z.testbit (hi (NEON.RotateRight64 R v)) n = Z.testbit (hi v) ((n + R) mod 64)).
Proof.
  intros HR Hv Hn.
  rewrite (SSSE3_RotateLeft64_lanes R v), (SSSE3_RotateRight64_lanes R v),
          (NEON_RotateLeft64_lanes R v), (NEON_RotateRight64_lanes R v)
    by (right; assumption).
  destruct Hv as [Hl Hh]. unfold lanewise. cbn [lo hi].
  rewrite !rotr64_as_rotl64.
  rewrite !rotl64_bits by (assumption || lia).
  replace (n - (64 - R)) with (n + R + (-1) * 64) by lia.
  rewrite Z.mod_add by lia.
  destruct (Z.ltb_spec n 64); [| lia]. cbn [andb].
  repeat split.
Qed.

Lemma rotations_move_bits_witness :
  Z.testbit (lo (SSSE3.RotateLeft64 8 (mkvec 6 7))) 9
    = Z.testbit (lo (mkvec 6 7)) ((9 - 8) mod 64)
  /\ Z.testbit (hi (NEON.RotateRight64 8 (mkvec 6 7))) 9
    = Z.testbit (hi (mkvec 6 7)) ((9 + 8) mod 64).
Proof.
  assert (H8 : 0 < 8 < 64) by lia.
  assert (Hv : wf_vec (mkvec 6 7)) by (split; unfold in64, W64; simpl; lia).
  assert (Hn : 0 <= 9 < 64) by lia.
  destruct (rotations_move_bits 8 (mkvec 6 7) 9 H8 Hv Hn)
    as ((E1 & _) & (_ & _ & _ & E8)).
  split; [exact E1 | exact E8].
Defined.

(** X10.  The XOP build.  When [__XOP__] is defined the SSSE3 rotation templates
    and their [<8>] specializations are one [_mm_roti_epi64] instruction
    each, with counts [R] and [64 - R].  For every [0 < R < 64] and every
    vector of two 64-bit lanes they return what the shift/shift/or synthesis
    and the byte shuffles of the other build return. *)
Theorem xop_rotations_agree (R : Z) (v : vec) :
  0 < R < 64 -> wf_vec v ->
  XOP.RotateLeft64 R v = SSSE3.RotateLeft64 R v
  /\ XOP.RotateRight64 R v = SSSE3.RotateRight64 R v.
Proof.
  intros HR Hv.
  rewrite XOP_RotateLeft64_lanes, XOP_RotateRight64_lanes by assumption.
  rewrite SSSE3_RotateLeft64_lanes, SSSE3_RotateRight64_lanes by (right; assumption).
  split; reflexivity.
Qed.

Lemma xop_rotations_agree_witness :
  XOP.RotateLeft64 8 (mkvec 6 7) = SSSE3.RotateLeft64 8 (mkvec 6 7)
  /\ XOP.RotateRight64 3 (mkvec 6 7) = SSSE3.RotateRight64 3 (mkvec 6 7).
Proof.
  assert (H8 : 0 < 8 < 64) by lia.
  assert (H3 : 0 < 3 < 64) by lia.
  assert (Hv : wf_vec (mkvec 6 7)) by (split; unfold in64, W64; simpl; lia).
  destruct (xop_rotations_agree 8 (mkvec 6 7) H8 Hv) as [E1 _].
  destruct (xop_rotations_agree 3 (mkvec 6 7) H3 Hv) as [_ E2].
  split; [exact E1 | exact E2].
Defined.

(** X11.  Zero rounds.  Run for [rounds = 0], the SPECK-128 kernels and the
    SIMON-128 decryption kernels return their input blocks unchanged: they
    read no round key, so any array will do, also an empty one, and they
    take no loop iteration.  (The SIMON-128 encryption kernels differ: their
    loop bound wraps.)  For the 2-block and the 6-block kernels of both
    instruction sets. *)
Theorem zero_rounds_return_the_input (fuel : nat) (A : list Z)
    (b0 b1 b2 b3 b4 b5 : vec) :
  (SSSE3.SPECK128_Enc_Block fuel A 0 (b0, b1) = Done (b0, b1)
   /\ SSSE3.SPECK128_Dec_Block fuel A 0 (b0, b1) = Done (b0, b1)
   /\ SSSE3.SIMON128_Dec_Block fuel A 0 (b0, b1) = Done (b0, b1)
   /\ NEON.SPECK128_Enc_Block fuel A 0 (b0, b1) = Done (b0, b1)
   /\ NEON.SPECK128_Dec_Block fuel A 0 (b0, b1) = Done (b0, b1)
   /\ NEON.SIMON128_Dec_Block fuel A 0 (b0, b1) = Done (b0, b1))
  /\ (SSSE3.SPECK128_Enc_6_Blocks fuel A 0 (b0, b1, b2, b3, b4, b5)
        = Done (b0, b1, b2, b3, b4, b5)
      /\ SSSE3.SPECK128_Dec_6_Blocks fuel A 0 (b0, b1, b2, b3, b4, b5)
        = Done (b0, b1, b2, b3, b4, b5)
      /\ SSSE3.SIMON128_Dec_6_Blocks fuel A 0 (b0, b1, b2, b3, b4, b5)
        = Done (b0, b1, b2, b3, b4, b5)
      /\ NEON.SPECK128_Enc_6_Blocks fuel A 0 (b0, b1, b2, b3, b4, b5)
        = Done (b0, b1, b2, b3, b4, b5)
      /\ NEON.SPECK128_Dec_6_Blocks fuel A 0 (b0, b1, b2, b3, b4, b5)
        = Done (b0, b1, b2, b3, b4, b5)
      /\ NEON.SIMON128_Dec_6_Blocks fuel A 0 (b0, b1, b2, b3, b4, b5)
        = Done (b0, b1, b2, b3, b4, b5)).
Proof.
  destruct b0, b1, b2, b3, b4, b5.
  split; repeat split; destruct fuel; reflexivity.
Qed.

(** X12.  Round counts beyond the [int] range.  The decryption loops count down
    from [static_cast<int>(rounds - 1)] (SPECK-128) and
    [static_cast<int>(rounds - 2)] (SIMON-128).  For [2^31 < rounds < 2^32]
    that start is negative: the SPECK-128 decryption kernels, and the
    SIMON-128 ones for an even [rounds], take no iteration, read no round key
    and return their input blocks unchanged. *)
Theorem decryption_skips_rounds_beyond_int (fuel : nat) (A : list Z) (rounds : Z)
    (blocks : vec * vec) :
  2 ^ 31 < rounds < 2 ^ 32 ->
  SSSE3.SPECK128_Dec_Block fuel A rounds blocks = Done blocks
  /\ NEON.SPECK128_Dec_Block fuel A rounds blocks = Done blocks
  /\ (Z.land rounds 1 = 0 ->
      SSSE3.SIMON128_Dec_Block fuel A rounds blocks = Done blocks
      /\ NEON.SIMON128_Dec_Block fuel A rounds blocks = Done blocks).
Proof.
  intros Hr. destruct blocks as [[l0 h0] [l1 h1]].
  assert (N1 : to_int (uint (rounds - 1)) < 0).
  { rewrite uint_small by (unfold W32; lia). unfold to_int, W32.
    destruct (Z.ltb_spec (rounds - 1) (2 ^ 31)); lia. }
  split; [| split].
  - unfold SSSE3.SPECK128_Dec_Block. rewrite for_down_negative by exact N1.
    reflexivity.
  - unfold NEON.SPECK128_Dec_Block. rewrite for_down_negative by exact N1.
    reflexivity.
  - intros Heven.
    assert (N2 : to_int (uint (rounds - 2)) < 0).
    { rewrite land_1_mod in Heven.
      rewrite uint_small by (unfold W32; lia). unfold to_int, W32.
      destruct (Z.ltb_spec (rounds - 2) (2 ^ 31)); [| lia].
      Z.div_mod_to_equations. lia. }
    split.
    + unfold SSSE3.SIMON128_Dec_Block, SSSE3.SIMON128_Dec_head.
      rewrite Heven. cbn [Z.eqb bind].
      rewrite for_down_negative by exact N2. reflexivity.
    + unfold NEON.SIMON128_Dec_Block, NEON.SIMON128_Dec_head.
      rewrite Heven. cbn [Z.eqb bind].
      rewrite for_down_negative by exact N2. reflexivity.
Qed.

Lemma decryption_skips_rounds_beyond_int_witness :
  let blocks := (mkvec 6 7, mkvec 8 9) in
  SSSE3.SPECK128_Dec_Block 0 [] (2 ^ 31 + 2) blocks = Done blocks
  /\ NEON.SIMON128_Dec_Block 0 [] (2 ^ 31 + 2) blocks = Done blocks.
Proof.
  intros blocks.
  assert (Hr : 2 ^ 31 < 2 ^ 31 + 2 < 2 ^ 32) by lia.
  assert (He : Z.land (2 ^ 31 + 2) 1 = 0) by reflexivity.
  destruct (decryption_skips_rounds_beyond_int 0 [] (2 ^ 31 + 2) blocks Hr)
    as (E1 & _ & E3).
  destruct (E3 He) as [_ E5].
  split; [exact E1 | exact E5].
Defined.

(** X13.  Loop iterations.  The SPECK-128 kernels take one loop iteration per
    round and the SIMON-128 kernels one per pair of rounds: with fuel for
    fewer than [rounds] iterations (fewer than [rounds / 2] for SIMON-128) a
    kernel has not returned, whatever the round-key array and the blocks.
    For [1 <= rounds <= 2^31], on both instruction sets. *)
Theorem kernels_take_their_iterations (fuel : nat) (A : list Z) (rounds : Z)
    (blocks r : vec * vec) :
  1 <= rounds <= 2 ^ 31 ->
  (Z.of_nat fuel < rounds ->
     SSSE3.SPECK128_Enc_Block fuel A rounds blocks <> Done r
     /\ SSSE3.SPECK128_Dec_Block fuel A rounds blocks <> Done r
     /\ NEON.SPECK128_Enc_Block fuel A rounds blocks <> Done r
     /\ NEON.SPECK128_Dec_Block fuel A rounds blocks <> Done r)
  /\ (Z.of_nat fuel < rounds / 2 ->
      SSSE3.SIMON128_Enc_Block fuel A rounds blocks <> Done r
      /\ SSSE3.SIMON128_Dec_Block fuel A rounds blocks <> Done r
      /\ NEON.SIMON128_Enc_Block fuel A rounds blocks <> Done r
      /\ NEON.SIMON128_Dec_Block fuel A rounds blocks <> Done r).
Proof.
  intros Hr. destruct blocks as [b0 b1]. split.
  - intros Hf.
    assert (Eup : forall body : Z -> vec * vec -> outcome (vec * vec),
              forall s a, for_up fuel 0 (size_t rounds) 1 body s <> Done a).
    { intros body s a. rewrite size_t_small by (unfold W64; lia).
      apply for_up_needs_fuel; unfold W64; lia. }
    assert (Edown : forall body : Z -> vec * vec -> outcome (vec * vec),
              forall s a, for_down fuel (to_int (uint (rounds - 1))) 1 body s <> Done a).
    { intros body s a. rewrite to_int_pred by lia.
      apply for_down_needs_fuel; lia. }
    split; [| split; [| split]].
    + unfold SSSE3.SPECK128_Enc_Block. apply bind_stuck. intros a. apply Eup.
    + unfold SSSE3.SPECK128_Dec_Block. apply bind_stuck. intros a. apply Edown.
    + unfold NEON.SPECK128_Enc_Block. apply bind_stuck. intros a. apply Eup.
    + unfold NEON.SPECK128_Dec_Block. apply bind_stuck. intros a. apply Edown.
  - intros Hf.
    assert (H2 : 2 <= rounds) by (Z.div_mod_to_equations; lia).
    destruct (SIMON128_Enc_bound_small rounds) as [E1 E2]; [unfold W32; lia |].
    assert (Eup : forall body : Z -> vec * vec -> outcome (vec * vec),
              forall s a, for_up fuel 0 (2 * (rounds / 2) - 1) 2 body s <> Done a).
    { intros body s a.
      apply for_up_needs_fuel; unfold W64; Z.div_mod_to_equations; lia. }
    assert (Edown : forall (body : Z -> vec * vec -> outcome (vec * vec)) q,
              q = rounds \/ (q = rounds - 1 /\ rounds mod 2 <> 0) ->
              forall s a, for_down fuel (to_int (uint (q - 2))) 2 body s <> Done a).
    { intros body q Hq s a. rewrite to_int_pred2 by lia.
      apply for_down_needs_fuel; [lia |].
      destruct Hq as [-> | [-> Ho]]; Z.div_mod_to_equations; lia. }
    split; [| split; [| split]].
    + unfold SSSE3.SIMON128_Enc_Block. rewrite E1.
      apply bind_stuck. intros a. apply Eup.
    + unfold SSSE3.SIMON128_Dec_Block, SSSE3.SIMON128_Dec_head.
      rewrite land_1_mod.
      destruct (Z.eqb_spec (rounds mod 2) 0) as [He | Ho]; cbn [bind].
      * apply bind_stuck. intros a. apply Edown. left. reflexivity.
      * destruct (SSSE3._mm_loaddup_pd A (rounds - 1)); cbn [bind SSSE3.Swap128 fst snd];
          try discriminate.
        apply bind_stuck. intros a'. rewrite (uint_small (rounds - 1)) by (unfold W32; lia).
        apply Edown. right. split; [reflexivity | exact Ho].
    + unfold NEON.SIMON128_Enc_Block. rewrite E2.
      apply bind_stuck. intros a. apply Eup.
    + unfold NEON.SIMON128_Dec_Block, NEON.SIMON128_Dec_head.
      rewrite land_1_mod.
      destruct (Z.eqb_spec (rounds mod 2) 0) as [He | Ho]; cbn [bind NEON.swap fst snd].
      * apply bind_stuck. intros a. apply Edown. left. reflexivity.
      * destruct (NEON.vld1q_dup_u64 A (rounds - 1)); cbn [bind];
          try discriminate.
        apply bind_stuck. intros a'. rewrite (uint_small (rounds - 1)) by (unfold W32; lia).
        apply Edown. right. split; [reflexivity | exact Ho].
Qed.

Lemma kernels_take_their_iterations_witness :
  let A := [3; 1; 4; 1; 5] in
  let blocks := (mkvec 6 7, mkvec 8 9) in
  SSSE3.SPECK128_Dec_Block 4 A 5 blocks <> Done blocks
  /\ NEON.SIMON128_Dec_Block 1 A 5 blocks <> Done blocks.
Proof.
  intros A blocks.
  assert (Hr : 1 <= 5 <= 2 ^ 31) by lia.
  assert (H4 : Z.of_nat 4 < 5) by lia.
  assert (H1 : Z.of_nat 1 < 5 / 2) by reflexivity.
  destruct (kernels_take_their_iterations 4 A 5 blocks blocks Hr) as [P _].
  destruct (kernels_take_their_iterations 1 A 5 blocks blocks Hr) as [_ Q].
  destruct (P H4) as (_ & E2 & _).
  destruct (Q H1) as (_ & _ & _ & E4).
  split; [exact E2 | exact E4].
Defined.

(** X14.  The data do not steer the kernels.  Whether a kernel returns, reads
    outside the round-key array, or is still running when the fuel is spent
    depends on the round-key array, the round count and the fuel only: two
    runs on different blocks end in the same way.  For the 2-block kernels of
    both ciphers and both instruction sets, on every input. *)
Theorem data_do_not_steer_the_kernels (fuel : nat) (A : list Z) (rounds : Z)
    (b b' : vec * vec) :
  (same_shape (SSSE3.SPECK128_Enc_Block fuel A rounds b)
              (SSSE3.SPECK128_Enc_Block fuel A rounds b')
   /\ same_shape (SSSE3.SPECK128_Dec_Block fuel A rounds b)
                 (SSSE3.SPECK128_Dec_Block fuel A rounds b')
   /\ same_shape (SSSE3.SIMON128_Enc_Block fuel A rounds b)
                 (SSSE3.SIMON128_Enc_Block fuel A rounds b')
   /\ same_shape (SSSE3.SIMON128_Dec_Block fuel A rounds b)
                 (SSSE3.SIMON128_Dec_Block fuel A rounds b'))
  /\ (same_shape (NEON.SPECK128_Enc_Block fuel A rounds b)
                 (NEON.SPECK128_Enc_Block fuel A rounds b')
      /\ same_shape (NEON.SPECK128_Dec_Block fuel A rounds b)
                    (NEON.SPECK128_Dec_Block fuel A rounds b')
      /\ same_shape (NEON.SIMON128_Enc_Block fuel A rounds b)
                    (NEON.SIMON128_Enc_Block fuel A rounds b')
      /\ same_shape (NEON.SIMON128_Dec_Block fuel A rounds b)
                    (NEON.SIMON128_Dec_Block fuel A rounds b')).
Proof.
  destruct b as [b0 b1], b' as [c0 c1].
  assert (Fin : forall x x' : vec * vec,
            same_shape (let '(x1, y1) := x in
                        Done (SSSE3._mm_unpacklo_epi64 y1 x1,
                              SSSE3._mm_unpackhi_epi64 y1 x1))
                       (let '(x1, y1) := x' in
                        Done (SSSE3._mm_unpacklo_epi64 y1 x1,
                              SSSE3._mm_unpackhi_epi64 y1 x1)))
    by (intros [? ?] [? ?]; exact I).
  split; [split; [| split; [| split]] | split; [| split; [| split]]].
  - unfold SSSE3.SPECK128_Enc_Block. apply same_shape_bind; [| exact Fin].
    apply for_up_same_shape. apply SSSE3_SPECK128_Enc_round_uniform.
  - unfold SSSE3.SPECK128_Dec_Block. apply same_shape_bind; [| exact Fin].
    apply for_down_same_shape. apply SSSE3_SPECK128_Dec_round_uniform.
  - unfold SSSE3.SIMON128_Enc_Block. apply same_shape_bind.
    + apply for_up_same_shape. apply SSSE3_SIMON128_Enc_round2_uniform.
    + intros s s'. apply same_shape_bind; [| exact Fin].
      apply SSSE3_SIMON128_Enc_tail_uniform.
  - unfold SSSE3.SIMON128_Dec_Block, SSSE3.SIMON128_Dec_head.
    destruct (Z.land rounds 1 =? 0); cbn [bind].
    + apply same_shape_bind; [| exact Fin].
      apply for_down_same_shape. apply SSSE3_SIMON128_Dec_round2_uniform.
    + destruct (SSSE3._mm_loaddup_pd A (rounds - 1));
        cbn [bind SSSE3.Swap128 fst snd same_shape]; try exact I.
      apply same_shape_bind; [| exact Fin].
      apply for_down_same_shape. apply SSSE3_SIMON128_Dec_round2_uniform.
  - unfold NEON.SPECK128_Enc_Block. apply same_shape_bind; [| exact Fin].
    apply for_up_same_shape. apply NEON_SPECK128_Enc_round_uniform.
  - unfold NEON.SPECK128_Dec_Block. apply same_shape_bind; [| exact Fin].
    apply for_down_same_shape. apply NEON_SPECK128_Dec_round_uniform.
  - unfold NEON.SIMON128_Enc_Block. apply same_shape_bind.
    + apply for_up_same_shape. apply NEON_SIMON128_Enc_round2_uniform.
    + intros s s'. apply same_shape_bind; [| exact Fin].
      apply NEON_SIMON128_Enc_tail_uniform.
  - unfold NEON.SIMON128_Dec_Block, NEON.SIMON128_Dec_head.
    destruct (Z.land rounds 1 =? 0); cbn [bind NEON.swap fst snd].
    + apply same_shape_bind; [| exact Fin].
      apply for_down_same_shape. apply NEON_SIMON128_Dec_round2_uniform.
    + destruct (NEON.vld1q_dup_u64 A (rounds - 1));
        cbn [bind same_shape]; try exact I.
      apply same_shape_bind; [| exact Fin].
      apply for_down_same_shape. apply NEON_SIMON128_Dec_round2_uniform.
Qed.

(** X15.  The SIMON-128 round.  On each 64-bit lane [SIMON128_f] computes
    [rotl(x, 2) xor (rotl(x, 1) and rotl(x, 8))].  One iteration of the
    encryption loop, at an even index [i], is two Feistel rounds
    [(x, y) -> (y xor f(x) xor k, x)] with the round keys [k[i]] and then
    [k[i+1]], written without the exchange of the halves; one iteration of
    the decryption loop undoes them, [k[i+1]] first.  On the SSSE3 kernels
    (pre-splatted keys to encrypt) and on the NEON kernels. *)
Theorem simon_round_function (K : list Z) (i : nat) (k1 k2 : Z) (v : vec)
    (s : vec * vec) :
  nth_error K (2 * i) = Some k1 -> nth_error K (2 * i + 1) = Some k2 ->
  Forall in64 K -> Z.of_nat (length K) < 2 ^ 32 -> wf_vec v -> wf_pair s ->
  (SSSE3.SIMON128_f v = lanewise simon_f v
   /\ NEON.SIMON128_f v = lanewise simon_f v)
  /\ (SSSE3.SIMON128_Enc_round2 (splat K) (2 * Z.of_nat i) s
        = Done (on_lanes (simon_round k2) (on_lanes (simon_round k1) s))
      /\ NEON.SIMON128_Enc_round2 K (2 * Z.of_nat i) s
        = Done (on_lanes (simon_round k2) (on_lanes (simon_round k1) s)))
  /\ (SSSE3.SIMON128_Dec_round2 K (2 * Z.of_nat i) s
        = Done (on_lanes (simon_unround k1) (on_lanes (simon_unround k2) s))
      /\ NEON.SIMON128_Dec_round2 K (2 * Z.of_nat i) s
        = Done (on_lanes (simon_unround k1) (on_lanes (simon_unround k2) s))).
Proof.
  intros H1 H2 HK Hlen Hv Hs.
  assert (I1 : in64 k1) by (eapply Forall_nth_error; eassumption).
  assert (I2 : in64 k2) by (eapply Forall_nth_error; eassumption).
  assert (J : (2 * i + 1 < length K)%nat) by (apply nth_error_Some; congruence).
  split; [split; [apply SSSE3_SIMON128_f_lanes | apply NEON_SIMON128_f_lanes];
          assumption |].
  split; [split |].
  - apply SSSE3_SIMON128_Enc_round2_lanes; try assumption. unfold W64. lia.
  - apply NEON_SIMON128_Enc_round2_lanes; assumption.
  - split; [apply SSSE3_SIMON128_Dec_round2_lanes
           | apply NEON_SIMON128_Dec_round2_lanes]; assumption.
Qed.

Lemma simon_round_function_witness :
  let K := [3; 1; 4; 1; 5] in
  let s := (mkvec 6 7, mkvec 8 9) in
  SSSE3.SIMON128_f (mkvec 6 7) = lanewise simon_f (mkvec 6 7)
  /\ NEON.SIMON128_Dec_round2 K (2 * Z.of_nat 1) s
    = Done (on_lanes (simon_unround 4) (on_lanes (simon_unround 1) s)).
Proof.
  intros K s.
  assert (H1 : nth_error K (2 * 1) = Some 4) by reflexivity.
  assert (H2 : nth_error K (2 * 1 + 1) = Some 1) by reflexivity.
  assert (HK : Forall in64 K) by (repeat constructor; unfold W64; lia).
  assert (Hlen : Z.of_nat (length K) < 2 ^ 32) by (simpl; lia).
  assert (Hv : wf_vec (mkvec 6 7)) by (split; unfold in64, W64; simpl; lia).
  assert (Hs : wf_pair s) by (repeat split; simpl; unfold W64; lia).
  destruct (simon_round_function K 1 4 1 (mkvec 6 7) s H1 H2 HK Hlen Hv Hs)
    as ((E1 & _) & _ & (_ & E6)).
  split; [exact E1 | exact E6].
Defined.

(** X16.  Enough round keys, enough iterations: the kernel returns.  Given an
    array of at least [rounds] round keys and a budget of [rounds] loop
    iterations, a 2-block kernel that loads its round keys one word at a
    time ([vld1q_dup_u64] in the NEON kernels, [_mm_loaddup_pd] in the SSSE3
    decryption kernels) returns, whatever the blocks and the words of the
    array: it reads inside the array only and its loop ends.  For every
    [rounds < 2^32]; the SIMON-128 encryption kernel needs at least two
    rounds.  The SSSE3 encryption kernels are not among them: their
    [_mm_load_si128] also wants the round key at an address that is a
    multiple of 16, and an array of words says nothing of its address. *)
Theorem word_loading_kernels_return_with_enough_keys (fuel : nat) (A : list Z)
    (rounds : Z) (blocks : vec * vec) :
  0 <= rounds < 2 ^ 32 -> rounds <= Z.of_nat fuel ->
  rounds <= Z.of_nat (length A) ->
  (exists r, NEON.SPECK128_Enc_Block fuel A rounds blocks = Done r)
  /\ (exists r, NEON.SPECK128_Dec_Block fuel A rounds blocks = Done r)
  /\ (exists r, SSSE3.SPECK128_Dec_Block fuel A rounds blocks = Done r)
  /\ (exists r, NEON.SIMON128_Dec_Block fuel A rounds blocks = Done r)
  /\ (exists r, SSSE3.SIMON128_Dec_Block fuel A rounds blocks = Done r)
  /\ (2 <= rounds ->
      exists r, NEON.SIMON128_Enc_Block fuel A rounds blocks = Done r).
Proof.
  intros Hr Hf Hlen. change (2 ^ 32) with W32 in Hr.
  assert (Hh : rounds / 2 <= Z.of_nat fuel) by (Z.div_mod_to_equations; lia).
  split; [apply NEON_SPECK128_Enc_Block_returns; assumption |].
  split; [apply NEON_SPECK128_Dec_Block_returns; assumption |].
  split; [apply SSSE3_SPECK128_Dec_Block_returns; assumption |].
  split; [apply NEON_SIMON128_Dec_Block_returns; assumption |].
  split; [apply SSSE3_SIMON128_Dec_Block_returns; assumption |].
  intros H2. apply NEON_SIMON128_Enc_Block_returns; assumption || lia.
Qed.

Lemma word_loading_kernels_return_with_enough_keys_witness :
  let A := [3; 1; 4; 1; 5] in
  let blocks := (mkvec 6 7, mkvec 8 9) in
  (exists r, NEON.SIMON128_Enc_Block 5 A 5 blocks = Done r)
  /\ (exists r, SSSE3.SIMON128_Dec_Block 5 A 5 blocks = Done r).
Proof.
  intros A blocks.
  assert (Hr : 0 <= 5 < 2 ^ 32) by lia.
  assert (Hf : 5 <= Z.of_nat 5) by lia.
  assert (H1 : 5 <= Z.of_nat (length A)) by (simpl; lia).
  assert (H3 : 2 <= 5) by lia.
  destruct (word_loading_kernels_return_with_enough_keys 5 A 5 blocks Hr Hf H1)
    as (_ & _ & _ & _ & P5 & P6).
  split; [exact (P6 H3) | exact P5].
Defined.
